(** * elf2dos: the ELF to LE converter and the LE serializer

    A shallow embedding of the relocation translator ([elf.go]) and of the LE
    writer ([module/write.go]), with the properties of the specification that
    concern them.

    Go's fixed-width integers are integers of [Z] with the wrap-around written
    out ([u32], [i32], ...); a byte is a [Z] in [0, 256); slices are lists.
    A run-time panic of Go (index or slice bounds out of range) is the [None]
    of an [option], or the [Panic] of a [result] where the code also returns
    errors. *)

From Stdlib Require Import ZArith List Lia Bool.
From stdpp Require Import base option list strings.

Local Open Scope Z_scope.

(** ** Machine integers *)

Definition u8 (z : Z) : Z := z mod 2 ^ 8.
Definition u16 (z : Z) : Z := z mod 2 ^ 16.
Definition u32 (z : Z) : Z := z mod 2 ^ 32.
Definition i16 (z : Z) : Z := (z + 2 ^ 15) mod 2 ^ 16 - 2 ^ 15.
Definition i32 (z : Z) : Z := (z + 2 ^ 31) mod 2 ^ 32 - 2 ^ 31.

Definition is_u32 (z : Z) : Prop := 0 <= z < 2 ^ 32.
Definition is_i32 (z : Z) : Prop := - 2 ^ 31 <= z < 2 ^ 31.

(** ** Slices

    [at_ l i] is [l[i]], [set_at l i x] is [l[i] = x], [slice l lo hi] is
    [l[lo:hi]] for a slice whose capacity is its length, [slice_from l lo] is
    [l[lo:]]; each is [None] where Go panics. *)

Definition at_ {A} (l : list A) (i : Z) : option A :=
  if bool_decide (0 <= i) then l !! Z.to_nat i else None.

Definition set_at {A} (l : list A) (i : Z) (x : A) : option (list A) :=
  if bool_decide (0 <= i < Z.of_nat (length l))
  then Some (<[Z.to_nat i := x]> l) else None.

Definition slice {A} (l : list A) (lo hi : Z) : option (list A) :=
  if bool_decide (0 <= lo <= hi /\ hi <= Z.of_nat (length l))
  then Some (take (Z.to_nat (hi - lo)) (drop (Z.to_nat lo) l)) else None.

Definition slice_from {A} (l : list A) (lo : Z) : option (list A) :=
  if bool_decide (0 <= lo <= Z.of_nat (length l))
  then Some (drop (Z.to_nat lo) l) else None.

(** ** encoding/binary, little endian

    [put b off bs] overwrites [b] from index [off] with the bytes [bs]; the
    callers only write inside fixed-size arrays. *)

Definition le16 (v : Z) : list Z := [u8 v; u8 (Z.shiftr v 8)].
Definition le32 (v : Z) : list Z :=
  [u8 v; u8 (Z.shiftr v 8); u8 (Z.shiftr v 16); u8 (Z.shiftr v 24)].

Definition put (b : list Z) (off : nat) (bs : list Z) : list Z :=
  take off b ++ bs ++ drop (off + length bs)%nat b.

Definition PutUint16 (b : list Z) (off : nat) (v : Z) : list Z := put b off (le16 v).
Definition PutUint32 (b : list Z) (off : nat) (v : Z) : list Z := put b off (le32 v).

(** [binary.LittleEndian.Uint16(b)] and [Uint32(b)]: panic on a short slice. *)
Definition Uint16 (b : list Z) : option Z :=
  match b with
  | b0 :: b1 :: _ => Some (Z.lor b0 (Z.shiftl b1 8))
  | _ => None
  end.

Definition Uint32 (b : list Z) : option Z :=
  match b with
  | b0 :: b1 :: b2 :: b3 :: _ =>
      Some (Z.lor (Z.lor (Z.lor b0 (Z.shiftl b1 8)) (Z.shiftl b2 16)) (Z.shiftl b3 24))
  | _ => None
  end.

(** [for off := int32(start); off < bound; off += step] visits these values
    of [off], in this order ([fuel] bounds the number of iterations). *)
Fixpoint for_off (fuel : nat) (off bound step : Z) : list Z :=
  match fuel with
  | O => []
  | S k => if off <? bound then off :: for_off k (i32 (off + step)) bound step else []
  end.

(** ** Errors and results

    An error of the converter is its kind with the values its message
    prints; [Wrapped] is [wrappedError], whose location string is the list of
    the locations put in front of it, outermost first. *)

Inductive location :=
| LocSegment (i : Z)                       (* "segment %d" *)
| LocSection (i : Z) (name : string)       (* "section %d %q" *)
| LocRelocation (off : Z).                 (* "relocation at 0x%x" *)

Inductive error :=
| ErrLibrary                               (* an error returned by debug/elf *)
| ErrNotReadable                           (* segment is loadable but not readable *)
| ErrUnknownFlags (flags : Z)              (* segment has unknown flags *)
| ErrReadSegment                           (* could not read segment *)
| ErrSegmentType (t : Z)                   (* segment has type ..., unsupported *)
| ErrSymbolSection (section : Z)           (* symbol has invalid section *)
| ErrSymbolBounds (rsym : Z)               (* symbol reference out of bounds *)
| ErrUnresolved (name : string) (rsym : Z) (* unresolved symbol *)
| ErrRelocType (rtype : Z)                 (* unsupported relocation type *)
| ErrRelLength                             (* REL section length not a multiple of 8 *)
| ErrRelSectionType (t : Z)                (* unsupported relocation section type *)
| ErrRelInfo                               (* relocation section refers to invalid section *)
| ErrClass (c : Z)
| ErrData (d : Z)
| ErrType (t : Z)
| ErrMachine (m : Z)
| ErrEntry (entry : Z)                     (* could not resolve entry point *)
| ErrNoStackEnd                            (* could not find _stack_end *)
| Wrapped (locs : list location) (inner : error).

Definition wrapError (e : error) (loc : location) : error :=
  match e with
  | Wrapped locs inner => Wrapped (loc :: locs) inner
  | _ => Wrapped [loc] e
  end.

Definition wrapErrorSection (e : error) (i : Z) (name : string) : error :=
  wrapError e (LocSection i name).

Definition wrapErrorSegment (e : error) (i : Z) : error := wrapError e (LocSegment i).

(** The outcome of a function that returns an error: its value, the error,
    or a run-time panic. *)
Inductive result (A : Type) :=
| Ok (a : A)
| Err (e : error)
| Panic.

Arguments Ok {A} a.
Arguments Err {A} e.
Arguments Panic {A}.

Definition bind {A B} (r : result A) (k : A -> result B) : result B :=
  match r with
  | Ok a => k a
  | Err e => Err e
  | Panic => Panic
  end.

(** A panic where a slice access is out of range. *)
Definition must {A} (o : option A) : result A :=
  match o with
  | Some a => Ok a
  | None => Panic
  end.

(** * debug/elf: what the converter gets from the ELF file *)

Module debug_elf.

(** Modelled from the spec: the constants of Go's debug/elf, which is not
    part of this repository. The spec names them ([R_386_32 (1)],
    [R_386_PC32 (2)], [SHN_ABS], [SHT_REL], [PT_LOAD], ...); the values are
    those of the ELF format. *)
Definition ELFCLASS32 : Z := 1.
Definition ELFDATA2LSB : Z := 1.
Definition ET_EXEC : Z := 2.
Definition EM_386 : Z := 3.
Definition PT_NULL : Z := 0.
Definition PT_LOAD : Z := 1.
Definition PT_NOTE : Z := 4.
Definition PF_X : Z := 1.
Definition PF_W : Z := 2.
Definition PF_R : Z := 4.
Definition SHT_RELA : Z := 4.
Definition SHT_REL : Z := 9.
Definition SHN_ABS : Z := 0xfff1.
Definition R_386_32 : Z := 1.
Definition R_386_PC32 : Z := 2.

(** [elf.Prog]: the header fields the converter reads, and what
    [p.ReadAt(data, 0)] delivers for a buffer of [Filesz] bytes: the bytes,
    or [None] for an error. *)
Record Prog := {
  p_Type : Z;
  p_Flags : Z;
  p_Vaddr : Z;
  p_Filesz : Z;
  p_Memsz : Z;
  p_ReadAt : option (list Z)
}.

(** [elf.Section]: [s_Data] is the result of [s.Data()]. *)
Record Section := {
  s_Name : string;
  s_Type : Z;
  s_Addr : Z;
  s_Info : Z;
  s_Data : option (list Z)
}.

(** [elf.Symbol]; [Section] is of type [elf.SectionIndex], an [int]. *)
Record Symbol := { Name : string; Value : Z; Section_ : Z }.

(** [elf.Rel32] *)
Record Rel32 := { r_Off : Z; r_Info : Z }.

(** [elf.File], once opened; [Symbols] is the result of [f.Symbols()]. *)
Record File := {
  Class : Z;
  Data_ : Z;
  Type_ : Z;
  Machine : Z;
  Entry_ : Z;
  Progs : list Prog;
  Sections : list Section;
  Symbols : option (list Symbol)
}.

(** [binary.Read(r, binary.LittleEndian, &rel)] on the first eight bytes. *)
Definition read_Rel32 (data : list Z) : Rel32 :=
  {| r_Off := default 0 (Uint32 data); r_Info := default 0 (Uint32 (drop 4 data)) |}.

End debug_elf.

(** * Package module: the LE model and its writer *)

Module module.

(** ** module.go *)

Definition ObjR : Z := 0x0001.
Definition ObjW : Z := 0x0002.
Definition ObjX : Z := 0x0004.
Definition Obj32Bit : Z := 0x2000.

Definition SrcOffset32 : Z := 0x07.
Definition SrcRelative32 : Z := 0x08.

Record Ref := { Obj : Z; Off : Z }.

Record Fixup := { SrcType : Z; Src : Z; Target : Ref; Add : Z }.

(** The [Object] and [Program] that write.go works on: the fields [Flags],
    [Size], [Addr], [Data], [Fixups] and [Entry], [Stack], [Objects]. *)
Record Object := {
  Flags : Z;
  Size : Z;
  Addr : Z;
  Data : list Z;
  Fixups : list Fixup
}.

Record Program := { Entry : Ref; Stack : Ref; Objects : list Object }.

(** ** write.go *)

Definition pageBits : Z := 12.
Definition pageSize : Z := 4096.

Definition pagecount (size : Z) : Z := Z.shiftr (u32 (size + pageSize - 1)) pageBits.

(** *** objdata *)

Record objdata := { object : list Z; page : list Z }.

Definition objdata_write (d : objdata) (obj : Object) (fixup : list Z) (first count : Z)
  : objdata :=
  let od := repeat 0 (4 * 6) in
  let od := PutUint32 od 0 (Size obj) in
  let od := PutUint32 od 4 (Addr obj) in
  let od := PutUint32 od 8 (u32 (Flags obj)) in
  let '(od, pg) :=
    if negb (Z.of_nat (length fixup) =? 0) then
      let od := PutUint32 od 12 (u32 (u32 (Z.of_nat (length (page d)) / 4) + 1)) in
      let od := PutUint32 od 16 (u32 (Z.of_nat (length fixup))) in
      (od, fold_left (fun pg idx => pg ++ [0; u8 (Z.shiftr idx 8); u8 (Z.land idx 0xff); 0])
                     fixup (page d))
    else (od, page d) in
  {| object := object d ++ od; page := pg |}.

(** *** Fixup records *)

Definition appendFixup (f : Fixup) (data : list Z) : list Z :=
  let d := repeat 0 9 in
  let d := <[0%nat := u8 (SrcType f)]> d in
  let flags := 0 in
  let d := PutUint16 d 2 (u16 (Src f)) in
  let d := <[4%nat := u8 (Obj (Target f))]> d in
  let n := 5%nat in
  let '(flags, d, n) :=
    if 0x7fff <? Off (Target f)
    then (Z.lor flags 0x10, PutUint32 d n (u32 (Off (Target f))), (n + 4)%nat)
    else (flags, PutUint16 d n (u16 (Off (Target f))), (n + 2)%nat) in
  let d := <[1%nat := flags]> d in
  data ++ take n d.

(** *** fixupdata *)

Record fixupdata := { pages : list Z; records : list Z }.

(** The first loop of [write]: the largest [f.Src + 3], from -1. *)
Definition maxOff_step (maxOff : Z) (f : Fixup) : Z :=
  let off := i32 (Src f + 3) in
  if maxOff <? off then off else maxOff.

Definition maxOff_of (fixups : list Fixup) : Z := fold_left maxOff_step fixups (-1).

(** [for off := int32(0); off < 3; off += 3] of the counting pass and
    [for off := int32(0); off < 4; off += 4] of the assigning pass. *)
Definition count_offs : list Z := for_off 4 0 3 3.
Definition assign_offs : list Z := for_off 4 0 4 4.

(** Counting pass, one fixup: [last] stays -1 throughout. *)
Definition count_fixup (npage : Z) (idxs : list Z) (f : Fixup) : option (list Z) :=
  let last := -1 in
  foldl (fun st off =>
           idxs ← st;
           let pi := Z.shiftr (i32 (Src f + off)) pageBits in
           if (last <? pi) && (pi <? npage) then
             n ← at_ idxs pi;
             set_at idxs pi (u32 (n + 1))
           else Some idxs)
        (Some idxs) count_offs.

Definition count_pass (npage : Z) (fixups : list Fixup) (idxs : list Z)
  : option (list Z) :=
  foldl (fun st f => idxs ← st; count_fixup npage idxs f) (Some idxs) fixups.

(** [for i, n := range idxs { idxs[i] = total; total += n }] *)
Fixpoint prefix_sums (idxs : list Z) (total : Z) : list Z * Z :=
  match idxs with
  | [] => ([], total)
  | n :: rest =>
      let '(rest', total') := prefix_sums rest (u32 (total + n)) in
      (total :: rest', total')
  end.

(** The zero value of [Fixup], as [make([]Fixup, total)] fills the slice. *)
Definition zeroFixup : Fixup :=
  {| SrcType := 0; Src := 0; Target := {| Obj := 0; Off := 0 |}; Add := 0 |}.

(** Assigning pass, one fixup. *)
Definition assign_fixup (npage : Z) (st : list Z * list Fixup) (f : Fixup)
  : option (list Z * list Fixup) :=
  let last := -1 in
  foldl (fun st off =>
           '(idxs, assigned) ← st;
           let pi := Z.shiftr (i32 (Src f + off)) pageBits in
           if (last <? pi) && (pi <? npage) then
             idx ← at_ idxs pi;
             idxs ← set_at idxs pi (u32 (idx + 1));
             assigned ← set_at assigned idx f;
             Some (idxs, assigned)
           else Some (idxs, assigned))
        (Some st) assign_offs.

Definition assign_pass (npage : Z) (fixups : list Fixup) (st : list Z * list Fixup)
  : option (list Z * list Fixup) :=
  foldl (fun st f => st ← st; assign_fixup npage st f) (Some st) fixups.

(** State of the loop that writes the records out. *)
Record emit_state := {
  e_idxs : list Z;
  e_pages : list Z;
  e_records : list Z;
  e_pos : Z
}.

(** One iteration of [for pi, idx := range idxs]. The store of 0 into
    [idxs[pi]] is overwritten by the store that follows it. *)
Definition emit_page (assigned : list Fixup) (st : emit_state) (pi : nat)
  : option emit_state :=
  idx ← at_ (e_idxs st) (Z.of_nat pi);
  idxs ← (if e_pos st =? idx then set_at (e_idxs st) (Z.of_nat pi) 0
           else Some (e_idxs st));
  idxs ← set_at idxs (Z.of_nat pi) (u32 (Z.of_nat (length (e_pages st)) / 4));
  pfixups ← slice assigned (e_pos st) idx;
  let pos := idx in
  let base := i32 (Z.shiftl (Z.of_nat pi) pageBits) in
  let records :=
    foldl (fun records f =>
             let f := {| SrcType := SrcType f; Src := i32 (Src f - base);
                         Target := Target f; Add := Add f |} in
             appendFixup f records)
          (e_records st) pfixups in
  let roff := PutUint32 (repeat 0 4) 0 (u32 (Z.of_nat (length records))) in
  Some {| e_idxs := idxs; e_pages := e_pages st ++ roff;
          e_records := records; e_pos := pos |}.

Definition emit_pass (assigned : list Fixup) (st : emit_state) : option emit_state :=
  foldl (fun st pi => st ← st; emit_page assigned st pi)
        (Some st) (seq 0 (length (e_idxs st))).

(** [write] returns the indexes (nil is the empty list) and the new state of
    the builder. *)
Definition fixupdata_write (d : fixupdata) (size : Z) (fixups : list Fixup)
  : option (list Z * fixupdata) :=
  if size =? 0 then Some ([], d) else
  let npage := i32 (pagecount size) in
  let maxOff := maxOff_of fixups in
  if maxOff <? 0 then Some ([], d) else
  let npage :=
    let n := i32 (Z.shiftr maxOff pageBits + 1) in
    if npage <? n then n else npage in
  let idxs := repeat 0 (Z.to_nat npage) in
  idxs ← count_pass npage fixups idxs;
  idxs ← slice idxs 0 npage;
  let '(idxs, total) := prefix_sums idxs 0 in
  let assigned := repeat zeroFixup (Z.to_nat total) in
  '(idxs, assigned) ← assign_pass npage fixups (idxs, assigned);
  let pages := pages d in
  let records := records d in
  let pages := if Z.of_nat (length pages) =? 0 then repeat 0 4 else pages in
  st ← emit_pass assigned {| e_idxs := idxs; e_pages := pages;
                             e_records := records; e_pos := 0 |};
  Some (e_idxs st, {| pages := e_pages st; records := e_records st |}).

(** *** pagedata *)

Record pagedata := { pd_count : Z; pd_offset : Z; pd_data : list (list Z) }.

Definition zeropage : list Z := repeat 0 (Z.to_nat pageSize).

(** [write] returns [(first, count)] and the new state; [zeropage[d.offset:]]
    cannot panic as [d.offset] is below the page size. *)
Definition pagedata_write (d : pagedata) (data : list Z) : option (Z * Z * pagedata) :=
  let count := pagecount (u32 (Z.of_nat (length data))) in
  if negb (count =? 0) then
    let first := u32 (pd_count d + 1) in
    blocks ← (if negb (pd_offset d =? 0)
               then pad ← slice_from zeropage (pd_offset d); Some (pd_data d ++ [pad])
               else Some (pd_data d));
    let blocks := blocks ++ [data] in
    Some (first, count,
          {| pd_count := u32 (pd_count d + count);
             pd_offset := Z.land (u32 (Z.of_nat (length data))) (pageSize - 1);
             pd_data := blocks |})
  else Some (0, count, d).

(** *** datawriter *)

Record datawriter := { pos : Z; dw_data : list (list Z) }.

Definition datawriter_write (w : datawriter) (d : list Z) : datawriter :=
  {| pos := u32 (pos w + Z.of_nat (length d)); dw_data := dw_data w ++ [d] |}.

(** *** dumpBlocks *)

Definition builders : Type := objdata * fixupdata * pagedata.

Definition dump_object (st : builders) (obj : Object) : option builders :=
  let '(od, fd, pd) := st in
  '(first, count, pd) ← pagedata_write pd (Data obj);
  '(fixup, fd) ← fixupdata_write fd (Size obj) (Fixups obj);
  Some (objdata_write od obj fixup first count, fd, pd).

Definition dump_objects (p : Program) : option builders :=
  foldl (fun st obj => st ← st; dump_object st obj)
        (Some ({| object := []; page := [] |},
               {| pages := []; records := [] |},
               {| pd_count := 0; pd_offset := 0; pd_data := [] |}))
        (Objects p).

(** The header [h] is written into the output as the slice [h[:]], which
    shares the array: the stores made after [d.write(h[:])] are in the block
    that is written out. So the first block is the final [h]. *)
Definition dumpBlocks (p : Program) : option (list (list Z)) :=
  '(objdata, fixupdata, pagedata) ← dump_objects p;
  let h := repeat 0 0xac in
  let h := <[0%nat := 76]> h in
  let h := <[1%nat := 69]> h in
  let h := PutUint16 h 0x08 2 in
  let h := PutUint32 h 0x14 (pd_count pagedata) in
  let h := PutUint32 h 0x18 (u32 (Obj (Entry p))) in
  let h := PutUint32 h 0x1c (u32 (Off (Entry p))) in
  let h := PutUint32 h 0x20 (u32 (Obj (Stack p))) in
  let h := PutUint32 h 0x24 (u32 (Off (Stack p))) in
  let h := PutUint32 h 0x28 pageSize in
  let h := PutUint32 h 0x2c (pd_offset pagedata) in
  let h := PutUint32 h 0x44 (u32 (Z.of_nat (length (Objects p)))) in
  let d := {| pos := 0; dw_data := [] |} in
  let d := datawriter_write d h in
  let start := pos d in
  let h := PutUint32 h 0x40 (pos d) in
  let d := datawriter_write d (object objdata) in
  let h := PutUint32 h 0x48 (pos d) in
  let d := datawriter_write d (page objdata) in
  let h := PutUint32 h 0x38 (u32 (pos d - start)) in
  let start := pos d in
  let h := PutUint32 h 0x68 (pos d) in
  let d := datawriter_write d (pages fixupdata) in
  let h := PutUint32 h 0x6c (pos d) in
  let d := datawriter_write d (records fixupdata) in
  let h := PutUint32 h 0x30 (u32 (pos d - start)) in
  let h := PutUint32 h 0x80 (pos d) in
  let d := foldl datawriter_write d (pd_data pagedata) in
  Some (h :: tail (dw_data d)).

(** ** read.go: the decoder of one fixup record *)

Inductive read_error :=
| errShortFixup                      (* unexpected end of table *)
| errSourceList (src : Z)            (* source list fixups unimplemented *)
| errImported (flags : Z)            (* imported fixups unimplemented *)
| errAdditive (flags : Z)            (* additive fixups unimplemented *)
| errSourceType (t : Z).             (* unimplemented source type *)

Definition readFixup (data : list Z) : read_error + (nat * Fixup) :=
  if Z.of_nat (length data) <? 7 then inl errShortFixup else
  match data with
  | src :: flags :: lo :: hi :: data4 =>
      let srcoff := i16 (Z.lor lo (Z.shiftl hi 8)) in
      if negb (Z.land src 0x20 =? 0) then inl (errSourceList src) else
      if negb (Z.land flags 0x03 =? 0) then inl (errImported flags) else
      if negb (Z.land flags 0x04 =? 0) then inl (errAdditive flags) else
      let '(objnum, data, n) :=
        if negb (Z.land flags 0x40 =? 0)
        then (default 0 (Uint16 data4), drop 2 data4, 6%nat)
        else (u16 (default 0 (head data4)), drop 1 data4, 5%nat) in
      let t := Z.land src 0x0f in
      if 8 <? t then inl (errSourceType t) else
      if negb (Z.land flags 0x10 =? 0) then
        if Z.of_nat (length data) <? 4 then inl errShortFixup else
        let target := i32 (default 0 (Uint32 data)) in
        inr ((n + 4)%nat,
             {| SrcType := src; Src := i32 srcoff;
                Target := {| Obj := i32 objnum; Off := target |}; Add := 0 |})
      else
        if Z.of_nat (length data) <? 2 then inl errShortFixup else
        let target := i32 (default 0 (Uint16 data)) in
        inr ((n + 2)%nat,
             {| SrcType := src; Src := i32 srcoff;
                Target := {| Obj := i32 objnum; Off := target |}; Add := 0 |})
  | _ => inl errShortFixup
  end.

(** ** read.go: the records of one fixup page

    The decoding loop of [readFixupRecords],
    [for len(fdata) != 0 { n, fix, err := readFixup(fdata); ...;
    fixups = append(fixups, fix); fdata = fdata[n:] }]: the fixups read, or
    the error of [readFixup]. [None] is a panic of [fdata[n:]], or the end
    of [fuel], which bounds the number of iterations. *)
Fixpoint read_page_fixups (fuel : nat) (fdata : list Z) (fixups : list Fixup)
  : option (read_error + list Fixup) :=
  if Z.of_nat (length fdata) =? 0 then Some (inr fixups) else
  match fuel with
  | O => None
  | S fuel =>
      match readFixup fdata with
      | inl e => Some (inl e)
      | inr (n, fx) =>
          fdata ← slice_from fdata (Z.of_nat n);
          read_page_fixups fuel fdata (fixups ++ [fx])
      end
  end.

(** The first loop of [readFixupRecords], over the pages, from the bytes
    [data] of the record table: the fixups of each page, [pageFixups]. A
    page whose two offsets are equal keeps [nil], the empty list. *)
Definition read_pages (data : list Z) (pageTable : list Z)
  : option (read_error + list (list Fixup)) :=
  let count := (length pageTable - 1)%nat in
  foldl (fun st i =>
           st ← st;
           match st with
           | inl e => Some (inl e)
           | inr pageFixups =>
               off0 ← pageTable !! i;
               off1 ← pageTable !! (i + 1)%nat;
               if off0 =? off1 then Some (inr pageFixups) else
               fdata ← slice data off0 off1;
               r ← read_page_fixups (length fdata) fdata [];
               match r with
               | inl e => Some (inl e)
               | inr fixups => Some (inr (<[i := fixups]> pageFixups))
               end
           end)
        (Some (inr (replicate count []))) (seq 0 count).

(** The check that [readFixupPageTable] makes on the offsets it read,
    [var last uint32; for _, x := range offsets { if x < last { return
    error }; last = x }]: [true] when it finds no error. *)
Fixpoint offsets_ordered (last : Z) (offsets : list Z) : bool :=
  match offsets with
  | [] => true
  | x :: rest => if x <? last then false else offsets_ordered x rest
  end.

End module.

(** * Package main: program.go and elf.go *)

Module main.
Import debug_elf.

(** ** program.go *)

Definition objR : Z := 0x0001.
Definition objW : Z := 0x0002.
Definition objX : Z := 0x0004.
Definition obj32Bit : Z := 0x2000.

Definition srcOffset32 : Z := 0x07.
Definition srcRelative32 : Z := 0x08.

Record ref := { obj : Z; off : Z }.

Record fixup := { srcType : Z; src : Z; target : ref; add : Z }.

(** [object]: the fields [flags], [size], [addr], [data], [fixups]. *)
Record object := {
  o_flags : Z;
  o_size : Z;
  o_addr : Z;
  o_data : list Z;
  o_fixups : list fixup
}.

Record program := { entry : ref; stack : ref; objects : list object }.

(** ** elf.go *)

Definition ptGNUEHFrame : Z := 0x6474e551.

Record addrRange := { addr : Z; size : Z }.

Definition hasAddr (x : addrRange) (a : Z) : bool :=
  (addr x <=? a) && (a <=? u32 (addr x + size x)).

Definition overlaps (x y : addrRange) : bool :=
  (addr y <? u32 (addr x + size x)) && (addr x <? u32 (addr y + size y)).

Definition contains (x y : addrRange) : bool :=
  (addr x <=? addr y) && (u32 (addr y + size y) <=? u32 (addr x + size x)).

(** [segment]: the embedded [addrRange], [index], [prog] and [object]. The
    field [object] is a pointer; [readLoadSegment] allocates one object for
    each segment, so the object lives in its segment here, and a store
    through the pointer is an update of that segment in the list. *)
Record segment := {
  seg_range : addrRange;
  seg_index : Z;
  seg_prog : Prog;
  seg_object : object
}.

(** [for i, s := range segs { if s.hasAddr(addr) { ...; break } }] from
    index [i] on. *)
Fixpoint resolveAddr_from (segs : list segment) (i : Z) (a : Z) : ref :=
  match segs with
  | [] => {| obj := 0; off := 0 |}
  | s :: rest =>
      if hasAddr (seg_range s) a
      then {| obj := i32 (i + 1); off := i32 (u32 (a - addr (seg_range s))) |}
      else resolveAddr_from rest (i + 1) a
  end.

Definition resolveAddr (segs : list segment) (a : Z) : ref := resolveAddr_from segs 0 a.

(** [symbol]: [addr], the embedded [ref] and [name]. *)
Record symbol := { sym_addr : Z; sym_ref : ref; sym_name : string }.

Definition readLoadSegment (i : Z) (p : Prog) : result segment :=
  let flags := obj32Bit in
  let flags := if negb (Z.land (p_Flags p) PF_X =? 0) then Z.lor flags objX else flags in
  let flags := if negb (Z.land (p_Flags p) PF_W =? 0) then Z.lor flags objW else flags in
  if negb (Z.land (p_Flags p) PF_R =? 0) then
    let flags := Z.lor flags objR in
    let knownFlags := Z.lor (Z.lor PF_X PF_W) PF_R in
    let unknownFlags := Z.ldiff (p_Flags p) knownFlags in
    if negb (unknownFlags =? 0) then Err (ErrUnknownFlags (u32 unknownFlags)) else
    let addr := u32 (p_Vaddr p) in
    let size := u32 (p_Memsz p) in
    bind (if 0 <? p_Filesz p
          then match p_ReadAt p with
               | Some data => Ok data
               | None => Err ErrReadSegment
               end
          else Ok [])
         (fun data =>
            Ok {| seg_range := {| addr := addr; size := size |};
                  seg_index := i;
                  seg_prog := p;
                  seg_object := {| o_flags := flags; o_size := size; o_addr := addr;
                                   o_data := data; o_fixups := [] |} |})
  else Err ErrNotReadable.

(** The loop of [assignSegments], from the program header [i] on. *)
Fixpoint assignSegments_from (progs : list Prog) (i : Z) (segments : list segment)
  : result (list segment) :=
  match progs with
  | [] => Ok segments
  | p :: rest =>
      if (p_Type p =? PT_NULL) || (p_Type p =? PT_NOTE) || (p_Type p =? ptGNUEHFrame)
      then assignSegments_from rest (i + 1) segments
      else if p_Type p =? PT_LOAD then
        match readLoadSegment i p with
        | Ok seg => assignSegments_from rest (i + 1) (segments ++ [seg])
        | Err e => Err (wrapErrorSegment e i)
        | Panic => Panic
        end
      else Err (wrapErrorSegment (ErrSegmentType (p_Type p)) i)
  end.

Definition assignSegments (f : File) : result (list segment) :=
  assignSegments_from (Progs f) 0 [].

Definition resolveSymbols (f : File) (segs : list segment) : result (list symbol) :=
  match Symbols f with
  | None => Err ErrLibrary
  | Some syms =>
      Ok (map (fun sym =>
                 {| sym_addr := u32 (Value sym);
                    sym_ref := resolveAddr segs (u32 (Value sym));
                    sym_name := Name sym |})
              syms)
  end.

(** The search loop of [addRelocation]: the first segment that contains
    [y], with its index. *)
Fixpoint find_containing (segs : list segment) (i : nat) (y : addrRange)
  : option (nat * segment) :=
  match segs with
  | [] => None
  | s :: rest =>
      if contains (seg_range s) y then Some (i, s)
      else find_containing rest (S i) y
  end.

(** [obj.fixups = append(obj.fixups, fx)] for the object of the segment
    [i]. *)
Definition append_fixup (segs : list segment) (i : nat) (fx : fixup) : list segment :=
  match segs !! i with
  | Some s =>
      <[i := {| seg_range := seg_range s; seg_index := seg_index s; seg_prog := seg_prog s;
                seg_object :=
                  {| o_flags := o_flags (seg_object s); o_size := o_size (seg_object s);
                     o_addr := o_addr (seg_object s); o_data := o_data (seg_object s);
                     o_fixups := o_fixups (seg_object s) ++ [fx] |} |}]> segs
  | None => segs
  end.

(** [addRelocation] returns the segments, whose objects it may have
    changed. *)
Definition addRelocation (rel : Rel32) (segs : list segment) (syms : list symbol)
  : result (list segment) :=
  match find_containing segs 0 {| addr := r_Off rel; size := 4 |} with
  | None => Ok segs
  | Some (i, seg) =>
      let srcObj := i32 (Z.of_nat i + 1) in
      if srcObj =? 0 then Ok segs else
      let rsym := Z.shiftr (r_Info rel) 8 in
      if (rsym =? 0) || (u32 (Z.of_nat (length syms)) <? rsym)
      then Err (ErrSymbolBounds rsym) else
      bind (must (at_ syms (rsym - 1))) (fun sym =>
      if obj (sym_ref sym) =? 0 then Err (ErrUnresolved (sym_name sym) rsym) else
      let obj_ := seg_object seg in
      let srcOff := i32 (u32 (r_Off rel - addr (seg_range seg))) in
      bind (must (b ← slice_from (o_data obj_) srcOff; Uint32 b)) (fun val =>
      let rtype := Z.land (r_Info rel) 0xff in
      bind (if rtype =? R_386_32 then
              Ok (Some (srcOffset32,
                        i32 (off (sym_ref sym) + i32 (u32 (val - sym_addr sym)))))
            else if rtype =? R_386_PC32 then
              if obj (sym_ref sym) =? srcObj then Ok None
              else Ok (Some (srcRelative32,
                             i32 (off (sym_ref sym)
                                  + i32 (u32 (val + r_Off rel + 4 - sym_addr sym)))))
            else Err (ErrRelocType rtype))
           (fun emit =>
              match emit with
              | None => Ok segs
              | Some (srcType, fixOff) =>
                  Ok (append_fixup segs i
                        {| srcType := srcType; src := srcOff;
                           target := {| obj := obj (sym_ref sym); off := fixOff |};
                           add := 0 |})
              end)))
  end.

(** The loop of [readRelocationSection] over the entries; [fuel] is the
    number of bytes, more than the number of entries. *)
Fixpoint read_rels (fuel : nat) (data : list Z) (segs : list segment) (syms : list symbol)
  : result (list segment) :=
  match fuel with
  | O => Ok segs
  | S fuel =>
      if (0 <? Z.of_nat (length data)) then
        let rel := read_Rel32 data in
        match addRelocation rel segs syms with
        | Ok segs => read_rels fuel (drop 8 data) segs syms
        | Err e => Err (wrapError e (LocRelocation (r_Off rel)))
        | Panic => Panic
        end
      else Ok segs
  end.

Definition readRelocationSection (s : Section) (segs : list segment) (syms : list symbol)
  : result (list segment) :=
  match s_Data s with
  | None => Err ErrLibrary
  | Some data =>
      if s_Type s =? SHT_REL then
        if negb (Z.land (Z.of_nat (length data)) 7 =? 0) then Err ErrRelLength
        else read_rels (length data) data segs syms
      else Err (ErrRelSectionType (s_Type s))
  end.

(** The loop of [readSections], from the section [i] on; [nsec] is
    [len(f.Sections)]. *)
Fixpoint readSections_from (sections : list Section) (i : Z) (nsec : Z)
    (segs : list segment) (syms : list symbol) : result (list segment) :=
  match sections with
  | [] => Ok segs
  | s :: rest =>
      if (s_Type s =? SHT_REL) || (s_Type s =? SHT_RELA) then
        let bi := s_Info s in
        if (bi <? 0) || (nsec <=? bi)
        then Err (wrapErrorSection ErrRelInfo i (s_Name s))
        else match readRelocationSection s segs syms with
             | Ok segs => readSections_from rest (i + 1) nsec segs syms
             | Err e => Err (wrapErrorSection e i (s_Name s))
             | Panic => Panic
             end
      else readSections_from rest (i + 1) nsec segs syms
  end.

Definition readSections (f : File) (segs : list segment) (syms : list symbol)
  : result (list segment) :=
  readSections_from (Sections f) 0 (Z.of_nat (length (Sections f))) segs syms.

(** [for _, sym := range syms { if sym.name == "_stack_end" { stack = sym.ref } }] *)
Definition find_stack (syms : list symbol) : ref :=
  fold_left (fun stack sym =>
               if String.eqb (sym_name sym) "_stack_end" then sym_ref sym else stack)
            syms {| obj := 0; off := 0 |}.

(** [readExecutable], from the file that [elf.Open] returned. *)
Definition readExecutable (f : File) : result program :=
  if negb (Class f =? ELFCLASS32) then Err (ErrClass (Class f)) else
  if negb (Data_ f =? ELFDATA2LSB) then Err (ErrData (Data_ f)) else
  if negb (Type_ f =? ET_EXEC) then Err (ErrType (Type_ f)) else
  if negb (Machine f =? EM_386) then Err (ErrMachine (Machine f)) else
  bind (assignSegments f) (fun segs =>
  let entry := resolveAddr segs (u32 (Entry_ f)) in
  if obj entry =? 0 then Err (ErrEntry (Entry_ f)) else
  bind (resolveSymbols f segs) (fun syms =>
  let stack := find_stack syms in
  if obj stack =? 0 then Err ErrNoStackEnd else
  bind (readSections f segs syms) (fun segs =>
  Ok {| entry := entry; stack := stack; objects := map seg_object segs |}))).

End main.

(** * Package module, module.go: the model with object headers

    The revision of the LE model whose [Object] embeds an [ObjectHeader];
    it is the one the converter of package elf builds. [Ref] and [Fixup] are
    those of [module]. Of [ProgramHeader] the converter sets [EIP] and [ESP]
    and leaves every other field zero; only these two are kept here. *)

Module module_go.

Record ObjectHeader := {
  VirtualSize : Z;
  BaseAddress : Z;
  Flags : Z;
  PageTableIndex : Z;
  PageTableEntries : Z;
  Reserved : Z
}.

Record Object := {
  Header : ObjectHeader;
  Data : list Z;
  Fixups : list module.Fixup
}.

Record ProgramHeader := { EIP : module.Ref; ESP : module.Ref }.

Record Program := { PHeader : ProgramHeader; Objects : list Object }.

End module_go.

(** * Package elf: the converter with absolute symbols *)

Module elf.
Import debug_elf.

(** [int32(^uint32(0) >> 1)] *)
Definition objAbsolute : Z := i32 (Z.shiftr (u32 (Z.lnot 0)) 1).

Definition ptGNUEHFrame : Z := 0x6474e551.

Record addrRange := { addr : Z; size : Z }.

Definition hasAddr (x : addrRange) (a : Z) : bool :=
  (addr x <=? a) && (a <=? u32 (addr x + size x)).

Definition overlaps (x y : addrRange) : bool :=
  (addr y <? u32 (addr x + size x)) && (addr x <? u32 (addr y + size y)).

Definition contains (x y : addrRange) : bool :=
  (addr x <=? addr y) && (u32 (addr y + size y) <=? u32 (addr x + size x)).

(** [segment]; as in package main the object that the pointer [object]
    refers to lives in its segment. *)
Record segment := {
  seg_range : addrRange;
  seg_index : Z;
  seg_prog : Prog;
  seg_object : module_go.Object
}.

Fixpoint resolveAddr_from (segs : list segment) (i : Z) (a : Z) : module.Ref :=
  match segs with
  | [] => {| module.Obj := 0; module.Off := 0 |}
  | s :: rest =>
      if hasAddr (seg_range s) a
      then {| module.Obj := i32 (i + 1); module.Off := i32 (u32 (a - addr (seg_range s))) |}
      else resolveAddr_from rest (i + 1) a
  end.

Definition resolveAddr (segs : list segment) (a : Z) : module.Ref :=
  resolveAddr_from segs 0 a.

(** [symbol]: [addr], the embedded [module.Ref] and [name]. *)
Record symbol := { sym_addr : Z; sym_ref : module.Ref; sym_name : string }.

Definition readLoadSegment (i : Z) (p : Prog) : result segment :=
  let flags := module.Obj32Bit in
  let flags := if negb (Z.land (p_Flags p) PF_X =? 0) then Z.lor flags module.ObjX else flags in
  let flags := if negb (Z.land (p_Flags p) PF_W =? 0) then Z.lor flags module.ObjW else flags in
  if negb (Z.land (p_Flags p) PF_R =? 0) then
    let flags := Z.lor flags module.ObjR in
    let knownFlags := Z.lor (Z.lor PF_X PF_W) PF_R in
    let unknownFlags := Z.ldiff (p_Flags p) knownFlags in
    if negb (unknownFlags =? 0) then Err (ErrUnknownFlags (u32 unknownFlags)) else
    let addr := u32 (p_Vaddr p) in
    let size := u32 (p_Memsz p) in
    bind (if 0 <? p_Filesz p
          then match p_ReadAt p with
               | Some data => Ok data
               | None => Err ErrReadSegment
               end
          else Ok [])
         (fun data =>
            Ok {| seg_range := {| addr := addr; size := size |};
                  seg_index := i;
                  seg_prog := p;
                  seg_object :=
                    {| module_go.Header :=
                         {| module_go.VirtualSize := size; module_go.BaseAddress := addr;
                            module_go.Flags := flags; module_go.PageTableIndex := 0;
                            module_go.PageTableEntries := 0; module_go.Reserved := 0 |};
                       module_go.Data := data; module_go.Fixups := [] |} |})
  else Err ErrNotReadable.

Fixpoint assignSegments_from (progs : list Prog) (i : Z) (segments : list segment)
  : result (list segment) :=
  match progs with
  | [] => Ok segments
  | p :: rest =>
      if (p_Type p =? PT_NULL) || (p_Type p =? PT_NOTE) || (p_Type p =? ptGNUEHFrame)
      then assignSegments_from rest (i + 1) segments
      else if p_Type p =? PT_LOAD then
        match readLoadSegment i p with
        | Ok seg => assignSegments_from rest (i + 1) (segments ++ [seg])
        | Err e => Err (wrapErrorSegment e i)
        | Panic => Panic
        end
      else Err (wrapErrorSegment (ErrSegmentType (p_Type p)) i)
  end.

Definition assignSegments (f : File) : result (list segment) :=
  assignSegments_from (Progs f) 0 [].

(** The inner loop of the first loop of [resolveSymbols]: the [index] of the
    first segment that has the address of the section, or -1. *)
Fixpoint section_object (segs : list segment) (offset : Z) : Z :=
  match segs with
  | [] => -1
  | seg :: rest =>
      if (addr (seg_range seg) <=? offset)
         && (offset <? u32 (addr (seg_range seg) + size (seg_range seg)))
      then seg_index seg
      else section_object rest offset
  end.

Definition secObjects_of (f : File) (segs : list segment) : list Z :=
  map (fun s => section_object segs (u32 (s_Addr s))) (Sections f).

(** The body of the second loop of [resolveSymbols]. *)
Definition resolveSymbol (secObjects : list Z) (segs : list segment) (sym : Symbol)
  : result symbol :=
  if (0 <=? Section_ sym) && (Section_ sym <? Z.of_nat (length secObjects)) then
    bind (must (at_ secObjects (Section_ sym))) (fun obj =>
    bind (must (at_ segs obj)) (fun seg =>
    Ok {| sym_addr := u32 (Value sym);
          sym_ref := {| module.Obj := i32 (obj + 1);
                        module.Off := i32 (u32 (u32 (Value sym) - addr (seg_range seg))) |};
          sym_name := Name sym |}))
  else if Section_ sym =? SHN_ABS then
    Ok {| sym_addr := u32 (Value sym);
          sym_ref := {| module.Obj := objAbsolute; module.Off := 0 |};
          sym_name := Name sym |}
  else Err (ErrSymbolSection (Section_ sym)).

Fixpoint resolveSymbols_loop (secObjects : list Z) (segs : list segment)
    (syms : list Symbol) : result (list symbol) :=
  match syms with
  | [] => Ok []
  | sym :: rest =>
      bind (resolveSymbol secObjects segs sym) (fun osym =>
      bind (resolveSymbols_loop secObjects segs rest) (fun osyms =>
      Ok (osym :: osyms)))
  end.

Definition resolveSymbols (f : File) (segs : list segment) : result (list symbol) :=
  let secObjects := secObjects_of f segs in
  match Symbols f with
  | None => Err ErrLibrary
  | Some syms => resolveSymbols_loop secObjects segs syms
  end.

Fixpoint find_containing (segs : list segment) (i : nat) (y : addrRange)
  : option (nat * segment) :=
  match segs with
  | [] => None
  | s :: rest =>
      if contains (seg_range s) y then Some (i, s)
      else find_containing rest (S i) y
  end.

(** [obj.Fixups = append(obj.Fixups, fx)] for the object of the segment
    [i]. *)
Definition append_fixup (segs : list segment) (i : nat) (fx : module.Fixup)
  : list segment :=
  match segs !! i with
  | Some s =>
      <[i := {| seg_range := seg_range s; seg_index := seg_index s; seg_prog := seg_prog s;
                seg_object :=
                  {| module_go.Header := module_go.Header (seg_object s);
                     module_go.Data := module_go.Data (seg_object s);
                     module_go.Fixups := module_go.Fixups (seg_object s) ++ [fx] |} |}]> segs
  | None => segs
  end.

Definition addRelocation (rel : Rel32) (segs : list segment) (syms : list symbol)
  : result (list segment) :=
  match find_containing segs 0 {| addr := r_Off rel; size := 4 |} with
  | None => Ok segs
  | Some (i, seg) =>
      let srcObj := i32 (Z.of_nat i + 1) in
      if srcObj =? 0 then Ok segs else
      let rsym := Z.shiftr (r_Info rel) 8 in
      if (rsym =? 0) || (u32 (Z.of_nat (length syms)) <? rsym)
      then Err (ErrSymbolBounds rsym) else
      bind (must (at_ syms (rsym - 1))) (fun sym =>
      if module.Obj (sym_ref sym) =? 0 then Err (ErrUnresolved (sym_name sym) rsym) else
      if module.Obj (sym_ref sym) =? objAbsolute then Ok segs else
      let obj_ := seg_object seg in
      let srcOff := i32 (u32 (r_Off rel - addr (seg_range seg))) in
      bind (must (b ← slice_from (module_go.Data obj_) srcOff; Uint32 b)) (fun val =>
      let rtype := Z.land (r_Info rel) 0xff in
      bind (if rtype =? R_386_32 then
              Ok (Some (module.SrcOffset32,
                        i32 (module.Off (sym_ref sym) + i32 (u32 (val - sym_addr sym)))))
            else if rtype =? R_386_PC32 then
              if module.Obj (sym_ref sym) =? srcObj then Ok None
              else Ok (Some (module.SrcRelative32,
                             i32 (module.Off (sym_ref sym)
                                  + i32 (u32 (val + r_Off rel + 4 - sym_addr sym)))))
            else Err (ErrRelocType rtype))
           (fun emit =>
              match emit with
              | None => Ok segs
              | Some (srcType, fixOff) =>
                  Ok (append_fixup segs i
                        {| module.SrcType := srcType; module.Src := srcOff;
                           module.Target := {| module.Obj := module.Obj (sym_ref sym);
                                               module.Off := fixOff |};
                           module.Add := 0 |})
              end)))
  end.

Fixpoint read_rels (fuel : nat) (data : list Z) (segs : list segment) (syms : list symbol)
  : result (list segment) :=
  match fuel with
  | O => Ok segs
  | S fuel =>
      if (0 <? Z.of_nat (length data)) then
        let rel := read_Rel32 data in
        match addRelocation rel segs syms with
        | Ok segs => read_rels fuel (drop 8 data) segs syms
        | Err e => Err (wrapError e (LocRelocation (r_Off rel)))
        | Panic => Panic
        end
      else Ok segs
  end.

Definition readRelocationSection (s : Section) (segs : list segment) (syms : list symbol)
  : result (list segment) :=
  match s_Data s with
  | None => Err ErrLibrary
  | Some data =>
      if s_Type s =? SHT_REL then
        if negb (Z.land (Z.of_nat (length data)) 7 =? 0) then Err ErrRelLength
        else read_rels (length data) data segs syms
      else Err (ErrRelSectionType (s_Type s))
  end.

Fixpoint readSections_from (sections : list Section) (i : Z) (nsec : Z)
    (segs : list segment) (syms : list symbol) : result (list segment) :=
  match sections with
  | [] => Ok segs
  | s :: rest =>
      if (s_Type s =? SHT_REL) || (s_Type s =? SHT_RELA) then
        let bi := s_Info s in
        if (bi <? 0) || (nsec <=? bi)
        then Err (wrapErrorSection ErrRelInfo i (s_Name s))
        else match readRelocationSection s segs syms with
             | Ok segs => readSections_from rest (i + 1) nsec segs syms
             | Err e => Err (wrapErrorSection e i (s_Name s))
             | Panic => Panic
             end
      else readSections_from rest (i + 1) nsec segs syms
  end.

Definition readSections (f : File) (segs : list segment) (syms : list symbol)
  : result (list segment) :=
  readSections_from (Sections f) 0 (Z.of_nat (length (Sections f))) segs syms.

Definition find_stack (syms : list symbol) : module.Ref :=
  fold_left (fun stack sym =>
               if String.eqb (sym_name sym) "_stack_end" then sym_ref sym else stack)
            syms {| module.Obj := 0; module.Off := 0 |}.

(** [ConvertToLELX], from the file that [elf.Open] returned. *)
Definition ConvertToLELX (f : File) : result module_go.Program :=
  if negb (Class f =? ELFCLASS32) then Err (ErrClass (Class f)) else
  if negb (Data_ f =? ELFDATA2LSB) then Err (ErrData (Data_ f)) else
  if negb (Type_ f =? ET_EXEC) then Err (ErrType (Type_ f)) else
  if negb (Machine f =? EM_386) then Err (ErrMachine (Machine f)) else
  bind (assignSegments f) (fun segs =>
  let entry := resolveAddr segs (u32 (Entry_ f)) in
  if module.Obj entry =? 0 then Err (ErrEntry (Entry_ f)) else
  bind (resolveSymbols f segs) (fun syms =>
  let stack := find_stack syms in
  if module.Obj stack =? 0 then Err ErrNoStackEnd else
  bind (readSections f segs syms) (fun segs =>
  Ok {| module_go.PHeader := {| module_go.EIP := entry; module_go.ESP := stack |};
        module_go.Objects := map seg_object segs |}))).

End elf.


(** * Definitions used to state the properties *)

(** The page that the two bucket passes of [fixupdata.write] compute for a
    fixup: both loops run their body once, with [off = 0]. *)
Definition page_of (f : module.Fixup) : Z :=
  Z.shiftr (i32 (module.Src f + 0)) module.pageBits.

Definition hits (npage : Z) (f : module.Fixup) : bool :=
  (-1 <? page_of f) && (page_of f <? npage).

(** Number of fixups of [fs] that the passes put in page [p]. *)
Fixpoint cnt (npage : Z) (fs : list module.Fixup) (p : nat) : Z :=
  match fs with
  | [] => 0
  | f :: fs =>
      (if hits npage f && (Z.to_nat (page_of f) =? p)%nat then 1 else 0) + cnt npage fs p
  end.

(** Sum of [c 0 .. c (p-1)]. *)
Fixpoint psum (c : nat -> Z) (p : nat) : Z :=
  match p with
  | O => 0
  | S q => psum c q + c q
  end.

(** [idxs] holds [g 0 .. g (n-1)]. *)
Definition holds (n : nat) (idxs : list Z) (g : nat -> Z) : Prop :=
  length idxs = n /\ forall p, (p < n)%nat -> idxs !! p = Some (g p).

(** [idxs[pi]] in the state of the writing-out loop. *)
Definition e_idxs_at (st : module.emit_state) (pi : nat) : option Z :=
  module.e_idxs st !! pi.

(** The number of pages [fixupdata.write] settles on for an object. *)
Definition npage_of (size : Z) (fixups : list module.Fixup) : Z :=
  let npage := i32 (module.pagecount size) in
  let n := i32 (Z.shiftr (module.maxOff_of fixups) module.pageBits + 1) in
  if npage <? n then n else npage.

(** The number of indexes [fixupdata.write] returns for an object. *)
Definition slots_of (obj : module.Object) : nat :=
  if (module.Size obj =? 0) || (module.maxOff_of (module.Fixups obj) <? 0) then 0%nat
  else Z.to_nat (npage_of (module.Size obj) (module.Fixups obj)).

(** The four bytes of [b] from [off]: a 32-bit field of a header or of a
    table record. *)
Definition field (b : list Z) (off : nat) : list Z := take 4 (drop off b).

(** Sum, over the objects, of the number of indexes [fixupdata.write]
    returns. *)
Definition slot_sum (objs : list module.Object) : nat :=
  foldr (fun obj n => (slots_of obj + n)%nat) 0%nat objs.

(** What the loop of [dumpBlocks] leaves in the record of an object: 24 bytes,
    the number of indexes at +16, and 0 at +12 when there is none. *)
Definition record_ok (obj : module.Object) (rec : list Z) : Prop :=
  length rec = 24%nat /\
  field rec 16 = le32 (u32 (Z.of_nat (slots_of obj))) /\
  (slots_of obj = 0%nat -> field rec 12 = le32 0).

(** The blocks [dumpBlocks] returns, in order: header, object table, object
    page table, fixup page table, fixup records, then the data pages. *)
Definition block (p : module.Program) (i : nat) : option (list Z) :=
  blocks ← module.dumpBlocks p; blocks !! i.

(** As the specification words it: a fixup at [src] touches the pages
    [src >> 12] and [(src + 3) >> 12], and the pages with fixups of an object
    are those of its [page_count(size)] pages that a fixup touches. *)
Definition spec_touches (f : module.Fixup) (pi : Z) : bool :=
  (Z.shiftr (module.Src f) module.pageBits =? pi)
  || (Z.shiftr (module.Src f + 3) module.pageBits =? pi).

Definition spec_pages_with_fixups (obj : module.Object) : nat :=
  length (List.filter
            (fun pi => existsb (fun f => spec_touches f (Z.of_nat pi)) (module.Fixups obj))
            (seq 0 (Z.to_nat (module.pagecount (module.Size obj))))).

(** As the specification words it: with no fixups, the fixup page table has
    [page_count(virtual_size)] zero entries per object and one sentinel. *)
Definition spec_empty_fixup_page_table (p : module.Program) : list Z :=
  repeat 0 (4 * (foldr (fun obj n => (Z.to_nat (module.pagecount (module.Size obj)) + n)%nat)
                       0%nat (module.Objects p) + 1)).

(** Entry [i] of the fixup page table, and the records of the bucket of page
    [i]: those between the offsets of the entries [i] and [i + 1]. *)
Definition fixup_page_entry (d : module.fixupdata) (i : nat) : option Z :=
  Uint32 (drop (4 * i) (module.pages d)).

Definition bucket_records (d : module.fixupdata) (i : nat) : option (list Z) :=
  lo ← fixup_page_entry d i;
  hi ← fixup_page_entry d (i + 1);
  slice (module.records d) lo hi.

(** *** Concrete inputs *)

Definition mkFixup (srcType src obj off : Z) : module.Fixup :=
  {| module.SrcType := srcType; module.Src := src;
     module.Target := {| module.Obj := obj; module.Off := off |}; module.Add := 0 |}.

Definition fixupdata0 : module.fixupdata := {| module.pages := []; module.records := [] |}.

(** Scenario S1: one object of 64 bytes at 0x10000, readable and executable,
    no fixups. *)
Definition prog_S1 : module.Program :=
  {| module.Entry := {| module.Obj := 1; module.Off := 0 |};
     module.Stack := {| module.Obj := 1; module.Off := 64 |};
     module.Objects :=
       [ {| module.Flags := 0x2005; module.Size := 64; module.Addr := 0x10000;
            module.Data := repeat 0x90 64; module.Fixups := [] |} ] |}.

(** One object whose data fill exactly one page. *)
Definition prog_full_page : module.Program :=
  {| module.Entry := {| module.Obj := 1; module.Off := 0 |};
     module.Stack := {| module.Obj := 1; module.Off := 4096 |};
     module.Objects :=
       [ {| module.Flags := 0x2005; module.Size := 4096; module.Addr := 0x10000;
            module.Data := repeat 0x90 4096; module.Fixups := [] |} ] |}.

(** Scenario S5: an object of two pages with one fixup at 4094. *)
Definition obj_S5 : module.Object :=
  {| module.Flags := 0x2005; module.Size := 8192; module.Addr := 0x10000;
     module.Data := []; module.Fixups := [mkFixup 7 4094 1 0] |}.

(** An object of two pages whose only fixup is in the second page. *)
Definition obj_second_page : module.Object :=
  {| module.Flags := 0x2005; module.Size := 8192; module.Addr := 0x10000;
     module.Data := []; module.Fixups := [mkFixup 7 4096 1 0] |}.

Definition prog_second_page : module.Program :=
  {| module.Entry := {| module.Obj := 1; module.Off := 0 |};
     module.Stack := {| module.Obj := 1; module.Off := 8192 |};
     module.Objects := [obj_second_page] |}.

(** *** The relocation translator of package main *)

(** A segment as [readLoadSegment] builds it: 32-bit address and size, and
    the size of the object is the size of the range. *)
Definition wf_segment (s : main.segment) : Prop :=
  is_u32 (main.addr (main.seg_range s)) /\
  is_u32 (main.size (main.seg_range s)) /\
  main.o_size (main.seg_object s) = main.size (main.seg_range s).

(** The four bytes at the relocation [rel]. *)
Definition site (rel : debug_elf.Rel32) : main.addrRange :=
  {| main.addr := debug_elf.r_Off rel; main.size := 4 |}.

(** The fixup that [addRelocation] appends for a relocation at [srcOff] in
    its object. *)
Definition mk_fixup (srcType srcOff tobj toff : Z) : main.fixup :=
  {| main.srcType := srcType; main.src := srcOff;
     main.target := {| main.obj := tobj; main.off := toff |}; main.add := 0 |}.

(** No fixup of the object [i + 1] is self-relative with that object as its
    target. *)
Definition no_self_relative (segs : list main.segment) : Prop :=
  forall i s fx,
    segs !! i = Some s -> fx ∈ main.o_fixups (main.seg_object s) ->
    main.srcType fx = main.srcRelative32 ->
    main.obj (main.target fx) <> Z.of_nat i + 1.

Definition main_program_no_self_relative (p : main.program) : Prop :=
  forall i o fx,
    main.objects p !! i = Some o -> fx ∈ main.o_fixups o ->
    main.srcType fx = main.srcRelative32 ->
    main.obj (main.target fx) <> Z.of_nat i + 1.

(** *** Concrete inputs of the relocation translator

    Scenario S2: a text segment of 256 bytes at 0x10000 and a data segment of
    128 bytes at 0x20000; the word at 0x10010 of the text holds 0x20010; the
    symbols are [data_start] at 0x20000 and [_stack_end] at 0x20080, the end
    of the data segment. *)

Definition prog_text : debug_elf.Prog :=
  {| debug_elf.p_Type := debug_elf.PT_LOAD; debug_elf.p_Flags := 5;
     debug_elf.p_Vaddr := 0x10000; debug_elf.p_Filesz := 256; debug_elf.p_Memsz := 256;
     debug_elf.p_ReadAt := Some (repeat 0x90 16 ++ [0x10; 0x00; 0x02; 0x00] ++ repeat 0x90 236) |}.

Definition prog_data : debug_elf.Prog :=
  {| debug_elf.p_Type := debug_elf.PT_LOAD; debug_elf.p_Flags := 6;
     debug_elf.p_Vaddr := 0x20000; debug_elf.p_Filesz := 128; debug_elf.p_Memsz := 128;
     debug_elf.p_ReadAt := Some (repeat 0 128) |}.

Definition rel_S2 : debug_elf.Rel32 :=
  {| debug_elf.r_Off := 0x10010; debug_elf.r_Info := 0x101 |}.

Definition file_S2 : debug_elf.File :=
  {| debug_elf.Class := debug_elf.ELFCLASS32; debug_elf.Data_ := debug_elf.ELFDATA2LSB;
     debug_elf.Type_ := debug_elf.ET_EXEC; debug_elf.Machine := debug_elf.EM_386;
     debug_elf.Entry_ := 0x10000;
     debug_elf.Progs := [prog_text; prog_data];
     debug_elf.Sections :=
       [ {| debug_elf.s_Name := ""; debug_elf.s_Type := 0; debug_elf.s_Addr := 0;
            debug_elf.s_Info := 0; debug_elf.s_Data := Some [] |};
         {| debug_elf.s_Name := ".text"; debug_elf.s_Type := 1; debug_elf.s_Addr := 0x10000;
            debug_elf.s_Info := 0; debug_elf.s_Data := None |};
         {| debug_elf.s_Name := ".data"; debug_elf.s_Type := 1; debug_elf.s_Addr := 0x20000;
            debug_elf.s_Info := 0; debug_elf.s_Data := None |};
         {| debug_elf.s_Name := ".rel.text"; debug_elf.s_Type := debug_elf.SHT_REL;
            debug_elf.s_Addr := 0; debug_elf.s_Info := 1;
            debug_elf.s_Data := Some [0x10; 0x00; 0x01; 0x00; 0x01; 0x01; 0x00; 0x00] |} ];
     debug_elf.Symbols :=
       Some [ {| debug_elf.Name := "data_start"; debug_elf.Value := 0x20000;
                 debug_elf.Section_ := 2 |};
              {| debug_elf.Name := "_stack_end"; debug_elf.Value := 0x20080;
                 debug_elf.Section_ := 2 |} ] |}.

Definition main_segs_S2 : list main.segment :=
  match main.assignSegments file_S2 with
  | Ok segs => segs
  | _ => []
  end.

Definition main_syms_S2 : list main.symbol :=
  match main.resolveSymbols file_S2 main_segs_S2 with
  | Ok syms => syms
  | _ => []
  end.

Definition main_segs_S2_read : list main.segment :=
  match main.readSections file_S2 main_segs_S2 main_syms_S2 with
  | Ok segs => segs
  | _ => []
  end.

Definition main_seg_data_S2 : main.segment :=
  {| main.seg_range := {| main.addr := 0x20000; main.size := 128 |};
     main.seg_index := 1; main.seg_prog := prog_data;
     main.seg_object :=
       {| main.o_flags := 0x2003; main.o_size := 128; main.o_addr := 0x20000;
          main.o_data := repeat 0 128; main.o_fixups := [] |} |}.

Definition sym_data_start_S2 : debug_elf.Symbol :=
  {| debug_elf.Name := "data_start"; debug_elf.Value := 0x20000; debug_elf.Section_ := 2 |}.

Definition sym_stack_end_S2 : debug_elf.Symbol :=
  {| debug_elf.Name := "_stack_end"; debug_elf.Value := 0x20080; debug_elf.Section_ := 2 |}.

(** *** The relocation translator of package elf *)

Definition elf_site (rel : debug_elf.Rel32) : elf.addrRange :=
  {| elf.addr := debug_elf.r_Off rel; elf.size := 4 |}.

(** The index of the symbol that a relocation refers to, and its type. *)
Definition rel_sym (rel : debug_elf.Rel32) : Z := Z.shiftr (debug_elf.r_Info rel) 8.
Definition rel_type (rel : debug_elf.Rel32) : Z := Z.land (debug_elf.r_Info rel) 0xff.

(** The offset of the site in its object, as [addRelocation] computes it. *)
Definition elf_srcOff (rel : debug_elf.Rel32) (seg : elf.segment) : Z :=
  i32 (u32 (debug_elf.r_Off rel - elf.addr (elf.seg_range seg))).

(** The value that [addRelocation] reads at the site. *)
Definition elf_read_site (rel : debug_elf.Rel32) (seg : elf.segment) : option Z :=
  b ← slice_from (module_go.Data (elf.seg_object seg)) (elf_srcOff rel seg); Uint32 b.

(** No fixup of the object [i + 1] is self-relative with that object as its
    target. *)
Definition elf_no_self_relative (segs : list elf.segment) : Prop :=
  forall i s fx,
    segs !! i = Some s -> fx ∈ module_go.Fixups (elf.seg_object s) ->
    module.SrcType fx = module.SrcRelative32 ->
    module.Obj (module.Target fx) <> Z.of_nat i + 1.

Definition program_no_self_relative (p : module_go.Program) : Prop :=
  forall i o fx,
    module_go.Objects p !! i = Some o -> fx ∈ module_go.Fixups o ->
    module.SrcType fx = module.SrcRelative32 ->
    module.Obj (module.Target fx) <> Z.of_nat i + 1.

(** A file with the segments of scenario S2 and four relocations: an
    [R_386_32] in the text to [data_start]; an [R_386_PC32] in the text to
    [func], in the text too; an [R_386_PC32] in the data to [func]; an
    [R_386_32] in the text to the absolute symbol [abs_sym]. *)
Definition file_rels : debug_elf.File :=
  {| debug_elf.Class := debug_elf.ELFCLASS32; debug_elf.Data_ := debug_elf.ELFDATA2LSB;
     debug_elf.Type_ := debug_elf.ET_EXEC; debug_elf.Machine := debug_elf.EM_386;
     debug_elf.Entry_ := 0x10000;
     debug_elf.Progs := [prog_text; prog_data];
     debug_elf.Sections :=
       [ {| debug_elf.s_Name := ""; debug_elf.s_Type := 0; debug_elf.s_Addr := 0;
            debug_elf.s_Info := 0; debug_elf.s_Data := Some [] |};
         {| debug_elf.s_Name := ".text"; debug_elf.s_Type := 1; debug_elf.s_Addr := 0x10000;
            debug_elf.s_Info := 0; debug_elf.s_Data := None |};
         {| debug_elf.s_Name := ".data"; debug_elf.s_Type := 1; debug_elf.s_Addr := 0x20000;
            debug_elf.s_Info := 0; debug_elf.s_Data := None |};
         {| debug_elf.s_Name := ".rel"; debug_elf.s_Type := debug_elf.SHT_REL;
            debug_elf.s_Addr := 0; debug_elf.s_Info := 1;
            debug_elf.s_Data :=
              Some [0x10; 0x00; 0x01; 0x00; 0x01; 0x01; 0x00; 0x00;
                    0x14; 0x00; 0x01; 0x00; 0x02; 0x03; 0x00; 0x00;
                    0x10; 0x00; 0x02; 0x00; 0x02; 0x03; 0x00; 0x00;
                    0x30; 0x00; 0x01; 0x00; 0x01; 0x04; 0x00; 0x00] |} ];
     debug_elf.Symbols :=
       Some [ sym_data_start_S2; sym_stack_end_S2;
              {| debug_elf.Name := "func"; debug_elf.Value := 0x10020;
                 debug_elf.Section_ := 1 |};
              {| debug_elf.Name := "abs_sym"; debug_elf.Value := 0x1234;
                 debug_elf.Section_ := debug_elf.SHN_ABS |} ] |}.

Definition sym_abs : debug_elf.Symbol :=
  {| debug_elf.Name := "abs_sym"; debug_elf.Value := 0x1234;
     debug_elf.Section_ := debug_elf.SHN_ABS |}.

Definition elf_segs_rels : list elf.segment :=
  match elf.assignSegments file_rels with
  | Ok segs => segs
  | _ => []
  end.

Definition elf_syms_rels : list elf.symbol :=
  match elf.resolveSymbols file_rels elf_segs_rels with
  | Ok syms => syms
  | _ => []
  end.

Definition elf_prog_rels : module_go.Program :=
  match elf.ConvertToLELX file_rels with
  | Ok p => p
  | _ => {| module_go.PHeader :=
              {| module_go.EIP := {| module.Obj := 0; module.Off := 0 |};
                 module_go.ESP := {| module.Obj := 0; module.Off := 0 |} |};
            module_go.Objects := [] |}
  end.

Definition rel_first : debug_elf.Rel32 :=
  {| debug_elf.r_Off := 0x10010; debug_elf.r_Info := 0x101 |}.

Definition rel_abs : debug_elf.Rel32 :=
  {| debug_elf.r_Off := 0x10030; debug_elf.r_Info := 0x401 |}.

Definition elf_seg_text : elf.segment :=
  {| elf.seg_range := {| elf.addr := 0x10000; elf.size := 256 |};
     elf.seg_index := 0; elf.seg_prog := prog_text;
     elf.seg_object :=
       {| module_go.Header :=
            {| module_go.VirtualSize := 256; module_go.BaseAddress := 0x10000;
               module_go.Flags := 0x2005; module_go.PageTableIndex := 0;
               module_go.PageTableEntries := 0; module_go.Reserved := 0 |};
          module_go.Data := repeat 0x90 16 ++ [0x10; 0x00; 0x02; 0x00] ++ repeat 0x90 236;
          module_go.Fixups := [] |} |}.

Definition elf_sym_data_start : elf.symbol :=
  {| elf.sym_addr := 0x20000; elf.sym_ref := {| module.Obj := 2; module.Off := 0 |};
     elf.sym_name := "data_start" |}.

(** *** Fixup records *)

(** A fixup that a record can hold: one of the two source types, a source
    offset of 16 bits, a target object below 256, a target offset that is
    not negative, nothing to add. *)
Definition encodable (f : module.Fixup) : Prop :=
  (module.SrcType f = module.SrcOffset32 \/ module.SrcType f = module.SrcRelative32) /\
  - 2 ^ 15 <= module.Src f < 2 ^ 15 /\
  0 <= module.Obj (module.Target f) < 256 /\
  0 <= module.Off (module.Target f) < 2 ^ 31 /\
  module.Add f = 0.

(** *** Segments and objects of package main *)

(** The object that [readLoadSegment] makes of a program header: it has the
    address and the size in memory of the header, its data are the bytes of
    the file, and its flags are those of the header, translated; the header
    is readable and has no flag but R, W and X. *)
Definition object_loaded (p : debug_elf.Prog) (o : main.object) : Prop :=
  main.o_addr o = u32 (debug_elf.p_Vaddr p) /\
  main.o_size o = u32 (debug_elf.p_Memsz p) /\
  (if 0 <? debug_elf.p_Filesz p
   then debug_elf.p_ReadAt p = Some (main.o_data o)
   else main.o_data o = []) /\
  Z.testbit (debug_elf.p_Flags p) 2 = true /\
  Z.ldiff (debug_elf.p_Flags p) 7 = 0 /\
  main.o_flags o
    = 0x2000 + 1 + (if Z.testbit (debug_elf.p_Flags p) 1 then 2 else 0)
      + (if Z.testbit (debug_elf.p_Flags p) 0 then 4 else 0).

(** The segment that [readLoadSegment] makes of a program header. *)
Definition loaded (p : debug_elf.Prog) (s : main.segment) : Prop :=
  main.seg_prog s = p /\
  main.seg_range s = {| main.addr := u32 (debug_elf.p_Vaddr p);
                        main.size := u32 (debug_elf.p_Memsz p) |} /\
  object_loaded p (main.seg_object s) /\
  main.o_fixups (main.seg_object s) = [].

(** The program header types that [assignSegments] accepts. *)
Definition accepted_type (p : debug_elf.Prog) : Prop :=
  debug_elf.p_Type p = debug_elf.PT_NULL \/ debug_elf.p_Type p = debug_elf.PT_NOTE \/
  debug_elf.p_Type p = main.ptGNUEHFrame \/ debug_elf.p_Type p = debug_elf.PT_LOAD.

Definition is_load (p : debug_elf.Prog) : bool := debug_elf.p_Type p =? debug_elf.PT_LOAD.

(** Two states of a segment that differ by fixups appended to the object. *)
Definition fixups_appended (s s' : main.segment) : Prop :=
  main.seg_range s' = main.seg_range s /\
  main.seg_index s' = main.seg_index s /\
  main.seg_prog s' = main.seg_prog s /\
  main.o_flags (main.seg_object s') = main.o_flags (main.seg_object s) /\
  main.o_size (main.seg_object s') = main.o_size (main.seg_object s) /\
  main.o_addr (main.seg_object s') = main.o_addr (main.seg_object s) /\
  main.o_data (main.seg_object s') = main.o_data (main.seg_object s) /\
  exists added,
    main.o_fixups (main.seg_object s') = main.o_fixups (main.seg_object s) ++ added.
(** The file of scenario S2 without the symbol [_stack_end]. *)
Definition file_no_stack_end : debug_elf.File :=
  {| debug_elf.Class := debug_elf.Class file_S2; debug_elf.Data_ := debug_elf.Data_ file_S2;
     debug_elf.Type_ := debug_elf.Type_ file_S2; debug_elf.Machine := debug_elf.Machine file_S2;
     debug_elf.Entry_ := debug_elf.Entry_ file_S2;
     debug_elf.Progs := debug_elf.Progs file_S2;
     debug_elf.Sections := debug_elf.Sections file_S2;
     debug_elf.Symbols := Some [sym_data_start_S2] |}.

(** The program that [readExecutable] makes of the file of scenario S2. *)
Definition main_program_S2 : main.program :=
  {| main.entry := {| main.obj := 1; main.off := 0 |};
     main.stack := {| main.obj := 2; main.off := 128 |};
     main.objects := map main.seg_object main_segs_S2_read |}.
(** An [R_386_PC32] relocation in the data segment of scenario S2, at
    0x20010, to the symbol [func] of the text segment. *)
Definition rel_pc32_data : debug_elf.Rel32 :=
  {| debug_elf.r_Off := 0x20010; debug_elf.r_Info := 0x102 |}.

Definition main_sym_func : main.symbol :=
  {| main.sym_addr := 0x10020; main.sym_ref := {| main.obj := 1; main.off := 0x20 |};
     main.sym_name := "func" |}.

(** The blocks of the program of scenario S1. *)
Definition blocks_S1 : list (list Z) := default [] (module.dumpBlocks prog_S1).

Definition block_S1 (i : nat) : list Z := default [] (blocks_S1 !! i).
(** *** The data pages *)

(** The number of data pages of the objects, as [pagedata.write] counts
    them. *)
Definition data_pages (objs : list module.Object) : Z :=
  foldr (fun obj n => module.pagecount (u32 (Z.of_nat (length (module.Data obj)))) + n)
        0 objs.

(** The bytes of the data pages that are in the file: the blocks of
    [pagedata], end to end. *)
Definition data_area (pd : module.pagedata) : list Z := concat (module.pd_data pd).

(** The state of [pagedata] between two objects: [count] pages, all but the
    last one whole in the file, the last one of [offset] bytes, or whole
    when [offset] is 0. *)
Definition pagedata_inv (pd : module.pagedata) : Prop :=
  0 <= module.pd_offset pd < 4096 /\
  0 <= module.pd_count pd /\
  Z.of_nat (length (data_area pd))
    = 4096 * module.pd_count pd
      - (if module.pd_offset pd =? 0 then 0 else 4096 - module.pd_offset pd).

(** Two objects with data of 10 and of 5 bytes, no fixups. *)
Definition prog_two_objects : module.Program :=
  {| module.Entry := {| module.Obj := 1; module.Off := 0 |};
     module.Stack := {| module.Obj := 2; module.Off := 64 |};
     module.Objects :=
       [ {| module.Flags := 0x2005; module.Size := 10; module.Addr := 0x10000;
            module.Data := repeat 0x90 10; module.Fixups := [] |};
         {| module.Flags := 0x2003; module.Size := 64; module.Addr := 0x20000;
            module.Data := [1; 2; 3; 4; 5]; module.Fixups := [] |} ] |}.

Definition blocks_two_objects : list (list Z) :=
  default [] (module.dumpBlocks prog_two_objects).

Definition block_two_objects (i : nat) : list Z := default [] (blocks_two_objects !! i).

(** *** The records of [fixupdata.write] *)

(** The fixups that the passes of [fixupdata.write] put in page [p]: those
    whose first byte is in the page, in their order. *)
Definition bucket (npage : Z) (fs : list module.Fixup) (p : nat) : list module.Fixup :=
  List.filter (fun f => hits npage f && (Z.to_nat (page_of f) =? p)%nat) fs.

(** A fixup as the last loop writes it: [f.Src -= base], with
    [base := int32(pi << pageBits)]. *)
Definition rebase (pi : nat) (f : module.Fixup) : module.Fixup :=
  {| module.SrcType := module.SrcType f;
     module.Src := i32 (module.Src f - i32 (Z.shiftl (Z.of_nat pi) module.pageBits));
     module.Target := module.Target f; module.Add := module.Add f |}.

(** The records of the fixups [fs] as fixups of page [pi], and the records
    of page [p] of an object with the fixups [fs]. *)
Definition records_of (pi : nat) (fs : list module.Fixup) : list Z :=
  concat (map (fun f => module.appendFixup (rebase pi f) []) fs).

Definition page_records (npage : Z) (fs : list module.Fixup) (p : nat) : list Z :=
  records_of p (bucket npage fs p).

(** The records of the pages [0 .. n - 1]. *)
Definition records_upto (npage : Z) (fs : list module.Fixup) (n : nat) : list Z :=
  concat (map (page_records npage fs) (seq 0 n)).

(** Three fixups of an object of two pages: one in the second page, one in
    the first, and one that starts on the last bytes of the first page. *)
Definition fixups_three : list module.Fixup :=
  [mkFixup 7 0x1010 2 0x20; mkFixup 7 0x10 2 0x12345; mkFixup 8 0xffe 1 4].

(** A fixup that [fixupdata.write] can write and [readFixup] read back: one
    of the two source types, a source offset of 32 bits, a target object
    below 256, a target offset that is not negative, nothing to add. *)
Definition writable (f : module.Fixup) : Prop :=
  (module.SrcType f = module.SrcOffset32 \/ module.SrcType f = module.SrcRelative32) /\
  is_i32 (module.Src f) /\
  0 <= module.Obj (module.Target f) < 256 /\
  0 <= module.Off (module.Target f) < 2 ^ 31 /\
  module.Add f = 0.

(** The state of [fixupdata] between two objects: nothing written yet, or a
    fixup page table whose last entry is the length of the record table. *)
Definition fixupdata_inv (d : module.fixupdata) : Prop :=
  (module.pages d = [] /\ module.records d = []) \/
  exists m : nat,
    length (module.pages d) = (4 * (m + 1))%nat /\
    fixup_page_entry d m = Some (Z.of_nat (length (module.records d))).

(** What [fixupdata.write] returns for these fixups and leaves in a new
    builder. *)
Definition write_three : list Z * module.fixupdata :=
  default ([], fixupdata0) (module.fixupdata_write fixupdata0 8192 fixups_three).

(** The file [file_rels] with a symbol table of two symbols, the second one
    undefined: its section is the null section, at the address 0. *)
Definition file_undefined_symbol : debug_elf.File :=
  {| debug_elf.Class := debug_elf.Class file_rels; debug_elf.Data_ := debug_elf.Data_ file_rels;
     debug_elf.Type_ := debug_elf.Type_ file_rels;
     debug_elf.Machine := debug_elf.Machine file_rels;
     debug_elf.Entry_ := debug_elf.Entry_ file_rels;
     debug_elf.Progs := debug_elf.Progs file_rels;
     debug_elf.Sections := debug_elf.Sections file_rels;
     debug_elf.Symbols :=
       Some [ sym_stack_end_S2;
              {| debug_elf.Name := "undefined"; debug_elf.Value := 0;
                 debug_elf.Section_ := 0 |} ] |}.

Definition sym_undefined : debug_elf.Symbol :=
  {| debug_elf.Name := "undefined"; debug_elf.Value := 0; debug_elf.Section_ := 0 |}.

Definition section_null : debug_elf.Section :=
  {| debug_elf.s_Name := ""; debug_elf.s_Type := 0; debug_elf.s_Addr := 0;
     debug_elf.s_Info := 0; debug_elf.s_Data := Some [] |}.

(** The address [a] is in the range of the segment, its end excluded: the
    test of the first loop of [resolveSymbols]. *)
Definition elf_section_in (seg : elf.segment) (a : Z) : Prop :=
  elf.addr (elf.seg_range seg) <= a
  < u32 (elf.addr (elf.seg_range seg) + elf.size (elf.seg_range seg)).

(** The data segment and the section [.data] of the file [file_rels]. *)
Definition elf_seg_data : elf.segment := default elf_seg_text (elf_segs_rels !! 1%nat).

Definition section_data : debug_elf.Section :=
  default section_null (debug_elf.Sections file_rels !! 2%nat).

(** A fixup of a program of [nobj] objects that is well formed: one of the
    two source types, a target object of the program, nothing to add. *)
Definition valid_fixup (nobj : nat) (fx : main.fixup) : Prop :=
  (main.srcType fx = main.srcOffset32 \/ main.srcType fx = main.srcRelative32) /\
  1 <= main.obj (main.target fx) <= Z.of_nat nobj /\
  main.add fx = 0.

Definition valid_fixups (nobj : nat) (segs : list main.segment) : Prop :=
  forall j s, segs !! j = Some s -> Forall (valid_fixup nobj) (main.o_fixups (main.seg_object s)).

(** The file [file_rels] with a [PT_NOTE] program header before the two
    [PT_LOAD] headers. *)
Definition prog_note : debug_elf.Prog :=
  {| debug_elf.p_Type := debug_elf.PT_NOTE; debug_elf.p_Flags := debug_elf.PF_R;
     debug_elf.p_Vaddr := 0; debug_elf.p_Filesz := 0; debug_elf.p_Memsz := 0;
     debug_elf.p_ReadAt := Some [] |}.

Definition file_note_first : debug_elf.File :=
  {| debug_elf.Class := debug_elf.Class file_rels; debug_elf.Data_ := debug_elf.Data_ file_rels;
     debug_elf.Type_ := debug_elf.Type_ file_rels;
     debug_elf.Machine := debug_elf.Machine file_rels;
     debug_elf.Entry_ := debug_elf.Entry_ file_rels;
     debug_elf.Progs := prog_note :: debug_elf.Progs file_rels;
     debug_elf.Sections := debug_elf.Sections file_rels;
     debug_elf.Symbols := debug_elf.Symbols file_rels |}.

Definition elf_segs_note_first : list elf.segment :=
  match elf.assignSegments file_note_first with
  | Ok segs => segs
  | _ => []
  end.

Definition section_text : debug_elf.Section :=
  default section_null (debug_elf.Sections file_rels !! 1%nat).

Definition sym_func : debug_elf.Symbol :=
  {| debug_elf.Name := "func"; debug_elf.Value := 0x10020; debug_elf.Section_ := 1 |}.

(** The text segment of [file_note_first]: the first segment, with the
    index 1. *)
Definition elf_seg_note_text : elf.segment :=
  default elf_seg_text (elf_segs_note_first !! 0%nat).

(** The offset of the site of a relocation in the object of the segment, as
    [addRelocation] computes it: [int32(rel.Off - seg.addr)]. *)
Definition main_srcOff (rel : debug_elf.Rel32) (seg : main.segment) : Z :=
  i32 (u32 (debug_elf.r_Off rel - main.addr (main.seg_range seg))).

(** A segment of less than 2^31 bytes whose range does not wrap around and
    whose data are as long as the segment. *)
Definition full_segment (s : main.segment) : Prop :=
  0 <= main.addr (main.seg_range s) /\ 0 <= main.size (main.seg_range s) < 2 ^ 31 /\
  main.addr (main.seg_range s) + main.size (main.seg_range s) < 2 ^ 32 /\
  Z.of_nat (length (main.o_data (main.seg_object s))) = main.size (main.seg_range s).

(** A relocation in the zero-filled end of a segment: the data segment of
    scenario S2 with file data of 64 bytes only, and a relocation at its
    byte 100. *)
Definition main_seg_bss : main.segment :=
  {| main.seg_range := {| main.addr := 0x20000; main.size := 128 |};
     main.seg_index := 0; main.seg_prog := prog_data;
     main.seg_object :=
       {| main.o_flags := 0x2003; main.o_size := 128; main.o_addr := 0x20000;
          main.o_data := repeat 0 64; main.o_fixups := [] |} |}.

Definition rel_in_bss : debug_elf.Rel32 :=
  {| debug_elf.r_Off := 0x20064; debug_elf.r_Info := 0x101 |}.

(** * Properties *)

(** ** Machine integers and bytes *)

Lemma u32_small z : 0 <= z < 2 ^ 32 -> u32 z = z.
Proof. intros H. unfold u32. apply Z.mod_small. exact H. Qed.

Lemma i32_small z : - 2 ^ 31 <= z < 2 ^ 31 -> i32 z = z.
Proof. intros H. unfold i32. rewrite Z.mod_small; lia. Qed.

Lemma i32_range z : - 2 ^ 31 <= i32 z < 2 ^ 31.
Proof. unfold i32. pose proof (Z.mod_pos_bound (z + 2 ^ 31) (2 ^ 32)). lia. Qed.

Lemma u32_range z : 0 <= u32 z < 2 ^ 32.
Proof. unfold u32. apply Z.mod_pos_bound. lia. Qed.

Lemma lor_shiftl_add a b n :
  0 <= n -> 0 <= a < 2 ^ n -> Z.lor a (Z.shiftl b n) = a + b * 2 ^ n.
Proof.
  intros Hn Ha.
  assert (Hland : Z.land a (Z.shiftl b n) = 0).
  { apply Z.bits_inj'. intros k Hk. rewrite Z.land_spec, Z.bits_0.
    destruct (Z.lt_ge_cases k n) as [Hlt | Hge].
    - rewrite Z.shiftl_spec_low by lia. apply andb_false_r.
    - destruct (Z.eq_dec a 0) as [-> | Hne].
      + rewrite Z.bits_0. reflexivity.
      + rewrite (Z.bits_above_log2 a k); [reflexivity | lia |].
        apply Z.log2_lt_pow2; [lia |].
        apply Z.lt_le_trans with (2 ^ n); [lia |].
        apply Z.pow_le_mono_r; lia. }
  rewrite <- Z.lxor_lor by exact Hland.
  rewrite <- Z.add_nocarry_lxor by exact Hland.
  rewrite Z.shiftl_mul_pow2 by lia. reflexivity.
Qed.

Lemma Uint16_le16 v : Uint16 (le16 v) = Some (v mod 2 ^ 16).
Proof.
  unfold Uint16, le16, u8. f_equal.
  rewrite lor_shiftl_add; [| lia | apply Z.mod_pos_bound; lia].
  rewrite Z.shiftr_div_pow2 by lia.
  change (2 ^ 16) with (2 ^ 8 * 2 ^ 8).
  rewrite Z.rem_mul_r by lia. lia.
Qed.

(** ** Fixup records *)

Lemma appendFixup_eq (f : module.Fixup) (data : list Z) :
  module.appendFixup f data =
  data ++ [u8 (module.SrcType f);
           (if 0x7fff <? module.Off (module.Target f) then 0x10 else 0)]
       ++ le16 (u16 (module.Src f)) ++ [u8 (module.Obj (module.Target f))]
       ++ (if 0x7fff <? module.Off (module.Target f)
           then le32 (u32 (module.Off (module.Target f)))
           else le16 (u16 (module.Off (module.Target f)))).
Proof.
  unfold module.appendFixup.
  destruct (0x7fff <? module.Off (module.Target f)); reflexivity.
Qed.

Example appendFixup_short :
  module.appendFixup
    {| module.SrcType := 7; module.Src := 4094;
       module.Target := {| module.Obj := 1; module.Off := 0x1234 |}; module.Add := 0 |} [9]
  = [9; 7; 0; 0xFE; 0x0F; 1; 0x34; 0x12].
Proof. reflexivity. Qed.

Example appendFixup_long :
  module.appendFixup
    {| module.SrcType := 8; module.Src := -2;
       module.Target := {| module.Obj := 2; module.Off := 0x12345 |}; module.Add := 0 |} []
  = [8; 0x10; 0xFE; 0xFF; 2; 0x45; 0x23; 0x01; 0].
Proof. reflexivity. Qed.

(** ** The bucket passes of [fixupdata.write] *)

Lemma foldl_bind_None {A B} (g : A -> B -> option A) (l : list B) :
  foldl (fun st x => s ← st; g s x) None l = None.
Proof. induction l as [| x l IH]; simpl; auto. Qed.

Lemma count_offs_eq : module.count_offs = [0].
Proof. reflexivity. Qed.

Lemma assign_offs_eq : module.assign_offs = [0].
Proof. reflexivity. Qed.

Lemma count_fixup_eq npage idxs f :
  module.count_fixup npage idxs f =
  if hits npage f
  then n ← at_ idxs (page_of f); set_at idxs (page_of f) (u32 (n + 1))
  else Some idxs.
Proof. reflexivity. Qed.

Lemma assign_fixup_eq npage idxs assigned f :
  module.assign_fixup npage (idxs, assigned) f =
  if hits npage f
  then idx ← at_ idxs (page_of f);
       idxs ← set_at idxs (page_of f) (u32 (idx + 1));
       assigned ← set_at assigned idx f;
       Some (idxs, assigned)
  else Some (idxs, assigned).
Proof. reflexivity. Qed.

Lemma hits_range npage f :
  hits npage f = true -> 0 <= page_of f < npage.
Proof.
  unfold hits. rewrite andb_true_iff, !Z.ltb_lt. lia.
Qed.

Lemma holds_at n idxs g p :
  holds n idxs g -> 0 <= p < Z.of_nat n -> at_ idxs p = Some (g (Z.to_nat p)).
Proof.
  intros [Hlen Hg] Hp. unfold at_.
  rewrite bool_decide_eq_true_2 by lia. apply Hg. lia.
Qed.

Lemma holds_set_at n idxs g p v :
  holds n idxs g -> 0 <= p < Z.of_nat n ->
  exists idxs', set_at idxs p v = Some idxs' /\
    holds n idxs' (fun q => if (Z.to_nat p =? q)%nat then v else g q).
Proof.
  intros [Hlen Hg] Hp. unfold set_at.
  rewrite bool_decide_eq_true_2 by lia.
  eexists; split; [reflexivity |]. split.
  - rewrite length_insert. exact Hlen.
  - intros q Hq. destruct (Nat.eqb_spec (Z.to_nat p) q) as [<- | Hne].
    + apply list_lookup_insert_eq. lia.
    + rewrite list_lookup_insert_ne by exact Hne. apply Hg, Hq.
Qed.

Lemma holds_ext n idxs g g' :
  holds n idxs g -> (forall p, (p < n)%nat -> g p = g' p) -> holds n idxs g'.
Proof.
  intros [Hlen Hg] Heq. split; [exact Hlen |].
  intros p Hp. rewrite <- Heq by exact Hp. apply Hg, Hp.
Qed.

Lemma cnt_nonneg npage fs p : 0 <= cnt npage fs p.
Proof.
  induction fs as [| f fs IH]; simpl; [lia |].
  destruct (hits npage f && (Z.to_nat (page_of f) =? p)%nat); lia.
Qed.

Lemma cnt_le_length npage fs p : cnt npage fs p <= Z.of_nat (length fs).
Proof.
  induction fs as [| f fs IH]; simpl length; simpl cnt; [lia |].
  destruct (hits npage f && (Z.to_nat (page_of f) =? p)%nat); lia.
Qed.

(** The counting pass adds to each slot the number of fixups of its page. *)
Lemma count_pass_holds npage fs :
  forall idxs g,
    holds (Z.to_nat npage) idxs g ->
    (forall p, (p < Z.to_nat npage)%nat -> 0 <= g p /\ g p + cnt npage fs p < 2 ^ 32) ->
    exists idxs',
      module.count_pass npage fs idxs = Some idxs' /\
      holds (Z.to_nat npage) idxs' (fun p => g p + cnt npage fs p).
Proof.
  unfold module.count_pass.
  induction fs as [| f fs IH]; intros idxs g Hh Hb.
  - exists idxs. split; [reflexivity |].
    eapply holds_ext; [exact Hh |]. intros p _. simpl. lia.
  - simpl foldl. rewrite count_fixup_eq.
    destruct (hits npage f) eqn:Hhit.
    + pose proof (hits_range _ _ Hhit) as Hr.
      assert (Hp : 0 <= page_of f < Z.of_nat (Z.to_nat npage)) by lia.
      rewrite (holds_at _ _ _ _ Hh Hp). simpl.
      destruct (holds_set_at _ _ _ _ (u32 (g (Z.to_nat (page_of f)) + 1)) Hh Hp)
        as (idxs1 & Hset & Hh1).
      rewrite Hset.
      destruct (IH idxs1 _ Hh1) as (idxs' & Hrun & Hh').
      * intros p Hp'. specialize (Hb p Hp'). simpl in Hb. rewrite Hhit in Hb.
        pose proof (cnt_nonneg npage fs p).
        destruct (Nat.eqb_spec (Z.to_nat (page_of f)) p) as [-> | Hne].
        -- rewrite u32_small; simpl in Hb; lia.
        -- simpl in Hb. lia.
      * exists idxs'. split; [exact Hrun |].
        eapply holds_ext; [exact Hh' |]. intros p Hp'. simpl. rewrite Hhit.
        specialize (Hb p Hp'). simpl in Hb. rewrite Hhit in Hb.
        pose proof (cnt_nonneg npage fs p).
        destruct (Nat.eqb_spec (Z.to_nat (page_of f)) p) as [-> | Hne]; simpl in *.
        -- rewrite u32_small; lia.
        -- lia.
    + destruct (IH idxs g Hh) as (idxs' & Hrun & Hh').
      * intros p Hp'. specialize (Hb p Hp'). simpl in Hb. rewrite Hhit in Hb.
        simpl in Hb. lia.
      * exists idxs'. split; [exact Hrun |].
        eapply holds_ext; [exact Hh' |]. intros p Hp'. simpl. rewrite Hhit. simpl. lia.
Qed.

Lemma psum_shift c n : psum c (S n) = c O + psum (fun p => c (S p)) n.
Proof. induction n as [| n IH]; [simpl; lia |]. change (psum c (S (S n))) with (psum c (S n) + c (S n)). rewrite IH. simpl. lia. Qed.

Lemma psum_ext c c' n :
  (forall p, (p < n)%nat -> c p = c' p) -> psum c n = psum c' n.
Proof.
  induction n as [| n IH]; intros H; simpl; [reflexivity |].
  rewrite IH by (intros; apply H; lia). rewrite H by lia. reflexivity.
Qed.

Lemma psum_mono c n m :
  (forall p, 0 <= c p) -> (n <= m)%nat -> psum c n <= psum c m.
Proof.
  intros Hc Hnm. induction Hnm as [| m Hnm IH]; [lia |].
  simpl. specialize (Hc m). lia.
Qed.

Lemma psum_nonneg c n : (forall p, 0 <= c p) -> 0 <= psum c n.
Proof. intros Hc. change 0 with (psum c 0). apply psum_mono; [exact Hc | lia]. Qed.

Lemma psum_cnt_le npage fs n : psum (cnt npage fs) n <= Z.of_nat (length fs).
Proof.
  induction fs as [| f fs IH]; simpl length.
  - induction n as [| n IHn]; simpl in *; lia.
  - assert (Hsplit : forall m,
      psum (cnt npage (f :: fs)) m =
      psum (cnt npage fs) m +
      (if hits npage f && (Z.to_nat (page_of f) <? m)%nat then 1 else 0)).
    { induction m as [| m IHm]; cbn [psum].
      - rewrite andb_false_r. lia.
      - rewrite IHm. cbn [cnt]. destruct (hits npage f); simpl; [| lia].
        destruct (Nat.eqb_spec (Z.to_nat (page_of f)) m),
                 (Nat.ltb_spec (Z.to_nat (page_of f)) m),
                 (Nat.ltb_spec (Z.to_nat (page_of f)) (S m)); lia. }
    rewrite Hsplit.
    destruct (hits npage f && (Z.to_nat (page_of f) <? n)%nat); lia.
Qed.

(** The prefix sums: slot [p] receives the sum of the counts before it. *)
Lemma prefix_sums_holds idxs :
  forall n c t,
    holds n idxs c ->
    (forall p, 0 <= c p) -> 0 <= t -> t + psum c n < 2 ^ 32 ->
    exists idxs',
      module.prefix_sums idxs t = (idxs', t + psum c n) /\
      holds n idxs' (fun p => t + psum c p).
Proof.
  induction idxs as [| x idxs IH]; intros n c t [Hlen Hc] Hpos Ht Hb.
  - simpl in Hlen. subst n. exists []. split; [simpl; f_equal; lia |].
    split; [reflexivity | intros p Hp; lia].
  - simpl in Hlen. destruct n as [| n]; [discriminate |].
    assert (Hx : x = c O).
    { specialize (Hc O ltac:(lia)). simpl in Hc. congruence. }
    subst x. rewrite psum_shift in Hb.
    pose proof (psum_nonneg (fun p => c (S p)) n (fun p => Hpos (S p))) as Hnn.
    pose proof (Hpos O) as H0.
    destruct (IH n (fun p => c (S p)) (t + c O)) as (idxs' & Hrun & Hh').
    + split; [lia |]. intros p Hp. apply (Hc (S p)). lia.
    + intros p. apply Hpos.
    + lia.
    + lia.
    + cbn [module.prefix_sums]. rewrite u32_small by lia. rewrite Hrun.
      exists (t :: idxs'). split.
      * rewrite psum_shift. f_equal. lia.
      * destruct Hh' as [Hlen' Hg']. split; [simpl; lia |].
        intros [| p] Hp.
        -- simpl. f_equal. lia.
        -- change ((t :: idxs') !! S p) with (idxs' !! p).
           rewrite Hg' by lia. rewrite (psum_shift c p). f_equal. lia.
Qed.

Lemma foldl_bind_cons {A B} (g : A -> B -> option A) (s : A) (x : B) (l : list B) :
  foldl (fun st x => s ← st; g s x) (Some s) (x :: l) =
  foldl (fun st x => s ← st; g s x) (g s x) l.
Proof. reflexivity. Qed.

Lemma cnt_cons npage f fs p :
  cnt npage (f :: fs) p =
  (if hits npage f && (Z.to_nat (page_of f) =? p)%nat then 1 else 0) + cnt npage fs p.
Proof. reflexivity. Qed.

Lemma assign_fixup_hit npage idxs assigned g f :
  hits npage f = true ->
  holds (Z.to_nat npage) idxs g ->
  0 <= g (Z.to_nat (page_of f)) < Z.of_nat (length assigned) ->
  exists idxs',
    module.assign_fixup npage (idxs, assigned) f =
      Some (idxs', <[Z.to_nat (g (Z.to_nat (page_of f))) := f]> assigned) /\
    holds (Z.to_nat npage) idxs'
      (fun q => if (Z.to_nat (page_of f) =? q)%nat
                then u32 (g (Z.to_nat (page_of f)) + 1) else g q).
Proof.
  intros Hhit Hh Hg. rewrite assign_fixup_eq, Hhit.
  pose proof (hits_range _ _ Hhit) as Hr.
  assert (Hp : 0 <= page_of f < Z.of_nat (Z.to_nat npage)) by lia.
  rewrite (holds_at _ _ _ _ Hh Hp).
  destruct (holds_set_at _ _ _ _ (u32 (g (Z.to_nat (page_of f)) + 1)) Hh Hp)
    as (idxs1 & Hset & Hh1).
  exists idxs1. split; [| exact Hh1].
  cbn [mbind option_bind]. rewrite Hset. cbn [mbind option_bind].
  unfold set_at. rewrite bool_decide_eq_true_2 by lia. reflexivity.
Qed.

(** The assigning pass stays inside [assigned] and moves each slot from the
    start of its bucket to its end. *)
Lemma assign_pass_holds npage fs :
  forall idxs assigned g,
    holds (Z.to_nat npage) idxs g ->
    Z.of_nat (length assigned) < 2 ^ 32 ->
    (forall p, (p < Z.to_nat npage)%nat ->
               0 <= g p /\ g p + cnt npage fs p <= Z.of_nat (length assigned)) ->
    exists idxs' assigned',
      module.assign_pass npage fs (idxs, assigned) = Some (idxs', assigned') /\
      holds (Z.to_nat npage) idxs' (fun p => g p + cnt npage fs p) /\
      length assigned' = length assigned.
Proof.
  unfold module.assign_pass.
  induction fs as [| f fs IH]; intros idxs assigned g Hh Hlt Hb.
  - exists idxs, assigned. split; [reflexivity |]. split; [| reflexivity].
    eapply holds_ext; [exact Hh |]. intros p _. simpl. lia.
  - rewrite foldl_bind_cons.
    destruct (hits npage f) eqn:Hhit.
    + pose proof (hits_range _ _ Hhit) as Hr.
      remember (Z.to_nat (page_of f)) as k eqn:Ek.
      assert (Hk : 0 <= g k /\ g k + 1 <= Z.of_nat (length assigned)).
      { specialize (Hb k ltac:(lia)). rewrite cnt_cons, Hhit, <- Ek, Nat.eqb_refl in Hb.
        pose proof (cnt_nonneg npage fs k). simpl in Hb. lia. }
      destruct (assign_fixup_hit npage idxs assigned g f Hhit Hh) as (idxs1 & Hstep & Hh1).
      { rewrite <- Ek. lia. }
      rewrite Hstep. rewrite <- Ek in Hh1.
      destruct (IH idxs1 (<[Z.to_nat (g (Z.to_nat (page_of f))) := f]> assigned) _ Hh1)
        as (idxs' & assigned' & Hrun & Hh' & Hlen').
      * rewrite length_insert. exact Hlt.
      * rewrite length_insert. intros p Hp'. specialize (Hb p Hp').
        rewrite cnt_cons, Hhit, <- Ek in Hb.
        pose proof (cnt_nonneg npage fs p).
        destruct (Nat.eqb_spec k p) as [<- | Hne]; simpl in Hb.
        -- rewrite u32_small; lia.
        -- lia.
      * exists idxs', assigned'. split; [exact Hrun |]. split.
        -- eapply holds_ext; [exact Hh' |]. intros p Hp'. cbv beta.
           rewrite cnt_cons, Hhit, <- Ek.
           destruct (Nat.eqb_spec k p) as [<- | Hne]; simpl.
           ++ rewrite u32_small; lia.
           ++ lia.
        -- rewrite Hlen', length_insert. reflexivity.
    + rewrite assign_fixup_eq, Hhit.
      destruct (IH idxs assigned g Hh Hlt) as (idxs' & assigned' & Hrun & Hh' & Hlen').
      * intros p Hp'. specialize (Hb p Hp'). rewrite cnt_cons, Hhit in Hb.
        simpl in Hb. lia.
      * exists idxs', assigned'. split; [exact Hrun |]. split; [| exact Hlen'].
        eapply holds_ext; [exact Hh' |]. intros p Hp'. cbv beta.
        rewrite cnt_cons, Hhit. simpl. lia.
Qed.

(** One page of the writing-out loop. *)
Lemma emit_page_ok assigned st pi idx :
  e_idxs_at st pi = Some idx ->
  0 <= module.e_pos st <= idx -> idx <= Z.of_nat (length assigned) ->
  exists st',
    module.emit_page assigned st pi = Some st' /\
    length (module.e_idxs st') = length (module.e_idxs st) /\
    (forall q, q <> pi -> module.e_idxs st' !! q = module.e_idxs st !! q) /\
    module.e_pos st' = idx /\
    length (module.e_pages st') = (length (module.e_pages st) + 4)%nat.
Proof.
  unfold e_idxs_at. intros Hat Hpos Hidx.
  pose proof (lookup_lt_Some _ _ _ Hat) as Hlt.
  unfold module.emit_page, at_.
  rewrite bool_decide_eq_true_2 by lia. rewrite Nat2Z.id, Hat.
  cbn [mbind option_bind].
  assert (Hset : forall (l : list Z) v, length l = length (module.e_idxs st) ->
            set_at l (Z.of_nat pi) v = Some (<[pi := v]> l)).
  { intros l v Hl. unfold set_at. rewrite bool_decide_eq_true_2 by lia.
    rewrite Nat2Z.id. reflexivity. }
  destruct (module.e_pos st =? idx).
  - rewrite Hset by reflexivity. cbn [mbind option_bind].
    rewrite Hset by (rewrite length_insert; reflexivity). cbn [mbind option_bind].
    unfold slice. rewrite bool_decide_eq_true_2 by lia. cbn [mbind option_bind].
    eexists. split; [reflexivity |]. cbn [module.e_idxs module.e_pos module.e_pages].
    repeat split.
    + rewrite !length_insert. reflexivity.
    + intros q Hq. rewrite !list_lookup_insert_ne by congruence. reflexivity.
    + rewrite length_app. reflexivity.
  - cbn [mbind option_bind].
    rewrite Hset by reflexivity. cbn [mbind option_bind].
    unfold slice. rewrite bool_decide_eq_true_2 by lia. cbn [mbind option_bind].
    eexists. split; [reflexivity |]. cbn [module.e_idxs module.e_pos module.e_pages].
    repeat split.
    + rewrite !length_insert. reflexivity.
    + intros q Hq. rewrite !list_lookup_insert_ne by congruence. reflexivity.
    + rewrite length_app. reflexivity.
Qed.

(** The writing-out loop over the pages [a .. a+n-1]: the bucket ends [E]
    are still in [idxs] from [a] on, they do not decrease, and they stay
    within [assigned]. *)
Lemma emit_loop_ok assigned (E : nat -> Z) :
  forall n a st,
    length (module.e_idxs st) = (a + n)%nat ->
    (forall q, (a <= q < a + n)%nat -> module.e_idxs st !! q = Some (E q)) ->
    (forall q q', (a <= q <= q')%nat -> (q' < a + n)%nat -> E q <= E q') ->
    (forall q, (a <= q < a + n)%nat ->
               module.e_pos st <= E q <= Z.of_nat (length assigned)) ->
    0 <= module.e_pos st ->
    exists st',
      foldl (fun st pi => st ← st; module.emit_page assigned st pi) (Some st) (seq a n)
        = Some st' /\
      length (module.e_idxs st') = (a + n)%nat /\
      length (module.e_pages st') = (length (module.e_pages st) + 4 * n)%nat.
Proof.
  induction n as [| n IH]; intros a st Hlen Hidx Hmono Hb Hpos.
  - exists st. split; [reflexivity |]. split; [exact Hlen | lia].
  - cbn [seq]. rewrite foldl_bind_cons.
    destruct (emit_page_ok assigned st a (E a)) as (st1 & Hstep & Hlen1 & Hkeep & Hpos1 & Hpg1).
    + apply Hidx. lia.
    + specialize (Hb a ltac:(lia)). lia.
    + specialize (Hb a ltac:(lia)). lia.
    + rewrite Hstep.
      destruct (IH (S a) st1) as (st' & Hrun & Hlen' & Hpg').
      * rewrite Hlen1. lia.
      * intros q Hq. rewrite Hkeep by lia. apply Hidx. lia.
      * intros q q' Hq Hq'. apply Hmono; lia.
      * intros q Hq. rewrite Hpos1. split.
        -- apply Hmono; lia.
        -- apply (Hb q). lia.
      * rewrite Hpos1. specialize (Hb a ltac:(lia)). lia.
      * exists st'. split; [exact Hrun |]. split; [lia |]. lia.
Qed.

(** ** [fixupdata.write] never panics *)

Lemma pagecount_range size : 0 <= module.pagecount size < 2 ^ 20.
Proof.
  unfold module.pagecount, module.pageBits.
  pose proof (u32_range (size + module.pageSize - 1)) as H.
  rewrite Z.shiftr_div_pow2 by lia. split.
  - apply Z.div_pos; lia.
  - apply Z.div_lt_upper_bound; lia.
Qed.

Lemma npage_of_nonneg size fs : 0 <= npage_of size fs.
Proof.
  unfold npage_of. pose proof (pagecount_range size) as H.
  rewrite (i32_small (module.pagecount size)) by lia.
  destruct (Z.ltb_spec (module.pagecount size)
              (i32 (Z.shiftr (module.maxOff_of fs) module.pageBits + 1))); lia.
Qed.

Lemma holds_repeat n : holds n (repeat 0 n) (fun _ => 0).
Proof.
  split; [apply repeat_length |].
  induction n as [| n IH]; intros p Hp; [lia |].
  destruct p as [| p]; [reflexivity |]. apply IH. lia.
Qed.

Lemma slice_all {A} (l : list A) n :
  Z.of_nat (length l) = n -> slice l 0 n = Some l.
Proof.
  intros <-. unfold slice. rewrite bool_decide_eq_true_2 by lia.
  rewrite Z.sub_0_r, Nat2Z.id. change (Z.to_nat 0) with O. rewrite drop_0.
  rewrite take_ge by reflexivity. reflexivity.
Qed.

(** The number of indexes [write] returns, from the size and the fixups. *)
Lemma fixupdata_write_total d size fs :
  Z.of_nat (length fs) < 2 ^ 32 ->
  exists idxs d',
    module.fixupdata_write d size fs = Some (idxs, d') /\
    if (size =? 0) || (module.maxOff_of fs <? 0)
    then idxs = [] /\ d' = d
    else length idxs = Z.to_nat (npage_of size fs) /\
         length (module.pages d') =
           ((if (Z.of_nat (length (module.pages d)) =? 0)%Z then 4
             else length (module.pages d)) + 4 * Z.to_nat (npage_of size fs))%nat.
Proof.
  intros Hfs. unfold module.fixupdata_write.
  destruct (size =? 0) eqn:Hsz; [exists [], d; split; [reflexivity | split; reflexivity] |].
  cbv zeta.
  destruct (module.maxOff_of fs <? 0) eqn:Hmax;
    [exists [], d; split; [reflexivity | split; reflexivity] |].
  cbn [orb]. fold (npage_of size fs).
  pose proof (npage_of_nonneg size fs) as Hnp.
  set (npage := npage_of size fs) in *.
  set (c := fun p => 0 + cnt npage fs p).
  (* counting pass *)
  destruct (count_pass_holds npage fs (repeat 0 (Z.to_nat npage)) (fun _ => 0))
    as (idxs1 & Hcount & Hh1).
  { apply holds_repeat. }
  { intros p _. pose proof (cnt_le_length npage fs p). lia. }
  rewrite Hcount. cbn [mbind option_bind].
  rewrite slice_all by (destruct Hh1 as [-> _]; lia). cbn [mbind option_bind].
  (* prefix sums *)
  assert (Hc : forall p, 0 <= c p).
  { intros p. unfold c. pose proof (cnt_nonneg npage fs p). lia. }
  assert (Hsum : psum c (Z.to_nat npage) = psum (cnt npage fs) (Z.to_nat npage)).
  { apply psum_ext. intros p _. unfold c. lia. }
  pose proof (psum_cnt_le npage fs (Z.to_nat npage)) as Hle.
  destruct (prefix_sums_holds idxs1 (Z.to_nat npage) c 0 Hh1 Hc) as (idxs2 & Hpre & Hh2);
    [lia | lia |].
  rewrite Hpre.
  pose proof (psum_nonneg c (Z.to_nat npage) Hc) as Htot.
  set (total := 0 + psum c (Z.to_nat npage)) in *.
  (* assigning pass *)
  destruct (assign_pass_holds npage fs idxs2 (repeat module.zeroFixup (Z.to_nat total))
              (fun p => 0 + psum c p) Hh2) as (idxs3 & assigned & Hassign & Hh3 & Hlen3).
  { rewrite repeat_length. lia. }
  { intros p Hp. rewrite repeat_length.
    pose proof (psum_nonneg c p Hc).
    pose proof (psum_mono c (S p) (Z.to_nat npage) Hc ltac:(lia)) as Hm.
    simpl in Hm. unfold c in Hm at 2. lia. }
  rewrite Hassign. cbn [mbind option_bind].
  rewrite repeat_length in Hlen3.
  (* writing out *)
  set (pages0 := if Z.of_nat (length (module.pages d)) =? 0 then repeat 0 4
                 else module.pages d).
  set (st0 := {| module.e_idxs := idxs3; module.e_pages := pages0;
                 module.e_records := module.records d; module.e_pos := 0 |}).
  assert (HE : forall p, 0 + psum c p + cnt npage fs p = psum c (S p)).
  { intros p. simpl. unfold c at 3. lia. }
  destruct (emit_loop_ok assigned (fun p => psum c (S p)) (Z.to_nat npage) 0 st0)
    as (st' & Hemit & Hlen' & Hpg').
  { unfold st0. cbn [module.e_idxs]. destruct Hh3 as [Hl _]. exact Hl. }
  { intros q Hq. destruct Hh3 as [_ Hg]. unfold st0. cbn [module.e_idxs].
    rewrite Hg by lia. rewrite HE. reflexivity. }
  { intros q q' Hq Hq'. apply psum_mono; [exact Hc | lia]. }
  { intros q Hq. unfold st0. cbn [module.e_pos]. split.
    - apply psum_nonneg, Hc.
    - rewrite Hlen3. pose proof (psum_mono c (S q) (Z.to_nat npage) Hc ltac:(lia)). lia. }
  { unfold st0. cbn [module.e_pos]. lia. }
  unfold module.emit_pass. fold pages0. fold st0.
  replace (length (module.e_idxs st0)) with (Z.to_nat npage)
    by (unfold st0; cbn [module.e_idxs]; destruct Hh3 as [Hl _]; symmetry; exact Hl).
  rewrite Hemit. cbn [mbind option_bind].
  eexists _, _. split; [reflexivity |]. cbn [module.pages]. split.
  - rewrite Hlen'. reflexivity.
  - rewrite Hpg'. unfold st0. cbn [module.e_pages]. unfold pages0.
    destruct (Z.of_nat (length (module.pages d)) =? 0); reflexivity.
Qed.

(** ** The object table and the object page table *)

Lemma page_slots_length (fixup : list Z) :
  forall pg,
    length (fold_left (fun pg idx => pg ++ [0; u8 (Z.shiftr idx 8); u8 (Z.land idx 0xff); 0])
                      fixup pg)
    = (length pg + 4 * length fixup)%nat.
Proof.
  induction fixup as [| idx fixup IH]; intros pg; simpl fold_left.
  - simpl. lia.
  - rewrite IH, length_app. simpl. lia.
Qed.

(** [objdata.write] appends one record of 24 bytes, whose field at +16 is the
    number of indexes, and four bytes of page table for each index. *)
Lemma objdata_write_spec d obj fixup first count :
  exists rec,
    module.object (module.objdata_write d obj fixup first count) = module.object d ++ rec /\
    length rec = 24%nat /\
    field rec 16 = le32 (u32 (Z.of_nat (length fixup))) /\
    length (module.page (module.objdata_write d obj fixup first count))
      = (length (module.page d) + 4 * length fixup)%nat /\
    (fixup = [] ->
       module.page (module.objdata_write d obj fixup first count) = module.page d /\
       field rec 12 = le32 0).
Proof.
  unfold module.objdata_write. destruct fixup as [| idx fixup].
  - eexists. cbn [length Z.of_nat Z.eqb negb module.object module.page].
    split; [reflexivity |]. split; [reflexivity |]. split; [reflexivity |].
    split; [rewrite Nat.mul_0_r, Nat.add_0_r; reflexivity |].
    intros _. split; reflexivity.
  - assert (Hne : negb (Z.of_nat (length (idx :: fixup)) =? 0) = true).
    { apply negb_true_iff, Z.eqb_neq. simpl length. lia. }
    rewrite Hne. eexists. cbn [module.object module.page].
    split; [reflexivity |]. split; [reflexivity |]. split; [reflexivity |].
    split; [apply page_slots_length | intros H; discriminate].
Qed.

(** ** The data pages *)

Lemma land_page_range x : 0 <= Z.land x (module.pageSize - 1) < module.pageSize.
Proof.
  change (module.pageSize - 1) with (Z.ones 12). rewrite Z.land_ones by lia.
  change module.pageSize with (2 ^ 12). apply Z.mod_pos_bound. lia.
Qed.

Lemma pagedata_write_total d data :
  0 <= module.pd_offset d < module.pageSize ->
  exists first count d',
    module.pagedata_write d data = Some (first, count, d') /\
    0 <= module.pd_offset d' < module.pageSize /\
    (module.pagecount (u32 (Z.of_nat (length data))) <> 0 ->
       module.pd_offset d' = Z.land (u32 (Z.of_nat (length data))) (module.pageSize - 1)) /\
    (module.pagecount (u32 (Z.of_nat (length data))) = 0 -> d' = d).
Proof.
  intros Hoff. unfold module.pagedata_write.
  destruct (Z.eqb_spec (module.pagecount (u32 (Z.of_nat (length data)))) 0) as [Heq | Hne];
    cbn [negb].
  - eexists _, _, _. split; [reflexivity |]. split; [exact Hoff |].
    split; [intros H; contradiction | reflexivity].
  - destruct (module.pd_offset d =? 0); cbn [negb mbind option_bind].
    + eexists _, _, _. split; [reflexivity |]. cbn [module.pd_offset].
      split; [apply land_page_range |]. split; [reflexivity | intros H; contradiction].
    + unfold slice_from. rewrite bool_decide_eq_true_2.
      * cbn [mbind option_bind]. eexists _, _, _. split; [reflexivity |].
        cbn [module.pd_offset].
        split; [apply land_page_range |]. split; [reflexivity | intros H; contradiction].
      * unfold module.zeropage. rewrite repeat_length.
        unfold module.pageSize in *. lia.
Qed.

Lemma maxOff_fold_ge fs :
  forall m,
    m <= fold_left module.maxOff_step fs m /\
    forall f, f ∈ fs -> i32 (module.Src f + 3) <= fold_left module.maxOff_step fs m.
Proof.
  induction fs as [| g fs IH]; intros m; cbn [fold_left].
  - split; [lia |]. intros f Hf. inversion Hf.
  - assert (Hm : m <= module.maxOff_step m g /\
                 i32 (module.Src g + 3) <= module.maxOff_step m g).
    { unfold module.maxOff_step. cbv zeta.
      destruct (Z.ltb_spec m (i32 (module.Src g + 3))); lia. }
    destruct (IH (module.maxOff_step m g)) as [Hge Hin]. split; [lia |].
    intros f Hf. apply elem_of_cons in Hf as [-> | Hf]; [lia | apply Hin, Hf].
Qed.

Lemma maxOff_of_ge fs f : f ∈ fs -> i32 (module.Src f + 3) <= module.maxOff_of fs.
Proof. intros Hf. apply (maxOff_fold_ge fs (-1)), Hf. Qed.

Lemma maxOff_of_lt fs : module.maxOff_of fs < 2 ^ 31.
Proof.
  unfold module.maxOff_of.
  assert (Hgen : forall fs m, m < 2 ^ 31 -> fold_left module.maxOff_step fs m < 2 ^ 31).
  { clear fs. induction fs as [| f fs IH]; intros m Hm; cbn [fold_left]; [exact Hm |].
    apply IH. unfold module.maxOff_step. cbv zeta.
    pose proof (i32_range (module.Src f + 3)).
    destruct (m <? i32 (module.Src f + 3)); lia. }
  apply Hgen. lia.
Qed.

(** ** The loop of [dumpBlocks] over the objects *)

Lemma slots_of_length d obj idxs d' :
  Z.of_nat (length (module.Fixups obj)) < 2 ^ 32 ->
  module.fixupdata_write d (module.Size obj) (module.Fixups obj) = Some (idxs, d') ->
  length idxs = slots_of obj /\
  (slots_of obj = 0%nat -> d' = d).
Proof.
  intros Hb Hw.
  destruct (fixupdata_write_total d (module.Size obj) (module.Fixups obj) Hb)
    as (idxs0 & d0 & Hw0 & Hspec).
  rewrite Hw in Hw0. injection Hw0 as <- <-. unfold slots_of.
  destruct ((module.Size obj =? 0) || (module.maxOff_of (module.Fixups obj) <? 0)) eqn:He.
  - destruct Hspec as [-> ->]. split; [reflexivity | intros _; reflexivity].
  - destruct Hspec as [Hlen _]. split; [exact Hlen |].
    intros H0. exfalso.
    apply orb_false_iff in He as [_ Hmax]. apply Z.ltb_ge in Hmax.
    assert (1 <= npage_of (module.Size obj) (module.Fixups obj)); [| lia].
    unfold npage_of. pose proof (pagecount_range (module.Size obj)) as Hpc.
    pose proof (i32_range (module.maxOff_of (module.Fixups obj) ≫ module.pageBits + 1)).
    assert (Hn : 1 <= i32 (module.maxOff_of (module.Fixups obj) ≫ module.pageBits + 1)).
    { pose proof (maxOff_of_lt (module.Fixups obj)) as Hm.
      unfold module.pageBits. rewrite Z.shiftr_div_pow2 by lia.
      assert (0 <= module.maxOff_of (module.Fixups obj) / 2 ^ 12 < 2 ^ 19).
      { split; [apply Z.div_pos; lia | apply Z.div_lt_upper_bound; lia]. }
      rewrite i32_small; lia. }
    destruct (Z.ltb_spec (i32 (module.pagecount (module.Size obj)))
                (i32 (module.maxOff_of (module.Fixups obj) ≫ module.pageBits + 1))); lia.
Qed.

Lemma dump_object_total od fd pd obj :
  0 <= module.pd_offset pd < module.pageSize ->
  Z.of_nat (length (module.Fixups obj)) < 2 ^ 32 ->
  exists od' fd' pd' rec,
    module.dump_object (od, fd, pd) obj = Some (od', fd', pd') /\
    0 <= module.pd_offset pd' < module.pageSize /\
    module.object od' = module.object od ++ rec /\
    length rec = 24%nat /\
    field rec 16 = le32 (u32 (Z.of_nat (slots_of obj))) /\
    length (module.page od') = (length (module.page od) + 4 * slots_of obj)%nat /\
    (slots_of obj = 0%nat ->
       module.page od' = module.page od /\ fd' = fd /\ field rec 12 = le32 0) /\
    (module.pagecount (u32 (Z.of_nat (length (module.Data obj)))) <> 0 ->
       module.pd_offset pd' =
         Z.land (u32 (Z.of_nat (length (module.Data obj)))) (module.pageSize - 1)) /\
    (module.pagecount (u32 (Z.of_nat (length (module.Data obj)))) = 0 -> pd' = pd).
Proof.
  intros Hoff Hb. unfold module.dump_object.
  destruct (pagedata_write_total pd (module.Data obj) Hoff)
    as (first & count & pd' & Hpd & Hoff' & Hne & Heq).
  rewrite Hpd. cbn [mbind option_bind].
  destruct (fixupdata_write_total fd (module.Size obj) (module.Fixups obj) Hb)
    as (idxs & fd' & Hfd & _).
  rewrite Hfd. cbn [mbind option_bind].
  destruct (slots_of_length _ _ _ _ Hb Hfd) as [Hlen Hzero].
  destruct (objdata_write_spec od obj idxs first count)
    as (rec & Hobj & Hrec & Hf16 & Hpage & Hnil).
  exists (module.objdata_write od obj idxs first count), fd', pd', rec.
  split; [reflexivity |]. split; [exact Hoff' |]. split; [exact Hobj |].
  split; [exact Hrec |]. rewrite Hlen in Hf16, Hpage.
  split; [exact Hf16 |]. split; [exact Hpage |].
  split; [| split; assumption].
  intros H0. rewrite H0 in Hlen. apply nil_length_inv in Hlen.
  destruct (Hnil Hlen) as [Hp Hf12]. split; [exact Hp |]. split; [exact (Hzero H0) | exact Hf12].
Qed.

Lemma dump_fold_total objs :
  forall od fd pd,
    0 <= module.pd_offset pd < module.pageSize ->
    Forall (fun obj => Z.of_nat (length (module.Fixups obj)) < 2 ^ 32) objs ->
    exists od' fd' pd' recs,
      foldl (fun st obj => st ← st; module.dump_object st obj) (Some (od, fd, pd)) objs
        = Some (od', fd', pd') /\
      0 <= module.pd_offset pd' < module.pageSize /\
      module.object od' = module.object od ++ concat recs /\
      Forall2 record_ok objs recs /\
      length (module.page od') = (length (module.page od) + 4 * slot_sum objs)%nat /\
      (slot_sum objs = 0%nat -> module.page od' = module.page od /\ fd' = fd).
Proof.
  induction objs as [| obj objs IH]; intros od fd pd Hoff Hall.
  - exists od, fd, pd, []. split; [reflexivity |]. split; [exact Hoff |].
    split; [simpl; rewrite app_nil_r; reflexivity |]. split; [constructor |].
    split; [simpl; lia | intros _; split; reflexivity].
  - inversion Hall as [| ? ? Hobj Hrest]; subst.
    rewrite foldl_bind_cons.
    destruct (dump_object_total od fd pd obj Hoff Hobj)
      as (od1 & fd1 & pd1 & rec & Hstep & Hoff1 & Hobj1 & Hlen & Hf16 & Hpage1 & Hzero1 & _).
    rewrite Hstep.
    destruct (IH od1 fd1 pd1 Hoff1 Hrest)
      as (od' & fd' & pd' & recs & Hrun & Hoff' & Hobj' & Hrecs & Hpage' & Hzero').
    exists od', fd', pd', (rec :: recs). split; [exact Hrun |]. split; [exact Hoff' |].
    split; [rewrite Hobj', Hobj1; simpl; rewrite app_assoc; reflexivity |].
    split.
    { constructor; [| exact Hrecs]. split; [exact Hlen |]. split; [exact Hf16 |].
      intros H0. apply (Hzero1 H0). }
    split; [rewrite Hpage', Hpage1; simpl; lia |].
    intros H0. simpl in H0.
    assert (Ha : slots_of obj = 0%nat) by lia.
    assert (Hb : slot_sum objs = 0%nat) by lia.
    destruct (Hzero' Hb) as [-> ->]. destruct (Hzero1 Ha) as (-> & -> & _).
    split; reflexivity.
Qed.

Lemma field_concat objs recs :
  Forall2 record_ok objs recs ->
  forall i obj, objs !! i = Some obj ->
    field (concat recs) (24 * i + 16) = le32 (u32 (Z.of_nat (slots_of obj))).
Proof.
  unfold field.
  induction 1 as [| obj0 rec objs recs (Hlen & Hf16 & _) Hrest IH]; intros i obj Hi.
  - discriminate.
  - destruct i as [| i]; simpl in Hi.
    + injection Hi as <-. simpl concat. rewrite drop_app_le by (simpl; lia).
      rewrite take_app_le by (rewrite length_drop; simpl; lia). exact Hf16.
    + simpl concat. rewrite drop_app_ge by lia.
      replace (24 * S i + 16 - length rec)%nat with (24 * i + 16)%nat by lia.
      apply IH, Hi.
Qed.

(** ** The blocks of [dumpBlocks] *)

Lemma datawriter_fold (blocks : list (list Z)) :
  forall w, module.dw_data (foldl module.datawriter_write w blocks)
            = module.dw_data w ++ blocks.
Proof.
  induction blocks as [| b blocks IH]; intros w; simpl.
  - rewrite app_nil_r. reflexivity.
  - rewrite IH. simpl. rewrite <- app_assoc. reflexivity.
Qed.

(** The output is the header, the four tables and the data blocks; the
    header carries [pagedata.offset] at 0x2c and the sizes and offsets of the
    sections. *)
Lemma dumpBlocks_blocks p od fd pd :
  module.dump_objects p = Some (od, fd, pd) ->
  exists h,
    module.dumpBlocks p =
      Some (h :: module.object od :: module.page od :: module.pages fd
              :: module.records fd :: module.pd_data pd) /\
    length h = 0xac%nat /\
    field h 0x2c = le32 (module.pd_offset pd) /\
    field h 0x30 =
      le32 (u32 (u32 (u32 (u32 (u32 (u32 (0 + 0xac) + Z.of_nat (length (module.object od)))
                                 + Z.of_nat (length (module.page od)))
                            + Z.of_nat (length (module.pages fd)))
                       + Z.of_nat (length (module.records fd)))
                 - u32 (u32 (u32 (0 + 0xac) + Z.of_nat (length (module.object od)))
                        + Z.of_nat (length (module.page od))))).
Proof.
  intros Hd. unfold module.dumpBlocks. rewrite Hd. cbn [mbind option_bind].
  eexists. split.
  - f_equal. rewrite datawriter_fold. reflexivity.
  - split; [reflexivity |]. split; reflexivity.
Qed.

(** ** The claims about the serializer *)

(** C10. [appendFixup] sets flag 0x10 and writes the 32-bit target offset
    (a record of 9 bytes) only when [Target.Off > 0x7fff] as signed 32-bit
    integers; otherwise the record has 7 bytes, flag 0 and the low 16 bits of
    the offset. A negative offset is therefore written in the short form, and
    the 16-bit field read back is [off mod 2^16], which is not negative: the
    sign is lost. *)
Theorem appendFixup_long_form_only_above_7fff (f : module.Fixup) (data : list Z) :
  let off := module.Off (module.Target f) in
  exists flags tail,
    module.appendFixup f data =
      data ++ [u8 (module.SrcType f); flags] ++ le16 (u16 (module.Src f))
           ++ [u8 (module.Obj (module.Target f))] ++ tail /\
    (0x7fff < off -> flags = 0x10 /\ tail = le32 (u32 off) /\ length tail = 4%nat) /\
    (off <= 0x7fff -> flags = 0 /\ tail = le16 (u16 off) /\ length tail = 2%nat) /\
    (off < 0 ->
       flags = 0 /\ tail = le16 (off mod 2 ^ 16) /\
       Uint16 tail = Some (off mod 2 ^ 16) /\ 0 <= off mod 2 ^ 16 /\ off mod 2 ^ 16 <> off).
Proof.
  intros off. rewrite appendFixup_eq. fold off.
  destruct (Z.ltb_spec 0x7fff off) as [Hlong | Hshort].
  - eexists _, _. split; [reflexivity |]. split; [| split]; intros H; try lia.
    split; [reflexivity |]. split; reflexivity.
  - eexists _, _. split; [reflexivity |]. split; [| split]; intros H; try lia.
    + split; [reflexivity |]. split; reflexivity.
    + split; [reflexivity |]. split; [reflexivity |].
      split; [rewrite Uint16_le16; unfold u16; rewrite Z.mod_mod by lia; reflexivity |].
      pose proof (Z.mod_pos_bound off (2 ^ 16)). lia.
Qed.

Lemma appendFixup_long_form_only_above_7fff_witness :
  exists flags tail,
    module.appendFixup (mkFixup 8 16 2 (-4)) [] =
      [] ++ [u8 8; flags] ++ le16 (u16 16) ++ [u8 2] ++ tail /\
    (0x7fff < -4 -> flags = 0x10 /\ tail = le32 (u32 (-4)) /\ length tail = 4%nat) /\
    (-4 <= 0x7fff -> flags = 0 /\ tail = le16 (u16 (-4)) /\ length tail = 2%nat) /\
    (-4 < 0 ->
       flags = 0 /\ tail = le16 ((-4) mod 2 ^ 16) /\
       Uint16 tail = Some ((-4) mod 2 ^ 16) /\ 0 <= (-4) mod 2 ^ 16 /\ (-4) mod 2 ^ 16 <> -4).
Proof. exact (appendFixup_long_form_only_above_7fff (mkFixup 8 16 2 (-4)) []). Defined.

(** The reader of this repository decodes the short form of a negative
    offset as a positive one. *)
Example readFixup_negative_offset :
  module.readFixup (module.appendFixup (mkFixup 8 16 2 (-4)) [])
  = inr (7%nat, mkFixup 8 16 2 0xfffc).
Proof. reflexivity. Qed.

(** C1. [fixupdata.write] on scenario S5, an object of 8192 bytes with one
    fixup at 4094 whose bytes lie in the pages 0 and 1: the code writes one
    record, in the bucket of page 0 with [src = 4094 = 0x0ffe], and the
    bucket of page 1 is empty. The record with [src = -2] that the claim
    expects in page 1 is not written: both bucket loops run with [off = 0]
    only. *)
Theorem straddling_fixup_written_once :
  module.count_offs = [0] /\ module.assign_offs = [0] /\
  exists idxs d,
    module.fixupdata_write fixupdata0 (module.Size obj_S5) (module.Fixups obj_S5)
      = Some (idxs, d) /\
    idxs = [1; 2] /\
    module.records d = [7; 0; 0xfe; 0x0f; 1; 0; 0] /\
    bucket_records d 0 = Some [7; 0; 0xfe; 0x0f; 1; 0; 0] /\
    bucket_records d 1 = Some [].
Proof.
  split; [reflexivity |]. split; [reflexivity |].
  eexists _, _. split; [vm_compute; reflexivity |].
  split; [reflexivity |]. split; [reflexivity |]. split; reflexivity.
Qed.

(** C3. [dumpBlocks] on a program whose only object has 4096 bytes of data,
    so that the last data page is exactly full: the header field at 0x2c is
    0, which is outside [1, PAGE_SIZE]; the claim says 4096. *)
Theorem last_page_size_zero_when_full :
  exists h blocks,
    module.dumpBlocks prog_full_page = Some (h :: blocks) /\
    field h 0x14 = le32 1 /\
    field h 0x2c = le32 0 /\
    field h 0x2c <> le32 module.pageSize.
Proof.
  eexists _, _. split; [vm_compute; reflexivity |].
  split; [reflexivity |]. split; [reflexivity |]. vm_compute. discriminate.
Qed.

(** Where the data of the last object with data do not end on a page
    boundary, the field is the number of bytes on the last page. *)
Example last_page_size_S1 :
  exists h blocks,
    module.dumpBlocks prog_S1 = Some (h :: blocks) /\ field h 0x2c = le32 64.
Proof. eexists _, _. split; [vm_compute; reflexivity | reflexivity]. Qed.

Lemma slots_of_no_fixups obj : module.Fixups obj = [] -> slots_of obj = 0%nat.
Proof.
  intros H. unfold slots_of. rewrite H. change (module.maxOff_of []) with (-1).
  rewrite orb_true_r. reflexivity.
Qed.

(** The page of every fixup has an index. *)
Lemma slots_of_covers_fixup obj f :
  f ∈ module.Fixups obj -> module.Size obj <> 0 ->
  0 <= module.Src f -> module.Src f + 3 < 2 ^ 31 ->
  0 <= page_of f < Z.of_nat (slots_of obj).
Proof.
  intros Hf Hsz H0 H3.
  pose proof (maxOff_of_ge _ _ Hf) as Hmax. rewrite i32_small in Hmax by lia.
  pose proof (maxOff_of_lt (module.Fixups obj)) as Hlt.
  unfold slots_of.
  destruct (Z.eqb_spec (module.Size obj) 0) as [? | _]; [contradiction |].
  destruct (Z.ltb_spec (module.maxOff_of (module.Fixups obj)) 0) as [? | _]; [lia |].
  cbn [orb].
  pose proof (npage_of_nonneg (module.Size obj) (module.Fixups obj)) as Hnn.
  rewrite Z2Nat.id by exact Hnn.
  unfold page_of, module.pageBits. rewrite Z.add_0_r, i32_small by lia.
  rewrite Z.shiftr_div_pow2 by lia.
  assert (Hdiv : module.Src f / 2 ^ 12 <= module.maxOff_of (module.Fixups obj) / 2 ^ 12).
  { apply Z.div_le_mono; lia. }
  assert (Hq : 0 <= module.maxOff_of (module.Fixups obj) / 2 ^ 12 < 2 ^ 19).
  { split; [apply Z.div_pos; lia | apply Z.div_lt_upper_bound; lia]. }
  split; [apply Z.div_pos; lia |].
  unfold npage_of, module.pageBits. rewrite Z.shiftr_div_pow2 by lia.
  rewrite (i32_small (_ / _ + 1)) by lia.
  destruct (Z.ltb_spec (i32 (module.pagecount (module.Size obj)))
              (module.maxOff_of (module.Fixups obj) / 2 ^ 12 + 1)); lia.
Qed.

Lemma records_length objs recs :
  Forall2 record_ok objs recs -> length (concat recs) = (24 * length objs)%nat.
Proof.
  induction 1 as [| obj rec objs recs (Hlen & _) _ IH]; [reflexivity |].
  simpl concat. rewrite length_app, IH, Hlen. simpl length. lia.
Qed.

(** C2, as the code has it. For every program (whose fixup lists have fewer
    than 2^32 entries) the loop of [dumpBlocks] runs without a panic; the
    object page table gets four bytes for each index that [fixupdata.write]
    returns for an object, and the field at +16 of the record of the object
    (page_table_entries) is that number of indexes. That number is 0 for an
    object without fixups; for an object with a size it is greater than the
    page number of every fixup (at an offset from 0 to 2^31 - 4): the indexes
    are for the pages from page 0 on, so that a page without fixups that
    comes before a page with a fixup gets a slot too. *)
Theorem object_page_table_slots (p : module.Program) :
  Forall (fun obj => Z.of_nat (length (module.Fixups obj)) < 2 ^ 32) (module.Objects p) ->
  exists od fd pd,
    module.dump_objects p = Some (od, fd, pd) /\
    block p 1 = Some (module.object od) /\
    block p 2 = Some (module.page od) /\
    length (module.object od) = (24 * length (module.Objects p))%nat /\
    length (module.page od) = (4 * slot_sum (module.Objects p))%nat /\
    forall i obj, module.Objects p !! i = Some obj ->
      field (module.object od) (24 * i + 16) = le32 (u32 (Z.of_nat (slots_of obj))) /\
      (module.Fixups obj = [] -> slots_of obj = 0%nat) /\
      (forall f, f ∈ module.Fixups obj -> module.Size obj <> 0 ->
                 0 <= module.Src f -> module.Src f + 3 < 2 ^ 31 ->
                 0 <= page_of f < Z.of_nat (slots_of obj)).
Proof.
  intros Hall.
  destruct (dump_fold_total (module.Objects p)
              {| module.object := []; module.page := [] |}
              {| module.pages := []; module.records := [] |}
              {| module.pd_count := 0; module.pd_offset := 0; module.pd_data := [] |})
    as (od & fd & pd & recs & Hrun & _ & Hobj & Hrecs & Hpage & _).
  { cbn [module.pd_offset]. unfold module.pageSize. lia. }
  { exact Hall. }
  cbn [module.object module.page app length Nat.add] in Hobj, Hpage.
  assert (Hd : module.dump_objects p = Some (od, fd, pd)) by exact Hrun.
  destruct (dumpBlocks_blocks p od fd pd Hd) as (h & Hblocks & _).
  exists od, fd, pd. split; [exact Hd |].
  split; [unfold block; rewrite Hblocks; reflexivity |].
  split; [unfold block; rewrite Hblocks; reflexivity |].
  split; [rewrite Hobj; apply records_length, Hrecs |].
  split; [exact Hpage |].
  intros i obj Hi. split; [rewrite Hobj; apply (field_concat _ _ Hrecs), Hi |].
  split; [apply slots_of_no_fixups |].
  apply slots_of_covers_fixup.
Qed.

Lemma object_page_table_slots_witness :
  Forall (fun obj => Z.of_nat (length (module.Fixups obj)) < 2 ^ 32)
         (module.Objects prog_second_page) /\
  exists od fd pd,
    module.dump_objects prog_second_page = Some (od, fd, pd) /\
    block prog_second_page 1 = Some (module.object od) /\
    block prog_second_page 2 = Some (module.page od) /\
    length (module.object od) = (24 * length (module.Objects prog_second_page))%nat /\
    length (module.page od) = (4 * slot_sum (module.Objects prog_second_page))%nat /\
    forall i obj, module.Objects prog_second_page !! i = Some obj ->
      field (module.object od) (24 * i + 16) = le32 (u32 (Z.of_nat (slots_of obj))) /\
      (module.Fixups obj = [] -> slots_of obj = 0%nat) /\
      (forall f, f ∈ module.Fixups obj -> module.Size obj <> 0 ->
                 0 <= module.Src f -> module.Src f + 3 < 2 ^ 31 ->
                 0 <= page_of f < Z.of_nat (slots_of obj)).
Proof.
  assert (H : Forall (fun obj => Z.of_nat (length (module.Fixups obj)) < 2 ^ 32)
                     (module.Objects prog_second_page)).
  { repeat constructor. }
  split; [exact H | exact (object_page_table_slots prog_second_page H)].
Defined.

(** C2, as the claim states it, fails: an object of two pages whose only
    fixup is in the second page has one page with fixups, and gets two slots
    of the object page table and page_table_entries = 2. *)
Lemma object_page_table_slots_counterexample :
  spec_pages_with_fixups obj_second_page = 1%nat /\
  exists od fd pd,
    module.dump_objects prog_second_page = Some (od, fd, pd) /\
    module.page od = [0; 0; 1; 0; 0; 0; 2; 0] /\
    length (module.page od) <> (4 * spec_pages_with_fixups obj_second_page)%nat /\
    field (module.object od) 16 = le32 2 /\
    field (module.object od) 16
      <> le32 (Z.of_nat (spec_pages_with_fixups obj_second_page)).
Proof.
  split; [reflexivity |].
  eexists _, _, _. split; [vm_compute; reflexivity |].
  split; [reflexivity |]. split; [vm_compute; lia |].
  split; [reflexivity |]. vm_compute. discriminate.
Qed.

Lemma slot_sum_no_fixups objs :
  Forall (fun obj => module.Fixups obj = []) objs -> slot_sum objs = 0%nat.
Proof.
  induction 1 as [| obj objs Hobj _ IH]; [reflexivity |].
  simpl. rewrite (slots_of_no_fixups obj Hobj), IH. reflexivity.
Qed.

Lemma u32_idem z : u32 (u32 z + 0) = u32 z.
Proof. rewrite Z.add_0_r. unfold u32. apply Z.mod_mod. lia. Qed.

(** C4, as the code has it. When no object has a fixup, [fixupdata.write]
    returns before it touches the tables: the object page table, the fixup
    page table and the fixup records are all empty (there is no zero entry
    and no sentinel), and the fixup section size at 0x30 of the header is
    0. *)
Theorem no_fixups_empty_fixup_section (p : module.Program) :
  Forall (fun obj => module.Fixups obj = []) (module.Objects p) ->
  exists h objtab datablocks,
    module.dumpBlocks p = Some (h :: objtab :: [] :: [] :: [] :: datablocks) /\
    length objtab = (24 * length (module.Objects p))%nat /\
    block p 3 = Some [] /\
    block p 4 = Some [] /\
    field h 0x30 = le32 0.
Proof.
  intros Hnone.
  destruct (dump_fold_total (module.Objects p)
              {| module.object := []; module.page := [] |}
              {| module.pages := []; module.records := [] |}
              {| module.pd_count := 0; module.pd_offset := 0; module.pd_data := [] |})
    as (od & fd & pd & recs & Hrun & _ & Hobj & Hrecs & _ & Hzero).
  { cbn [module.pd_offset]. unfold module.pageSize. lia. }
  { eapply Forall_impl; [exact Hnone |]. intros obj ->. simpl. lia. }
  destruct (Hzero (slot_sum_no_fixups _ Hnone)) as [Hpage Hfd].
  cbn [module.object module.page app] in Hobj, Hpage. subst fd.
  assert (Hd : module.dump_objects p = Some (od, _, pd)) by exact Hrun.
  destruct (dumpBlocks_blocks p od _ pd Hd) as (h & Hblocks & _ & _ & Hsize).
  rewrite Hpage in Hblocks, Hsize. cbn [module.pages module.records] in Hblocks, Hsize.
  exists h, (module.object od), (module.pd_data pd).
  split; [exact Hblocks |].
  split; [rewrite Hobj; apply records_length, Hrecs |].
  split; [unfold block; rewrite Hblocks; reflexivity |].
  split; [unfold block; rewrite Hblocks; reflexivity |].
  rewrite Hsize. cbn [length Z.of_nat]. rewrite !u32_idem.
  rewrite Z.sub_diag. reflexivity.
Qed.

Lemma no_fixups_empty_fixup_section_witness :
  Forall (fun obj => module.Fixups obj = []) (module.Objects prog_S1) /\
  exists h objtab datablocks,
    module.dumpBlocks prog_S1 = Some (h :: objtab :: [] :: [] :: [] :: datablocks) /\
    length objtab = (24 * length (module.Objects prog_S1))%nat /\
    block prog_S1 3 = Some [] /\
    block prog_S1 4 = Some [] /\
    field h 0x30 = le32 0.
Proof.
  assert (H : Forall (fun obj => module.Fixups obj = []) (module.Objects prog_S1)).
  { repeat constructor. }
  split; [exact H | exact (no_fixups_empty_fixup_section prog_S1 H)].
Defined.

(** C4, as the claim states it, fails on scenario S1: the fixup page table
    of the output is empty, where the claim has [page_count(64) = 1] zero
    entry and a sentinel; it is not a lone sentinel either. *)
Lemma no_fixups_empty_fixup_section_counterexample :
  Forall (fun obj => module.Fixups obj = []) (module.Objects prog_S1) /\
  block prog_S1 3 = Some [] /\
  block prog_S1 3 <> Some (spec_empty_fixup_page_table prog_S1) /\
  block prog_S1 3 <> Some (le32 0).
Proof.
  split; [repeat constructor |]. split; [vm_compute; reflexivity |].
  split; vm_compute; discriminate.
Qed.

(** * The relocation translator (package main) *)

Lemma find_containing_Some segs :
  forall i0 y i s,
    main.find_containing segs i0 y = Some (i, s) ->
    (i0 <= i)%nat /\ segs !! (i - i0)%nat = Some s /\
    main.contains (main.seg_range s) y = true /\
    forall j s', (j < i - i0)%nat -> segs !! j = Some s' ->
                 main.contains (main.seg_range s') y = false.
Proof.
  induction segs as [| s0 segs IH]; intros i0 y i s H; simpl in H; [discriminate |].
  destruct (main.contains (main.seg_range s0) y) eqn:Hc.
  - injection H as <- <-. rewrite Nat.sub_diag. split; [lia |]. split; [reflexivity |].
    split; [exact Hc |]. intros j s' Hj. lia.
  - destruct (IH _ _ _ _ H) as (Hle & Hlook & Hcs & Hbefore).
    split; [lia |].
    replace (i - i0)%nat with (S (i - S i0)) by lia.
    split; [exact Hlook |]. split; [exact Hcs |].
    intros [| j] s' Hj Hs'; simpl in Hs'.
    + injection Hs' as <-. exact Hc.
    + apply (Hbefore j s'); [lia | exact Hs'].
Qed.

Lemma find_containing_None segs :
  forall i0 y,
    (forall s, s ∈ segs -> main.contains (main.seg_range s) y = false) ->
    main.find_containing segs i0 y = None.
Proof.
  induction segs as [| s0 segs IH]; intros i0 y H; simpl; [reflexivity |].
  rewrite (H s0) by (left). apply IH. intros s Hs. apply H. right. exact Hs.
Qed.

Lemma find_containing_first segs :
  forall i0 y i s,
    segs !! i = Some s -> main.contains (main.seg_range s) y = true ->
    (forall j s', (j < i)%nat -> segs !! j = Some s' ->
                  main.contains (main.seg_range s') y = false) ->
    main.find_containing segs i0 y = Some ((i0 + i)%nat, s).
Proof.
  induction segs as [| s0 segs IH]; intros i0 y i s Hi Hc Hbefore; [discriminate |].
  destruct i as [| i]; simpl in Hi |- *.
  - injection Hi as <-. rewrite Hc. rewrite Nat.add_0_r. reflexivity.
  - rewrite (Hbefore O s0) by (lia || reflexivity).
    replace (i0 + S i)%nat with (S i0 + i)%nat by lia.
    apply IH; [exact Hi | exact Hc |].
    intros j s' Hj Hs'. apply (Hbefore (S j) s'); [lia | exact Hs'].
Qed.

(** What a call of [addRelocation] that returns nil has done: nothing, or
    appended one fixup to the object of the first segment that contains the
    site, after it has read the value at the site. *)
Lemma addRelocation_Ok rel segs syms segs' :
  main.addRelocation rel segs syms = Ok segs' ->
  segs' = segs \/
  exists i seg sym val srcType fixOff,
    main.find_containing segs 0 (site rel) = Some (i, seg) /\
    i32 (Z.of_nat i + 1) <> 0 /\
    at_ syms (Z.shiftr (debug_elf.r_Info rel) 8 - 1) = Some sym /\
    main.obj (main.sym_ref sym) <> 0 /\
    (b ← slice_from (main.o_data (main.seg_object seg))
                    (i32 (u32 (debug_elf.r_Off rel - main.addr (main.seg_range seg))));
     Uint32 b) = Some val /\
    ((Z.land (debug_elf.r_Info rel) 0xff = debug_elf.R_386_32 /\
      srcType = main.srcOffset32 /\
      fixOff = i32 (main.off (main.sym_ref sym) + i32 (u32 (val - main.sym_addr sym))))
     \/
     (Z.land (debug_elf.r_Info rel) 0xff = debug_elf.R_386_PC32 /\
      srcType = main.srcRelative32 /\
      main.obj (main.sym_ref sym) <> i32 (Z.of_nat i + 1) /\
      fixOff = i32 (main.off (main.sym_ref sym)
                    + i32 (u32 (val + debug_elf.r_Off rel + 4 - main.sym_addr sym))))) /\
    segs' = main.append_fixup segs i
              (mk_fixup srcType
                 (i32 (u32 (debug_elf.r_Off rel - main.addr (main.seg_range seg))))
                 (main.obj (main.sym_ref sym)) fixOff).
Proof.
  unfold main.addRelocation. fold (site rel).
  destruct (main.find_containing segs 0 (site rel)) as [[i seg] |] eqn:Hfind;
    [| intros H; injection H as <-; left; reflexivity].
  destruct (Z.eqb_spec (i32 (Z.of_nat i + 1)) 0) as [Hz | Hnz];
    [intros H; injection H as <-; left; reflexivity |].
  destruct ((Z.shiftr (debug_elf.r_Info rel) 8 =? 0)
            || (u32 (Z.of_nat (length syms)) <? Z.shiftr (debug_elf.r_Info rel) 8));
    [discriminate |].
  destruct (at_ syms (Z.shiftr (debug_elf.r_Info rel) 8 - 1)) as [sym |] eqn:Hsym;
    [| discriminate].
  cbn [must bind].
  destruct (Z.eqb_spec (main.obj (main.sym_ref sym)) 0) as [Ho | Ho]; [discriminate |].
  destruct (slice_from (main.o_data (main.seg_object seg))
              (i32 (u32 (debug_elf.r_Off rel - main.addr (main.seg_range seg))))
            ≫= Uint32) as [val |] eqn:Hval; [| discriminate].
  cbn [must bind].
  destruct (Z.eqb_spec (Z.land (debug_elf.r_Info rel) 0xff) debug_elf.R_386_32) as [H32 | H32].
  - cbn [bind]. intros H. injection H as <-. right.
    eexists i, seg, sym, val, main.srcOffset32, _.
    repeat (split; [first [reflexivity | assumption] |]).
    split; [left; repeat split; assumption | reflexivity].
  - destruct (Z.eqb_spec (Z.land (debug_elf.r_Info rel) 0xff) debug_elf.R_386_PC32)
      as [Hpc | Hpc]; [| discriminate].
    destruct (Z.eqb_spec (main.obj (main.sym_ref sym)) (i32 (Z.of_nat i + 1))) as [Hs | Hs].
    + cbn [bind]. intros H. injection H as <-. left. reflexivity.
    + cbn [bind]. intros H. injection H as <-. right.
      eexists i, seg, sym, val, main.srcRelative32, _.
      repeat (split; [first [reflexivity | assumption] |]).
      split; [right; repeat split; assumption | reflexivity].
Qed.

Lemma read_site_bounds (data : list Z) k val :
  (b ← slice_from data k; Uint32 b) = Some val ->
  0 <= k /\ k + 4 <= Z.of_nat (length data).
Proof.
  unfold slice_from. destruct (bool_decide (0 <= k <= Z.of_nat (length data))) eqn:Hk;
    [| discriminate].
  apply bool_decide_eq_true_1 in Hk. cbn [mbind option_bind]. intros Hu.
  assert (Hlen : (4 <= length (drop (Z.to_nat k) data))%nat).
  { destruct (drop (Z.to_nat k) data) as [| b0 [| b1 [| b2 [| b3 rest]]]];
      try discriminate. simpl. lia. }
  rewrite length_drop in Hlen. lia.
Qed.

Lemma u32_le z : 0 <= z -> u32 z <= z.
Proof. intros Hz. unfold u32. apply Z.mod_le; lia. Qed.

Lemma contains_site_src rel seg val :
  is_u32 (debug_elf.r_Off rel) ->
  wf_segment seg ->
  main.contains (main.seg_range seg) (site rel) = true ->
  (b ← slice_from (main.o_data (main.seg_object seg))
                  (i32 (u32 (debug_elf.r_Off rel - main.addr (main.seg_range seg))));
   Uint32 b) = Some val ->
  i32 (u32 (debug_elf.r_Off rel - main.addr (main.seg_range seg)))
    = debug_elf.r_Off rel - main.addr (main.seg_range seg) /\
  0 <= debug_elf.r_Off rel - main.addr (main.seg_range seg) /\
  debug_elf.r_Off rel - main.addr (main.seg_range seg) + 4
    <= Z.of_nat (length (main.o_data (main.seg_object seg))) /\
  u32 (debug_elf.r_Off rel + 4)
    <= u32 (main.addr (main.seg_range seg) + main.size (main.seg_range seg)).
Proof.
  intros HO (HA & HS & _) Hc Hread. unfold is_u32 in *.
  unfold main.contains, site in Hc. cbn [main.addr main.size] in Hc.
  apply andb_true_iff in Hc as [Hc1 Hc2]. apply Z.leb_le in Hc1, Hc2.
  apply read_site_bounds in Hread as [H0 H4].
  rewrite (u32_small (debug_elf.r_Off rel - main.addr (main.seg_range seg)))
    in H0, H4 |- * by lia.
  assert (Hsrc : debug_elf.r_Off rel - main.addr (main.seg_range seg) < 2 ^ 31).
  { destruct (Z.lt_ge_cases (debug_elf.r_Off rel - main.addr (main.seg_range seg)) (2 ^ 31))
      as [Hlt | Hge]; [exact Hlt |].
    exfalso. unfold i32 in H0.
    replace (debug_elf.r_Off rel - main.addr (main.seg_range seg) + 2 ^ 31)
      with (debug_elf.r_Off rel - main.addr (main.seg_range seg) - 2 ^ 31 + 1 * 2 ^ 32)
      in H0 by lia.
    rewrite Z_mod_plus_full, Z.mod_small in H0 by lia. lia. }
  rewrite i32_small in H4 |- * by lia. repeat split; lia.
Qed.

(** C8. A relocation whose four bytes no segment contains is skipped: nil is
    returned and nothing is appended. A fixup that [addRelocation] appends
    goes to the object of a segment that contains [[offset, offset + 4)],
    with [src = offset - base], [0 <= src] and
    [src + 4 <= size of that object]. The segments are those of
    [readLoadSegment]; the end [offset + 4] of the interval is a 32-bit
    address, or the data of the objects are no longer than their size. *)
Theorem fixup_src_within_object
    (rel : debug_elf.Rel32) (segs : list main.segment) (syms : list main.symbol) :
  Forall wf_segment segs ->
  is_u32 (debug_elf.r_Off rel) ->
  debug_elf.r_Off rel + 4 < 2 ^ 32 \/
  Forall (fun s => Z.of_nat (length (main.o_data (main.seg_object s)))
                   <= main.size (main.seg_range s)) segs ->
  ((forall s, s ∈ segs -> main.contains (main.seg_range s) (site rel) = false) ->
   main.addRelocation rel segs syms = Ok segs) /\
  (forall segs',
     main.addRelocation rel segs syms = Ok segs' ->
     segs' = segs \/
     exists i s fx,
       segs !! i = Some s /\
       main.contains (main.seg_range s) (site rel) = true /\
       segs' = main.append_fixup segs i fx /\
       main.src fx = debug_elf.r_Off rel - main.addr (main.seg_range s) /\
       0 <= main.src fx /\
       main.src fx + 4 <= main.o_size (main.seg_object s)).
Proof.
  intros Hwf HO Hcase. split.
  - intros Hnone. unfold main.addRelocation. fold (site rel).
    rewrite (find_containing_None segs 0 (site rel) Hnone). reflexivity.
  - intros segs' Hok.
    destruct (addRelocation_Ok _ _ _ _ Hok)
      as [-> | (i & seg & sym & val & srcType & fixOff & Hfind & _ & _ & _ & Hread & _ & ->)];
      [left; reflexivity | right].
    destruct (find_containing_Some _ _ _ _ _ Hfind) as (_ & Hi & Hc & _).
    rewrite Nat.sub_0_r in Hi.
    assert (Hseg : wf_segment seg).
    { rewrite Forall_forall in Hwf. apply Hwf. eapply list_elem_of_lookup_2, Hi. }
    destruct (contains_site_src rel seg val HO Hseg Hc Hread) as (Hsrc & H0 & H4 & Hend).
    eexists i, seg, _. split; [exact Hi |]. split; [exact Hc |]. split; [reflexivity |].
    cbn [mk_fixup main.src]. rewrite Hsrc. split; [reflexivity |]. split; [exact H0 |].
    destruct Hseg as (HA & HS & ->). unfold is_u32 in *.
    destruct Hcase as [Hend4 | Hdata].
    + rewrite (u32_small (debug_elf.r_Off rel + 4)) in Hend by lia.
      pose proof (u32_le (main.addr (main.seg_range seg) + main.size (main.seg_range seg))).
      lia.
    + rewrite Forall_forall in Hdata.
      specialize (Hdata seg (list_elem_of_lookup_2 _ _ _ Hi)). simpl in Hdata. lia.
Qed.

Example main_S2_converts :
  exists p, main.readExecutable file_S2 = Ok p /\
    main.entry p = {| main.obj := 1; main.off := 0 |} /\
    main.stack p = {| main.obj := 2; main.off := 128 |} /\
    map main.o_fixups (main.objects p) = [[mk_fixup 7 16 2 16]; []].
Proof. eexists. split; [vm_compute; reflexivity |]. repeat split. Qed.

Lemma fixup_src_within_object_witness :
  (Forall wf_segment main_segs_S2 /\
   is_u32 (debug_elf.r_Off rel_S2) /\
   (debug_elf.r_Off rel_S2 + 4 < 2 ^ 32 \/
    Forall (fun s => Z.of_nat (length (main.o_data (main.seg_object s)))
                     <= main.size (main.seg_range s)) main_segs_S2)) /\
  ((forall s, s ∈ main_segs_S2 -> main.contains (main.seg_range s) (site rel_S2) = false) ->
   main.addRelocation rel_S2 main_segs_S2 main_syms_S2 = Ok main_segs_S2) /\
  (forall segs',
     main.addRelocation rel_S2 main_segs_S2 main_syms_S2 = Ok segs' ->
     segs' = main_segs_S2 \/
     exists i s fx,
       main_segs_S2 !! i = Some s /\
       main.contains (main.seg_range s) (site rel_S2) = true /\
       segs' = main.append_fixup main_segs_S2 i fx /\
       main.src fx = debug_elf.r_Off rel_S2 - main.addr (main.seg_range s) /\
       0 <= main.src fx /\
       main.src fx + 4 <= main.o_size (main.seg_object s)).
Proof.
  assert (Hwf : Forall wf_segment main_segs_S2).
  { repeat constructor; vm_compute; intuition discriminate. }
  assert (HO : is_u32 (debug_elf.r_Off rel_S2)).
  { vm_compute. intuition discriminate. }
  assert (Hend : debug_elf.r_Off rel_S2 + 4 < 2 ^ 32) by (vm_compute; reflexivity).
  split; [split; [exact Hwf | split; [exact HO | left; exact Hend]] |].
  exact (fixup_src_within_object rel_S2 main_segs_S2 main_syms_S2 Hwf HO (or_introl Hend)).
Defined.

(** ** Address resolution *)

Lemma hasAddr_iff x a :
  main.hasAddr x a = true <->
  main.addr x <= a <= u32 (main.addr x + main.size x).
Proof.
  unfold main.hasAddr. rewrite andb_true_iff, !Z.leb_le. reflexivity.
Qed.

Lemma resolveAddr_from_first segs :
  forall i0 a k s,
    segs !! k = Some s ->
    main.hasAddr (main.seg_range s) a = true ->
    (forall j s', (j < k)%nat -> segs !! j = Some s' ->
                  main.hasAddr (main.seg_range s') a = false) ->
    main.resolveAddr_from segs i0 a =
      {| main.obj := i32 (i0 + Z.of_nat k + 1);
         main.off := i32 (u32 (a - main.addr (main.seg_range s))) |}.
Proof.
  induction segs as [| s0 segs IH]; intros i0 a k s Hk Hh Hbefore; [discriminate |].
  destruct k as [| k]; simpl in Hk |- *.
  - injection Hk as <-. rewrite Hh. rewrite Z.add_0_r. reflexivity.
  - rewrite (Hbefore O s0) by (lia || reflexivity).
    rewrite (IH (i0 + 1) a k s Hk Hh).
    + f_equal. f_equal. lia.
    + intros j s' Hj Hs'. apply (Hbefore (S j) s'); [lia | exact Hs'].
Qed.

Lemma find_stack_fold syms :
  forall stack,
    fold_left (fun stack sym =>
                 if String.eqb (main.sym_name sym) "_stack_end"
                 then main.sym_ref sym else stack) syms stack
    = if forallb (fun sym => negb (String.eqb (main.sym_name sym) "_stack_end")) syms
      then stack
      else main.find_stack syms.
Proof.
  unfold main.find_stack.
  induction syms as [| sym syms IH]; intros stack; simpl; [reflexivity |].
  rewrite (IH (if String.eqb (main.sym_name sym) "_stack_end" then main.sym_ref sym
               else stack)).
  rewrite (IH (if String.eqb (main.sym_name sym) "_stack_end" then main.sym_ref sym
               else {| main.obj := 0; main.off := 0 |})).
  destruct (String.eqb (main.sym_name sym) "_stack_end"); simpl; [reflexivity |].
  destruct (forallb _ syms); reflexivity.
Qed.

(** The last symbol named [_stack_end] gives the stack. *)
Lemma find_stack_last pre sym post :
  main.sym_name sym = "_stack_end" ->
  Forall (fun s' => main.sym_name s' <> "_stack_end") post ->
  main.find_stack (pre ++ sym :: post) = main.sym_ref sym.
Proof.
  intros Hname Hpost. unfold main.find_stack.
  rewrite fold_left_app. cbn [fold_left]. rewrite Hname. cbn [String.eqb].
  change (if (("_stack_end" =? "_stack_end")%string) then main.sym_ref sym else
          fold_left _ pre _) with (main.sym_ref sym).
  rewrite find_stack_fold.
  replace (forallb (fun sym0 => negb (String.eqb (main.sym_name sym0) "_stack_end")) post)
    with true; [reflexivity |].
  symmetry. apply forallb_forall. intros s' Hs'.
  rewrite Forall_forall in Hpost. apply negb_true_iff, String.eqb_neq, Hpost.
  apply list_elem_of_In. exact Hs'.
Qed.

(** C9. [hasAddr] has an inclusive upper bound: [x.hasAddr(a)] holds iff
    [addr <= a <= addr + size] (the sum being that of the code, a 32-bit
    one). So the address one past the end of a segment whose range does not
    wrap resolves to that segment, with [off = size], when no segment before
    it in the list has the address. When the last symbol named [_stack_end]
    has that address and the other steps of [readExecutable] succeed, the
    conversion succeeds and the stack of the program is
    [(index of the object, size)]. *)
Theorem stack_end_at_segment_end
    (f : debug_elf.File) (segs segs' : list main.segment) (syms : list main.symbol)
    (k : nat) (s : main.segment)
    (pre post : list debug_elf.Symbol) (sym : debug_elf.Symbol) :
  debug_elf.Class f = debug_elf.ELFCLASS32 ->
  debug_elf.Data_ f = debug_elf.ELFDATA2LSB ->
  debug_elf.Type_ f = debug_elf.ET_EXEC ->
  debug_elf.Machine f = debug_elf.EM_386 ->
  main.assignSegments f = Ok segs ->
  main.obj (main.resolveAddr segs (u32 (debug_elf.Entry_ f))) <> 0 ->
  debug_elf.Symbols f = Some (pre ++ sym :: post) ->
  debug_elf.Name sym = "_stack_end" ->
  Forall (fun s' => debug_elf.Name s' <> "_stack_end") post ->
  main.resolveSymbols f segs = Ok syms ->
  main.readSections f segs syms = Ok segs' ->
  segs !! k = Some s ->
  Z.of_nat k + 1 < 2 ^ 31 ->
  0 <= main.addr (main.seg_range s) ->
  0 <= main.size (main.seg_range s) < 2 ^ 31 ->
  main.addr (main.seg_range s) + main.size (main.seg_range s) < 2 ^ 32 ->
  u32 (debug_elf.Value sym) = main.addr (main.seg_range s) + main.size (main.seg_range s) ->
  (forall j s', (j < k)%nat -> segs !! j = Some s' ->
     main.hasAddr (main.seg_range s')
       (main.addr (main.seg_range s) + main.size (main.seg_range s)) = false) ->
  (forall x a, main.hasAddr x a = true <->
               main.addr x <= a <= u32 (main.addr x + main.size x)) /\
  main.hasAddr (main.seg_range s)
    (main.addr (main.seg_range s) + main.size (main.seg_range s)) = true /\
  main.resolveAddr segs (main.addr (main.seg_range s) + main.size (main.seg_range s))
    = {| main.obj := Z.of_nat k + 1; main.off := main.size (main.seg_range s) |} /\
  main.readExecutable f =
    Ok {| main.entry := main.resolveAddr segs (u32 (debug_elf.Entry_ f));
          main.stack := {| main.obj := Z.of_nat k + 1;
                           main.off := main.size (main.seg_range s) |};
          main.objects := map main.seg_object segs' |}.
Proof.
  intros Hclass Hdata Htype Hmach Hsegs Hentry Hsyms Hname Hpost Hres Hsec
         Hk Hk31 HA HS Hnowrap Hval Hfirst.
  assert (Hhas : main.hasAddr (main.seg_range s)
            (main.addr (main.seg_range s) + main.size (main.seg_range s)) = true).
  { apply hasAddr_iff. rewrite u32_small by lia. lia. }
  assert (Hresolve :
    main.resolveAddr segs (main.addr (main.seg_range s) + main.size (main.seg_range s))
    = {| main.obj := Z.of_nat k + 1; main.off := main.size (main.seg_range s) |}).
  { unfold main.resolveAddr. rewrite (resolveAddr_from_first segs 0 _ k s Hk Hhas Hfirst).
    f_equal.
    - rewrite Z.add_0_l. apply i32_small. lia.
    - replace (main.addr (main.seg_range s) + main.size (main.seg_range s)
               - main.addr (main.seg_range s)) with (main.size (main.seg_range s)) by lia.
      rewrite u32_small by lia. apply i32_small. lia. }
  split; [apply hasAddr_iff |]. split; [exact Hhas |]. split; [exact Hresolve |].
  unfold main.readExecutable.
  rewrite Hclass, Hdata, Htype, Hmach, !Z.eqb_refl. cbn [negb].
  rewrite Hsegs. cbn [bind].
  destruct (Z.eqb_spec (main.obj (main.resolveAddr segs (u32 (debug_elf.Entry_ f)))) 0)
    as [He | _]; [contradiction |].
  rewrite Hres. cbn [bind].
  assert (Hstack : main.find_stack syms
            = {| main.obj := Z.of_nat k + 1; main.off := main.size (main.seg_range s) |}).
  { unfold main.resolveSymbols in Hres. rewrite Hsyms in Hres. injection Hres as <-.
    rewrite map_app. cbn [map].
    rewrite find_stack_last.
    - cbn [main.sym_ref]. rewrite Hval. exact Hresolve.
    - exact Hname.
    - apply Forall_fmap. eapply Forall_impl; [exact Hpost |]. intros s' Hs'. exact Hs'. }
  rewrite Hstack. cbn [main.obj].
  destruct (Z.eqb_spec (Z.of_nat k + 1) 0) as [Hz | _]; [lia |].
  rewrite Hsec. reflexivity.
Qed.

Lemma stack_end_at_segment_end_witness :
  (forall x a, main.hasAddr x a = true <->
               main.addr x <= a <= u32 (main.addr x + main.size x)) /\
  main.hasAddr (main.seg_range main_seg_data_S2)
    (main.addr (main.seg_range main_seg_data_S2)
     + main.size (main.seg_range main_seg_data_S2)) = true /\
  main.resolveAddr main_segs_S2
    (main.addr (main.seg_range main_seg_data_S2)
     + main.size (main.seg_range main_seg_data_S2))
    = {| main.obj := Z.of_nat 1 + 1;
         main.off := main.size (main.seg_range main_seg_data_S2) |} /\
  main.readExecutable file_S2 =
    Ok {| main.entry := main.resolveAddr main_segs_S2 (u32 (debug_elf.Entry_ file_S2));
          main.stack := {| main.obj := Z.of_nat 1 + 1;
                           main.off := main.size (main.seg_range main_seg_data_S2) |};
          main.objects := map main.seg_object main_segs_S2_read |}.
Proof.
  apply (stack_end_at_segment_end file_S2 main_segs_S2 main_segs_S2_read main_syms_S2
           1 main_seg_data_S2 [sym_data_start_S2] [] sym_stack_end_S2).
  - reflexivity.
  - reflexivity.
  - reflexivity.
  - reflexivity.
  - vm_compute. reflexivity.
  - vm_compute. discriminate.
  - reflexivity.
  - reflexivity.
  - constructor.
  - vm_compute. reflexivity.
  - vm_compute. reflexivity.
  - vm_compute. reflexivity.
  - vm_compute. reflexivity.
  - vm_compute. discriminate.
  - vm_compute. split; [discriminate | reflexivity].
  - vm_compute. reflexivity.
  - vm_compute. reflexivity.
  - intros j s' Hj Hs'. destruct j as [| j]; [| lia].
    vm_compute in Hs'. injection Hs' as <-. vm_compute. reflexivity.
Defined.

(** * The relocation translator (package elf) *)

Example elf_file_rels_converts :
  exists p, elf.ConvertToLELX file_rels = Ok p /\
    module_go.PHeader p =
      {| module_go.EIP := {| module.Obj := 1; module.Off := 0 |};
         module_go.ESP := {| module.Obj := 2; module.Off := 128 |} |} /\
    map module_go.Fixups (module_go.Objects p)
      = [[mkFixup 7 16 2 16]; [mkFixup 8 16 1 65556]].
Proof. eexists. split; [vm_compute; reflexivity |]. split; reflexivity. Qed.

Lemma elf_find_containing_Some segs :
  forall i0 y i s,
    elf.find_containing segs i0 y = Some (i, s) ->
    (i0 <= i)%nat /\ segs !! (i - i0)%nat = Some s /\
    elf.contains (elf.seg_range s) y = true /\
    forall j s', (j < i - i0)%nat -> segs !! j = Some s' ->
                 elf.contains (elf.seg_range s') y = false.
Proof.
  induction segs as [| s0 segs IH]; intros i0 y i s H; simpl in H; [discriminate |].
  destruct (elf.contains (elf.seg_range s0) y) eqn:Hc.
  - injection H as <- <-. rewrite Nat.sub_diag. split; [lia |]. split; [reflexivity |].
    split; [exact Hc |]. intros j s' Hj. lia.
  - destruct (IH _ _ _ _ H) as (Hle & Hlook & Hcs & Hbefore).
    split; [lia |].
    replace (i - i0)%nat with (S (i - S i0)) by lia.
    split; [exact Hlook |]. split; [exact Hcs |].
    intros [| j] s' Hj Hs'; simpl in Hs'.
    + injection Hs' as <-. exact Hc.
    + apply (Hbefore j s'); [lia | exact Hs'].
Qed.

Lemma elf_find_containing_first segs :
  forall i0 y i s,
    segs !! i = Some s -> elf.contains (elf.seg_range s) y = true ->
    (forall j s', (j < i)%nat -> segs !! j = Some s' ->
                  elf.contains (elf.seg_range s') y = false) ->
    elf.find_containing segs i0 y = Some ((i0 + i)%nat, s).
Proof.
  induction segs as [| s0 segs IH]; intros i0 y i s Hi Hc Hbefore; [discriminate |].
  destruct i as [| i]; simpl in Hi |- *.
  - injection Hi as <-. rewrite Hc. rewrite Nat.add_0_r. reflexivity.
  - rewrite (Hbefore O s0) by (lia || reflexivity).
    replace (i0 + S i)%nat with (S i0 + i)%nat by lia.
    apply IH; [exact Hi | exact Hc |].
    intros j s' Hj Hs'. apply (Hbefore (S j) s'); [lia | exact Hs'].
Qed.

Lemma objAbsolute_eq : elf.objAbsolute = 0x7FFFFFFF.
Proof. reflexivity. Qed.

(** What a call of [addRelocation] of package elf that returns nil has
    done. *)
Lemma elf_addRelocation_Ok rel segs syms segs' :
  elf.addRelocation rel segs syms = Ok segs' ->
  segs' = segs \/
  exists i seg sym val srcType fixOff,
    elf.find_containing segs 0 (elf_site rel) = Some (i, seg) /\
    i32 (Z.of_nat i + 1) <> 0 /\
    at_ syms (rel_sym rel - 1) = Some sym /\
    module.Obj (elf.sym_ref sym) <> 0 /\
    module.Obj (elf.sym_ref sym) <> elf.objAbsolute /\
    elf_read_site rel seg = Some val /\
    ((rel_type rel = debug_elf.R_386_32 /\
      srcType = module.SrcOffset32 /\
      fixOff = i32 (module.Off (elf.sym_ref sym) + i32 (u32 (val - elf.sym_addr sym))))
     \/
     (rel_type rel = debug_elf.R_386_PC32 /\
      srcType = module.SrcRelative32 /\
      module.Obj (elf.sym_ref sym) <> i32 (Z.of_nat i + 1) /\
      fixOff = i32 (module.Off (elf.sym_ref sym)
                    + i32 (u32 (val + debug_elf.r_Off rel + 4 - elf.sym_addr sym))))) /\
    segs' = elf.append_fixup segs i
              (mkFixup srcType (elf_srcOff rel seg) (module.Obj (elf.sym_ref sym)) fixOff).
Proof.
  unfold elf.addRelocation. fold (elf_site rel). fold (rel_sym rel). fold (rel_type rel).
  destruct (elf.find_containing segs 0 (elf_site rel)) as [[i seg] |] eqn:Hfind;
    [| intros H; injection H as <-; left; reflexivity].
  fold (elf_srcOff rel seg). fold (elf_read_site rel seg).
  destruct (Z.eqb_spec (i32 (Z.of_nat i + 1)) 0) as [Hz | Hnz];
    [intros H; injection H as <-; left; reflexivity |].
  destruct ((rel_sym rel =? 0) || (u32 (Z.of_nat (length syms)) <? rel_sym rel));
    [discriminate |].
  destruct (at_ syms (rel_sym rel - 1)) as [sym |] eqn:Hsym; [| discriminate].
  cbn [must bind].
  destruct (Z.eqb_spec (module.Obj (elf.sym_ref sym)) 0) as [Ho | Ho]; [discriminate |].
  destruct (Z.eqb_spec (module.Obj (elf.sym_ref sym)) elf.objAbsolute) as [Ha | Ha];
    [intros H; injection H as <-; left; reflexivity |].
  destruct (elf_read_site rel seg) as [val |] eqn:Hval; [| discriminate].
  cbn [must bind].
  destruct (Z.eqb_spec (rel_type rel) debug_elf.R_386_32) as [H32 | H32].
  - cbn [bind]. intros H. injection H as <-. right.
    eexists i, seg, sym, val, module.SrcOffset32, _.
    repeat (split; [first [reflexivity | assumption] |]).
    split; [left; repeat split; assumption | reflexivity].
  - destruct (Z.eqb_spec (rel_type rel) debug_elf.R_386_PC32) as [Hpc | Hpc];
      [| discriminate].
    destruct (Z.eqb_spec (module.Obj (elf.sym_ref sym)) (i32 (Z.of_nat i + 1))) as [Hs | Hs].
    + cbn [bind]. intros H. injection H as <-. left. reflexivity.
    + cbn [bind]. intros H. injection H as <-. right.
      eexists i, seg, sym, val, module.SrcRelative32, _.
      repeat (split; [first [reflexivity | assumption] |]).
      split; [right; repeat split; assumption | reflexivity].
Qed.

Lemma elf_append_fixup_length segs i fx :
  length (elf.append_fixup segs i fx) = length segs.
Proof.
  unfold elf.append_fixup. destruct (segs !! i); [apply length_insert | reflexivity].
Qed.

Lemma elf_append_fixup_lookup segs i fx j s' :
  elf.append_fixup segs i fx !! j = Some s' ->
  exists s, segs !! j = Some s /\
    elf.seg_range s' = elf.seg_range s /\
    module_go.Data (elf.seg_object s') = module_go.Data (elf.seg_object s) /\
    ((j = i /\ module_go.Fixups (elf.seg_object s')
               = module_go.Fixups (elf.seg_object s) ++ [fx])
     \/ (j <> i /\ s' = s)).
Proof.
  unfold elf.append_fixup. destruct (segs !! i) as [s |] eqn:Hi.
  - destruct (Nat.eq_dec j i) as [-> | Hne].
    + rewrite list_lookup_insert_eq by (eapply lookup_lt_Some, Hi).
      intros H. injection H as <-. exists s. split; [exact Hi |].
      split; [reflexivity |]. split; [reflexivity |]. left. split; reflexivity.
    + rewrite list_lookup_insert_ne by congruence. intros H. exists s'.
      split; [exact H |]. split; [reflexivity |]. split; [reflexivity |].
      right. split; [exact Hne | reflexivity].
  - intros H. exists s'. split; [exact H |]. split; [reflexivity |].
    split; [reflexivity |]. right. split; [| reflexivity].
    intros ->. congruence.
Qed.

Lemma elf_addRelocation_length rel segs syms segs' :
  elf.addRelocation rel segs syms = Ok segs' -> length segs' = length segs.
Proof.
  intros H. destruct (elf_addRelocation_Ok _ _ _ _ H)
    as [-> | (i & seg & sym & val & srcType & fixOff & _ & _ & _ & _ & _ & _ & _ & ->)];
    [reflexivity | apply elf_append_fixup_length].
Qed.

(** [addRelocation] keeps the objects free of self-relative fixups to
    themselves. *)
Lemma elf_addRelocation_no_self_relative rel segs syms segs' :
  Z.of_nat (length segs) < 2 ^ 31 ->
  elf_no_self_relative segs ->
  elf.addRelocation rel segs syms = Ok segs' ->
  elf_no_self_relative segs'.
Proof.
  intros Hlen Hinv H.
  destruct (elf_addRelocation_Ok _ _ _ _ H)
    as [-> | (i & seg & sym & val & srcType & fixOff & Hfind & _ & _ & _ & _ & _ & Hcase & ->)];
    [exact Hinv |].
  destruct (elf_find_containing_Some _ _ _ _ _ Hfind) as (_ & Hi & _).
  rewrite Nat.sub_0_r in Hi. pose proof (lookup_lt_Some _ _ _ Hi) as Hlt.
  intros j s' fx Hj Hfx Hrel.
  destruct (elf_append_fixup_lookup _ _ _ _ _ Hj) as (s & Hs & _ & _ & [[-> Hfix] | [Hne ->]]).
  - rewrite Hfix in Hfx. apply elem_of_app in Hfx as [Hold | Hnew].
    + apply (Hinv i s fx Hs Hold Hrel).
    + apply list_elem_of_singleton in Hnew. subst fx.
      cbn [mkFixup module.SrcType module.Target module.Obj] in Hrel |- *.
      destruct Hcase as [(_ & -> & _) | (_ & _ & Hobj & _)]; [discriminate |].
      rewrite i32_small in Hobj by lia. exact Hobj.
  - apply (Hinv j s fx Hs Hfx Hrel).
Qed.

(** ** From [addRelocation] to [ConvertToLELX] *)

Lemma elf_read_rels_inv fuel :
  forall data segs syms segs',
    Z.of_nat (length segs) < 2 ^ 31 ->
    elf_no_self_relative segs ->
    elf.read_rels fuel data segs syms = Ok segs' ->
    length segs' = length segs /\ elf_no_self_relative segs'.
Proof.
  induction fuel as [| fuel IH]; intros data segs syms segs' Hlen Hinv H; simpl in H.
  - injection H as <-. split; [reflexivity | exact Hinv].
  - destruct (0 <? Z.of_nat (length data)); [| injection H as <-; split; [reflexivity | exact Hinv]].
    destruct (elf.addRelocation (debug_elf.read_Rel32 data) segs syms) as [segs1 | |] eqn:Hadd;
      [| discriminate | discriminate].
    pose proof (elf_addRelocation_length _ _ _ _ Hadd) as Hl1.
    pose proof (elf_addRelocation_no_self_relative _ _ _ _ Hlen Hinv Hadd) as Hinv1.
    assert (Hlen1 : Z.of_nat (length segs1) < 2 ^ 31) by lia.
    destruct (IH _ _ _ _ Hlen1 Hinv1 H) as [Hl' Hinv'].
    split; [lia | exact Hinv'].
Qed.

Lemma elf_readRelocationSection_inv s segs syms segs' :
  Z.of_nat (length segs) < 2 ^ 31 ->
  elf_no_self_relative segs ->
  elf.readRelocationSection s segs syms = Ok segs' ->
  length segs' = length segs /\ elf_no_self_relative segs'.
Proof.
  intros Hlen Hinv H. unfold elf.readRelocationSection in H.
  destruct (debug_elf.s_Data s) as [data |]; [| discriminate].
  destruct (debug_elf.s_Type s =? debug_elf.SHT_REL); [| discriminate].
  destruct (negb (Z.land (Z.of_nat (length data)) 7 =? 0)); [discriminate |].
  eapply elf_read_rels_inv; eassumption.
Qed.

Lemma elf_readSections_from_inv sections :
  forall i nsec segs syms segs',
    Z.of_nat (length segs) < 2 ^ 31 ->
    elf_no_self_relative segs ->
    elf.readSections_from sections i nsec segs syms = Ok segs' ->
    length segs' = length segs /\ elf_no_self_relative segs'.
Proof.
  induction sections as [| s sections IH]; intros i nsec segs syms segs' Hlen Hinv H;
    simpl in H.
  - injection H as <-. split; [reflexivity | exact Hinv].
  - destruct ((debug_elf.s_Type s =? debug_elf.SHT_REL)
              || (debug_elf.s_Type s =? debug_elf.SHT_RELA)).
    + destruct ((debug_elf.s_Info s <? 0) || (nsec <=? debug_elf.s_Info s)); [discriminate |].
      destruct (elf.readRelocationSection s segs syms) as [segs1 | |] eqn:Hsec;
        [| discriminate | discriminate].
      destruct (elf_readRelocationSection_inv _ _ _ _ Hlen Hinv Hsec) as [Hl1 Hinv1].
      assert (Hlen1 : Z.of_nat (length segs1) < 2 ^ 31) by lia.
      destruct (IH _ _ _ _ _ Hlen1 Hinv1 H) as [Hl' Hinv'].
      split; [lia | exact Hinv'].
    + eapply IH; eassumption.
Qed.

Lemma elf_readLoadSegment_fixups i p seg :
  elf.readLoadSegment i p = Ok seg -> module_go.Fixups (elf.seg_object seg) = [].
Proof.
  unfold elf.readLoadSegment.
  destruct (negb (Z.land (debug_elf.p_Flags p) debug_elf.PF_R =? 0)); [| discriminate].
  cbv zeta.
  destruct (negb (Z.ldiff (debug_elf.p_Flags p)
                    (Z.lor (Z.lor debug_elf.PF_X debug_elf.PF_W) debug_elf.PF_R) =? 0));
    [discriminate |].
  destruct (0 <? debug_elf.p_Filesz p).
  - destruct (debug_elf.p_ReadAt p); [| discriminate].
    cbn [bind]. intros H. injection H as <-. reflexivity.
  - cbn [bind]. intros H. injection H as <-. reflexivity.
Qed.

Lemma elf_assignSegments_from_inv progs :
  forall i acc segs,
    elf.assignSegments_from progs i acc = Ok segs ->
    Forall (fun s => module_go.Fixups (elf.seg_object s) = []) acc ->
    Forall (fun s => module_go.Fixups (elf.seg_object s) = []) segs /\
    (length segs <= length acc + length progs)%nat.
Proof.
  induction progs as [| p progs IH]; intros i acc segs H Hacc; simpl in H.
  - injection H as <-. split; [exact Hacc | simpl; lia].
  - destruct ((debug_elf.p_Type p =? debug_elf.PT_NULL)
              || (debug_elf.p_Type p =? debug_elf.PT_NOTE)
              || (debug_elf.p_Type p =? elf.ptGNUEHFrame)).
    + destruct (IH _ _ _ H Hacc) as [Hall Hlen]. split; [exact Hall | simpl; lia].
    + destruct (debug_elf.p_Type p =? debug_elf.PT_LOAD); [| discriminate].
      destruct (elf.readLoadSegment i p) as [seg | |] eqn:Hseg; [| discriminate | discriminate].
      destruct (IH _ _ _ H) as [Hall Hlen].
      * apply Forall_app. split; [exact Hacc |].
        constructor; [eapply elf_readLoadSegment_fixups, Hseg | constructor].
      * split; [exact Hall |]. rewrite length_app in Hlen. simpl in Hlen |- *. lia.
Qed.

Lemma elf_no_self_relative_initial segs :
  Forall (fun s => module_go.Fixups (elf.seg_object s) = []) segs ->
  elf_no_self_relative segs.
Proof.
  intros Hall i s fx Hi Hfx _. rewrite Forall_forall in Hall.
  rewrite (Hall s (list_elem_of_lookup_2 _ _ _ Hi)) in Hfx. inversion Hfx.
Qed.

(** C5. An [R_386_PC32] relocation whose symbol is in the object of the
    relocation site ([sym.Obj == srcObj]) appends no fixup: when
    [addRelocation] returns nil the segments are unchanged, and it returns
    nil whenever the value at the site can be read. Consequently no object of
    a program that [ConvertToLELX] returns holds a fixup of type
    [SrcRelative32] whose target is that object itself (the number of program
    headers being that of a 32-bit ELF file). *)
Theorem no_self_relative_fixups (f : debug_elf.File) (p : module_go.Program) :
  Z.of_nat (length (debug_elf.Progs f)) < 2 ^ 31 ->
  elf.ConvertToLELX f = Ok p ->
  program_no_self_relative p /\
  forall rel segs syms i seg sym,
    elf.find_containing segs 0 (elf_site rel) = Some (i, seg) ->
    rel_type rel = debug_elf.R_386_PC32 ->
    at_ syms (rel_sym rel - 1) = Some sym ->
    module.Obj (elf.sym_ref sym) = i32 (Z.of_nat i + 1) ->
    (forall segs', elf.addRelocation rel segs syms = Ok segs' -> segs' = segs) /\
    (Z.of_nat (length syms) < 2 ^ 32 -> is_Some (elf_read_site rel seg) ->
     elf.addRelocation rel segs syms = Ok segs).
Proof.
  intros Hprogs Hconv. split.
  - unfold elf.ConvertToLELX in Hconv.
    destruct (negb (debug_elf.Class f =? debug_elf.ELFCLASS32)); [discriminate |].
    destruct (negb (debug_elf.Data_ f =? debug_elf.ELFDATA2LSB)); [discriminate |].
    destruct (negb (debug_elf.Type_ f =? debug_elf.ET_EXEC)); [discriminate |].
    destruct (negb (debug_elf.Machine f =? debug_elf.EM_386)); [discriminate |].
    destruct (elf.assignSegments f) as [segs | |] eqn:Hsegs; [| discriminate | discriminate].
    cbn [bind] in Hconv.
    destruct (module.Obj (elf.resolveAddr segs (u32 (debug_elf.Entry_ f))) =? 0);
      [discriminate |].
    destruct (elf.resolveSymbols f segs) as [syms | |]; [| discriminate | discriminate].
    cbn [bind] in Hconv.
    destruct (module.Obj (elf.find_stack syms) =? 0); [discriminate |].
    destruct (elf.readSections f segs syms) as [segs' | |] eqn:Hsec;
      [| discriminate | discriminate].
    cbn [bind] in Hconv. injection Hconv as <-.
    destruct (elf_assignSegments_from_inv _ _ _ _ Hsegs (Forall_nil_2 _)) as [Hall Hlen].
    simpl in Hlen.
    assert (Hlen31 : Z.of_nat (length segs) < 2 ^ 31) by lia.
    destruct (elf_readSections_from_inv _ _ _ _ _ _ Hlen31
                (elf_no_self_relative_initial _ Hall) Hsec) as [_ Hinv].
    intros i o fx Hi Hfx Hrel. cbn [module_go.Objects] in Hi.
    rewrite list_lookup_fmap in Hi.
    destruct (segs' !! i) as [s |] eqn:Hs; [| discriminate].
    injection Hi as <-. apply (Hinv i s fx Hs Hfx Hrel).
  - intros rel segs syms i seg sym Hfind Htype Hsym Hobj. split.
    + intros segs' H.
      destruct (elf_addRelocation_Ok _ _ _ _ H)
        as [-> | (i' & seg' & sym' & val & srcType & fixOff & Hfind' & _ & Hsym' & _ & _ & _
                  & Hcase & _)];
        [reflexivity | exfalso].
      rewrite Hfind in Hfind'. injection Hfind' as <- <-.
      rewrite Hsym in Hsym'. injection Hsym' as <-.
      destruct Hcase as [(H32 & _) | (_ & _ & Hne & _)]; [| contradiction].
      rewrite Htype in H32. discriminate.
    + intros Hlen [val Hval]. unfold elf.addRelocation.
      fold (elf_site rel). fold (rel_sym rel). fold (rel_type rel). rewrite Hfind.
      fold (elf_srcOff rel seg). fold (elf_read_site rel seg).
      destruct (i32 (Z.of_nat i + 1) =? 0) eqn:Hz; [reflexivity |].
      assert (Hb : (rel_sym rel =? 0) || (u32 (Z.of_nat (length syms)) <? rel_sym rel)
                   = false).
      { unfold at_ in Hsym.
        destruct (bool_decide (0 <= rel_sym rel - 1)) eqn:Hd; [| discriminate].
        apply bool_decide_eq_true_1 in Hd. apply lookup_lt_Some in Hsym.
        apply orb_false_iff. split; [apply Z.eqb_neq; lia |].
        apply Z.ltb_ge. rewrite u32_small by lia. lia. }
      rewrite Hb, Hsym. cbn [must bind]. rewrite Hobj, Hz.
      destruct (i32 (Z.of_nat i + 1) =? elf.objAbsolute); [reflexivity |].
      rewrite Hval. cbn [must bind]. rewrite Htype. cbn [Z.eqb debug_elf.R_386_PC32
        debug_elf.R_386_32 Pos.eqb]. rewrite Z.eqb_refl. reflexivity.
Qed.

Lemma no_self_relative_fixups_witness :
  program_no_self_relative elf_prog_rels /\
  forall rel segs syms i seg sym,
    elf.find_containing segs 0 (elf_site rel) = Some (i, seg) ->
    rel_type rel = debug_elf.R_386_PC32 ->
    at_ syms (rel_sym rel - 1) = Some sym ->
    module.Obj (elf.sym_ref sym) = i32 (Z.of_nat i + 1) ->
    (forall segs', elf.addRelocation rel segs syms = Ok segs' -> segs' = segs) /\
    (Z.of_nat (length syms) < 2 ^ 32 -> is_Some (elf_read_site rel seg) ->
     elf.addRelocation rel segs syms = Ok segs).
Proof.
  apply (no_self_relative_fixups file_rels elf_prog_rels).
  - vm_compute. reflexivity.
  - vm_compute. reflexivity.
Defined.

(** The second relocation of [file_rels], self-relative inside the text, is
    skipped. *)
Example elf_pc32_same_object_skipped :
  elf.addRelocation {| debug_elf.r_Off := 0x10014; debug_elf.r_Info := 0x302 |}
    elf_segs_rels elf_syms_rels = Ok elf_segs_rels.
Proof. vm_compute. reflexivity. Qed.

(** ** The fixup of an [R_386_32] relocation *)

Lemma i32_mod z : exists k, i32 z = z + k * 2 ^ 32.
Proof.
  unfold i32. exists (- ((z + 2 ^ 31) / 2 ^ 32)).
  pose proof (Z.div_mod (z + 2 ^ 31) (2 ^ 32) ltac:(lia)). lia.
Qed.

Lemma u32_mod z : exists k, u32 z = z + k * 2 ^ 32.
Proof.
  unfold u32. exists (- (z / 2 ^ 32)).
  pose proof (Z.div_mod z (2 ^ 32) ltac:(lia)). lia.
Qed.

Lemma i32_congr a b k : a = b + k * 2 ^ 32 -> i32 a = i32 b.
Proof.
  intros ->. unfold i32.
  replace (b + k * 2 ^ 32 + 2 ^ 31) with (b + 2 ^ 31 + k * 2 ^ 32) by lia.
  rewrite Z_mod_plus_full. reflexivity.
Qed.

(** The 32-bit sum of the code is the sum of the claim, reduced to 32
    bits. *)
Lemma i32_add_i32_u32 a b : i32 (a + i32 (u32 b)) = i32 (a + b).
Proof.
  destruct (u32_mod b) as [k1 H1]. destruct (i32_mod (u32 b)) as [k2 H2].
  apply (i32_congr _ _ (k1 + k2)). lia.
Qed.

Lemma elf_site_src rel seg val :
  is_u32 (debug_elf.r_Off rel) ->
  is_u32 (elf.addr (elf.seg_range seg)) ->
  elf.contains (elf.seg_range seg) (elf_site rel) = true ->
  elf_read_site rel seg = Some val ->
  elf_srcOff rel seg = debug_elf.r_Off rel - elf.addr (elf.seg_range seg).
Proof.
  intros HO HA Hc Hread. unfold is_u32 in *.
  unfold elf.contains, elf_site in Hc. cbn [elf.addr elf.size] in Hc.
  apply andb_true_iff in Hc as [Hc1 _]. apply Z.leb_le in Hc1.
  unfold elf_read_site in Hread. apply read_site_bounds in Hread as [H0 _].
  unfold elf_srcOff in *.
  rewrite (u32_small (debug_elf.r_Off rel - elf.addr (elf.seg_range seg)))
    in H0 |- * by lia.
  destruct (Z.lt_ge_cases (debug_elf.r_Off rel - elf.addr (elf.seg_range seg)) (2 ^ 31))
    as [Hlt | Hge]; [apply i32_small; lia |].
  exfalso. unfold i32 in H0.
  replace (debug_elf.r_Off rel - elf.addr (elf.seg_range seg) + 2 ^ 31)
    with (debug_elf.r_Off rel - elf.addr (elf.seg_range seg) - 2 ^ 31 + 1 * 2 ^ 32)
    in H0 by lia.
  rewrite Z_mod_plus_full, Z.mod_small in H0 by lia. lia.
Qed.

(** C6. For a relocation of type [R_386_32] whose site is in the segment
    [seg] (the first one that contains its four bytes, at index [i]), whose
    symbol [sym] is resolved ([Obj] neither 0 nor [objAbsolute]) and whose
    site holds the little-endian value [val] in the data of the object,
    [addRelocation] returns nil and has appended exactly one fixup to the
    object of [seg]: [SrcType = SrcOffset32 = 0x07],
    [Src = offset - base of seg], [Target.Obj = sym.Obj],
    [Target.Off = sym.Off + (val - sym.addr)] as a 32-bit integer, and
    [Add = 0]. *)
Theorem R_386_32_fixup
    (rel : debug_elf.Rel32) (segs : list elf.segment) (syms : list elf.symbol)
    (i : nat) (seg : elf.segment) (sym : elf.symbol) (val : Z) :
  segs !! i = Some seg ->
  elf.contains (elf.seg_range seg) (elf_site rel) = true ->
  (forall j s', (j < i)%nat -> segs !! j = Some s' ->
                elf.contains (elf.seg_range s') (elf_site rel) = false) ->
  Z.of_nat i + 1 < 2 ^ 31 ->
  is_u32 (debug_elf.r_Off rel) ->
  is_u32 (elf.addr (elf.seg_range seg)) ->
  rel_type rel = debug_elf.R_386_32 ->
  Z.of_nat (length syms) < 2 ^ 32 ->
  at_ syms (rel_sym rel - 1) = Some sym ->
  module.Obj (elf.sym_ref sym) <> 0 ->
  module.Obj (elf.sym_ref sym) <> elf.objAbsolute ->
  elf_read_site rel seg = Some val ->
  let fx :=
    {| module.SrcType := 0x07;
       module.Src := debug_elf.r_Off rel - elf.addr (elf.seg_range seg);
       module.Target :=
         {| module.Obj := module.Obj (elf.sym_ref sym);
            module.Off := i32 (module.Off (elf.sym_ref sym) + (val - elf.sym_addr sym)) |};
       module.Add := 0 |} in
  module.SrcOffset32 = 0x07 /\
  elf.addRelocation rel segs syms = Ok (elf.append_fixup segs i fx) /\
  (exists seg',
     elf.append_fixup segs i fx !! i = Some seg' /\
     module_go.Fixups (elf.seg_object seg') = module_go.Fixups (elf.seg_object seg) ++ [fx]) /\
  (forall j, j <> i -> elf.append_fixup segs i fx !! j = segs !! j).
Proof.
  intros Hi Hc Hfirst Hi31 HO HA Htype Hlen Hsym Hobj Habs Hread fx.
  split; [reflexivity |].
  pose proof (elf_site_src rel seg val HO HA Hc Hread) as Hsrc.
  split; [| split].
  - unfold elf.addRelocation.
    fold (elf_site rel). fold (rel_sym rel). fold (rel_type rel).
    rewrite (elf_find_containing_first segs 0 (elf_site rel) i seg Hi Hc Hfirst).
    cbn [Nat.add]. fold (elf_srcOff rel seg). fold (elf_read_site rel seg).
    rewrite (i32_small (Z.of_nat i + 1)) by lia.
    destruct (Z.eqb_spec (Z.of_nat i + 1) 0) as [Hz | _]; [lia |].
    assert (Hb : (rel_sym rel =? 0) || (u32 (Z.of_nat (length syms)) <? rel_sym rel)
                 = false).
    { unfold at_ in Hsym.
      destruct (bool_decide (0 <= rel_sym rel - 1)) eqn:Hd; [| discriminate].
      apply bool_decide_eq_true_1 in Hd. apply lookup_lt_Some in Hsym.
      apply orb_false_iff. split; [apply Z.eqb_neq; lia |].
      apply Z.ltb_ge. rewrite u32_small by lia. lia. }
    rewrite Hb, Hsym. cbn [must bind].
    destruct (Z.eqb_spec (module.Obj (elf.sym_ref sym)) 0) as [? | _]; [contradiction |].
    destruct (Z.eqb_spec (module.Obj (elf.sym_ref sym)) elf.objAbsolute) as [? | _];
      [contradiction |].
    rewrite Hread. cbn [must bind]. rewrite Htype, Z.eqb_refl. cbn [bind].
    rewrite i32_add_i32_u32, Hsrc. reflexivity.
  - unfold elf.append_fixup. rewrite Hi.
    eexists. split; [apply list_lookup_insert_eq; eapply lookup_lt_Some, Hi |].
    reflexivity.
  - intros j Hj. unfold elf.append_fixup. rewrite Hi.
    apply list_lookup_insert_ne. congruence.
Qed.

Lemma R_386_32_fixup_witness :
  let fx :=
    {| module.SrcType := 0x07;
       module.Src := debug_elf.r_Off rel_first - elf.addr (elf.seg_range elf_seg_text);
       module.Target :=
         {| module.Obj := module.Obj (elf.sym_ref elf_sym_data_start);
            module.Off := i32 (module.Off (elf.sym_ref elf_sym_data_start)
                               + (0x20010 - elf.sym_addr elf_sym_data_start)) |};
       module.Add := 0 |} in
  module.SrcOffset32 = 0x07 /\
  elf.addRelocation rel_first elf_segs_rels elf_syms_rels
    = Ok (elf.append_fixup elf_segs_rels 0 fx) /\
  (exists seg',
     elf.append_fixup elf_segs_rels 0 fx !! 0%nat = Some seg' /\
     module_go.Fixups (elf.seg_object seg')
       = module_go.Fixups (elf.seg_object elf_seg_text) ++ [fx]) /\
  (forall j, j <> 0%nat -> elf.append_fixup elf_segs_rels 0 fx !! j = elf_segs_rels !! j).
Proof.
  apply (R_386_32_fixup rel_first elf_segs_rels elf_syms_rels 0 elf_seg_text
           elf_sym_data_start 0x20010).
  - vm_compute. reflexivity.
  - vm_compute. reflexivity.
  - intros j s' Hj. lia.
  - vm_compute. reflexivity.
  - vm_compute. split; [discriminate | reflexivity].
  - vm_compute. split; [discriminate | reflexivity].
  - vm_compute. reflexivity.
  - vm_compute. reflexivity.
  - vm_compute. reflexivity.
  - vm_compute. discriminate.
  - vm_compute. discriminate.
  - vm_compute. reflexivity.
Defined.

Example R_386_32_fixup_S2 :
  elf.addRelocation rel_first elf_segs_rels elf_syms_rels
  = Ok (elf.append_fixup elf_segs_rels 0 (mkFixup 0x07 16 2 16)).
Proof. vm_compute. reflexivity. Qed.

(** ** Absolute symbols *)

Lemma resolveSymbol_absolute secObjects segs sym :
  Z.of_nat (length secObjects) <= debug_elf.SHN_ABS ->
  debug_elf.Section_ sym = debug_elf.SHN_ABS ->
  elf.resolveSymbol secObjects segs sym =
    Ok {| elf.sym_addr := u32 (debug_elf.Value sym);
          elf.sym_ref := {| module.Obj := elf.objAbsolute; module.Off := 0 |};
          elf.sym_name := debug_elf.Name sym |}.
Proof.
  intros Hlen Hsec. unfold elf.resolveSymbol. rewrite Hsec.
  destruct (Z.ltb_spec debug_elf.SHN_ABS (Z.of_nat (length secObjects))) as [Hlt | _];
    [lia |].
  rewrite andb_false_r, Z.eqb_refl. reflexivity.
Qed.

Lemma resolveSymbols_loop_lookup secObjects segs syms :
  forall osyms n sym,
    elf.resolveSymbols_loop secObjects segs syms = Ok osyms ->
    syms !! n = Some sym ->
    exists osym, osyms !! n = Some osym /\
                 elf.resolveSymbol secObjects segs sym = Ok osym.
Proof.
  induction syms as [| s0 syms IH]; intros osyms n sym H Hn; [discriminate |].
  simpl in H.
  destruct (elf.resolveSymbol secObjects segs s0) as [o0 | |] eqn:H0;
    [| discriminate | discriminate].
  cbn [bind] in H.
  destruct (elf.resolveSymbols_loop secObjects segs syms) as [os | |] eqn:Hrest;
    [| discriminate | discriminate].
  cbn [bind] in H. injection H as <-.
  destruct n as [| n]; simpl in Hn.
  - injection Hn as <-. exists o0. split; [reflexivity | exact H0].
  - destruct (IH os n sym eq_refl Hn) as (osym & Ho & Hr).
    exists osym. split; [exact Ho | exact Hr].
Qed.

Lemma addRelocation_absolute rel segs osyms osym :
  Z.of_nat (length osyms) < 2 ^ 32 ->
  at_ osyms (rel_sym rel - 1) = Some osym ->
  module.Obj (elf.sym_ref osym) = elf.objAbsolute ->
  elf.addRelocation rel segs osyms = Ok segs.
Proof.
  intros Hlen Hsym Habs. unfold elf.addRelocation.
  fold (elf_site rel). fold (rel_sym rel).
  destruct (elf.find_containing segs 0 (elf_site rel)) as [[i seg] |]; [| reflexivity].
  destruct (i32 (Z.of_nat i + 1) =? 0); [reflexivity |].
  assert (Hb : (rel_sym rel =? 0) || (u32 (Z.of_nat (length osyms)) <? rel_sym rel)
               = false).
  { unfold at_ in Hsym.
    destruct (bool_decide (0 <= rel_sym rel - 1)) eqn:Hd; [| discriminate].
    apply bool_decide_eq_true_1 in Hd. apply lookup_lt_Some in Hsym.
    apply orb_false_iff. split; [apply Z.eqb_neq; lia |].
    apply Z.ltb_ge. rewrite u32_small by lia. lia. }
  rewrite Hb, Hsym. cbn [must bind]. rewrite Habs.
  change (elf.objAbsolute =? 0) with false. rewrite Z.eqb_refl. reflexivity.
Qed.

(** [X27] Absolute symbols in package elf. For the symbol [n] of the file,
    whose section is [SHN_ABS], [resolveSymbols] of package elf sets the
    reference to the sentinel
    [objAbsolute = 0x7FFFFFFF], and [addRelocation] skips every relocation
    that refers to it (symbol index [n + 1]): it returns nil and leaves the
    segments as they are, so that no fixup is appended and no error raised.
    The file has at most [SHN_ABS = 0xfff1] sections, so that [SHN_ABS] is
    not the index of a section. *)
Theorem absolute_symbol_skipped
    (f : debug_elf.File) (segs : list elf.segment)
    (syms : list debug_elf.Symbol) (osyms : list elf.symbol)
    (n : nat) (sym : debug_elf.Symbol) :
  Z.of_nat (length (debug_elf.Sections f)) <= debug_elf.SHN_ABS ->
  debug_elf.Symbols f = Some syms ->
  syms !! n = Some sym ->
  debug_elf.Section_ sym = debug_elf.SHN_ABS ->
  elf.resolveSymbols f segs = Ok osyms ->
  Z.of_nat (length osyms) < 2 ^ 32 ->
  elf.objAbsolute = 0x7FFFFFFF /\
  (exists osym,
     osyms !! n = Some osym /\
     osym = {| elf.sym_addr := u32 (debug_elf.Value sym);
               elf.sym_ref := {| module.Obj := elf.objAbsolute; module.Off := 0 |};
               elf.sym_name := debug_elf.Name sym |}) /\
  (forall rel segs0,
     rel_sym rel = Z.of_nat n + 1 ->
     elf.addRelocation rel segs0 osyms = Ok segs0).
Proof.
  intros Hnsec Hsyms Hn Habs Hres Hlen. split; [reflexivity |].
  unfold elf.resolveSymbols in Hres. rewrite Hsyms in Hres.
  destruct (resolveSymbols_loop_lookup _ _ _ _ _ _ Hres Hn) as (osym & Ho & Hr).
  rewrite resolveSymbol_absolute in Hr;
    [| unfold elf.secObjects_of; rewrite length_map; exact Hnsec | exact Habs].
  injection Hr as Hr. split.
  - exists osym. split; [exact Ho | symmetry; exact Hr].
  - intros rel segs0 Hrel. apply (addRelocation_absolute rel segs0 osyms osym Hlen).
    + unfold at_. rewrite Hrel.
      rewrite bool_decide_eq_true_2 by lia.
      replace (Z.to_nat (Z.of_nat n + 1 - 1)) with n by lia. exact Ho.
    + rewrite <- Hr. reflexivity.
Qed.

Lemma absolute_symbol_skipped_witness :
  elf.objAbsolute = 0x7FFFFFFF /\
  (exists osym,
     elf_syms_rels !! 3%nat = Some osym /\
     osym = {| elf.sym_addr := u32 (debug_elf.Value sym_abs);
               elf.sym_ref := {| module.Obj := elf.objAbsolute; module.Off := 0 |};
               elf.sym_name := debug_elf.Name sym_abs |}) /\
  (forall rel segs0,
     rel_sym rel = Z.of_nat 3 + 1 ->
     elf.addRelocation rel segs0 elf_syms_rels = Ok segs0).
Proof.
  apply (absolute_symbol_skipped file_rels elf_segs_rels
           [sym_data_start_S2; sym_stack_end_S2;
            {| debug_elf.Name := "func"; debug_elf.Value := 0x10020;
               debug_elf.Section_ := 1 |}; sym_abs]
           elf_syms_rels 3 sym_abs).
  - vm_compute. discriminate.
  - reflexivity.
  - reflexivity.
  - reflexivity.
  - vm_compute. reflexivity.
  - vm_compute. reflexivity.
Defined.

(** The fourth relocation of [file_rels], to the absolute symbol, is
    skipped. *)
Example elf_absolute_relocation_skipped :
  rel_sym rel_abs = 4 /\
  elf.addRelocation rel_abs elf_segs_rels elf_syms_rels = Ok elf_segs_rels.
Proof. split; vm_compute; reflexivity. Qed.

(** C7, on elf.go. The file [file_rels] has the symbol [abs_sym], of section
    [SHN_ABS] and of value 0x1234, an address in no segment, and in the text
    a relocation [R_386_32] to it, the fourth of the section [.rel].
    [resolveSymbols] of elf.go has no case for [SHN_ABS]: it resolves the
    symbol by its address, to the reference with [obj = 0] and not to the
    sentinel 0x7FFFFFFF; [addRelocation] then fails with the error
    "unresolved symbol", and [readExecutable] returns this error. On the same
    file [resolveSymbols] of package elf sets the sentinel, [addRelocation]
    of package elf skips the relocation, and the conversion succeeds. *)
Theorem absolute_symbol_unresolved_in_main :
  debug_elf.Symbols file_rels ≫= (fun syms => syms !! 3%nat) = Some sym_abs /\
  debug_elf.Section_ sym_abs = debug_elf.SHN_ABS /\
  rel_sym rel_abs = 4 /\
  (exists segs osyms,
     main.assignSegments file_rels = Ok segs /\
     main.resolveSymbols file_rels segs = Ok osyms /\
     osyms !! 3%nat = Some {| main.sym_addr := 0x1234;
                              main.sym_ref := {| main.obj := 0; main.off := 0 |};
                              main.sym_name := "abs_sym" |} /\
     main.addRelocation rel_abs segs osyms = Err (ErrUnresolved "abs_sym" 4)) /\
  main.readExecutable file_rels
  = Err (Wrapped [LocSection 3 ".rel"; LocRelocation 0x10030]
           (ErrUnresolved "abs_sym" 4)) /\
  elf.assignSegments file_rels = Ok elf_segs_rels /\
  elf.resolveSymbols file_rels elf_segs_rels = Ok elf_syms_rels /\
  elf_syms_rels !! 3%nat
  = Some {| elf.sym_addr := 0x1234;
            elf.sym_ref := {| module.Obj := 0x7FFFFFFF; module.Off := 0 |};
            elf.sym_name := "abs_sym" |} /\
  elf.addRelocation rel_abs elf_segs_rels elf_syms_rels = Ok elf_segs_rels /\
  exists p, elf.ConvertToLELX file_rels = Ok p.
Proof.
  split; [reflexivity |]. split; [reflexivity |]. split; [reflexivity |].
  split.
  { eexists _, _. split; [vm_compute; reflexivity |].
    split; [vm_compute; reflexivity |].
    split; vm_compute; reflexivity. }
  split; [vm_compute; reflexivity |].
  split; [vm_compute; reflexivity |].
  split; [vm_compute; reflexivity |].
  split; [vm_compute; reflexivity |].
  split; [vm_compute; reflexivity |].
  eexists. vm_compute. reflexivity.
Qed.

(** * The same properties of package main

    [addRelocation] of elf.go is that of package elf without the test for
    [objAbsolute]; the properties C5 and C6 hold of it as well. *)

Lemma main_append_fixup_length segs i fx :
  length (main.append_fixup segs i fx) = length segs.
Proof.
  unfold main.append_fixup. destruct (segs !! i); [apply length_insert | reflexivity].
Qed.

Lemma main_append_fixup_lookup segs i fx j s' :
  main.append_fixup segs i fx !! j = Some s' ->
  exists s, segs !! j = Some s /\
    ((j = i /\ main.o_fixups (main.seg_object s')
               = main.o_fixups (main.seg_object s) ++ [fx])
     \/ (j <> i /\ s' = s)).
Proof.
  unfold main.append_fixup. destruct (segs !! i) as [s |] eqn:Hi.
  - destruct (Nat.eq_dec j i) as [-> | Hne].
    + rewrite list_lookup_insert_eq by (eapply lookup_lt_Some, Hi).
      intros H. injection H as <-. exists s. split; [exact Hi |].
      left. split; reflexivity.
    + rewrite list_lookup_insert_ne by congruence. intros H. exists s'.
      split; [exact H |]. right. split; [exact Hne | reflexivity].
  - intros H. exists s'. split; [exact H |]. right. split; [| reflexivity].
    intros ->. congruence.
Qed.

Lemma main_addRelocation_inv rel segs syms segs' :
  Z.of_nat (length segs) < 2 ^ 31 ->
  no_self_relative segs ->
  main.addRelocation rel segs syms = Ok segs' ->
  length segs' = length segs /\ no_self_relative segs'.
Proof.
  intros Hlen Hinv H.
  destruct (addRelocation_Ok _ _ _ _ H)
    as [-> | (i & seg & sym & val & srcType & fixOff & Hfind & _ & _ & _ & _ & Hcase & ->)];
    [split; [reflexivity | exact Hinv] |].
  split; [apply main_append_fixup_length |].
  destruct (find_containing_Some _ _ _ _ _ Hfind) as (_ & Hi & _).
  rewrite Nat.sub_0_r in Hi. pose proof (lookup_lt_Some _ _ _ Hi) as Hlt.
  intros j s' fx Hj Hfx Hrel.
  destruct (main_append_fixup_lookup _ _ _ _ _ Hj) as (s & Hs & [[-> Hfix] | [Hne ->]]).
  - rewrite Hfix in Hfx. apply elem_of_app in Hfx as [Hold | Hnew].
    + apply (Hinv i s fx Hs Hold Hrel).
    + apply list_elem_of_singleton in Hnew. subst fx.
      cbn [mk_fixup main.srcType main.target main.obj] in Hrel |- *.
      destruct Hcase as [(_ & -> & _) | (_ & _ & Hobj & _)]; [discriminate |].
      rewrite i32_small in Hobj by lia. exact Hobj.
  - apply (Hinv j s fx Hs Hfx Hrel).
Qed.

Lemma main_read_rels_inv fuel :
  forall data segs syms segs',
    Z.of_nat (length segs) < 2 ^ 31 ->
    no_self_relative segs ->
    main.read_rels fuel data segs syms = Ok segs' ->
    length segs' = length segs /\ no_self_relative segs'.
Proof.
  induction fuel as [| fuel IH]; intros data segs syms segs' Hlen Hinv H; simpl in H.
  - injection H as <-. split; [reflexivity | exact Hinv].
  - destruct (0 <? Z.of_nat (length data));
      [| injection H as <-; split; [reflexivity | exact Hinv]].
    destruct (main.addRelocation (debug_elf.read_Rel32 data) segs syms)
      as [segs1 | |] eqn:Hadd; [| discriminate | discriminate].
    destruct (main_addRelocation_inv _ _ _ _ Hlen Hinv Hadd) as [Hl1 Hinv1].
    assert (Hlen1 : Z.of_nat (length segs1) < 2 ^ 31) by lia.
    destruct (IH _ _ _ _ Hlen1 Hinv1 H) as [Hl' Hinv'].
    split; [lia | exact Hinv'].
Qed.

Lemma main_readSections_from_inv sections :
  forall i nsec segs syms segs',
    Z.of_nat (length segs) < 2 ^ 31 ->
    no_self_relative segs ->
    main.readSections_from sections i nsec segs syms = Ok segs' ->
    length segs' = length segs /\ no_self_relative segs'.
Proof.
  induction sections as [| s sections IH]; intros i nsec segs syms segs' Hlen Hinv H;
    simpl in H.
  - injection H as <-. split; [reflexivity | exact Hinv].
  - destruct ((debug_elf.s_Type s =? debug_elf.SHT_REL)
              || (debug_elf.s_Type s =? debug_elf.SHT_RELA)).
    + destruct ((debug_elf.s_Info s <? 0) || (nsec <=? debug_elf.s_Info s)); [discriminate |].
      destruct (main.readRelocationSection s segs syms) as [segs1 | |] eqn:Hsec;
        [| discriminate | discriminate].
      assert (Hstep : length segs1 = length segs /\ no_self_relative segs1).
      { unfold main.readRelocationSection in Hsec.
        destruct (debug_elf.s_Data s) as [data |]; [| discriminate].
        destruct (debug_elf.s_Type s =? debug_elf.SHT_REL); [| discriminate].
        destruct (negb (Z.land (Z.of_nat (length data)) 7 =? 0)); [discriminate |].
        eapply main_read_rels_inv; eassumption. }
      destruct Hstep as [Hl1 Hinv1].
      assert (Hlen1 : Z.of_nat (length segs1) < 2 ^ 31) by lia.
      destruct (IH _ _ _ _ _ Hlen1 Hinv1 H) as [Hl' Hinv'].
      split; [lia | exact Hinv'].
    + eapply IH; eassumption.
Qed.

Lemma main_readLoadSegment_fixups i p seg :
  main.readLoadSegment i p = Ok seg -> main.o_fixups (main.seg_object seg) = [].
Proof.
  unfold main.readLoadSegment.
  destruct (negb (Z.land (debug_elf.p_Flags p) debug_elf.PF_R =? 0)); [| discriminate].
  cbv zeta.
  destruct (negb (Z.ldiff (debug_elf.p_Flags p)
                    (Z.lor (Z.lor debug_elf.PF_X debug_elf.PF_W) debug_elf.PF_R) =? 0));
    [discriminate |].
  destruct (0 <? debug_elf.p_Filesz p).
  - destruct (debug_elf.p_ReadAt p); [| discriminate].
    cbn [bind]. intros H. injection H as <-. reflexivity.
  - cbn [bind]. intros H. injection H as <-. reflexivity.
Qed.

Lemma main_assignSegments_from_inv progs :
  forall i acc segs,
    main.assignSegments_from progs i acc = Ok segs ->
    Forall (fun s => main.o_fixups (main.seg_object s) = []) acc ->
    Forall (fun s => main.o_fixups (main.seg_object s) = []) segs /\
    (length segs <= length acc + length progs)%nat.
Proof.
  induction progs as [| p progs IH]; intros i acc segs H Hacc; simpl in H.
  - injection H as <-. split; [exact Hacc | simpl; lia].
  - destruct ((debug_elf.p_Type p =? debug_elf.PT_NULL)
              || (debug_elf.p_Type p =? debug_elf.PT_NOTE)
              || (debug_elf.p_Type p =? main.ptGNUEHFrame)).
    + destruct (IH _ _ _ H Hacc) as [Hall Hlen]. split; [exact Hall | simpl; lia].
    + destruct (debug_elf.p_Type p =? debug_elf.PT_LOAD); [| discriminate].
      destruct (main.readLoadSegment i p) as [seg | |] eqn:Hseg;
        [| discriminate | discriminate].
      destruct (IH _ _ _ H) as [Hall Hlen].
      * apply Forall_app. split; [exact Hacc |].
        constructor; [eapply main_readLoadSegment_fixups, Hseg | constructor].
      * split; [exact Hall |]. rewrite length_app in Hlen. simpl in Hlen |- *. lia.
Qed.

(** No program that [readExecutable] returns has a self-relative fixup whose
    target is the object that holds it. *)
Lemma main_no_self_relative_fixups (f : debug_elf.File) (p : main.program) :
  Z.of_nat (length (debug_elf.Progs f)) < 2 ^ 31 ->
  main.readExecutable f = Ok p ->
  main_program_no_self_relative p.
Proof.
  intros Hprogs Hconv. unfold main.readExecutable in Hconv.
  destruct (negb (debug_elf.Class f =? debug_elf.ELFCLASS32)); [discriminate |].
  destruct (negb (debug_elf.Data_ f =? debug_elf.ELFDATA2LSB)); [discriminate |].
  destruct (negb (debug_elf.Type_ f =? debug_elf.ET_EXEC)); [discriminate |].
  destruct (negb (debug_elf.Machine f =? debug_elf.EM_386)); [discriminate |].
  destruct (main.assignSegments f) as [segs | |] eqn:Hsegs; [| discriminate | discriminate].
  cbn [bind] in Hconv.
  destruct (main.obj (main.resolveAddr segs (u32 (debug_elf.Entry_ f))) =? 0);
    [discriminate |].
  destruct (main.resolveSymbols f segs) as [syms | |]; [| discriminate | discriminate].
  cbn [bind] in Hconv.
  destruct (main.obj (main.find_stack syms) =? 0); [discriminate |].
  destruct (main.readSections f segs syms) as [segs' | |] eqn:Hsec;
    [| discriminate | discriminate].
  cbn [bind] in Hconv. injection Hconv as <-.
  destruct (main_assignSegments_from_inv _ _ _ _ Hsegs (Forall_nil_2 _)) as [Hall Hlen].
  simpl in Hlen.
  assert (Hlen31 : Z.of_nat (length segs) < 2 ^ 31) by lia.
  assert (Hinit : no_self_relative segs).
  { intros i s fx Hi Hfx _. rewrite Forall_forall in Hall.
    rewrite (Hall s (list_elem_of_lookup_2 _ _ _ Hi)) in Hfx. inversion Hfx. }
  destruct (main_readSections_from_inv _ _ _ _ _ _ Hlen31 Hinit Hsec) as [_ Hinv].
  intros i o fx Hi Hfx Hrel. cbn [main.objects] in Hi.
  rewrite list_lookup_fmap in Hi.
  destruct (segs' !! i) as [s |] eqn:Hs; [| discriminate].
  injection Hi as <-. apply (Hinv i s fx Hs Hfx Hrel).
Qed.

(** The fixup of an [R_386_32] relocation, in package main. *)
Lemma main_R_386_32_fixup
    (rel : debug_elf.Rel32) (segs : list main.segment) (syms : list main.symbol)
    (i : nat) (seg : main.segment) (sym : main.symbol) (val : Z) :
  segs !! i = Some seg ->
  main.contains (main.seg_range seg) (site rel) = true ->
  (forall j s', (j < i)%nat -> segs !! j = Some s' ->
                main.contains (main.seg_range s') (site rel) = false) ->
  Z.of_nat i + 1 < 2 ^ 31 ->
  is_u32 (debug_elf.r_Off rel) ->
  wf_segment seg ->
  Z.land (debug_elf.r_Info rel) 0xff = debug_elf.R_386_32 ->
  Z.of_nat (length syms) < 2 ^ 32 ->
  at_ syms (Z.shiftr (debug_elf.r_Info rel) 8 - 1) = Some sym ->
  main.obj (main.sym_ref sym) <> 0 ->
  (b ← slice_from (main.o_data (main.seg_object seg))
                  (i32 (u32 (debug_elf.r_Off rel - main.addr (main.seg_range seg))));
   Uint32 b) = Some val ->
  main.addRelocation rel segs syms =
    Ok (main.append_fixup segs i
          (mk_fixup 0x07 (debug_elf.r_Off rel - main.addr (main.seg_range seg))
             (main.obj (main.sym_ref sym))
             (i32 (main.off (main.sym_ref sym) + (val - main.sym_addr sym))))).
Proof.
  intros Hi Hc Hfirst Hi31 HO Hwf Htype Hlen Hsym Hobj Hread.
  destruct (contains_site_src rel seg val HO Hwf Hc Hread) as (Hsrc & _).
  unfold main.addRelocation. fold (site rel).
  rewrite (find_containing_first segs 0 (site rel) i seg Hi Hc Hfirst).
  cbn [Nat.add]. rewrite (i32_small (Z.of_nat i + 1)) by lia.
  destruct (Z.eqb_spec (Z.of_nat i + 1) 0) as [Hz | _]; [lia |].
  assert (Hb : (Z.shiftr (debug_elf.r_Info rel) 8 =? 0)
               || (u32 (Z.of_nat (length syms)) <? Z.shiftr (debug_elf.r_Info rel) 8)
               = false).
  { unfold at_ in Hsym.
    destruct (bool_decide (0 <= Z.shiftr (debug_elf.r_Info rel) 8 - 1)) eqn:Hd;
      [| discriminate].
    apply bool_decide_eq_true_1 in Hd. apply lookup_lt_Some in Hsym.
    apply orb_false_iff. split; [apply Z.eqb_neq; lia |].
    apply Z.ltb_ge. rewrite u32_small by lia. lia. }
  rewrite Hb, Hsym. cbn [must bind].
  destruct (Z.eqb_spec (main.obj (main.sym_ref sym)) 0) as [? | _]; [contradiction |].
  rewrite Hread. cbn [must bind]. rewrite Htype, Z.eqb_refl. cbn [bind].
  rewrite i32_add_i32_u32, Hsrc. reflexivity.
Qed.

(** ** The page count *)

(** [X1] For a size of at most 2^32 - 4096 bytes, [pagecount] is the number of
    4096-byte pages that hold the size: the least [n] with [size <= 4096 n]. *)
Theorem pagecount_ceiling (size : Z) :
  0 <= size <= 2 ^ 32 - 4096 ->
  module.pagecount size = (size + 4095) / 4096 /\
  size <= 4096 * module.pagecount size < size + 4096.
Proof.
  intros Hs. unfold module.pagecount, module.pageSize, module.pageBits, u32.
  rewrite Z.shiftr_div_pow2 by lia.
  rewrite Z.mod_small by lia.
  change (2 ^ 12) with 4096.
  replace (size + 4096 - 1) with (size + 4095) by lia.
  split; [reflexivity |].
  pose proof (Z.div_mod (size + 4095) 4096 ltac:(lia)) as Hdm.
  pose proof (Z.mod_pos_bound (size + 4095) 4096 ltac:(lia)) as Hm.
  lia.
Qed.

Lemma pagecount_ceiling_witness :
  module.pagecount 4097 = (4097 + 4095) / 4096 /\
  4097 <= 4096 * module.pagecount 4097 < 4097 + 4096.
Proof. apply (pagecount_ceiling 4097). lia. Defined.

(** [X2] The addition in [pagecount] wraps around: a size within 4095 bytes
    of 2^32 has a page count of zero. *)
Theorem pagecount_wraps_to_zero (size : Z) :
  2 ^ 32 - 4095 <= size < 2 ^ 32 ->
  module.pagecount size = 0.
Proof.
  intros Hs. unfold module.pagecount, module.pageSize, module.pageBits, u32.
  rewrite Z.shiftr_div_pow2 by lia.
  replace (size + 4096 - 1) with (size + 4095 - 2 ^ 32 + 1 * 2 ^ 32) by lia.
  rewrite Z_mod_plus_full, Z.mod_small by lia.
  apply Z.div_small. lia.
Qed.

Lemma pagecount_wraps_to_zero_witness : module.pagecount (2 ^ 32 - 1) = 0.
Proof. apply (pagecount_wraps_to_zero (2 ^ 32 - 1)). lia. Defined.

(** ** Encoding and decoding of a fixup record *)

Lemma Uint16_le16_app v rest : Uint16 (le16 v ++ rest) = Some (v mod 2 ^ 16).
Proof. rewrite <- Uint16_le16. reflexivity. Qed.

Lemma Uint32_le32_app v rest : Uint32 (le32 v ++ rest) = Some (v mod 2 ^ 32).
Proof.
  unfold Uint32, le32, u8. cbn [app]. f_equal.
  rewrite !Z.shiftr_div_pow2 by lia.
  pose proof (Z.mod_pos_bound v (2 ^ 8) ltac:(lia)).
  pose proof (Z.mod_pos_bound (v / 2 ^ 8) (2 ^ 8) ltac:(lia)).
  pose proof (Z.mod_pos_bound (v / 2 ^ 16) (2 ^ 8) ltac:(lia)).
  pose proof (Z.mod_pos_bound (v / 2 ^ 24) (2 ^ 8) ltac:(lia)).
  rewrite (lor_shiftl_add _ _ 8) by lia.
  rewrite (lor_shiftl_add _ _ 16) by lia.
  rewrite (lor_shiftl_add _ _ 24) by lia.
  replace (v / 2 ^ 16) with (v / 2 ^ 8 / 2 ^ 8)
    by (rewrite Z.div_div by lia; reflexivity).
  replace (v / 2 ^ 24) with (v / 2 ^ 8 / 2 ^ 8 / 2 ^ 8)
    by (rewrite !Z.div_div by lia; reflexivity).
  change (2 ^ 32) with (2 ^ 8 * (2 ^ 8 * (2 ^ 8 * 2 ^ 8))).
  rewrite !Z.rem_mul_r by lia.
  change (2 ^ 16) with (2 ^ 8 * 2 ^ 8). change (2 ^ 24) with (2 ^ 8 * 2 ^ 8 * 2 ^ 8).
  lia.
Qed.

Lemma i16_le16_roundtrip v :
  - 2 ^ 15 <= v < 2 ^ 15 ->
  i32 (i16 (Z.lor (u8 (u16 v)) (Z.shiftl (u8 (Z.shiftr (u16 v) 8)) 8))) = v.
Proof.
  intros Hv.
  pose proof (Uint16_le16 (u16 v)) as H. unfold Uint16, le16 in H.
  injection H as H. rewrite H.
  unfold u16. rewrite Z.mod_mod by lia.
  unfold i16, i32.
  assert (Hm : (v mod 2 ^ 16 + 2 ^ 15) mod 2 ^ 16 = v + 2 ^ 15).
  { destruct (Z_lt_le_dec v 0) as [Hneg | Hpos].
    - replace (v mod 2 ^ 16) with (v + 2 ^ 16).
      + replace (v + 2 ^ 16 + 2 ^ 15) with (v + 2 ^ 15 + 1 * 2 ^ 16) by lia.
        rewrite Z_mod_plus_full. apply Z.mod_small. lia.
      + replace v with (v + 2 ^ 16 + (-1) * 2 ^ 16) at 2 by lia.
        rewrite Z_mod_plus_full. symmetry. apply Z.mod_small. lia.
    - rewrite (Z.mod_small v) by lia. apply Z.mod_small. lia. }
  rewrite Hm. replace (v + 2 ^ 15 - 2 ^ 15) with v by lia.
  rewrite Z.mod_small by lia. lia.
Qed.

Lemma appendFixup_app f data :
  module.appendFixup f data = data ++ module.appendFixup f [].
Proof. rewrite !appendFixup_eq. reflexivity. Qed.

Lemma appendFixup_nil_length f :
  length (module.appendFixup f []) =
  if 0x7fff <? module.Off (module.Target f) then 9%nat else 7%nat.
Proof.
  rewrite appendFixup_eq. destruct (0x7fff <? module.Off (module.Target f)); reflexivity.
Qed.

(** Reading a record back, whatever follows it. *)
Lemma readFixup_appendFixup_app (f : module.Fixup) (rest : list Z) :
  encodable f ->
  module.readFixup (module.appendFixup f [] ++ rest)
  = inr (length (module.appendFixup f []), f).
Proof.
  intros (Hty & Hsrc & Hobj & Hoff & Hadd).
  rewrite appendFixup_nil_length. rewrite appendFixup_eq.
  destruct f as [ty src [ob tof] ad]. cbn [module.SrcType module.Src module.Target
    module.Obj module.Off module.Add] in *. subst ad.
  assert (Hob : u16 (u8 ob) = ob).
  { unfold u16, u8. rewrite (Z.mod_small ob) by lia. apply Z.mod_small. lia. }
  pose proof (i16_le16_roundtrip src Hsrc) as Hs.
  destruct (0x7fff <? tof) eqn:Hlong.
  - apply Z.ltb_lt in Hlong.
    assert (Ht : i32 (default 0 (Uint32 (le32 (u32 tof) ++ rest))) = tof).
    { rewrite Uint32_le32_app. cbn [default from_option id]. unfold u32. rewrite Z.mod_mod by lia.
      rewrite Z.mod_small by lia. unfold i32. rewrite Z.mod_small by lia. lia. }
    assert (Hi : i32 ob = ob) by (apply i32_small; lia).
    destruct Hty as [-> | ->]; unfold module.readFixup; cbn [le16 app].
    all: match goal with |- context [Z.of_nat (length ?l) <? 7] =>
           replace (Z.of_nat (length l) <? 7) with false
             by (symmetry; apply Z.ltb_ge; cbn [length]; rewrite length_app;
                 cbn [length le32]; lia) end.
    all: cbn match.
    all: repeat match goal with
           | |- context [negb (Z.land ?a ?b =? 0)] =>
               let v := eval vm_compute in (negb (Z.land a b =? 0)) in
               change (negb (Z.land a b =? 0)) with v
           | |- context [8 <? Z.land ?a ?b] =>
               let v := eval vm_compute in (8 <? Z.land a b) in
               change (8 <? Z.land a b) with v
           end.
    all: cbv beta iota zeta; cbn [drop head default from_option id]; rewrite ?drop_0.
    all: match goal with |- context [Z.of_nat (length ?l) <? 4] =>
           replace (Z.of_nat (length l) <? 4) with false
             by (symmetry; apply Z.ltb_ge; rewrite length_app; cbn [length le32]; lia) end.
    all: rewrite Hs, Hob, Hi, Ht; reflexivity.
  - apply Z.ltb_ge in Hlong.
    assert (Ht : i32 (default 0 (Uint16 (le16 (u16 tof) ++ rest))) = tof).
    { rewrite Uint16_le16_app. cbn [default from_option id]. unfold u16.
      rewrite Z.mod_mod by lia.
      rewrite Z.mod_small by lia. unfold i32. rewrite Z.mod_small by lia. lia. }
    assert (Hi : i32 ob = ob) by (apply i32_small; lia).
    destruct Hty as [-> | ->]; unfold module.readFixup; cbn [le16 app].
    all: match goal with |- context [Z.of_nat (length ?l) <? 7] =>
           replace (Z.of_nat (length l) <? 7) with false
             by (symmetry; apply Z.ltb_ge; cbn [length]; lia) end.
    all: cbn match.
    all: repeat match goal with
           | |- context [negb (Z.land ?a ?b =? 0)] =>
               let v := eval vm_compute in (negb (Z.land a b =? 0)) in
               change (negb (Z.land a b =? 0)) with v
           | |- context [8 <? Z.land ?a ?b] =>
               let v := eval vm_compute in (8 <? Z.land a b) in
               change (8 <? Z.land a b) with v
           end.
    all: cbv beta iota zeta; cbn [drop head default from_option id]; rewrite ?drop_0.
    all: match goal with |- context [Z.of_nat (length ?l) <? 2] =>
           replace (Z.of_nat (length l) <? 2) with false
             by (symmetry; apply Z.ltb_ge; cbn [length]; lia) end.
    all: change (u8 (u16 tof) :: u8 (Z.shiftr (u16 tof) 8) :: rest)
           with (le16 (u16 tof) ++ rest).
    all: rewrite Hs, Hob, Hi, Ht; reflexivity.
Qed.

(** [X3] A record that [appendFixup] wrote is read back by [readFixup]: for
    a fixup that a record can hold, decoding the bytes, whatever follows
    them, gives the length of the record and the fixup. *)
Theorem readFixup_appendFixup (f : module.Fixup) (rest : list Z) :
  encodable f ->
  module.readFixup (module.appendFixup f [] ++ rest)
  = inr (length (module.appendFixup f []), f).
Proof. apply readFixup_appendFixup_app. Qed.

Lemma readFixup_appendFixup_witness :
  encodable (mkFixup 7 0x10 2 0x12345) /\
  module.readFixup (module.appendFixup (mkFixup 7 0x10 2 0x12345) [] ++ [0xff])
  = inr (length (module.appendFixup (mkFixup 7 0x10 2 0x12345) []),
         mkFixup 7 0x10 2 0x12345).
Proof.
  assert (H : encodable (mkFixup 7 0x10 2 0x12345)).
  { unfold encodable, mkFixup; cbn. repeat split; try lia. left; reflexivity. }
  split; [exact H | apply (readFixup_appendFixup _ [0xff] H)].
Defined.

(** The length that [readFixup] returns. *)
Lemma readFixup_length (data : list Z) (n : nat) (f : module.Fixup) :
  module.readFixup data = inr (n, f) ->
  (7 <= n <= 10)%nat /\ (n <= length data)%nat.
Proof.
  unfold module.readFixup.
  destruct (Z.ltb_spec (Z.of_nat (length data)) 7) as [Hlt | Hge]; [discriminate |].
  destruct data as [| src [| flags [| lo [| hi data4]]]]; try discriminate.
  destruct (negb (Z.land src 32 =? 0)); [discriminate |].
  destruct (negb (Z.land flags 3 =? 0)); [discriminate |].
  destruct (negb (Z.land flags 4 =? 0)); [discriminate |].
  cbn [length] in Hge.
  destruct (negb (Z.land flags 64 =? 0));
    destruct (8 <? Z.land src 15); try discriminate;
    destruct (negb (Z.land flags 16 =? 0));
    match goal with
    | |- context [Z.of_nat (length ?l) <? ?k] =>
        destruct (Z.ltb_spec (Z.of_nat (length l)) k) as [Hs | Hs]; [discriminate |]
    end;
    intros H; injection H as <- _; rewrite length_drop in Hs; cbn [length]; lia.
Qed.

(** [X4] A record that [readFixup] accepts is 7 to 10 bytes long and lies
    within the data: the number of bytes consumed is never zero and never
    more than what is there. *)
Theorem readFixup_consumes (data : list Z) (n : nat) (f : module.Fixup) :
  module.readFixup data = inr (n, f) ->
  (7 <= n <= 10)%nat /\ (n <= length data)%nat.
Proof. apply readFixup_length. Qed.

Lemma readFixup_consumes_witness :
  module.readFixup [7; 0; 0x10; 0; 2; 0x34; 0x12; 0xff]
    = inr (7%nat, mkFixup 7 0x10 2 0x1234) /\
  (7 <= 7 <= 10)%nat /\ (7 <= length [7; 0; 0x10; 0; 2; 0x34; 0x12; 0xff])%nat.
Proof.
  assert (H : module.readFixup [7; 0; 0x10; 0; 2; 0x34; 0x12; 0xff]
              = inr (7%nat, mkFixup 7 0x10 2 0x1234)) by (vm_compute; reflexivity).
  split; [exact H | apply (readFixup_consumes _ _ _ H)].
Defined.

Lemma read_page_fixups_some fuel :
  forall fdata fixups,
    (length fdata <= 7 * fuel)%nat ->
    exists r, module.read_page_fixups fuel fdata fixups = Some r.
Proof.
  induction fuel as [| fuel IH]; intros fdata fixups Hlen.
  - destruct fdata; [| cbn [length] in Hlen; lia]. cbn. eauto.
  - cbn [module.read_page_fixups].
    destruct (Z.eqb_spec (Z.of_nat (length fdata)) 0) as [Hz | Hnz]; [eauto |].
    destruct (module.readFixup fdata) as [e | [n fx]] eqn:Hr; [eauto |].
    destruct (readFixup_length _ _ _ Hr) as [Hn Hle].
    unfold slice_from. rewrite bool_decide_eq_true_2 by lia.
    cbn [mbind option_bind]. rewrite Nat2Z.id.
    apply IH. rewrite length_drop. lia.
Qed.

(** [X5] The loop of [readFixupRecords] over the records of a page ends, and
    without a panic: every iteration consumes at least 7 bytes that are
    there, so as many iterations as there are bytes give the fixups or the
    error of [readFixup]. *)
Theorem read_page_fixups_total (fdata : list Z) (fixups : list module.Fixup) :
  exists r, module.read_page_fixups (length fdata) fdata fixups = Some r.
Proof. apply read_page_fixups_some. lia. Qed.

Lemma foldl_appendFixup fs :
  forall acc,
    foldl (fun records f => module.appendFixup f records) acc fs
    = acc ++ concat (map (fun f => module.appendFixup f []) fs).
Proof.
  induction fs as [| f fs IH]; intros acc; cbn [foldl map concat].
  - rewrite app_nil_r. reflexivity.
  - rewrite IH, (appendFixup_app f acc), <- app_assoc. reflexivity.
Qed.

Lemma read_page_fixups_concat fs :
  forall fuel acc,
    Forall encodable fs ->
    (length fs <= fuel)%nat ->
    module.read_page_fixups fuel (concat (map (fun f => module.appendFixup f []) fs)) acc
    = Some (inr (acc ++ fs)).
Proof.
  induction fs as [| f fs IH]; intros fuel acc Henc Hfuel.
  - cbn [map concat]. rewrite app_nil_r. destruct fuel; reflexivity.
  - apply Forall_cons in Henc as [Hf Hfs].
    destruct fuel as [| fuel]; [cbn [length] in Hfuel; lia |].
    cbn [map concat module.read_page_fixups].
    pose proof (appendFixup_nil_length f) as Hlen.
    assert (Hl : (7 <= length (module.appendFixup f []))%nat)
      by (rewrite Hlen; destruct (32767 <? module.Off (module.Target f)); lia).
    replace (Z.of_nat (length (module.appendFixup f [] ++
               concat (map (fun f0 => module.appendFixup f0 []) fs))) =? 0) with false
      by (symmetry; apply Z.eqb_neq; rewrite length_app; lia).
    rewrite (readFixup_appendFixup_app f _ Hf).
    unfold slice_from. rewrite bool_decide_eq_true_2 by (rewrite length_app; lia).
    cbn [mbind option_bind]. rewrite Nat2Z.id, drop_app_length.
    rewrite IH; [| exact Hfs | cbn [length] in Hfuel; lia].
    rewrite <- app_assoc. reflexivity.
Qed.

Lemma concat_appendFixup_length fs :
  (7 * length fs <= length (concat (map (fun f => module.appendFixup f []) fs)))%nat.
Proof.
  induction fs as [| f fs IH]; cbn [map concat length]; [lia |].
  rewrite length_app, appendFixup_nil_length.
  destruct (32767 <? module.Off (module.Target f)); lia.
Qed.

(** [X6] The records of a page are read back as they were written: for
    fixups that a record can hold, the loop of [readFixupRecords] on the
    bytes that the loop of [fixupdata.write] appended,
    [records = appendFixup(f, records)] for each fixup in turn, gives these
    fixups, in this order. *)
Theorem read_page_fixups_roundtrip (fs : list module.Fixup) :
  Forall encodable fs ->
  let records := foldl (fun records f => module.appendFixup f records) [] fs in
  module.read_page_fixups (length records) records [] = Some (inr fs).
Proof.
  intros Henc records. subst records. rewrite foldl_appendFixup. cbn [app].
  apply (read_page_fixups_concat fs _ [] Henc).
  pose proof (concat_appendFixup_length fs). lia.
Qed.

Lemma read_page_fixups_roundtrip_witness :
  Forall encodable [mkFixup 7 0x10 2 0x12345; mkFixup 8 0xffc 1 0x20] /\
  let records := foldl (fun records f => module.appendFixup f records) []
                       [mkFixup 7 0x10 2 0x12345; mkFixup 8 0xffc 1 0x20] in
  module.read_page_fixups (length records) records []
  = Some (inr [mkFixup 7 0x10 2 0x12345; mkFixup 8 0xffc 1 0x20]).
Proof.
  assert (H : Forall encodable [mkFixup 7 0x10 2 0x12345; mkFixup 8 0xffc 1 0x20]).
  { constructor; [| constructor; [| constructor]];
      unfold encodable, mkFixup; cbn; repeat split; try lia;
      [left | right]; reflexivity. }
  split; [exact H | apply (read_page_fixups_roundtrip _ H)].
Defined.

(** ** Addresses and segments of package main *)

Lemma resolveAddr_from_none segs :
  forall i0 a,
    (forall s, s ∈ segs -> main.hasAddr (main.seg_range s) a = false) ->
    main.resolveAddr_from segs i0 a = {| main.obj := 0; main.off := 0 |}.
Proof.
  induction segs as [| s segs IH]; intros i0 a Hall; cbn [main.resolveAddr_from].
  - reflexivity.
  - rewrite (Hall s) by (apply elem_of_cons; left; reflexivity).
    apply IH. intros s' Hs'. apply Hall. apply elem_of_cons. right. exact Hs'.
Qed.

Lemma first_hasAddr (segs : list main.segment) (a : Z) :
  (forall s, s ∈ segs -> main.hasAddr (main.seg_range s) a = false) \/
  exists k s, segs !! k = Some s /\ main.hasAddr (main.seg_range s) a = true /\
    forall j s', (j < k)%nat -> segs !! j = Some s' ->
                 main.hasAddr (main.seg_range s') a = false.
Proof.
  induction segs as [| s segs IH].
  - left. intros s Hs. apply elem_of_nil in Hs. contradiction.
  - destruct (main.hasAddr (main.seg_range s) a) eqn:Hs.
    + right. exists 0%nat, s. split; [reflexivity |]. split; [exact Hs |].
      intros j s' Hj. lia.
    + destruct IH as [Hnone | (k & s0 & Hk & Hh & Hfirst)].
      * left. intros s' Hs'. apply elem_of_cons in Hs' as [-> | Hs']; auto.
      * right. exists (S k), s0. split; [exact Hk |]. split; [exact Hh |].
        intros [| j] s' Hj Hl; cbn in Hl.
        -- injection Hl as <-. exact Hs.
        -- apply (Hfirst j s'); [lia | exact Hl].
Qed.

(** The two results of [resolveAddr]. *)
Lemma resolveAddr_cases (segs : list main.segment) (a : Z) :
  Z.of_nat (length segs) < 2 ^ 31 ->
  (main.resolveAddr segs a = {| main.obj := 0; main.off := 0 |} /\
   forall s, s ∈ segs -> main.hasAddr (main.seg_range s) a = false)
  \/
  (exists k s,
     segs !! k = Some s /\
     main.hasAddr (main.seg_range s) a = true /\
     (forall j s', (j < k)%nat -> segs !! j = Some s' ->
                   main.hasAddr (main.seg_range s') a = false) /\
     main.resolveAddr segs a
       = {| main.obj := Z.of_nat k + 1;
            main.off := i32 (u32 (a - main.addr (main.seg_range s))) |}).
Proof.
  intros Hlen. destruct (first_hasAddr segs a) as [Hnone | (k & s & Hk & Hh & Hfirst)].
  - left. split; [apply resolveAddr_from_none; exact Hnone | exact Hnone].
  - right. exists k, s. repeat split; try assumption.
    unfold main.resolveAddr.
    rewrite (resolveAddr_from_first segs 0 a k s Hk Hh Hfirst).
    apply lookup_lt_Some in Hk.
    rewrite (i32_small (0 + Z.of_nat k + 1)) by lia.
    rewrite Z.add_0_l. reflexivity.
Qed.

(** [X7] [resolveAddr] returns the first segment that has the address, as
    the object of its position counted from 1 and the offset from the start
    of the segment; it returns the zero reference exactly when no segment
    has the address. *)
Theorem resolveAddr_first_segment (segs : list main.segment) (a : Z) :
  Z.of_nat (length segs) < 2 ^ 31 ->
  (main.resolveAddr segs a = {| main.obj := 0; main.off := 0 |} /\
   forall s, s ∈ segs -> main.hasAddr (main.seg_range s) a = false)
  \/
  (exists k s,
     segs !! k = Some s /\
     main.hasAddr (main.seg_range s) a = true /\
     (forall j s', (j < k)%nat -> segs !! j = Some s' ->
                   main.hasAddr (main.seg_range s') a = false) /\
     main.resolveAddr segs a
       = {| main.obj := Z.of_nat k + 1;
            main.off := i32 (u32 (a - main.addr (main.seg_range s))) |}).
Proof. apply resolveAddr_cases. Qed.

Lemma resolveAddr_first_segment_witness :
  Z.of_nat (length main_segs_S2) < 2 ^ 31 /\
  ((main.resolveAddr main_segs_S2 0x20080 = {| main.obj := 0; main.off := 0 |} /\
    forall s, s ∈ main_segs_S2 -> main.hasAddr (main.seg_range s) 0x20080 = false)
   \/
   (exists k s,
      main_segs_S2 !! k = Some s /\
      main.hasAddr (main.seg_range s) 0x20080 = true /\
      (forall j s', (j < k)%nat -> main_segs_S2 !! j = Some s' ->
                    main.hasAddr (main.seg_range s') 0x20080 = false) /\
      main.resolveAddr main_segs_S2 0x20080
        = {| main.obj := Z.of_nat k + 1;
             main.off := i32 (u32 (0x20080 - main.addr (main.seg_range s))) |})).
Proof.
  assert (H : Z.of_nat (length main_segs_S2) < 2 ^ 31) by (vm_compute; reflexivity).
  split; [exact H | apply (resolveAddr_first_segment main_segs_S2 0x20080 H)].
Defined.

Lemma testbit_land_pow2 z k :
  0 <= k -> Z.testbit z k = negb (Z.land z (2 ^ k) =? 0).
Proof.
  intros Hk. destruct (Z.testbit z k) eqn:Hb.
  - destruct (Z.eqb_spec (Z.land z (2 ^ k)) 0) as [Hz | Hnz]; [| reflexivity].
    assert (Hc : Z.testbit (Z.land z (2 ^ k)) k = true)
      by (rewrite Z.land_spec, Hb, Z.pow2_bits_true by lia; reflexivity).
    rewrite Hz, Z.bits_0 in Hc. discriminate.
  - destruct (Z.eqb_spec (Z.land z (2 ^ k)) 0) as [Hz | Hnz]; [reflexivity |].
    exfalso. apply Hnz. apply Z.bits_inj'. intros n Hn.
    rewrite Z.land_spec, Z.bits_0.
    destruct (Z.eq_dec n k) as [-> | Hne].
    + rewrite Hb. reflexivity.
    + rewrite Z.pow2_bits_false by lia. apply andb_false_r.
Qed.

Lemma readLoadSegment_loaded i p seg :
  main.readLoadSegment i p = Ok seg -> loaded p seg /\ main.seg_index seg = i.
Proof.
  unfold main.readLoadSegment, loaded, object_loaded.
  rewrite (testbit_land_pow2 _ 0), (testbit_land_pow2 _ 1), (testbit_land_pow2 _ 2) by lia.
  change (2 ^ 0) with debug_elf.PF_X. change (2 ^ 1) with debug_elf.PF_W.
  change (2 ^ 2) with debug_elf.PF_R.
  destruct (negb (Z.land (debug_elf.p_Flags p) debug_elf.PF_R =? 0)); [| discriminate].
  change (Z.lor (Z.lor debug_elf.PF_X debug_elf.PF_W) debug_elf.PF_R) with 7.
  destruct (Z.eqb_spec (Z.ldiff (debug_elf.p_Flags p) 7) 0) as [Hu | Hu];
    cbn [negb]; [| discriminate].
  destruct (0 <? debug_elf.p_Filesz p).
  - destruct (debug_elf.p_ReadAt p) as [data |]; cbn [bind]; [| discriminate].
    intros H. injection H as <-. cbn.
    repeat split; try assumption.
    destruct (negb (Z.land (debug_elf.p_Flags p) debug_elf.PF_X =? 0));
      destruct (negb (Z.land (debug_elf.p_Flags p) debug_elf.PF_W =? 0)); reflexivity.
  - cbn [bind]. intros H. injection H as <-. cbn.
    repeat split; try assumption.
    destruct (negb (Z.land (debug_elf.p_Flags p) debug_elf.PF_X =? 0));
      destruct (negb (Z.land (debug_elf.p_Flags p) debug_elf.PF_W =? 0)); reflexivity.
Qed.

Lemma assignSegments_from_spec progs :
  forall i acc segs,
    main.assignSegments_from progs i acc = Ok segs ->
    exists new,
      segs = acc ++ new /\
      Forall2 loaded (List.filter is_load progs) new /\
      Forall accepted_type progs /\
      forall k s, new !! k = Some s ->
        i <= main.seg_index s /\
        progs !! Z.to_nat (main.seg_index s - i) = Some (main.seg_prog s).
Proof.
  induction progs as [| p progs IH]; intros i acc segs H; cbn [main.assignSegments_from] in H.
  - injection H as <-. exists []. rewrite app_nil_r.
    split; [reflexivity |]. split; [constructor |]. split; [constructor |].
    intros k s Hk. rewrite lookup_nil in Hk. discriminate.
  - unfold accepted_type. cbn [List.filter]. unfold is_load at 1.
    destruct (Z.eqb_spec (debug_elf.p_Type p) debug_elf.PT_NULL) as [Hn | Hn];
    [| destruct (Z.eqb_spec (debug_elf.p_Type p) debug_elf.PT_NOTE) as [Hno | Hno];
       [| destruct (Z.eqb_spec (debug_elf.p_Type p) main.ptGNUEHFrame) as [Hg | Hg]]];
    cbn [orb] in H.
    1-3: destruct (IH _ _ _ H) as (new & -> & Hl & Ha & Hix); exists new;
         (replace (debug_elf.p_Type p =? debug_elf.PT_LOAD) with false
            by (symmetry; apply Z.eqb_neq; first [rewrite Hn | rewrite Hno | rewrite Hg];
                discriminate));
         (split; [reflexivity |]); (split; [exact Hl |]);
         (split; [constructor; [tauto | exact Ha] |]);
         intros k s Hk; destruct (Hix k s Hk) as [Hge Hp]; (split; [lia |]);
         (replace (Z.to_nat (main.seg_index s - i))
            with (S (Z.to_nat (main.seg_index s - (i + 1)))) by lia); exact Hp.
    destruct (Z.eqb_spec (debug_elf.p_Type p) debug_elf.PT_LOAD) as [Hld | Hld];
      [| discriminate].
    destruct (main.readLoadSegment i p) as [seg | e |] eqn:Hseg; try discriminate.
    destruct (readLoadSegment_loaded _ _ _ Hseg) as [Hlo Hidx].
    destruct (IH _ _ _ H) as (new & -> & Hl & Ha & Hix).
    exists (seg :: new). rewrite <- app_assoc. split; [reflexivity |].
    split; [constructor; assumption |].
    split; [constructor; [tauto | exact Ha] |].
    intros [| k] s Hk; cbn in Hk.
    + injection Hk as <-. rewrite Hidx. split; [lia |].
      rewrite Z.sub_diag. change (Z.to_nat 0) with 0%nat. cbn.
      rewrite (proj1 Hlo). reflexivity.
    + destruct (Hix k s Hk) as [Hge Hp]. split; [lia |].
      replace (Z.to_nat (main.seg_index s - i))
        with (S (Z.to_nat (main.seg_index s - (i + 1)))) by lia. exact Hp.
Qed.

(** [X8] When [assignSegments] succeeds, the segments are the program
    headers of type [PT_LOAD], in their order, each with the address, the
    size in memory, the file bytes and the translated flags of its header and
    with no fixup; every header has an accepted type, and the index of a
    segment is the position of its header in the file. *)
Theorem assignSegments_loads (f : debug_elf.File) (segs : list main.segment) :
  main.assignSegments f = Ok segs ->
  Forall2 loaded (List.filter is_load (debug_elf.Progs f)) segs /\
  Forall accepted_type (debug_elf.Progs f) /\
  forall k s, segs !! k = Some s ->
    0 <= main.seg_index s /\
    debug_elf.Progs f !! Z.to_nat (main.seg_index s) = Some (main.seg_prog s).
Proof.
  intros H. unfold main.assignSegments in H.
  destruct (assignSegments_from_spec _ _ _ _ H) as (new & -> & Hl & Ha & Hix).
  cbn [app]. split; [exact Hl |]. split; [exact Ha |].
  intros k s Hk. destruct (Hix k s Hk) as [Hge Hp]. split; [exact Hge |].
  rewrite Z.sub_0_r in Hp. exact Hp.
Qed.

Lemma assignSegments_loads_witness :
  main.assignSegments file_S2 = Ok main_segs_S2 /\
  Forall2 loaded (List.filter is_load (debug_elf.Progs file_S2)) main_segs_S2 /\
  Forall accepted_type (debug_elf.Progs file_S2) /\
  forall k s, main_segs_S2 !! k = Some s ->
    0 <= main.seg_index s /\
    debug_elf.Progs file_S2 !! Z.to_nat (main.seg_index s) = Some (main.seg_prog s).
Proof.
  assert (H : main.assignSegments file_S2 = Ok main_segs_S2) by (vm_compute; reflexivity).
  split; [exact H | apply (assignSegments_loads file_S2 main_segs_S2 H)].
Defined.

(** ** Relocations leave the objects as they are, fixups apart *)

Lemma fixups_appended_refl s : fixups_appended s s.
Proof.
  unfold fixups_appended. repeat split. exists []. rewrite app_nil_r. reflexivity.
Qed.

Lemma fixups_appended_trans s1 s2 s3 :
  fixups_appended s1 s2 -> fixups_appended s2 s3 -> fixups_appended s1 s3.
Proof.
  intros (Ha1 & Ha2 & Ha3 & Ha4 & Ha5 & Ha6 & Ha7 & (x & Hx))
         (Hb1 & Hb2 & Hb3 & Hb4 & Hb5 & Hb6 & Hb7 & (y & Hy)).
  unfold fixups_appended. repeat split; try congruence.
  exists (x ++ y). rewrite Hy, Hx, app_assoc. reflexivity.
Qed.

Lemma Forall2_fixups_appended_refl segs : Forall2 fixups_appended segs segs.
Proof. induction segs; constructor; auto using fixups_appended_refl. Qed.

Lemma Forall2_fixups_appended_trans segs1 :
  forall segs2 segs3,
    Forall2 fixups_appended segs1 segs2 -> Forall2 fixups_appended segs2 segs3 ->
    Forall2 fixups_appended segs1 segs3.
Proof.
  induction segs1 as [| s segs1 IH]; intros segs2 segs3 H12 H23.
  - inversion H12; subst. inversion H23; subst. constructor.
  - inversion H12; subst. inversion H23; subst. constructor.
    + eapply fixups_appended_trans; eassumption.
    + eapply IH; eassumption.
Qed.

Lemma append_fixup_appended segs :
  forall i fx, Forall2 fixups_appended segs (main.append_fixup segs i fx).
Proof.
  induction segs as [| s segs IH]; intros i fx.
  - unfold main.append_fixup. rewrite lookup_nil. constructor.
  - destruct i as [| i].
    + unfold main.append_fixup. cbn. constructor.
      * unfold fixups_appended. cbn. repeat split. eexists. reflexivity.
      * apply Forall2_fixups_appended_refl.
    + specialize (IH i fx). unfold main.append_fixup in *. cbn.
      destruct (segs !! i) as [s0 |] eqn:Hi.
      * cbn. constructor; [apply fixups_appended_refl | exact IH].
      * constructor; [apply fixups_appended_refl | exact IH].
Qed.

Lemma addRelocation_appended rel segs syms segs' :
  main.addRelocation rel segs syms = Ok segs' -> Forall2 fixups_appended segs segs'.
Proof.
  intros H. destruct (addRelocation_Ok _ _ _ _ H)
    as [-> | (i & seg & sym & val & srcType & fixOff & _ & _ & _ & _ & _ & _ & ->)].
  - apply Forall2_fixups_appended_refl.
  - apply append_fixup_appended.
Qed.

Lemma read_rels_appended fuel :
  forall data segs syms segs',
    main.read_rels fuel data segs syms = Ok segs' -> Forall2 fixups_appended segs segs'.
Proof.
  induction fuel as [| fuel IH]; intros data segs syms segs' H; cbn [main.read_rels] in H.
  - injection H as <-. apply Forall2_fixups_appended_refl.
  - destruct (0 <? Z.of_nat (length data)).
    + destruct (main.addRelocation (debug_elf.read_Rel32 data) segs syms)
        as [segs1 | e |] eqn:Ha; try discriminate.
      eapply Forall2_fixups_appended_trans;
        [eapply addRelocation_appended, Ha | eapply IH, H].
    + injection H as <-. apply Forall2_fixups_appended_refl.
Qed.

Lemma readRelocationSection_Ok s segs syms segs' :
  main.readRelocationSection s segs syms = Ok segs' ->
  debug_elf.s_Type s = debug_elf.SHT_REL /\
  (exists data, debug_elf.s_Data s = Some data /\ Z.land (Z.of_nat (length data)) 7 = 0) /\
  Forall2 fixups_appended segs segs'.
Proof.
  unfold main.readRelocationSection. intros H.
  destruct (debug_elf.s_Data s) as [data |]; [| discriminate].
  destruct (Z.eqb_spec (debug_elf.s_Type s) debug_elf.SHT_REL) as [Ht | Ht];
    [| discriminate].
  destruct (Z.eqb_spec (Z.land (Z.of_nat (length data)) 7) 0) as [Hl | Hl];
    cbn [negb] in H; [| discriminate].
  split; [exact Ht |]. split; [eauto |]. eapply read_rels_appended, H.
Qed.

(** What [readSections] accepts of a section: it is not of type [SHT_RELA],
    and if of type [SHT_REL], it refers to a section of the file and its
    data are a whole number of 8-byte entries. *)
Lemma readSections_from_Ok sections :
  forall i nsec segs syms segs',
    main.readSections_from sections i nsec segs syms = Ok segs' ->
    Forall2 fixups_appended segs segs' /\
    Forall (fun s =>
              debug_elf.s_Type s <> debug_elf.SHT_RELA /\
              (debug_elf.s_Type s = debug_elf.SHT_REL ->
               0 <= debug_elf.s_Info s < nsec /\
               exists data, debug_elf.s_Data s = Some data /\
                            Z.land (Z.of_nat (length data)) 7 = 0))
           sections.
Proof.
  induction sections as [| s sections IH]; intros i nsec segs syms segs' H;
    cbn [main.readSections_from] in H.
  - injection H as <-. split; [apply Forall2_fixups_appended_refl | constructor].
  - destruct (Z.eqb_spec (debug_elf.s_Type s) debug_elf.SHT_REL) as [Hr | Hr];
      [| destruct (Z.eqb_spec (debug_elf.s_Type s) debug_elf.SHT_RELA) as [Ha | Ha]];
      cbn [orb] in H.
    3: { destruct (IH _ _ _ _ _ H) as [Hf Hs]. split; [exact Hf |].
         constructor; [| exact Hs]. split; [exact Ha | intros; contradiction]. }
    all: destruct (Z.ltb_spec (debug_elf.s_Info s) 0) as [Hlt | Hge];
      [discriminate |];
      destruct (Z.leb_spec nsec (debug_elf.s_Info s)) as [Hle | Hgt];
      cbn [orb] in H; [discriminate |];
      destruct (main.readRelocationSection s segs syms) as [segs1 | e |] eqn:Hsec;
      try discriminate;
      destruct (readRelocationSection_Ok _ _ _ _ Hsec) as (Ht & Hd & Hf1);
      destruct (IH _ _ _ _ _ H) as [Hf Hs];
      (split; [eapply Forall2_fixups_appended_trans; eassumption |]);
      constructor; [| exact Hs];
      (split; [rewrite Ht; discriminate | intros _; split; [lia | exact Hd]]).
Qed.

(** [X9] Reading the relocation sections changes nothing of the segments
    and their objects but the fixups: the ranges, the flags, the sizes, the
    addresses and the data bytes stay as they were, and the fixups of each
    object are those it had, followed by the new ones. *)
Theorem readSections_only_appends_fixups
    (f : debug_elf.File) (segs segs' : list main.segment) (syms : list main.symbol) :
  main.readSections f segs syms = Ok segs' ->
  Forall2 fixups_appended segs segs'.
Proof. intros H. eapply readSections_from_Ok, H. Qed.

Lemma readSections_only_appends_fixups_witness :
  main.readSections file_S2 main_segs_S2 main_syms_S2 = Ok main_segs_S2_read /\
  Forall2 fixups_appended main_segs_S2 main_segs_S2_read.
Proof.
  assert (H : main.readSections file_S2 main_segs_S2 main_syms_S2 = Ok main_segs_S2_read)
    by (vm_compute; reflexivity).
  split; [exact H | apply (readSections_only_appends_fixups _ _ _ _ H)].
Defined.

(** [X10] A file that [readSections] accepts has no section of type
    [SHT_RELA], and each of its sections of type [SHT_REL] refers, by its
    [Info], to a section of the file and has data of a length that is a
    multiple of 8. *)
Theorem readSections_accepts_only_REL
    (f : debug_elf.File) (segs segs' : list main.segment) (syms : list main.symbol) :
  main.readSections f segs syms = Ok segs' ->
  Forall (fun s =>
            debug_elf.s_Type s <> debug_elf.SHT_RELA /\
            (debug_elf.s_Type s = debug_elf.SHT_REL ->
             0 <= debug_elf.s_Info s < Z.of_nat (length (debug_elf.Sections f)) /\
             exists data, debug_elf.s_Data s = Some data /\
                          Z.land (Z.of_nat (length data)) 7 = 0))
         (debug_elf.Sections f).
Proof. intros H. eapply readSections_from_Ok, H. Qed.

Lemma readSections_accepts_only_REL_witness :
  main.readSections file_S2 main_segs_S2 main_syms_S2 = Ok main_segs_S2_read /\
  Forall (fun s =>
            debug_elf.s_Type s <> debug_elf.SHT_RELA /\
            (debug_elf.s_Type s = debug_elf.SHT_REL ->
             0 <= debug_elf.s_Info s < Z.of_nat (length (debug_elf.Sections file_S2)) /\
             exists data, debug_elf.s_Data s = Some data /\
                          Z.land (Z.of_nat (length data)) 7 = 0))
         (debug_elf.Sections file_S2).
Proof.
  assert (H : main.readSections file_S2 main_segs_S2 main_syms_S2 = Ok main_segs_S2_read)
    by (vm_compute; reflexivity).
  split; [exact H | apply (readSections_accepts_only_REL _ _ _ _ H)].
Defined.

(** ** The program of [readExecutable] *)

Lemma resolveAddr_obj_range (segs : list main.segment) (a : Z) :
  Z.of_nat (length segs) < 2 ^ 31 ->
  0 <= main.obj (main.resolveAddr segs a) <= Z.of_nat (length segs).
Proof.
  intros Hlen.
  destruct (resolveAddr_cases segs a Hlen)
    as [[-> _] | (k & s & Hk & _ & _ & ->)]; cbn [main.obj].
  - lia.
  - apply lookup_lt_Some in Hk. lia.
Qed.

Lemma find_stack_snoc syms sym :
  main.find_stack (syms ++ [sym])
  = if String.eqb (main.sym_name sym) "_stack_end" then main.sym_ref sym
    else main.find_stack syms.
Proof. unfold main.find_stack. rewrite fold_left_app. reflexivity. Qed.

Lemma find_stack_cases (syms : list main.symbol) :
  main.find_stack syms = {| main.obj := 0; main.off := 0 |} \/
  exists sym, sym ∈ syms /\ main.sym_name sym = "_stack_end" /\
              main.find_stack syms = main.sym_ref sym.
Proof.
  induction syms as [| sym syms IH] using rev_ind.
  - left. reflexivity.
  - rewrite find_stack_snoc.
    destruct (String.eqb_spec (main.sym_name sym) "_stack_end") as [Hn | Hn].
    + right. exists sym. split; [| split; [exact Hn | reflexivity]].
      apply elem_of_app. right. apply list_elem_of_singleton. reflexivity.
    + destruct IH as [H0 | (s0 & Hin & Hname & Hs)]; [left; exact H0 |].
      right. exists s0. split; [| split; assumption].
      apply elem_of_app. left. exact Hin.
Qed.

Lemma loaded_appended p s s' :
  loaded p s -> fixups_appended s s' -> object_loaded p (main.seg_object s').
Proof.
  intros (_ & _ & (Ha & Hs & Hd & Hr & Hu & Hf) & _)
         (_ & _ & _ & Hb4 & Hb5 & Hb6 & Hb7 & _).
  unfold object_loaded. rewrite Hb4, Hb5, Hb6, Hb7. repeat split; assumption.
Qed.

Lemma Forall2_loaded_appended progs :
  forall segs segs',
    Forall2 loaded progs segs -> Forall2 fixups_appended segs segs' ->
    Forall2 object_loaded progs (map main.seg_object segs').
Proof.
  induction progs as [| p progs IH]; intros segs segs' H1 H2.
  - inversion H1; subst. inversion H2; subst. constructor.
  - inversion H1; subst. inversion H2; subst. cbn [map]. constructor.
    + eapply loaded_appended; eassumption.
    + eapply IH; eassumption.
Qed.

Lemma filter_length_le {A} (g : A -> bool) (l : list A) :
  (length (List.filter g l) <= length l)%nat.
Proof. induction l as [| x l IH]; cbn; [lia |]. destruct (g x); cbn; lia. Qed.

(** [X11] The program that [readExecutable] returns has one object for each
    program header of type [PT_LOAD], in the order of the headers: the object
    has the address, the size in memory, the file bytes and the translated
    flags of its header. The entry point and the stack refer to objects of
    the program. *)
Theorem readExecutable_objects (f : debug_elf.File) (p : main.program) :
  Z.of_nat (length (debug_elf.Progs f)) < 2 ^ 31 ->
  main.readExecutable f = Ok p ->
  Forall2 object_loaded (List.filter is_load (debug_elf.Progs f)) (main.objects p) /\
  1 <= main.obj (main.entry p) <= Z.of_nat (length (main.objects p)) /\
  1 <= main.obj (main.stack p) <= Z.of_nat (length (main.objects p)).
Proof.
  intros Hlen H. unfold main.readExecutable in H.
  destruct (negb (debug_elf.Class f =? debug_elf.ELFCLASS32)); [discriminate |].
  destruct (negb (debug_elf.Data_ f =? debug_elf.ELFDATA2LSB)); [discriminate |].
  destruct (negb (debug_elf.Type_ f =? debug_elf.ET_EXEC)); [discriminate |].
  destruct (negb (debug_elf.Machine f =? debug_elf.EM_386)); [discriminate |].
  destruct (main.assignSegments f) as [segs | e |] eqn:Hseg; try discriminate.
  cbn [bind] in H.
  destruct (Z.eqb_spec (main.obj (main.resolveAddr segs (u32 (debug_elf.Entry_ f)))) 0)
    as [He | He]; [discriminate |].
  destruct (main.resolveSymbols f segs) as [syms | e |] eqn:Hsyms; try discriminate.
  cbn [bind] in H.
  destruct (Z.eqb_spec (main.obj (main.find_stack syms)) 0) as [Hst | Hst];
    [discriminate |].
  destruct (main.readSections f segs syms) as [segs' | e |] eqn:Hsec; try discriminate.
  cbn [bind] in H. injection H as <-. cbn [main.objects main.entry main.stack].
  destruct (assignSegments_from_spec _ _ _ _ Hseg) as (new & Hnew & Hl & _ & _).
  cbn [app] in Hnew. subst new.
  pose proof (proj1 (readSections_from_Ok _ _ _ _ _ _ Hsec)) as Hf.
  assert (Hlen1 : length segs' = length segs) by (symmetry; eapply Forall2_length, Hf).
  assert (Hlen2 : (length segs <= length (debug_elf.Progs f))%nat).
  { rewrite <- (Forall2_length _ _ _ Hl). apply filter_length_le. }
  assert (Hsegs : Z.of_nat (length segs) < 2 ^ 31) by lia.
  rewrite length_map, Hlen1.
  split; [eapply Forall2_loaded_appended; eassumption |].
  split.
  - pose proof (resolveAddr_obj_range segs (u32 (debug_elf.Entry_ f)) Hsegs). lia.
  - destruct (find_stack_cases syms) as [H0 | (sym & Hin & _ & Hs)].
    + rewrite H0 in Hst. contradiction.
    + unfold main.resolveSymbols in Hsyms.
      destruct (debug_elf.Symbols f) as [esyms |]; [| discriminate].
      injection Hsyms as <-.
      apply list_elem_of_fmap in Hin as (esym & -> & _).
      rewrite Hs in *. cbn [main.sym_ref] in *.
      pose proof (resolveAddr_obj_range segs (u32 (debug_elf.Value esym)) Hsegs). lia.
Qed.

Lemma readExecutable_objects_witness :
  Z.of_nat (length (debug_elf.Progs file_S2)) < 2 ^ 31 /\
  main.readExecutable file_S2 = Ok main_program_S2 /\
  Forall2 object_loaded (List.filter is_load (debug_elf.Progs file_S2))
          (main.objects main_program_S2) /\
  1 <= main.obj (main.entry main_program_S2)
    <= Z.of_nat (length (main.objects main_program_S2)) /\
  1 <= main.obj (main.stack main_program_S2)
    <= Z.of_nat (length (main.objects main_program_S2)).
Proof.
  assert (H1 : Z.of_nat (length (debug_elf.Progs file_S2)) < 2 ^ 31)
    by (vm_compute; reflexivity).
  assert (H2 : main.readExecutable file_S2 = Ok main_program_S2)
    by (vm_compute; reflexivity).
  split; [exact H1 |]. split; [exact H2 |].
  apply (readExecutable_objects file_S2 main_program_S2 H1 H2).
Defined.

(** [X12] A file without a symbol named [_stack_end] is never converted:
    [readExecutable] returns no program for it. *)
Theorem readExecutable_needs_stack_end
    (f : debug_elf.File) (syms : list debug_elf.Symbol) :
  debug_elf.Symbols f = Some syms ->
  Forall (fun sym => debug_elf.Name sym <> "_stack_end") syms ->
  forall p, main.readExecutable f <> Ok p.
Proof.
  intros Hsyms Hnone p H. unfold main.readExecutable in H.
  destruct (negb (debug_elf.Class f =? debug_elf.ELFCLASS32)); [discriminate |].
  destruct (negb (debug_elf.Data_ f =? debug_elf.ELFDATA2LSB)); [discriminate |].
  destruct (negb (debug_elf.Type_ f =? debug_elf.ET_EXEC)); [discriminate |].
  destruct (negb (debug_elf.Machine f =? debug_elf.EM_386)); [discriminate |].
  destruct (main.assignSegments f) as [segs | e |]; try discriminate.
  cbn [bind] in H.
  destruct (main.obj (main.resolveAddr segs (u32 (debug_elf.Entry_ f))) =? 0);
    [discriminate |].
  unfold main.resolveSymbols in H. rewrite Hsyms in H. cbn [bind] in H.
  match type of H with
  | context [main.find_stack ?l] =>
      destruct (find_stack_cases l) as [H0 | (sym & Hin & Hname & _)]
  end.
  - rewrite H0 in H. cbn in H. discriminate.
  - apply list_elem_of_fmap in Hin as (esym & -> & Hin).
    cbn [main.sym_name] in Hname.
    rewrite Forall_forall in Hnone. exact (Hnone esym Hin Hname).
Qed.

Lemma readExecutable_needs_stack_end_witness :
  debug_elf.Symbols file_no_stack_end = Some [sym_data_start_S2] /\
  Forall (fun sym => debug_elf.Name sym <> "_stack_end") [sym_data_start_S2] /\
  forall p, main.readExecutable file_no_stack_end <> Ok p.
Proof.
  assert (H1 : debug_elf.Symbols file_no_stack_end = Some [sym_data_start_S2])
    by reflexivity.
  assert (H2 : Forall (fun sym => debug_elf.Name sym <> "_stack_end") [sym_data_start_S2])
    by (constructor; [discriminate | constructor]).
  split; [exact H1 |]. split; [exact H2 |].
  apply (readExecutable_needs_stack_end file_no_stack_end [sym_data_start_S2] H1 H2).
Defined.

(** ** The fixup of a relative relocation *)

(** [X13] An [R_386_PC32] relocation whose site lies in the object [i + 1]
    and whose symbol is resolved in another object adds to the object of the
    site one fixup of type 8, self-relative: its source is the offset of the
    site in the object, its target is the object of the symbol at the offset
    [sym.off + (val + rel.Off + 4 - sym.addr)], where [val] is the value
    stored at the site. *)
Theorem R_386_PC32_fixup
    (rel : debug_elf.Rel32) (segs : list main.segment) (syms : list main.symbol)
    (i : nat) (seg : main.segment) (sym : main.symbol) (val : Z) :
  segs !! i = Some seg ->
  main.contains (main.seg_range seg) (site rel) = true ->
  (forall j s', (j < i)%nat -> segs !! j = Some s' ->
                main.contains (main.seg_range s') (site rel) = false) ->
  Z.of_nat i + 1 < 2 ^ 31 ->
  is_u32 (debug_elf.r_Off rel) ->
  wf_segment seg ->
  Z.land (debug_elf.r_Info rel) 0xff = debug_elf.R_386_PC32 ->
  Z.of_nat (length syms) < 2 ^ 32 ->
  at_ syms (Z.shiftr (debug_elf.r_Info rel) 8 - 1) = Some sym ->
  main.obj (main.sym_ref sym) <> 0 ->
  main.obj (main.sym_ref sym) <> Z.of_nat i + 1 ->
  (b ← slice_from (main.o_data (main.seg_object seg))
                  (i32 (u32 (debug_elf.r_Off rel - main.addr (main.seg_range seg))));
   Uint32 b) = Some val ->
  main.addRelocation rel segs syms =
    Ok (main.append_fixup segs i
          (mk_fixup 0x08 (debug_elf.r_Off rel - main.addr (main.seg_range seg))
             (main.obj (main.sym_ref sym))
             (i32 (main.off (main.sym_ref sym)
                   + (val + debug_elf.r_Off rel + 4 - main.sym_addr sym))))).
Proof.
  intros Hi Hc Hfirst Hi31 HO Hwf Htype Hlen Hsym Hobj Hother Hread.
  destruct (contains_site_src rel seg val HO Hwf Hc Hread) as (Hsrc & _).
  unfold main.addRelocation. fold (site rel).
  rewrite (find_containing_first segs 0 (site rel) i seg Hi Hc Hfirst).
  cbn [Nat.add]. rewrite (i32_small (Z.of_nat i + 1)) by lia.
  destruct (Z.eqb_spec (Z.of_nat i + 1) 0) as [Hz | _]; [lia |].
  assert (Hb : (Z.shiftr (debug_elf.r_Info rel) 8 =? 0)
               || (u32 (Z.of_nat (length syms)) <? Z.shiftr (debug_elf.r_Info rel) 8)
               = false).
  { unfold at_ in Hsym.
    destruct (bool_decide (0 <= Z.shiftr (debug_elf.r_Info rel) 8 - 1)) eqn:Hd;
      [| discriminate].
    apply bool_decide_eq_true_1 in Hd. apply lookup_lt_Some in Hsym.
    apply orb_false_iff. split; [apply Z.eqb_neq; lia |].
    apply Z.ltb_ge. rewrite u32_small by lia. lia. }
  rewrite Hb, Hsym. cbn [must bind].
  destruct (Z.eqb_spec (main.obj (main.sym_ref sym)) 0) as [? | _]; [contradiction |].
  rewrite Hread. cbn [must bind]. rewrite Htype.
  change (debug_elf.R_386_PC32 =? debug_elf.R_386_32) with false.
  rewrite Z.eqb_refl.
  destruct (Z.eqb_spec (main.obj (main.sym_ref sym)) (Z.of_nat i + 1)) as [? | _];
    [contradiction |].
  cbn [bind]. rewrite i32_add_i32_u32, Hsrc. reflexivity.
Qed.

Lemma R_386_PC32_fixup_witness :
  main.addRelocation rel_pc32_data main_segs_S2 [main_sym_func] =
    Ok (main.append_fixup main_segs_S2 1
          (mk_fixup 0x08
             (debug_elf.r_Off rel_pc32_data - main.addr (main.seg_range main_seg_data_S2))
             (main.obj (main.sym_ref main_sym_func))
             (i32 (main.off (main.sym_ref main_sym_func)
                   + (0 + debug_elf.r_Off rel_pc32_data + 4
                      - main.sym_addr main_sym_func))))).
Proof.
  apply (R_386_PC32_fixup rel_pc32_data main_segs_S2 [main_sym_func] 1
           main_seg_data_S2 main_sym_func 0).
  - vm_compute. reflexivity.
  - vm_compute. reflexivity.
  - intros j s' Hj Hl. destruct j as [| j]; [| lia].
    vm_compute in Hl. injection Hl as <-. vm_compute. reflexivity.
  - vm_compute. reflexivity.
  - unfold is_u32. vm_compute. split; [discriminate | reflexivity].
  - unfold wf_segment, is_u32. vm_compute. repeat split; discriminate.
  - vm_compute. reflexivity.
  - vm_compute. reflexivity.
  - vm_compute. reflexivity.
  - vm_compute. discriminate.
  - vm_compute. discriminate.
  - vm_compute. reflexivity.
Defined.

(** ** The header of the file *)

Lemma dumpBlocks_shape p blocks :
  module.dumpBlocks p = Some blocks ->
  exists od fd pd h,
    module.dump_objects p = Some (od, fd, pd) /\
    blocks = h :: module.object od :: module.page od :: module.pages fd
               :: module.records fd :: module.pd_data pd.
Proof.
  intros H. destruct (module.dump_objects p) as [[[od fd] pd] |] eqn:Hd.
  - destruct (dumpBlocks_blocks p od fd pd Hd) as (h & Hb & _).
    rewrite Hb in H. injection H as <-. eauto 10.
  - unfold module.dumpBlocks in H. rewrite Hd in H. discriminate.
Qed.

(** [X14] The offsets in the header are the positions of the blocks in the
    file. When the header and the four tables take less than 2^32 bytes,
    the header of 0xac bytes starts with "LE", gives a page size of 4096 and
    the number of objects, and holds at 0x40, 0x48, 0x68, 0x6c and 0x80 the
    offsets at which the object table, the object page table, the fixup
    page table, the fixup records and the data pages start, each block
    following the one before; at 0x38 and 0x30 it holds the sizes of the
    loader section and of the fixup section. *)
Theorem dumpBlocks_header_offsets
    (p : module.Program) (h ot opt fpt fr : list Z) (data : list (list Z)) :
  module.dumpBlocks p = Some (h :: ot :: opt :: fpt :: fr :: data) ->
  Z.of_nat (length h + length ot + length opt + length fpt + length fr) < 2 ^ 32 ->
  length h = 0xac%nat /\
  take 2 h = [76; 69] /\
  field h 0x28 = le32 4096 /\
  field h 0x44 = le32 (u32 (Z.of_nat (length (module.Objects p)))) /\
  field h 0x18 = le32 (u32 (module.Obj (module.Entry p))) /\
  field h 0x1c = le32 (u32 (module.Off (module.Entry p))) /\
  field h 0x20 = le32 (u32 (module.Obj (module.Stack p))) /\
  field h 0x24 = le32 (u32 (module.Off (module.Stack p))) /\
  field h 0x40 = le32 (Z.of_nat (length h)) /\
  field h 0x48 = le32 (Z.of_nat (length h + length ot)) /\
  field h 0x68 = le32 (Z.of_nat (length h + length ot + length opt)) /\
  field h 0x6c = le32 (Z.of_nat (length h + length ot + length opt + length fpt)) /\
  field h 0x80 =
    le32 (Z.of_nat (length h + length ot + length opt + length fpt + length fr)) /\
  field h 0x38 = le32 (Z.of_nat (length ot + length opt)) /\
  field h 0x30 = le32 (Z.of_nat (length fpt + length fr)).
Proof.
  intros H Hsize.
  unfold module.dumpBlocks in H.
  destruct (module.dump_objects p) as [[[od fd] pd] |] eqn:Hd; [| discriminate].
  cbn [mbind option_bind] in H. rewrite datawriter_fold in H.
  injection H as Hh <- <- <- <- _.
  assert (Hlen : length h = 0xac%nat) by (rewrite <- Hh; reflexivity).
  rewrite Hlen in *. clear Hlen.
  rewrite !Nat2Z.inj_add in *.
  set (a := Z.of_nat (length (module.object od))) in *.
  set (b := Z.of_nat (length (module.page od))) in *.
  set (c := Z.of_nat (length (module.pages fd))) in *.
  set (e := Z.of_nat (length (module.records fd))) in *.
  change (Z.of_nat 172) with 172 in *.
  unfold module.datawriter_write in Hh; cbn [module.pos module.dw_data length] in Hh.
  fold a b c e in Hh.
  change (Z.of_nat 172) with 172 in Hh. change (u32 (0 + 172)) with 172 in Hh.
  assert (Ha : 0 <= a) by (unfold a; lia). assert (Hb : 0 <= b) by (unfold b; lia).
  assert (Hc : 0 <= c) by (unfold c; lia). assert (He : 0 <= e) by (unfold e; lia).
  rewrite (u32_small (172 + a)) in Hh by lia.
  rewrite (u32_small (172 + a + b)) in Hh by lia.
  rewrite (u32_small (172 + a + b + c)) in Hh by lia.
  rewrite (u32_small (172 + a + b + c + e)) in Hh by lia.
  replace (172 + a + b - 172) with (a + b) in Hh by lia.
  replace (172 + a + b + c + e - (172 + a + b)) with (c + e) in Hh by lia.
  rewrite (u32_small (a + b)) in Hh by lia.
  rewrite (u32_small (c + e)) in Hh by lia.
  subst h.
  repeat (split; [reflexivity |]). reflexivity.
Qed.

Lemma dumpBlocks_header_offsets_witness :
  module.dumpBlocks prog_S1
    = Some (block_S1 0 :: block_S1 1 :: block_S1 2 :: block_S1 3 :: block_S1 4
              :: drop 5 blocks_S1) /\
  Z.of_nat (length (block_S1 0) + length (block_S1 1) + length (block_S1 2)
            + length (block_S1 3) + length (block_S1 4)) < 2 ^ 32 /\
  length (block_S1 0) = 0xac%nat /\
  field (block_S1 0) 0x40 = le32 (Z.of_nat (length (block_S1 0))) /\
  field (block_S1 0) 0x80 =
    le32 (Z.of_nat (length (block_S1 0) + length (block_S1 1) + length (block_S1 2)
                    + length (block_S1 3) + length (block_S1 4))).
Proof.
  assert (H1 : module.dumpBlocks prog_S1
               = Some (block_S1 0 :: block_S1 1 :: block_S1 2 :: block_S1 3 :: block_S1 4
                         :: drop 5 blocks_S1)) by (vm_compute; reflexivity).
  assert (H2 : Z.of_nat (length (block_S1 0) + length (block_S1 1) + length (block_S1 2)
                         + length (block_S1 3) + length (block_S1 4)) < 2 ^ 32)
    by (vm_compute; reflexivity).
  split; [exact H1 |]. split; [exact H2 |].
  pose proof (dumpBlocks_header_offsets prog_S1 _ _ _ _ _ _ H1 H2) as H.
  split; [apply H |]. split; apply H.
Defined.

(** ** The data pages *)

Lemma land_4095 x : 0 <= x -> Z.land x (module.pageSize - 1) = x mod 4096.
Proof.
  intros Hx. change (module.pageSize - 1) with (Z.ones 12).
  rewrite Z.land_ones by lia. reflexivity.
Qed.

Lemma pagecount_cases n :
  0 <= n <= 2 ^ 32 - 4096 ->
  module.pagecount n = n / 4096 + (if n mod 4096 =? 0 then 0 else 1).
Proof.
  intros Hn. unfold module.pagecount, module.pageSize, module.pageBits, u32.
  rewrite Z.shiftr_div_pow2 by lia. rewrite Z.mod_small by lia.
  change (2 ^ 12) with 4096. replace (n + 4096 - 1) with (n + 4095) by lia.
  pose proof (Z.div_mod n 4096 ltac:(lia)) as Hdm.
  pose proof (Z.mod_pos_bound n 4096 ltac:(lia)) as Hm.
  destruct (Z.eqb_spec (n mod 4096) 0) as [Hz | Hnz].
  - symmetry. apply (Z.div_unique _ _ _ 4095); lia.
  - symmetry. apply (Z.div_unique _ _ _ (n mod 4096 - 1)); lia.
Qed.

Lemma pagedata_write_layout d data first count d' :
  pagedata_inv d ->
  Z.of_nat (length data) <= 2 ^ 32 - 4096 ->
  module.pd_count d + module.pagecount (u32 (Z.of_nat (length data))) < 2 ^ 32 ->
  module.pagedata_write d data = Some (first, count, d') ->
  pagedata_inv d' /\
  module.pd_count d' = module.pd_count d + module.pagecount (u32 (Z.of_nat (length data))) /\
  (exists pad, data_area d' = data_area d ++ pad ++ data /\
     (data <> [] ->
      Z.of_nat (length (data_area d ++ pad)) = 4096 * module.pd_count d)) /\
  (data <> [] -> first = module.pd_count d + 1).
Proof.
  intros (Hoff & Hcnt & Hlen) Hsz Hov H.
  assert (Hu : u32 (Z.of_nat (length data)) = Z.of_nat (length data))
    by (apply u32_small; lia).
  rewrite Hu in *.
  pose proof (pagecount_cases (Z.of_nat (length data)) ltac:(lia)) as Hpc.
  pose proof (Z.div_mod (Z.of_nat (length data)) 4096 ltac:(lia)) as Hdm.
  pose proof (Z.mod_pos_bound (Z.of_nat (length data)) 4096 ltac:(lia)) as Hm.
  pose proof (Z.div_pos (Z.of_nat (length data)) 4096 ltac:(lia) ltac:(lia)) as Hq.
  unfold module.pagedata_write in H. rewrite Hu in H.
  destruct (Z.eqb_spec (module.pagecount (Z.of_nat (length data))) 0) as [Hz | Hnz];
    cbn [negb] in H.
  - injection H as <- <- <-.
    assert (Hd : data = []).
    { destruct data; [reflexivity |]. cbn [length] in *.
      destruct (Z.eqb_spec (Z.of_nat (S (length data)) mod 4096) 0); lia. }
    subst data. split; [exact (conj Hoff (conj Hcnt Hlen)) |]. split; [lia |].
    split; [| intros Hne; contradiction].
    exists []. split; [rewrite !app_nil_r; reflexivity | intros Hne; contradiction].
  - assert (Hblocks : exists pad,
              (if negb (module.pd_offset d =? 0)
               then pad ← slice_from module.zeropage (module.pd_offset d);
                    Some (module.pd_data d ++ [pad])
               else Some (module.pd_data d)) = Some (module.pd_data d ++ pad) /\
              Z.of_nat (length (concat (module.pd_data d ++ pad)))
                = 4096 * module.pd_count d).
    { destruct (Z.eqb_spec (module.pd_offset d) 0) as [Ho | Ho]; cbn [negb].
      - exists []. rewrite app_nil_r. split; [reflexivity |].
        unfold data_area in Hlen. lia.
      - exists [drop (Z.to_nat (module.pd_offset d)) module.zeropage].
        unfold slice_from. rewrite bool_decide_eq_true_2
          by (unfold module.zeropage; rewrite repeat_length; unfold module.pageSize; lia).
        split; [reflexivity |].
        rewrite concat_app, length_app. cbn [concat]. rewrite app_nil_r, length_drop.
        unfold module.zeropage. rewrite repeat_length. unfold module.pageSize.
        unfold data_area in Hlen. lia. }
    destruct Hblocks as (pad & Hb & Hpad). rewrite Hb in H.
    cbn [mbind option_bind] in H. injection H as <- <- <-.
    assert (Hu2 : u32 (module.pd_count d + module.pagecount (Z.of_nat (length data)))
                  = module.pd_count d + module.pagecount (Z.of_nat (length data))).
    { apply u32_small. pose proof (pagecount_range (Z.of_nat (length data))). lia. }
    unfold pagedata_inv, data_area. cbn [module.pd_offset module.pd_count module.pd_data].
    rewrite Hu2, land_4095 by lia.
    rewrite !concat_app in *. cbn [concat]. rewrite app_nil_r.
    rewrite !length_app in *.
    split; [| split; [reflexivity | split]].
    + pose proof (pagecount_range (Z.of_nat (length data))).
      split; [lia |]. split; [lia |].
      destruct (Z.eqb_spec (Z.of_nat (length data) mod 4096) 0);
        destruct (Z.eqb_spec (module.pd_offset d) 0); lia.
    + exists (concat pad). split; [rewrite <- app_assoc; reflexivity |].
      intros _. rewrite length_app. exact Hpad.
    + intros _. apply u32_small.
      pose proof (pagecount_range (Z.of_nat (length data))). lia.
Qed.

Lemma data_pages_nonneg objs : 0 <= data_pages objs.
Proof.
  induction objs as [| obj objs IH]; cbn [data_pages foldr]; [lia |].
  fold (data_pages objs).
  pose proof (pagecount_range (u32 (Z.of_nat (length (module.Data obj))))). lia.
Qed.

Lemma dump_fold_layout objs :
  forall od fd pd od' fd' pd',
    pagedata_inv pd ->
    Forall (fun obj => Z.of_nat (length (module.Data obj)) <= 2 ^ 32 - 4096) objs ->
    module.pd_count pd + data_pages objs < 2 ^ 32 ->
    foldl (fun st obj => st ← st; module.dump_object st obj) (Some (od, fd, pd)) objs
      = Some (od', fd', pd') ->
    pagedata_inv pd' /\
    module.pd_count pd' = module.pd_count pd + data_pages objs /\
    (exists more, data_area pd' = data_area pd ++ more) /\
    forall i obj, objs !! i = Some obj -> module.Data obj <> [] ->
      take (length (module.Data obj))
           (drop (Z.to_nat (4096 * (module.pd_count pd + data_pages (take i objs))))
                 (data_area pd'))
      = module.Data obj.
Proof.
  induction objs as [| obj objs IH]; intros od fd pd od' fd' pd' Hinv Hall Hov H.
  - cbn in H. injection H as <- <- <-. split; [exact Hinv |].
    split; [cbn; lia |]. split; [exists []; rewrite app_nil_r; reflexivity |].
    intros i obj Hi. rewrite lookup_nil in Hi. discriminate.
  - rewrite foldl_bind_cons in H.
    apply Forall_cons in Hall as [Hobj Hall].
    cbn [data_pages foldr] in Hov. fold (data_pages objs) in Hov.
    pose proof (data_pages_nonneg objs) as Hnn.
    unfold module.dump_object in H.
    destruct (module.pagedata_write pd (module.Data obj)) as [[[first count] pd1] |] eqn:Hpw;
      [| cbn [mbind option_bind] in H; rewrite foldl_bind_None in H; discriminate].
    cbn [mbind option_bind] in H.
    destruct (module.fixupdata_write fd (module.Size obj) (module.Fixups obj))
      as [[fixup fd1] |];
      [| cbn [mbind option_bind] in H; rewrite foldl_bind_None in H; discriminate].
    cbn [mbind option_bind] in H.
    destruct (pagedata_write_layout pd (module.Data obj) first count pd1 Hinv Hobj
                ltac:(lia) Hpw) as (Hinv1 & Hcnt1 & (pad & Harea & Hal) & _).
    destruct (IH _ _ _ _ _ _ Hinv1 Hall ltac:(lia) H)
      as (Hinv' & Hcnt' & (more & Hmore) & Hdata).
    split; [exact Hinv' |].
    split; [cbn [data_pages foldr]; fold (data_pages objs); lia |].
    split; [exists (pad ++ module.Data obj ++ more);
            rewrite Hmore, Harea, <- !app_assoc; reflexivity |].
    intros [| i] o Hi Hne; cbn in Hi.
    + injection Hi as <-. cbn [take data_pages foldr].
      rewrite Hmore, Harea.
      replace (data_area pd ++ pad ++ module.Data obj)
        with ((data_area pd ++ pad) ++ module.Data obj)
        by (rewrite <- app_assoc; reflexivity).
      rewrite <- app_assoc.
      replace (Z.to_nat (4096 * (module.pd_count pd + 0)))
        with (length (data_area pd ++ pad)) by (specialize (Hal Hne); lia).
      rewrite drop_app_length. apply take_app_length.
    + cbn [take data_pages foldr]. fold (data_pages (take i objs)).
      specialize (Hdata i o Hi Hne). rewrite Hcnt1 in Hdata.
      rewrite <- Hdata at 2. do 3 f_equal. lia.
Qed.

(** [X15] Every object's data start on a page boundary of the data pages
    that [dumpBlocks] returns: the data of an object are at the offset of
    4096 bytes for each page of the objects before it, with zero bytes
    before them where the object before does not end on a page. The header
    holds the number of these pages at 0x14. *)
Theorem data_pages_layout
    (p : module.Program) (h ot opt fpt fr : list Z) (data : list (list Z)) :
  module.dumpBlocks p = Some (h :: ot :: opt :: fpt :: fr :: data) ->
  Forall (fun obj => Z.of_nat (length (module.Data obj)) <= 2 ^ 32 - 4096)
         (module.Objects p) ->
  data_pages (module.Objects p) < 2 ^ 32 ->
  field h 0x14 = le32 (data_pages (module.Objects p)) /\
  forall i obj, module.Objects p !! i = Some obj -> module.Data obj <> [] ->
    take (length (module.Data obj))
         (drop (Z.to_nat (4096 * data_pages (take i (module.Objects p)))) (concat data))
    = module.Data obj.
Proof.
  intros H Hall Hov.
  destruct (dumpBlocks_shape p _ H) as (od & fd & pd & h' & Hd & Heq).
  injection Heq as -> -> -> -> -> ->.
  unfold module.dump_objects in Hd.
  assert (Hinv0 : pagedata_inv {| module.pd_count := 0; module.pd_offset := 0;
                                  module.pd_data := [] |})
    by (unfold pagedata_inv, data_area; cbn; lia).
  destruct (dump_fold_layout _ _ _ _ _ _ _ Hinv0 Hall Hov Hd)
    as (_ & Hcnt & _ & Hdata).
  cbn [module.pd_count] in Hcnt, Hdata. rewrite Z.add_0_l in Hcnt.
  split.
  - unfold module.dumpBlocks in H. unfold module.dump_objects in H. rewrite Hd in H.
    cbn [mbind option_bind] in H. injection H as Hh _. rewrite <- Hh, <- Hcnt.
    reflexivity.
  - intros i obj Hi Hne. specialize (Hdata i obj Hi Hne).
    rewrite Z.add_0_l in Hdata. exact Hdata.
Qed.

Lemma data_pages_layout_witness :
  module.dumpBlocks prog_two_objects
    = Some (block_two_objects 0 :: block_two_objects 1 :: block_two_objects 2
              :: block_two_objects 3 :: block_two_objects 4
              :: drop 5 blocks_two_objects) /\
  Forall (fun obj => Z.of_nat (length (module.Data obj)) <= 2 ^ 32 - 4096)
         (module.Objects prog_two_objects) /\
  data_pages (module.Objects prog_two_objects) < 2 ^ 32 /\
  field (block_two_objects 0) 0x14 = le32 (data_pages (module.Objects prog_two_objects)) /\
  forall i obj, module.Objects prog_two_objects !! i = Some obj -> module.Data obj <> [] ->
    take (length (module.Data obj))
         (drop (Z.to_nat (4096 * data_pages (take i (module.Objects prog_two_objects))))
               (concat (drop 5 blocks_two_objects)))
    = module.Data obj.
Proof.
  assert (H1 : module.dumpBlocks prog_two_objects
               = Some (block_two_objects 0 :: block_two_objects 1 :: block_two_objects 2
                         :: block_two_objects 3 :: block_two_objects 4
                         :: drop 5 blocks_two_objects)) by (vm_compute; reflexivity).
  assert (H2 : Forall (fun obj => Z.of_nat (length (module.Data obj)) <= 2 ^ 32 - 4096)
                      (module.Objects prog_two_objects)).
  { constructor; [vm_compute; discriminate |].
    constructor; [vm_compute; discriminate | constructor]. }
  assert (H3 : data_pages (module.Objects prog_two_objects) < 2 ^ 32)
    by (vm_compute; reflexivity).
  split; [exact H1 |]. split; [exact H2 |]. split; [exact H3 |].
  apply (data_pages_layout prog_two_objects _ _ _ _ _ _ H1 H2 H3).
Defined.

(** ** The fixup records, page by page *)

Lemma cnt_bucket npage fs p : cnt npage fs p = Z.of_nat (length (bucket npage fs p)).
Proof.
  induction fs as [| f fs IH]; [reflexivity |].
  rewrite cnt_cons, IH. unfold bucket. cbn [List.filter].
  destruct (hits npage f && (Z.to_nat (page_of f) =? p)%nat); cbn [length]; lia.
Qed.

Lemma bucket_cons npage f fs p :
  bucket npage (f :: fs) p =
  if hits npage f && (Z.to_nat (page_of f) =? p)%nat
  then f :: bucket npage fs p else bucket npage fs p.
Proof. reflexivity. Qed.

(** The assigning pass sorts the fixups into the pages: with the indexes
    [g] to start from, the fixups of page [p] are written, in their order,
    from [g p] on; nothing else is written. *)
Lemma assign_pass_buckets npage fs :
  forall idxs assigned g,
    holds (Z.to_nat npage) idxs g ->
    Z.of_nat (length assigned) < 2 ^ 32 ->
    (forall p, (p < Z.to_nat npage)%nat ->
               0 <= g p /\ g p + cnt npage fs p <= Z.of_nat (length assigned)) ->
    (forall p q, (p < q)%nat -> (q < Z.to_nat npage)%nat ->
                 g p + cnt npage fs p <= g q) ->
    exists idxs' assigned',
      module.assign_pass npage fs (idxs, assigned) = Some (idxs', assigned') /\
      holds (Z.to_nat npage) idxs' (fun p => g p + cnt npage fs p) /\
      length assigned' = length assigned /\
      (forall p j f, (p < Z.to_nat npage)%nat ->
                     bucket npage fs p !! j = Some f ->
                     assigned' !! Z.to_nat (g p + Z.of_nat j) = Some f) /\
      (forall k, (forall p, (p < Z.to_nat npage)%nat ->
                            ~ (g p <= Z.of_nat k < g p + cnt npage fs p)) ->
                 assigned' !! k = assigned !! k).
Proof.
  unfold module.assign_pass.
  induction fs as [| f fs IH]; intros idxs assigned g Hh Hlt Hb Hord.
  - exists idxs, assigned. split; [reflexivity |]. split.
    { eapply holds_ext; [exact Hh |]. intros p _. simpl. lia. }
    split; [reflexivity |]. split; [| reflexivity].
    intros p j f _ Hj. unfold bucket in Hj. cbn in Hj. rewrite lookup_nil in Hj.
    discriminate.
  - rewrite foldl_bind_cons.
    destruct (hits npage f) eqn:Hhit.
    + pose proof (hits_range _ _ Hhit) as Hr.
      remember (Z.to_nat (page_of f)) as k eqn:Ek.
      assert (Hkn : (k < Z.to_nat npage)%nat) by lia.
      assert (Hk : 0 <= g k /\ g k + 1 <= Z.of_nat (length assigned)).
      { specialize (Hb k Hkn). rewrite cnt_cons, Hhit, <- Ek, Nat.eqb_refl in Hb.
        pose proof (cnt_nonneg npage fs k). simpl in Hb. lia. }
      destruct (assign_fixup_hit npage idxs assigned g f Hhit Hh) as (idxs1 & Hstep & Hh1).
      { rewrite <- Ek. lia. }
      rewrite Hstep. rewrite <- Ek in Hh1.
      set (g1 := fun q => if (k =? q)%nat then u32 (g k + 1) else g q) in *.
      assert (Hg1k : g1 k = g k + 1).
      { unfold g1. rewrite Nat.eqb_refl. apply u32_small. lia. }
      assert (Hg1o : forall q, q <> k -> g1 q = g q).
      { intros q Hq. unfold g1. destruct (Nat.eqb_spec k q); [congruence | reflexivity]. }
      assert (Hcntk : cnt npage (f :: fs) k = 1 + cnt npage fs k).
      { rewrite cnt_cons, Hhit, <- Ek, Nat.eqb_refl. reflexivity. }
      assert (Hcnto : forall q, q <> k -> cnt npage (f :: fs) q = cnt npage fs q).
      { intros q Hq. rewrite cnt_cons, Hhit, <- Ek.
        destruct (Nat.eqb_spec k q); [congruence | reflexivity]. }
      rewrite <- Ek.
      destruct (IH idxs1 (<[Z.to_nat (g k) := f]> assigned) g1 Hh1)
        as (idxs' & assigned' & Hrun & Hh' & Hlen' & Hbk & Hfr).
      * rewrite length_insert. exact Hlt.
      * rewrite length_insert. intros p Hp'. specialize (Hb p Hp').
        pose proof (cnt_nonneg npage fs p).
        destruct (Nat.eq_dec p k) as [-> | Hne].
        -- rewrite Hg1k. rewrite Hcntk in Hb. lia.
        -- rewrite Hg1o by exact Hne. rewrite Hcnto in Hb by exact Hne. lia.
      * intros p q Hpq Hq. specialize (Hord p q Hpq Hq).
        pose proof (cnt_nonneg npage fs p).
        destruct (Nat.eq_dec p k) as [-> | Hp]; destruct (Nat.eq_dec q k) as [-> | Hq'];
          rewrite ?Hg1k, ?Hg1o by assumption;
          rewrite ?Hcntk, ?Hcnto in Hord by assumption; lia.
      * exists idxs', assigned'. split; [exact Hrun |]. split.
        { eapply holds_ext; [exact Hh' |]. intros p Hp'. cbv beta.
          destruct (Nat.eq_dec p k) as [-> | Hne].
          - rewrite Hg1k, Hcntk. lia.
          - rewrite Hg1o, Hcnto by exact Hne. reflexivity. }
        split; [rewrite Hlen', length_insert; reflexivity |].
        split.
        { intros p j f0 Hp Hj. rewrite bucket_cons, Hhit, <- Ek in Hj.
          destruct (Nat.eqb_spec k p) as [<- | Hne]; cbn [andb] in Hj.
          - destruct j as [| j]; cbn in Hj.
            + injection Hj as <-. rewrite Z.add_0_r.
              rewrite Hfr.
              * apply list_lookup_insert_eq. lia.
              * intros q Hq [Hlo Hhi].
                pose proof (cnt_nonneg npage fs q).
                destruct (Nat.eq_dec q k) as [-> | Hqk].
                -- rewrite Hg1k in Hlo. lia.
                -- rewrite Hg1o in Hlo, Hhi by exact Hqk.
                   destruct (Nat.lt_ge_cases q k) as [Hqlt | Hqge].
                   ++ specialize (Hord q k Hqlt Hkn). rewrite Hcnto in Hord by exact Hqk.
                      lia.
                   ++ specialize (Hord k q ltac:(lia) Hq). rewrite Hcntk in Hord.
                      pose proof (cnt_nonneg npage fs k). lia.
            + specialize (Hbk k j f0 Hp Hj). rewrite Hg1k in Hbk.
              replace (g k + Z.of_nat (S j)) with (g k + 1 + Z.of_nat j) by lia.
              exact Hbk.
          - specialize (Hbk p j f0 Hp Hj). rewrite Hg1o in Hbk by congruence.
            exact Hbk. }
        { intros k0 Hout. rewrite Hfr.
          - apply list_lookup_insert_ne. intros Heq.
            apply (Hout k Hkn). rewrite Hcntk.
            pose proof (cnt_nonneg npage fs k). lia.
          - intros q Hq [Hlo Hhi]. apply (Hout q Hq).
            destruct (Nat.eq_dec q k) as [-> | Hqk].
            + rewrite Hg1k in Hlo, Hhi. rewrite Hcntk. lia.
            + rewrite Hg1o in Hlo, Hhi by exact Hqk. rewrite Hcnto by exact Hqk. lia. }
    + rewrite assign_fixup_eq, Hhit.
      assert (Hcnt : forall q, cnt npage (f :: fs) q = cnt npage fs q).
      { intros q. rewrite cnt_cons, Hhit. reflexivity. }
      destruct (IH idxs assigned g Hh Hlt) as (idxs' & assigned' & Hrun & Hh' & Hlen' & Hbk & Hfr).
      * intros p Hp'. specialize (Hb p Hp'). rewrite Hcnt in Hb. exact Hb.
      * intros p q Hpq Hq. specialize (Hord p q Hpq Hq). rewrite Hcnt in Hord. exact Hord.
      * exists idxs', assigned'. split; [exact Hrun |]. split.
        { eapply holds_ext; [exact Hh' |]. intros p Hp'. cbv beta. rewrite Hcnt.
          reflexivity. }
        split; [exact Hlen' |]. split.
        { intros p j f0 Hp Hj. rewrite bucket_cons, Hhit in Hj. cbn [andb] in Hj.
          apply (Hbk p j f0 Hp Hj). }
        { intros k0 Hout. apply Hfr. intros q Hq. rewrite <- Hcnt. apply Hout, Hq. }
Qed.

Lemma foldl_appendFixup_rebase pi fs :
  forall records,
    foldl (fun records f =>
             let f := {| module.SrcType := module.SrcType f;
                         module.Src := i32 (module.Src f
                                            - i32 (Z.shiftl (Z.of_nat pi) module.pageBits));
                         module.Target := module.Target f; module.Add := module.Add f |} in
             module.appendFixup f records) records fs
    = records ++ records_of pi fs.
Proof.
  unfold records_of.
  induction fs as [| f fs IH]; intros records; cbn [foldl map concat].
  - rewrite app_nil_r. reflexivity.
  - rewrite IH. rewrite (appendFixup_app _ records), <- app_assoc. reflexivity.
Qed.

(** One iteration of the last loop of [write]. *)
Lemma emit_page_spec assigned st pi idx :
  module.e_idxs st !! pi = Some idx ->
  0 <= module.e_pos st <= idx -> idx <= Z.of_nat (length assigned) ->
  let records :=
    module.e_records st
    ++ records_of pi (take (Z.to_nat (idx - module.e_pos st))
                           (drop (Z.to_nat (module.e_pos st)) assigned)) in
  module.emit_page assigned st pi =
    Some {| module.e_idxs :=
              <[pi := u32 (Z.of_nat (length (module.e_pages st)) / 4)]> (module.e_idxs st);
            module.e_pages :=
              module.e_pages st ++ le32 (u32 (Z.of_nat (length records)));
            module.e_records := records;
            module.e_pos := idx |}.
Proof.
  intros Hat Hpos Hidx records.
  pose proof (lookup_lt_Some _ _ _ Hat) as Hlt.
  unfold module.emit_page, at_.
  rewrite bool_decide_eq_true_2 by lia. rewrite Nat2Z.id, Hat.
  cbn [mbind option_bind].
  assert (Hset : forall (l : list Z) v, length l = length (module.e_idxs st) ->
            set_at l (Z.of_nat pi) v = Some (<[pi := v]> l)).
  { intros l v Hl. unfold set_at. rewrite bool_decide_eq_true_2 by lia.
    rewrite Nat2Z.id. reflexivity. }
  assert (Hins : (if module.e_pos st =? idx
                  then set_at (module.e_idxs st) (Z.of_nat pi) 0
                  else Some (module.e_idxs st))
                 ≫= (fun idxs => set_at idxs (Z.of_nat pi)
                                   (u32 (Z.of_nat (length (module.e_pages st)) / 4)))
                 = Some (<[pi := u32 (Z.of_nat (length (module.e_pages st)) / 4)]>
                           (module.e_idxs st))).
  { destruct (module.e_pos st =? idx).
    - rewrite Hset by reflexivity. cbn [mbind option_bind].
      rewrite Hset by (rewrite length_insert; reflexivity).
      rewrite list_insert_insert_eq. reflexivity.
    - cbn [mbind option_bind]. apply Hset. reflexivity. }
  destruct (if module.e_pos st =? idx
            then set_at (module.e_idxs st) (Z.of_nat pi) 0
            else Some (module.e_idxs st)) as [idxs0 |]; [| discriminate].
  cbn [mbind option_bind] in Hins |- *. rewrite Hins. cbn [mbind option_bind].
  unfold slice. rewrite bool_decide_eq_true_2 by lia. cbn [mbind option_bind].
  rewrite foldl_appendFixup_rebase. reflexivity.
Qed.

(** The last loop of [write], from the page [a] on: [P q] is the position
    in [assigned] at which the fixups of page [q] start. *)
Lemma emit_loop_spec assigned (P : nat -> Z) :
  forall n a st,
    length (module.e_idxs st) = (a + n)%nat ->
    (forall q, (a <= q < a + n)%nat -> module.e_idxs st !! q = Some (P (S q))) ->
    (forall q, (a <= q < a + n)%nat ->
               P q <= P (S q) /\ P (S q) <= Z.of_nat (length assigned)) ->
    module.e_pos st = P a -> 0 <= P a ->
    let R q := records_of q (take (Z.to_nat (P (S q) - P q))
                                  (drop (Z.to_nat (P q)) assigned)) in
    exists st',
      foldl (fun st pi => st ← st; module.emit_page assigned st pi) (Some st) (seq a n)
        = Some st' /\
      length (module.e_idxs st') = (a + n)%nat /\
      (forall q, (q < a)%nat -> module.e_idxs st' !! q = module.e_idxs st !! q) /\
      (forall q, (a <= q < a + n)%nat ->
                 module.e_idxs st' !! q
                 = Some (u32 (Z.of_nat (length (module.e_pages st) + 4 * (q - a)) / 4))) /\
      module.e_records st' = module.e_records st ++ concat (map R (seq a n)) /\
      module.e_pages st' =
        module.e_pages st
        ++ concat (map (fun q =>
                          le32 (u32 (Z.of_nat
                                       (length (module.e_records st
                                                ++ concat (map R (seq a (S q - a))))))))
                       (seq a n)).
Proof.
  induction n as [| n IH]; intros a st Hlen Hidx HP Hpos H0 R.
  - exists st. split; [reflexivity |]. split; [exact Hlen |].
    split; [reflexivity |]. split; [intros q Hq; lia |].
    cbn [seq map concat]. rewrite !app_nil_r. split; reflexivity.
  - cbn [seq]. rewrite foldl_bind_cons.
    destruct (HP a ltac:(lia)) as [Hmono Hle].
    rewrite (emit_page_spec assigned st a (P (S a)))
      by (first [apply Hidx; lia | lia]).
    rewrite Hpos. fold (R a).
    set (st1 := {| module.e_idxs := _; module.e_pages := _;
                   module.e_records := _; module.e_pos := _ |}).
    destruct (IH (S a) st1) as (st' & Hrun & Hlen' & Hlow & Hhigh & Hrec & Hpg).
    + unfold st1. cbn [module.e_idxs]. rewrite length_insert. lia.
    + intros q Hq. unfold st1. cbn [module.e_idxs].
      rewrite list_lookup_insert_ne by lia. apply Hidx. lia.
    + intros q Hq. apply HP. lia.
    + reflexivity.
    + lia.
    + exists st'. split; [exact Hrun |]. split; [lia |].
      unfold st1 in Hlow, Hhigh, Hrec, Hpg.
      cbn [module.e_idxs module.e_pages module.e_records] in Hlow, Hhigh, Hrec, Hpg.
      split.
      { intros q Hq. rewrite Hlow by lia. apply list_lookup_insert_ne. lia. }
      split.
      { intros q Hq. destruct (Nat.eq_dec q a) as [-> | Hne].
        - rewrite Hlow by lia. rewrite list_lookup_insert_eq by lia.
          do 3 f_equal. lia.
        - rewrite Hhigh by lia. rewrite length_app. cbn [le32 length].
          do 3 f_equal. lia. }
      split.
      { rewrite Hrec. cbn [map concat]. rewrite <- app_assoc. reflexivity. }
      rewrite Hpg. cbn [map concat]. rewrite <- app_assoc. f_equal.
      replace (S a - a)%nat with 1%nat by lia. cbn [seq map concat].
      rewrite app_nil_r. f_equal. f_equal.
      apply map_ext_in. intros q Hq. apply in_seq in Hq.
      replace (S q - a)%nat with (S (S q - S a)) by lia. cbn [seq map concat].
      rewrite <- app_assoc. reflexivity.
Qed.

Lemma take_drop_bucket (assigned bk : list module.Fixup) (s : Z) :
  0 <= s ->
  (forall j f, bk !! j = Some f -> assigned !! Z.to_nat (s + Z.of_nat j) = Some f) ->
  take (length bk) (drop (Z.to_nat s) assigned) = bk.
Proof.
  intros Hs H. apply list_eq. intros j.
  destruct (Nat.lt_ge_cases j (length bk)) as [Hlt | Hge].
  - rewrite lookup_take_lt by exact Hlt. rewrite lookup_drop.
    destruct (lookup_lt_is_Some_2 bk j Hlt) as [f Hf]. rewrite Hf.
    rewrite <- (H j f Hf). f_equal. lia.
  - rewrite lookup_take_ge by exact Hge. symmetry. apply lookup_ge_None_2. exact Hge.
Qed.

(** The result of [fixupdata.write], in full. *)
Lemma fixupdata_write_spec (d : module.fixupdata) (size : Z) (fs : list module.Fixup) :
  Z.of_nat (length fs) < 2 ^ 32 ->
  size <> 0 ->
  0 <= module.maxOff_of fs ->
  let npage := npage_of size fs in
  let pages0 := if Z.of_nat (length (module.pages d)) =? 0 then repeat 0 4
                else module.pages d in
  module.fixupdata_write d size fs =
    Some (map (fun q => u32 (Z.of_nat (length pages0 + 4 * q) / 4))
              (seq 0 (Z.to_nat npage)),
          {| module.pages :=
               pages0
               ++ concat (map (fun q =>
                                 le32 (u32 (Z.of_nat
                                              (length (module.records d
                                                       ++ records_upto npage fs (S q))))))
                              (seq 0 (Z.to_nat npage)));
             module.records :=
               module.records d ++ records_upto npage fs (Z.to_nat npage) |}).
Proof.
  intros Hfs Hsize Hmaxoff npage pages0. unfold module.fixupdata_write.
  destruct (Z.eqb_spec size 0) as [? | _]; [contradiction |].
  cbv zeta.
  destruct (Z.ltb_spec (module.maxOff_of fs) 0) as [? | _]; [lia |].
  fold (npage_of size fs). fold npage.
  pose proof (npage_of_nonneg size fs) as Hnp. fold npage in Hnp.
  set (c := fun p => 0 + cnt npage fs p).
  (* counting pass *)
  destruct (count_pass_holds npage fs (repeat 0 (Z.to_nat npage)) (fun _ => 0))
    as (idxs1 & Hcount & Hh1).
  { apply holds_repeat. }
  { intros p _. pose proof (cnt_le_length npage fs p). lia. }
  rewrite Hcount. cbn [mbind option_bind].
  rewrite slice_all by (destruct Hh1 as [-> _]; lia). cbn [mbind option_bind].
  (* prefix sums *)
  assert (Hc : forall p, 0 <= c p).
  { intros p. unfold c. pose proof (cnt_nonneg npage fs p). lia. }
  assert (Hsum : psum c (Z.to_nat npage) = psum (cnt npage fs) (Z.to_nat npage)).
  { apply psum_ext. intros p _. unfold c. lia. }
  pose proof (psum_cnt_le npage fs (Z.to_nat npage)) as Hle.
  destruct (prefix_sums_holds idxs1 (Z.to_nat npage) c 0 Hh1 Hc) as (idxs2 & Hpre & Hh2);
    [lia | lia |].
  rewrite Hpre.
  pose proof (psum_nonneg c (Z.to_nat npage) Hc) as Htot.
  set (total := 0 + psum c (Z.to_nat npage)) in *.
  (* assigning pass *)
  destruct (assign_pass_buckets npage fs idxs2 (repeat module.zeroFixup (Z.to_nat total))
              (fun p => 0 + psum c p) Hh2)
    as (idxs3 & assigned & Hassign & Hh3 & Hlen3 & Hbk & _).
  { rewrite repeat_length. lia. }
  { intros p Hp. rewrite repeat_length.
    pose proof (psum_nonneg c p Hc).
    pose proof (psum_mono c (S p) (Z.to_nat npage) Hc ltac:(lia)) as Hm.
    simpl in Hm. unfold c in Hm at 2. lia. }
  { intros p q Hpq Hq.
    pose proof (psum_mono c (S p) q Hc ltac:(lia)) as Hm.
    simpl in Hm. unfold c in Hm at 2. lia. }
  rewrite Hassign. cbn [mbind option_bind].
  rewrite repeat_length in Hlen3.
  (* writing out *)
  fold pages0.
  set (st0 := {| module.e_idxs := idxs3; module.e_pages := pages0;
                 module.e_records := module.records d; module.e_pos := 0 |}).
  assert (HE : forall p, 0 + psum c p + cnt npage fs p = psum c (S p)).
  { intros p. simpl. unfold c at 3. lia. }
  destruct (emit_loop_spec assigned (psum c) (Z.to_nat npage) 0 st0)
    as (st' & Hemit & Hlen' & _ & Hidx' & Hrec' & Hpg').
  { unfold st0. cbn [module.e_idxs]. destruct Hh3 as [Hl _]. exact Hl. }
  { intros q Hq. destruct Hh3 as [_ Hg]. unfold st0. cbn [module.e_idxs].
    rewrite Hg by lia. rewrite HE. reflexivity. }
  { intros q Hq. split.
    - apply psum_mono; [exact Hc | lia].
    - rewrite Hlen3. pose proof (psum_mono c (S q) (Z.to_nat npage) Hc ltac:(lia)). lia. }
  { reflexivity. }
  { simpl. lia. }
  unfold module.emit_pass.
  replace (length (module.e_idxs st0)) with (Z.to_nat npage)
    by (unfold st0; cbn [module.e_idxs]; destruct Hh3 as [Hl _]; symmetry; exact Hl).
  rewrite Hemit. cbn [mbind option_bind].
  (* the fixups of a page *)
  assert (HR : forall q, (q < Z.to_nat npage)%nat ->
             records_of q (take (Z.to_nat (psum c (S q) - psum c q))
                                (drop (Z.to_nat (psum c q)) assigned))
             = page_records npage fs q).
  { intros q Hq. unfold page_records. f_equal.
    replace (Z.to_nat (psum c (S q) - psum c q)) with (length (bucket npage fs q)).
    - apply take_drop_bucket; [apply psum_nonneg, Hc |].
      intros j f Hj. specialize (Hbk q j f Hq Hj). rewrite Z.add_0_l in Hbk. exact Hbk.
    - rewrite <- HE, cnt_bucket. lia. }
  assert (HRs : forall k, (k <= Z.to_nat npage)%nat ->
             concat (map (fun q => records_of q
                                     (take (Z.to_nat (psum c (S q) - psum c q))
                                           (drop (Z.to_nat (psum c q)) assigned)))
                         (seq 0 k))
             = records_upto npage fs k).
  { intros k Hk. unfold records_upto. f_equal. apply map_ext_in.
    intros q Hq. apply in_seq in Hq. apply HR. lia. }
  unfold st0 in Hidx', Hrec', Hpg'.
  cbn [module.e_pages module.e_records] in Hidx', Hrec', Hpg'.
  f_equal. f_equal.
  - apply list_eq. intros q.
    destruct (Nat.lt_ge_cases q (Z.to_nat npage)) as [Hlt | Hge].
    + rewrite Hidx' by lia. rewrite list_lookup_fmap, lookup_seq_lt by exact Hlt.
      cbn. do 4 f_equal. lia.
    + rewrite lookup_ge_None_2 by lia. symmetry. apply lookup_ge_None_2.
      rewrite length_map, length_seq. exact Hge.
  - rewrite Hrec', Hpg'. f_equal.
    + f_equal. f_equal. apply map_ext_in. intros q Hq. apply in_seq in Hq.
      rewrite Nat.sub_0_r. rewrite HRs by lia. reflexivity.
    + rewrite HRs by lia. reflexivity.
Qed.

(** [X16] What [fixupdata.write] writes for an object with a size and with a
    fixup at an offset that is not negative. It sorts the fixups by the page
    of their first byte, keeping their order, and appends, page by page, the
    record of each fixup with its source offset made relative to the page.
    To the fixup page table, which starts with an entry of zero, it appends
    for every page the length of the record table after the records of the
    page. It returns, for every page, the number of entries of the table
    before the one of the page. *)
Theorem fixupdata_write_pages (d : module.fixupdata) (size : Z) (fs : list module.Fixup) :
  Z.of_nat (length fs) < 2 ^ 32 ->
  size <> 0 ->
  0 <= module.maxOff_of fs ->
  let npage := npage_of size fs in
  let pages0 := if Z.of_nat (length (module.pages d)) =? 0 then repeat 0 4
                else module.pages d in
  module.fixupdata_write d size fs =
    Some (map (fun q => u32 (Z.of_nat (length pages0 + 4 * q) / 4))
              (seq 0 (Z.to_nat npage)),
          {| module.pages :=
               pages0
               ++ concat (map (fun q =>
                                 le32 (u32 (Z.of_nat
                                              (length (module.records d
                                                       ++ records_upto npage fs (S q))))))
                              (seq 0 (Z.to_nat npage)));
             module.records :=
               module.records d ++ records_upto npage fs (Z.to_nat npage) |}).
Proof. apply fixupdata_write_spec. Qed.

Lemma fixupdata_write_pages_witness :
  Z.of_nat (length fixups_three) < 2 ^ 32 /\
  8192 <> 0 /\
  0 <= module.maxOff_of fixups_three /\
  let npage := npage_of 8192 fixups_three in
  let pages0 := if Z.of_nat (length (module.pages fixupdata0)) =? 0 then repeat 0 4
                else module.pages fixupdata0 in
  module.fixupdata_write fixupdata0 8192 fixups_three =
    Some (map (fun q => u32 (Z.of_nat (length pages0 + 4 * q) / 4))
              (seq 0 (Z.to_nat npage)),
          {| module.pages :=
               pages0
               ++ concat (map (fun q =>
                                 le32 (u32 (Z.of_nat
                                              (length (module.records fixupdata0
                                                       ++ records_upto npage fixups_three
                                                            (S q))))))
                              (seq 0 (Z.to_nat npage)));
             module.records :=
               module.records fixupdata0
               ++ records_upto npage fixups_three (Z.to_nat npage) |}).
Proof.
  assert (H1 : Z.of_nat (length fixups_three) < 2 ^ 32) by (vm_compute; reflexivity).
  assert (H2 : 8192 <> 0) by discriminate.
  assert (H3 : 0 <= module.maxOff_of fixups_three) by (vm_compute; discriminate).
  split; [exact H1 |]. split; [exact H2 |]. split; [exact H3 |].
  apply (fixupdata_write_pages fixupdata0 8192 fixups_three H1 H2 H3).
Defined.

(** ** Reading back the records of a page *)

Lemma records_upto_S npage fs q :
  records_upto npage fs (S q) = records_upto npage fs q ++ page_records npage fs q.
Proof.
  unfold records_upto. rewrite seq_S, map_app, concat_app. cbn [map concat Nat.add].
  rewrite app_nil_r. reflexivity.
Qed.

Lemma records_upto_split npage fs q n :
  (q <= n)%nat ->
  exists rest, records_upto npage fs n = records_upto npage fs q ++ rest.
Proof.
  intros Hq. unfold records_upto.
  assert (Hn : exists k, n = (q + k)%nat) by (exists (n - q)%nat; lia).
  destruct Hn as (k & ->).
  rewrite seq_app, map_app, concat_app. eauto.
Qed.

Lemma drop_entries (g : nat -> list Z) :
  (forall q, length (g q) = 4%nat) ->
  forall n a q, (q < n)%nat ->
    exists rest, drop (4 * q) (concat (map g (seq a n))) = g (a + q)%nat ++ rest.
Proof.
  intros Hg. induction n as [| n IH]; intros a q Hq; [lia |].
  cbn [seq map concat]. destruct q as [| q].
  - rewrite Nat.add_0_r. cbn. eauto.
  - rewrite drop_app_ge by (rewrite Hg; lia). rewrite Hg.
    replace (4 * S q - 4)%nat with (4 * q)%nat by lia.
    destruct (IH (S a) q ltac:(lia)) as (rest & Hr). rewrite Hr.
    replace (S a + q)%nat with (a + S q)%nat by lia. eauto.
Qed.

Lemma rebase_encodable npage fs q f :
  writable f -> (q < Z.to_nat npage)%nat -> npage < 2 ^ 31 ->
  f ∈ bucket npage fs q -> encodable (rebase q f).
Proof.
  intros (Hty & Hsrc & Hobj & Hoff & Hadd) Hq Hnp Hin.
  unfold bucket in Hin. apply list_elem_of_In, filter_In in Hin as [_ Hb].
  apply andb_true_iff in Hb as [Hhit Hpage].
  apply Nat.eqb_eq in Hpage. apply hits_range in Hhit.
  unfold encodable, rebase. cbn [module.SrcType module.Src module.Target module.Add].
  split; [exact Hty |]. split; [| split; [exact Hobj | split; [exact Hoff | exact Hadd]]].
  unfold page_of, module.pageBits in *. rewrite Z.add_0_r in *.
  rewrite (i32_small (module.Src f)) in * by exact Hsrc.
  rewrite Z.shiftr_div_pow2 in * by lia. rewrite Z.shiftl_mul_pow2 by lia.
  change (2 ^ 12) with 4096 in *.
  pose proof (Z.div_mod (module.Src f) 4096 ltac:(lia)) as Hdm.
  pose proof (Z.mod_pos_bound (module.Src f) 4096 ltac:(lia)) as Hm.
  assert (Hqz : Z.of_nat q = module.Src f / 4096) by lia.
  unfold is_i32 in Hsrc.
  rewrite (i32_small (Z.of_nat q * 4096)) by lia.
  rewrite i32_small by lia. lia.
Qed.

Lemma Uint32_app l r v : Uint32 l = Some v -> Uint32 (l ++ r) = Some v.
Proof.
  destruct l as [| a [| b [| c [| e l]]]]; try discriminate. intros H. exact H.
Qed.

Lemma npage_of_pos size fs : 0 <= module.maxOff_of fs -> 1 <= npage_of size fs < 2 ^ 31.
Proof.
  intros Hm. pose proof (maxOff_of_lt fs) as Hlt. unfold npage_of.
  assert (Hs : 0 <= Z.shiftr (module.maxOff_of fs) module.pageBits < 2 ^ 19).
  { unfold module.pageBits. rewrite Z.shiftr_div_pow2 by lia. split.
    - apply Z.div_pos; lia.
    - apply Z.div_lt_upper_bound; lia. }
  rewrite (i32_small (Z.shiftr (module.maxOff_of fs) module.pageBits + 1)) by lia.
  pose proof (i32_range (module.pagecount size)).
  destruct (Z.ltb_spec (i32 (module.pagecount size))
              (Z.shiftr (module.maxOff_of fs) module.pageBits + 1)); lia.
Qed.

Lemma entries_length (g : nat -> list Z) :
  (forall q, length (g q) = 4%nat) ->
  forall n a, length (concat (map g (seq a n))) = (4 * n)%nat.
Proof.
  intros Hg. induction n as [| n IH]; intros a; [reflexivity |].
  cbn [seq map concat]. rewrite length_app, Hg, IH. lia.
Qed.

Lemma records_upto_cons_length npage f fs :
  forall n,
    (length (records_upto npage (f :: fs) n)
     <= length (records_upto npage fs n)
        + (if hits npage f && (Z.to_nat (page_of f) <? n)%nat then 9 else 0))%nat.
Proof.
  induction n as [| n IH]; [destruct (hits npage f); cbn; lia |].
  rewrite !records_upto_S, !length_app. unfold page_records.
  rewrite bucket_cons.
  destruct (hits npage f); cbn [andb] in *.
  - destruct (Nat.eqb_spec (Z.to_nat (page_of f)) n) as [He | Hne].
    + change (records_of n (f :: bucket npage fs n))
        with (module.appendFixup (rebase n f) [] ++ records_of n (bucket npage fs n)).
      rewrite length_app, appendFixup_nil_length.
      destruct (Nat.ltb_spec (Z.to_nat (page_of f)) n); [lia |].
      destruct (Nat.ltb_spec (Z.to_nat (page_of f)) (S n)); [| lia].
      destruct (32767 <? _); lia.
    + destruct (Nat.ltb_spec (Z.to_nat (page_of f)) n);
        destruct (Nat.ltb_spec (Z.to_nat (page_of f)) (S n)); lia.
  - lia.
Qed.

Lemma records_upto_length npage fs n :
  (length (records_upto npage fs n) <= 9 * length fs)%nat.
Proof.
  revert n. induction fs as [| f fs IH]; intros n.
  - induction n as [| n IHn]; [cbn; lia |].
    rewrite records_upto_S, length_app. unfold page_records.
    change (bucket npage [] n) with (@nil module.Fixup).
    change (records_of n []) with (@nil Z). cbn [length] in *. lia.
  - pose proof (records_upto_cons_length npage f fs n) as H. specialize (IH n).
    cbn [length]. destruct (hits npage f && (Z.to_nat (page_of f) <? n)%nat); lia.
Qed.

Lemma bucket_of_fixup size fs f :
  f ∈ fs -> size <> 0 -> 0 <= module.Src f -> module.Src f + 3 < 2 ^ 31 ->
  f ∈ bucket (npage_of size fs) fs (Z.to_nat (module.Src f / 4096)) /\
  (Z.to_nat (module.Src f / 4096) < Z.to_nat (npage_of size fs))%nat.
Proof.
  intros Hin Hsize H0 H3.
  pose proof (slots_of_covers_fixup
                {| module.Flags := 0; module.Size := size; module.Addr := 0;
                   module.Data := []; module.Fixups := fs |} f Hin Hsize H0 H3) as Hc.
  unfold slots_of in Hc. cbn [module.Size module.Fixups] in Hc.
  destruct (Z.eqb_spec size 0) as [? | _]; [contradiction |].
  assert (Hp : page_of f = module.Src f / 4096).
  { unfold page_of, module.pageBits. rewrite Z.add_0_r, i32_small by lia.
    rewrite Z.shiftr_div_pow2 by lia. reflexivity. }
  destruct (Z.ltb_spec (module.maxOff_of fs) 0) as [Hneg | _]; cbn [orb] in Hc;
    [cbn in Hc; lia |].
  rewrite <- Hp. split; [| lia].
  unfold bucket. apply list_elem_of_In, filter_In. split; [apply list_elem_of_In, Hin |].
  apply andb_true_iff. split; [| apply Nat.eqb_refl].
  unfold hits. apply andb_true_iff. split; apply Z.ltb_lt; lia.
Qed.

(** [X17] The reader finds the fixups of a page where the writer put them.
    For an object with a size and fixups, and tables with room for its
    entries and records, [fixupdata.write] returns one index for each of
    the [npage] pages of the object, at least one. The index [idx] of the
    page [q] is at least 1, the entries [idx - 1] and [idx] of the fixup
    page table delimit the records of the page in the record table, and the
    loop of [readFixupRecords] reads from them the fixups whose first byte
    is in the page, in their order, each with its source offset relative to
    the page. Every fixup of the object at an offset from 0 to 2^31 - 4 is
    among those of the page [Src / 4096], which has an index. The state of
    the builder stays one on which this holds for the next object. *)
Theorem fixup_page_roundtrip
    (d : module.fixupdata) (size : Z) (fs : list module.Fixup) :
  fixupdata_inv d ->
  Forall writable fs ->
  size <> 0 ->
  0 <= module.maxOff_of fs ->
  Z.of_nat (length (module.pages d) + length (module.records d))
  + 4 + 4 * npage_of size fs + 9 * Z.of_nat (length fs) < 2 ^ 32 ->
  exists idxs d',
    module.fixupdata_write d size fs = Some (idxs, d') /\
    fixupdata_inv d' /\
    length idxs = Z.to_nat (npage_of size fs) /\
    (1 <= length idxs)%nat /\
    (forall q, (q < length idxs)%nat ->
       exists idx recs,
         idxs !! q = Some idx /\
         1 <= idx /\
         bucket_records d' (Z.to_nat (idx - 1)) = Some recs /\
         module.read_page_fixups (length recs) recs []
         = Some (inr (map (rebase q) (bucket (npage_of size fs) fs q)))) /\
    (forall f, f ∈ fs -> 0 <= module.Src f -> module.Src f + 3 < 2 ^ 31 ->
       (Z.to_nat (module.Src f / 4096) < length idxs)%nat /\
       f ∈ bucket (npage_of size fs) fs (Z.to_nat (module.Src f / 4096))).
Proof.
  intros Hinv Hw Hsize Hmax Hroom.
  pose proof (npage_of_pos size fs Hmax) as Hnp.
  assert (Hfs : Z.of_nat (length fs) < 2 ^ 32) by lia.
  pose proof (fixupdata_write_spec d size fs Hfs Hsize Hmax) as Hspec.
  cbv zeta in Hspec.
  assert (Hcover : forall f, f ∈ fs -> 0 <= module.Src f -> module.Src f + 3 < 2 ^ 31 ->
            (Z.to_nat (module.Src f / 4096) < Z.to_nat (npage_of size fs))%nat /\
            f ∈ bucket (npage_of size fs) fs (Z.to_nat (module.Src f / 4096))).
  { intros f Hin H0 H3. destruct (bucket_of_fixup size fs f Hin Hsize H0 H3). auto. }
  set (npage := npage_of size fs) in *.
  clearbody npage.
  set (n := Z.to_nat npage) in *.
  set (pages0 := if Z.of_nat (length (module.pages d)) =? 0 then repeat 0 4
                 else module.pages d) in *.
  set (g := fun q => le32 (u32 (Z.of_nat (length (module.records d
                                                    ++ records_upto npage fs (S q)))))) in *.
  set (tidxs := map (fun q => u32 (Z.of_nat (length pages0 + 4 * q) / 4)) (seq 0 n)) in *.
  set (td := {| module.pages := pages0 ++ concat (map g (seq 0 n));
                module.records := module.records d ++ records_upto npage fs n |}) in *.
  exists tidxs, td. split; [exact Hspec |]. clear Hspec.
  assert (Hti : length tidxs = n) by (unfold tidxs; rewrite length_map, length_seq; reflexivity).
  unfold td in *. clear td.
  assert (Hg : forall q, length (g q) = 4%nat) by reflexivity.
  assert (Hp0len : (length pages0 <= length (module.pages d) + 4)%nat).
  { unfold pages0. destruct (Z.eqb_spec (Z.of_nat (length (module.pages d))) 0);
      [cbn [repeat length]; lia | lia]. }
  assert (Hfit : Z.of_nat (length pages0 + 4 * n
                           + (length (module.records d)
                              + length (records_upto npage fs n))) < 2 ^ 32).
  { pose proof (records_upto_length npage fs n). lia. }
  (* the table before this object *)
  assert (Hp0 : exists m : nat,
             length pages0 = (4 * (m + 1))%nat /\
             Uint32 (drop (4 * m) pages0) = Some (Z.of_nat (length (module.records d)))).
  { destruct Hinv as [[Hp Hr] | (m & Hl & He)].
    - exists 0%nat. unfold pages0. rewrite Hp, Hr. split; reflexivity.
    - exists m.
      assert (Hp : pages0 = module.pages d).
      { unfold pages0. destruct (Z.eqb_spec (Z.of_nat (length (module.pages d))) 0);
          [lia | reflexivity]. }
      rewrite Hp. split; [exact Hl | exact He]. }
  destruct Hp0 as (m & Hl0 & He0). clear Hp0len. clearbody pages0.
  (* lengths *)
  assert (Hlen : forall q, (q <= n)%nat ->
             Z.of_nat (length (module.records d ++ records_upto npage fs q)) < 2 ^ 32).
  { intros q Hq. destruct (records_upto_split npage fs q n Hq) as (rest & Hr).
    rewrite Hr in Hfit. rewrite !length_app in *. lia. }
  (* the entries *)
  assert (Hentry : forall q, (q <= n)%nat ->
             fixup_page_entry
               {| module.pages := pages0 ++ concat (map g (seq 0 n));
                  module.records := module.records d ++ records_upto npage fs n |}
               (m + q)
             = Some (Z.of_nat (length (module.records d ++ records_upto npage fs q)))).
  { intros q Hq. unfold fixup_page_entry. cbn [module.pages].
    destruct q as [| q].
    - rewrite Nat.add_0_r, drop_app_le by lia.
      unfold records_upto. cbn [seq map concat]. rewrite app_nil_r.
      apply Uint32_app, He0.
    - rewrite drop_app_ge by lia. rewrite Hl0.
      replace (4 * (m + S q) - 4 * (m + 1))%nat with (4 * q)%nat by lia.
      destruct (drop_entries g Hg n 0 q ltac:(lia)) as (rest & Hr).
      rewrite Hr. cbn [Nat.add]. unfold g at 1. rewrite Uint32_le32_app.
      unfold u32. rewrite Z.mod_mod by lia. rewrite Z.mod_small; [reflexivity |].
      specialize (Hlen (S q) Hq). lia. }
  split.
  { right. exists (m + n)%nat. cbn [module.pages module.records].
    split; [rewrite length_app, (entries_length g Hg); lia |].
    apply (Hentry n). lia. }
  split; [exact Hti |].
  split; [lia |].
  split; [| rewrite Hti; exact Hcover].
  intros q Hqn. rewrite Hti in Hqn.
  exists (u32 (Z.of_nat (length pages0 + 4 * q) / 4)), (page_records npage fs q).
  split.
  { unfold tidxs. rewrite list_lookup_fmap, lookup_seq_lt by lia. reflexivity. }
  rewrite Hl0.
  replace (Z.of_nat (4 * (m + 1) + 4 * q) / 4) with (Z.of_nat (m + 1 + q))
    by (apply (Z.div_unique _ _ _ 0); lia).
  rewrite u32_small by lia. split; [lia |].
  replace (Z.to_nat (Z.of_nat (m + 1 + q) - 1)) with (m + q)%nat by lia.
  split.
  + unfold bucket_records. rewrite (Hentry q) by lia.
    replace (m + q + 1)%nat with (m + S q)%nat by lia.
    rewrite (Hentry (S q)) by lia. cbn [mbind option_bind module.records].
    destruct (records_upto_split npage fs (S q) n ltac:(lia)) as (rest & Hr).
    rewrite Hr, records_upto_S.
    unfold slice. rewrite bool_decide_eq_true_2
      by (rewrite !length_app; lia).
    f_equal.
    replace (module.records d
             ++ (records_upto npage fs q ++ page_records npage fs q) ++ rest)
      with ((module.records d ++ records_upto npage fs q)
            ++ page_records npage fs q ++ rest)
      by (rewrite <- !app_assoc; reflexivity).
    rewrite Nat2Z.id, drop_app_length.
    replace (Z.to_nat
               (Z.of_nat (length (module.records d
                                  ++ records_upto npage fs q
                                  ++ page_records npage fs q))
                - Z.of_nat (length (module.records d ++ records_upto npage fs q))))
      with (length (page_records npage fs q))
      by (rewrite !length_app; lia).
    apply take_app_length.
  + unfold page_records, records_of.
    rewrite <- (map_map (rebase q) (fun f => module.appendFixup f [])).
    replace (Some (inr (map (rebase q) (bucket npage fs q))))
      with (Some (inr ([] ++ map (rebase q) (bucket npage fs q))
                  : module.read_error + list module.Fixup)) by reflexivity.
    apply read_page_fixups_concat.
    * apply Forall_forall. intros f' Hin.
      apply list_elem_of_fmap in Hin as (f & -> & Hin).
      apply (rebase_encodable npage fs q f); [| lia | lia | exact Hin].
      rewrite Forall_forall in Hw. apply Hw.
      unfold bucket in Hin. apply list_elem_of_In, filter_In in Hin as [Hin _].
      apply list_elem_of_In. exact Hin.
    * pose proof (concat_appendFixup_length (map (rebase q) (bucket npage fs q))). lia.
Qed.

Lemma fixup_page_roundtrip_witness :
  fixupdata_inv fixupdata0 /\
  Forall writable fixups_three /\
  8192 <> 0 /\
  0 <= module.maxOff_of fixups_three /\
  Z.of_nat (length (module.pages fixupdata0) + length (module.records fixupdata0))
  + 4 + 4 * npage_of 8192 fixups_three + 9 * Z.of_nat (length fixups_three) < 2 ^ 32 /\
  exists idxs d',
    module.fixupdata_write fixupdata0 8192 fixups_three = Some (idxs, d') /\
    fixupdata_inv d' /\
    length idxs = Z.to_nat (npage_of 8192 fixups_three) /\
    (1 <= length idxs)%nat /\
    (forall q, (q < length idxs)%nat ->
       exists idx recs,
         idxs !! q = Some idx /\
         1 <= idx /\
         bucket_records d' (Z.to_nat (idx - 1)) = Some recs /\
         module.read_page_fixups (length recs) recs []
         = Some (inr (map (rebase q) (bucket (npage_of 8192 fixups_three) fixups_three q)))) /\
    (forall f, f ∈ fixups_three -> 0 <= module.Src f -> module.Src f + 3 < 2 ^ 31 ->
       (Z.to_nat (module.Src f / 4096) < length idxs)%nat /\
       f ∈ bucket (npage_of 8192 fixups_three) fixups_three
             (Z.to_nat (module.Src f / 4096))).
Proof.
  assert (H1 : fixupdata_inv fixupdata0) by (left; split; reflexivity).
  assert (H2 : Forall writable fixups_three).
  { unfold fixups_three, writable, is_i32, mkFixup.
    constructor; [| constructor; [| constructor; [| constructor]]]; cbn;
      repeat split; try lia; first [left; reflexivity | right; reflexivity]. }
  assert (H3 : 8192 <> 0) by discriminate.
  assert (H4 : 0 <= module.maxOff_of fixups_three) by (vm_compute; discriminate).
  assert (H5 : Z.of_nat (length (module.pages fixupdata0)
                         + length (module.records fixupdata0))
               + 4 + 4 * npage_of 8192 fixups_three
               + 9 * Z.of_nat (length fixups_three) < 2 ^ 32)
    by (vm_compute; reflexivity).
  split; [exact H1 |]. split; [exact H2 |]. split; [exact H3 |]. split; [exact H4 |].
  split; [exact H5 |].
  apply (fixup_page_roundtrip fixupdata0 8192 fixups_three H1 H2 H3 H4 H5).
Defined.

(** ** The reader of the fixup records does not panic *)

Lemma offsets_ordered_lookup offsets :
  forall l0,
    module.offsets_ordered l0 offsets = true ->
    forall i j x y, (i <= j)%nat -> offsets !! i = Some x -> offsets !! j = Some y ->
                    l0 <= x <= y.
Proof.
  induction offsets as [| z offsets IH]; intros l0 H i j x y Hij Hi Hj.
  - rewrite lookup_nil in Hi. discriminate.
  - cbn [module.offsets_ordered] in H.
    destruct (Z.ltb_spec z l0) as [? | Hz]; [discriminate |].
    destruct i as [| i]; destruct j as [| j]; cbn in Hi, Hj.
    + injection Hi as <-. injection Hj as <-. lia.
    + injection Hi as <-. pose proof (IH z H j j y y ltac:(lia) Hj Hj). lia.
    + lia.
    + pose proof (IH z H i j x y ltac:(lia) Hi Hj). lia.
Qed.

Lemma read_pages_fold (data pageTable : list Z) :
  module.offsets_ordered 0 pageTable = true ->
  (forall x, last pageTable = Some x -> Z.of_nat (length data) = x) ->
  forall (l : list nat) (st : module.read_error + list (list module.Fixup)),
    Forall (fun i => (i + 1 < length pageTable)%nat) l ->
    exists r,
      foldl (fun st i =>
               st ← st;
               match st with
               | inl e => Some (inl e)
               | inr pageFixups =>
                   off0 ← pageTable !! i;
                   off1 ← pageTable !! (i + 1)%nat;
                   if off0 =? off1 then Some (inr pageFixups) else
                   fdata ← slice data off0 off1;
                   r ← module.read_page_fixups (length fdata) fdata [];
                   match r with
                   | inl e => Some (inl e)
                   | inr fixups => Some (inr (<[i := fixups]> pageFixups))
                   end
               end)
            (Some st) l = Some r.
Proof.
  intros Hord Hlast. induction l as [| i l IH]; intros st Hall.
  - exists st. reflexivity.
  - apply Forall_cons in Hall as [Hi Hall]. cbn [foldl mbind option_bind].
    destruct st as [e | pageFixups]; [apply IH, Hall |].
    destruct (lookup_lt_is_Some_2 pageTable i ltac:(lia)) as [off0 H0].
    destruct (lookup_lt_is_Some_2 pageTable (i + 1) ltac:(lia)) as [off1 H1].
    rewrite H0, H1. cbn [mbind option_bind].
    destruct (off0 =? off1); [apply IH, Hall |].
    destruct (lookup_lt_is_Some_2 pageTable (length pageTable - 1) ltac:(lia)) as [z Hz].
    assert (Hl : last pageTable = Some z) by (rewrite last_lookup; rewrite <- Hz; f_equal; lia).
    specialize (Hlast z Hl).
    pose proof (offsets_ordered_lookup pageTable 0 Hord i (i + 1) off0 off1
                  ltac:(lia) H0 H1) as Ha.
    pose proof (offsets_ordered_lookup pageTable 0 Hord (i + 1) (length pageTable - 1)
                  off1 z ltac:(lia) H1 Hz) as Hb.
    unfold slice. rewrite bool_decide_eq_true_2 by lia. cbn [mbind option_bind].
    match goal with
    | |- context [module.read_page_fixups (length ?fd) ?fd []] =>
        destruct (read_page_fixups_some (length fd) fd [] ltac:(lia)) as [r Hr];
        rewrite Hr
    end.
    cbn [mbind option_bind]. destruct r; apply IH, Hall.
Qed.

(** [X18] On a fixup page table that passed the check of
    [readFixupPageTable], with the record table read up to the last offset
    of the table, the loop of [readFixupRecords] does not panic: every
    [data[off0:off1]] is in range, and the loop gives the fixups of the
    pages or the error of a record. *)
Theorem read_pages_no_panic (data pageTable : list Z) :
  module.offsets_ordered 0 pageTable = true ->
  (forall x, last pageTable = Some x -> Z.of_nat (length data) = x) ->
  exists r, module.read_pages data pageTable = Some r.
Proof.
  intros Hord Hlast. unfold module.read_pages.
  apply (read_pages_fold data pageTable Hord Hlast).
  apply Forall_forall. intros i Hi. apply elem_of_seq in Hi. lia.
Qed.

Lemma read_pages_no_panic_witness :
  module.offsets_ordered 0 [0; 16; 23] = true /\
  (forall x, last [0; 16; 23] = Some x ->
             Z.of_nat (length (module.records (snd write_three))) = x) /\
  exists r, module.read_pages (module.records (snd write_three)) [0; 16; 23] = Some r.
Proof.
  assert (H1 : module.offsets_ordered 0 [0; 16; 23] = true) by reflexivity.
  assert (H2 : forall x, last [0; 16; 23] = Some x ->
                         Z.of_nat (length (module.records (snd write_three))) = x).
  { intros x Hx. cbn in Hx. injection Hx as <-. vm_compute. reflexivity. }
  split; [exact H1 |]. split; [exact H2 |].
  apply (read_pages_no_panic _ _ H1 H2).
Defined.

(** ** The symbols of package elf *)

Lemma section_object_none segs a :
  (forall seg, seg ∈ segs -> ~ elf_section_in seg a) ->
  elf.section_object segs a = -1.
Proof.
  induction segs as [| seg segs IH]; intros H; cbn [elf.section_object]; [reflexivity |].
  destruct (Z.leb_spec (elf.addr (elf.seg_range seg)) a) as [Hlo | Hlo];
    destruct (Z.ltb_spec a (u32 (elf.addr (elf.seg_range seg)
                                 + elf.size (elf.seg_range seg)))) as [Hhi | Hhi];
    cbn [andb].
  1: { exfalso. apply (H seg); [apply elem_of_cons; left; reflexivity |].
       unfold elf_section_in. lia. }
  all: apply IH; intros s Hs; apply H; apply elem_of_cons; right; exact Hs.
Qed.

Lemma section_object_first segs :
  forall a k seg,
    segs !! k = Some seg -> elf_section_in seg a ->
    (forall j s, (j < k)%nat -> segs !! j = Some s -> ~ elf_section_in s a) ->
    elf.section_object segs a = elf.seg_index seg.
Proof.
  induction segs as [| s0 segs IH]; intros a k seg Hk Hin Hfirst.
  - rewrite lookup_nil in Hk. discriminate.
  - cbn [elf.section_object]. destruct k as [| k]; cbn in Hk.
    + injection Hk as <-. unfold elf_section_in in Hin.
      destruct (Z.leb_spec (elf.addr (elf.seg_range s0)) a); [| lia].
      destruct (Z.ltb_spec a (u32 (elf.addr (elf.seg_range s0)
                                   + elf.size (elf.seg_range s0)))); [| lia].
      reflexivity.
    + assert (H0 : ~ elf_section_in s0 a) by (apply (Hfirst 0%nat); [lia | reflexivity]).
      unfold elf_section_in in H0.
      destruct (Z.leb_spec (elf.addr (elf.seg_range s0)) a);
        destruct (Z.ltb_spec a (u32 (elf.addr (elf.seg_range s0)
                                     + elf.size (elf.seg_range s0))));
        cbn [andb]; try lia.
      all: apply (IH a k seg Hk Hin); intros j s Hj Hs; apply (Hfirst (S j)); [lia | exact Hs].
Qed.

Lemma secObjects_of_at f segs i sec :
  0 <= i -> debug_elf.Sections f !! Z.to_nat i = Some sec ->
  (0 <=? i) && (i <? Z.of_nat (length (elf.secObjects_of f segs))) = true /\
  at_ (elf.secObjects_of f segs) i
  = Some (elf.section_object segs (u32 (debug_elf.s_Addr sec))).
Proof.
  intros Hi Hsec. pose proof (lookup_lt_Some _ _ _ Hsec) as Hlt.
  unfold elf.secObjects_of. rewrite length_map. split.
  - apply andb_true_iff. split; [apply Z.leb_le; lia | apply Z.ltb_lt; lia].
  - unfold at_. rewrite bool_decide_eq_true_2 by lia.
    change (map ?g ?l) with (g <$> l). rewrite list_lookup_fmap, Hsec. reflexivity.
Qed.

Lemma resolveSymbols_loop_app secObjects segs pre :
  forall rest,
    Forall (fun s => exists o, elf.resolveSymbol secObjects segs s = Ok o) pre ->
    elf.resolveSymbols_loop secObjects segs (pre ++ rest)
    = bind (elf.resolveSymbols_loop secObjects segs pre) (fun osyms =>
      bind (elf.resolveSymbols_loop secObjects segs rest) (fun osyms' =>
      Ok (osyms ++ osyms'))) /\
    exists osyms, elf.resolveSymbols_loop secObjects segs pre = Ok osyms.
Proof.
  induction pre as [| s pre IH]; intros rest Hall.
  - cbn. split; [| eauto]. destruct (elf.resolveSymbols_loop secObjects segs rest); reflexivity.
  - apply Forall_cons in Hall as [[o Ho] Hall].
    destruct (IH rest Hall) as [Heq [osyms Hos]].
    cbn [app elf.resolveSymbols_loop]. rewrite Ho. cbn [bind]. rewrite Heq, Hos. cbn [bind].
    split; [| eauto].
    destruct (elf.resolveSymbols_loop secObjects segs rest); reflexivity.
Qed.

(** [X19] A symbol whose section lies in no segment makes [resolveSymbols]
    panic: the section is given the object -1, and [segs[obj]] is out of
    range. This is so for an undefined symbol, whose section is the null
    section, when no segment has the address 0; the symbols before it are
    supposed to resolve. *)
Theorem resolveSymbols_panics_outside_segments
    (f : debug_elf.File) (segs : list elf.segment)
    (pre post : list debug_elf.Symbol) (sym : debug_elf.Symbol) (sec : debug_elf.Section) :
  debug_elf.Symbols f = Some (pre ++ sym :: post) ->
  Forall (fun s => exists o,
            elf.resolveSymbol (elf.secObjects_of f segs) segs s = Ok o) pre ->
  0 <= debug_elf.Section_ sym ->
  debug_elf.Sections f !! Z.to_nat (debug_elf.Section_ sym) = Some sec ->
  (forall seg, seg ∈ segs -> ~ elf_section_in seg (u32 (debug_elf.s_Addr sec))) ->
  elf.resolveSymbols f segs = Panic.
Proof.
  intros Hsyms Hpre Hsec0 Hsec Hout.
  unfold elf.resolveSymbols. cbv zeta. rewrite Hsyms.
  destruct (resolveSymbols_loop_app _ _ pre (sym :: post) Hpre) as [-> [osyms ->]].
  cbn [bind elf.resolveSymbols_loop].
  unfold elf.resolveSymbol.
  destruct (secObjects_of_at f segs _ sec Hsec0 Hsec) as [-> ->].
  rewrite (section_object_none _ _ Hout). reflexivity.
Qed.

Lemma resolveSymbols_panics_outside_segments_witness :
  debug_elf.Symbols file_undefined_symbol = Some ([sym_stack_end_S2] ++ sym_undefined :: []) /\
  Forall (fun s => exists o,
            elf.resolveSymbol (elf.secObjects_of file_undefined_symbol elf_segs_rels)
                              elf_segs_rels s = Ok o) [sym_stack_end_S2] /\
  0 <= debug_elf.Section_ sym_undefined /\
  debug_elf.Sections file_undefined_symbol !! Z.to_nat (debug_elf.Section_ sym_undefined)
    = Some section_null /\
  (forall seg, seg ∈ elf_segs_rels ->
               ~ elf_section_in seg (u32 (debug_elf.s_Addr section_null))) /\
  elf.resolveSymbols file_undefined_symbol elf_segs_rels = Panic.
Proof.
  assert (H1 : debug_elf.Symbols file_undefined_symbol
               = Some ([sym_stack_end_S2] ++ sym_undefined :: [])) by reflexivity.
  assert (H2 : Forall (fun s => exists o,
                  elf.resolveSymbol (elf.secObjects_of file_undefined_symbol elf_segs_rels)
                                    elf_segs_rels s = Ok o) [sym_stack_end_S2]).
  { constructor; [| constructor]. eexists. vm_compute. reflexivity. }
  assert (H3 : 0 <= debug_elf.Section_ sym_undefined) by (vm_compute; discriminate).
  assert (H4 : debug_elf.Sections file_undefined_symbol
                 !! Z.to_nat (debug_elf.Section_ sym_undefined) = Some section_null)
    by reflexivity.
  assert (H5 : forall seg, seg ∈ elf_segs_rels ->
                 ~ elf_section_in seg (u32 (debug_elf.s_Addr section_null))).
  { intros seg Hin [Hlo _]. revert Hlo.
    let v := eval vm_compute in elf_segs_rels in change elf_segs_rels with v in Hin.
    repeat (apply elem_of_cons in Hin as [-> | Hin]; [vm_compute; intros Hc; apply Hc; reflexivity |]).
    apply elem_of_nil in Hin. contradiction. }
  split; [exact H1 |]. split; [exact H2 |]. split; [exact H3 |]. split; [exact H4 |].
  split; [exact H5 |].
  apply (resolveSymbols_panics_outside_segments file_undefined_symbol elf_segs_rels
           [sym_stack_end_S2] [] sym_undefined section_null H1 H2 H3 H4 H5).
Defined.


(** [X20] Where no program header was left out, so that the index of every
    segment is its position, a symbol is resolved by the address of its
    section: to the first segment that has this address, as the object of
    the segment's position counted from 1, at the offset of the symbol's
    value from the start of the segment. *)
Theorem resolveSymbol_in_segment
    (f : debug_elf.File) (segs : list elf.segment) (sym : debug_elf.Symbol)
    (sec : debug_elf.Section) (k : nat) (seg : elf.segment) :
  (forall j s, segs !! j = Some s -> elf.seg_index s = Z.of_nat j) ->
  Z.of_nat (length segs) < 2 ^ 31 ->
  0 <= debug_elf.Section_ sym ->
  debug_elf.Sections f !! Z.to_nat (debug_elf.Section_ sym) = Some sec ->
  segs !! k = Some seg ->
  elf_section_in seg (u32 (debug_elf.s_Addr sec)) ->
  (forall j s, (j < k)%nat -> segs !! j = Some s ->
               ~ elf_section_in s (u32 (debug_elf.s_Addr sec))) ->
  elf.resolveSymbol (elf.secObjects_of f segs) segs sym =
    Ok {| elf.sym_addr := u32 (debug_elf.Value sym);
          elf.sym_ref :=
            {| module.Obj := Z.of_nat k + 1;
               module.Off := i32 (u32 (u32 (debug_elf.Value sym)
                                       - elf.addr (elf.seg_range seg))) |};
          elf.sym_name := debug_elf.Name sym |}.
Proof.
  intros Hidx Hlen Hsec0 Hsec Hk Hin Hfirst.
  unfold elf.resolveSymbol.
  destruct (secObjects_of_at f segs _ sec Hsec0 Hsec) as [-> ->].
  rewrite (section_object_first segs _ k seg Hk Hin Hfirst), (Hidx k seg Hk).
  cbn [must bind]. unfold at_. rewrite bool_decide_eq_true_2 by lia.
  rewrite Nat2Z.id, Hk. cbn [must bind].
  apply lookup_lt_Some in Hk. rewrite i32_small by lia. reflexivity.
Qed.

Lemma resolveSymbol_in_segment_witness :
  (forall j s, elf_segs_rels !! j = Some s -> elf.seg_index s = Z.of_nat j) /\
  Z.of_nat (length elf_segs_rels) < 2 ^ 31 /\
  0 <= debug_elf.Section_ sym_data_start_S2 /\
  debug_elf.Sections file_rels !! Z.to_nat (debug_elf.Section_ sym_data_start_S2)
    = Some section_data /\
  elf_segs_rels !! 1%nat = Some elf_seg_data /\
  elf_section_in elf_seg_data (u32 (debug_elf.s_Addr section_data)) /\
  (forall j s, (j < 1)%nat -> elf_segs_rels !! j = Some s ->
               ~ elf_section_in s (u32 (debug_elf.s_Addr section_data))) /\
  elf.resolveSymbol (elf.secObjects_of file_rels elf_segs_rels) elf_segs_rels
                    sym_data_start_S2 =
    Ok {| elf.sym_addr := u32 (debug_elf.Value sym_data_start_S2);
          elf.sym_ref :=
            {| module.Obj := Z.of_nat 1 + 1;
               module.Off := i32 (u32 (u32 (debug_elf.Value sym_data_start_S2)
                                       - elf.addr (elf.seg_range elf_seg_data))) |};
          elf.sym_name := debug_elf.Name sym_data_start_S2 |}.
Proof.
  assert (H1 : forall j s, elf_segs_rels !! j = Some s -> elf.seg_index s = Z.of_nat j).
  { intros j s Hj. destruct j as [| [| j]]; vm_compute in Hj.
    - injection Hj as <-. reflexivity.
    - injection Hj as <-. reflexivity.
    - discriminate. }
  assert (H2 : Z.of_nat (length elf_segs_rels) < 2 ^ 31) by (vm_compute; reflexivity).
  assert (H3 : 0 <= debug_elf.Section_ sym_data_start_S2) by (vm_compute; discriminate).
  assert (H4 : debug_elf.Sections file_rels
                 !! Z.to_nat (debug_elf.Section_ sym_data_start_S2) = Some section_data)
    by reflexivity.
  assert (H5 : elf_segs_rels !! 1%nat = Some elf_seg_data) by reflexivity.
  assert (H6 : elf_section_in elf_seg_data (u32 (debug_elf.s_Addr section_data))).
  { unfold elf_section_in. vm_compute. split; [discriminate | reflexivity]. }
  assert (H7 : forall j s, (j < 1)%nat -> elf_segs_rels !! j = Some s ->
                 ~ elf_section_in s (u32 (debug_elf.s_Addr section_data))).
  { intros j s Hj Hs. destruct j as [| j]; [| lia].
    vm_compute in Hs. injection Hs as <-.
    unfold elf_section_in. vm_compute. intros [_ Hc]. discriminate. }
  split; [exact H1 |]. split; [exact H2 |]. split; [exact H3 |]. split; [exact H4 |].
  split; [exact H5 |]. split; [exact H6 |]. split; [exact H7 |].
  apply (resolveSymbol_in_segment file_rels elf_segs_rels sym_data_start_S2 section_data
           1 elf_seg_data H1 H2 H3 H4 H5 H6 H7).
Defined.

(** ** The object table *)

Lemma objdata_write_fields d obj fixup first count :
  exists rec,
    module.object (module.objdata_write d obj fixup first count) = module.object d ++ rec /\
    length rec = 24%nat /\
    field rec 0 = le32 (module.Size obj) /\
    field rec 4 = le32 (module.Addr obj) /\
    field rec 8 = le32 (u32 (module.Flags obj)) /\
    field rec 12 = le32 (if (length fixup =? 0)%nat then 0
                         else u32 (u32 (Z.of_nat (length (module.page d)) / 4) + 1)) /\
    field rec 20 = le32 0.
Proof.
  unfold module.objdata_write.
  destruct fixup as [| idx fixup].
  - cbn [length Z.of_nat Z.eqb negb Nat.eqb]. eexists. cbn [module.object].
    split; [reflexivity |]. repeat split; reflexivity.
  - replace (negb (Z.of_nat (length (idx :: fixup)) =? 0)) with true
      by (symmetry; apply negb_true_iff, Z.eqb_neq; cbn [length]; lia).
    cbn [length Nat.eqb]. eexists. cbn [module.object].
    split; [reflexivity |]. repeat split; reflexivity.
Qed.

Lemma dump_fold_records objs :
  forall od fd pd od' fd' pd',
    Forall (fun obj => Z.of_nat (length (module.Fixups obj)) < 2 ^ 32) objs ->
    foldl (fun st obj => st ← st; module.dump_object st obj) (Some (od, fd, pd)) objs
      = Some (od', fd', pd') ->
    exists recs,
      module.object od' = module.object od ++ concat recs /\
      length recs = length objs /\
      forall i obj, objs !! i = Some obj ->
        exists rec, recs !! i = Some rec /\
          length rec = 24%nat /\
          field rec 0 = le32 (module.Size obj) /\
          field rec 4 = le32 (module.Addr obj) /\
          field rec 8 = le32 (u32 (module.Flags obj)) /\
          field rec 12 =
            le32 (if (slots_of obj =? 0)%nat then 0
                  else u32 (u32 (Z.of_nat (length (module.page od)
                                           + 4 * slot_sum (take i objs)) / 4) + 1)) /\
          field rec 20 = le32 0.
Proof.
  induction objs as [| obj objs IH]; intros od fd pd od' fd' pd' Hall H.
  - cbn in H. injection H as <- <- <-. exists []. cbn. rewrite app_nil_r.
    split; [reflexivity |]. split; [reflexivity |].
    intros i obj Hi. rewrite lookup_nil in Hi. discriminate.
  - rewrite foldl_bind_cons in H. apply Forall_cons in Hall as [Hobj Hall].
    unfold module.dump_object in H.
    destruct (module.pagedata_write pd (module.Data obj)) as [[[first count] pd1] |];
      [| cbn [mbind option_bind] in H; rewrite foldl_bind_None in H; discriminate].
    cbn [mbind option_bind] in H.
    destruct (module.fixupdata_write fd (module.Size obj) (module.Fixups obj))
      as [[fixup fd1] |] eqn:Hfw;
      [| cbn [mbind option_bind] in H; rewrite foldl_bind_None in H; discriminate].
    cbn [mbind option_bind] in H.
    destruct (slots_of_length fd obj fixup fd1 Hobj Hfw) as [Hslots _].
    destruct (objdata_write_fields od obj fixup first count)
      as (rec & Hrec & Hlen & Hf0 & Hf4 & Hf8 & Hf12 & Hf20).
    destruct (objdata_write_spec od obj fixup first count)
      as (rec' & _ & _ & _ & Hpage & _).
    destruct (IH _ _ _ _ _ _ Hall H) as (recs & Hob & Hlr & Hrecs).
    exists (rec :: recs). split.
    { rewrite Hob, Hrec. cbn [concat]. rewrite <- app_assoc. reflexivity. }
    split; [cbn [length]; lia |].
    intros [| i] o Hi; cbn in Hi.
    + injection Hi as <-. exists rec. split; [reflexivity |].
      rewrite Hslots in Hf12. cbn [take slot_sum foldr]. rewrite Nat.mul_0_r, Nat.add_0_r.
      repeat split; assumption.
    + destruct (Hrecs i o Hi) as (r & Hr & Hl & H0 & H4 & H8 & H12 & H20).
      exists r. split; [exact Hr |]. rewrite Hpage, Hslots in H12.
      cbn [take slot_sum foldr]. fold (slot_sum (take i objs)).
      replace (length (module.page od) + 4 * (slots_of obj + slot_sum (take i objs)))%nat
        with (length (module.page od) + 4 * slots_of obj + 4 * slot_sum (take i objs))%nat
        by lia.
      repeat split; assumption.
Qed.

Lemma field_concat_at (recs : list (list Z)) :
  Forall (fun rec => length rec = 24%nat) recs ->
  forall i rec k, recs !! i = Some rec -> (k + 4 <= 24)%nat ->
    field (concat recs) (24 * i + k) = field rec k.
Proof.
  unfold field. induction 1 as [| rec0 recs Hlen Hrest IH]; intros i rec k Hi Hk.
  - rewrite lookup_nil in Hi. discriminate.
  - destruct i as [| i]; cbn in Hi.
    + injection Hi as <-. cbn [concat]. rewrite Nat.mul_0_r, Nat.add_0_l.
      rewrite drop_app_le by lia.
      rewrite take_app_le by (rewrite length_drop; lia). reflexivity.
    + cbn [concat]. rewrite drop_app_ge by lia.
      replace (24 * S i + k - length rec0)%nat with (24 * i + k)%nat by lia.
      apply IH; assumption.
Qed.

(** [X21] The object table that [dumpBlocks] returns has a record of 24
    bytes for each object, in order: the size of the object at +0, its
    address at +4, its flags at +8, nothing at +20, and at +12 the position,
    counted from 1, of the first entry of the object in the object page
    table, which is one more than the number of entries of the objects
    before it; an object without entries has 0 there. *)
Theorem object_table_records
    (p : module.Program) (h ot opt fpt fr : list Z) (data : list (list Z)) :
  Forall (fun obj => Z.of_nat (length (module.Fixups obj)) < 2 ^ 32) (module.Objects p) ->
  module.dumpBlocks p = Some (h :: ot :: opt :: fpt :: fr :: data) ->
  length ot = (24 * length (module.Objects p))%nat /\
  forall i obj, module.Objects p !! i = Some obj ->
    field ot (24 * i) = le32 (module.Size obj) /\
    field ot (24 * i + 4) = le32 (module.Addr obj) /\
    field ot (24 * i + 8) = le32 (u32 (module.Flags obj)) /\
    field ot (24 * i + 12) =
      le32 (if (slots_of obj =? 0)%nat then 0
            else u32 (u32 (Z.of_nat (slot_sum (take i (module.Objects p)))) + 1)) /\
    field ot (24 * i + 20) = le32 0.
Proof.
  intros Hall H.
  destruct (dumpBlocks_shape p _ H) as (od & fd & pd & h' & Hd & Heq).
  injection Heq as -> -> -> -> -> ->.
  unfold module.dump_objects in Hd.
  destruct (dump_fold_records _ _ _ _ _ _ _ Hall Hd) as (recs & Hob & Hlr & Hrecs).
  cbn [module.object module.page app length] in Hob, Hrecs.
  assert (H24 : Forall (fun rec => length rec = 24%nat) recs).
  { apply Forall_lookup. intros i rec Hi.
    destruct (lookup_lt_is_Some_2 (module.Objects p) i) as [obj Hobj].
    { rewrite <- Hlr. eapply lookup_lt_Some, Hi. }
    destruct (Hrecs i obj Hobj) as (r & Hr & Hl & _). congruence. }
  rewrite Hob. split.
  - rewrite <- Hlr. clear - H24.
    induction H24 as [| rec recs Hl _ IH]; [reflexivity |].
    cbn [concat length]. rewrite length_app, Hl, IH. lia.
  - intros i obj Hi.
    destruct (Hrecs i obj Hi) as (rec & Hr & Hl & H0 & H4 & H8 & H12 & H20).
    rewrite <- (Nat.add_0_r (24 * i)) at 1.
    rewrite !(field_concat_at recs H24 i rec) by (exact Hr || lia).
    rewrite H0, H4, H8, H12, H20. repeat split.
    cbn [Nat.add].
    replace (Z.of_nat (4 * slot_sum (take i (module.Objects p))) / 4)
      with (Z.of_nat (slot_sum (take i (module.Objects p))))
      by (apply (Z.div_unique _ _ _ 0); lia).
    reflexivity.
Qed.

Lemma object_table_records_witness :
  Forall (fun obj => Z.of_nat (length (module.Fixups obj)) < 2 ^ 32)
         (module.Objects prog_two_objects) /\
  module.dumpBlocks prog_two_objects
    = Some (block_two_objects 0 :: block_two_objects 1 :: block_two_objects 2
              :: block_two_objects 3 :: block_two_objects 4
              :: drop 5 blocks_two_objects) /\
  length (block_two_objects 1) = (24 * length (module.Objects prog_two_objects))%nat /\
  forall i obj, module.Objects prog_two_objects !! i = Some obj ->
    field (block_two_objects 1) (24 * i) = le32 (module.Size obj) /\
    field (block_two_objects 1) (24 * i + 4) = le32 (module.Addr obj) /\
    field (block_two_objects 1) (24 * i + 8) = le32 (u32 (module.Flags obj)) /\
    field (block_two_objects 1) (24 * i + 12) =
      le32 (if (slots_of obj =? 0)%nat then 0
            else u32 (u32 (Z.of_nat (slot_sum (take i (module.Objects prog_two_objects))))
                      + 1)) /\
    field (block_two_objects 1) (24 * i + 20) = le32 0.
Proof.
  assert (H1 : Forall (fun obj => Z.of_nat (length (module.Fixups obj)) < 2 ^ 32)
                      (module.Objects prog_two_objects)).
  { constructor; [vm_compute; reflexivity |].
    constructor; [vm_compute; reflexivity | constructor]. }
  assert (H2 : module.dumpBlocks prog_two_objects
               = Some (block_two_objects 0 :: block_two_objects 1 :: block_two_objects 2
                         :: block_two_objects 3 :: block_two_objects 4
                         :: drop 5 blocks_two_objects)) by (vm_compute; reflexivity).
  split; [exact H1 |]. split; [exact H2 |].
  apply (object_table_records prog_two_objects _ _ _ _ _ _ H1 H2).
Defined.

(** ** The fixups of the program are well formed *)

Lemma append_fixup_valid n segs i fx :
  valid_fixups n segs -> valid_fixup n fx -> valid_fixups n (main.append_fixup segs i fx).
Proof.
  intros Hv Hfx j s' Hj.
  destruct (main_append_fixup_lookup segs i fx j s' Hj) as (s & Hs & [[-> Hf] | [_ ->]]).
  - rewrite Hf. apply Forall_app. split; [apply (Hv i s Hs) | constructor; [exact Hfx | constructor]].
  - apply (Hv j s Hs).
Qed.

Lemma addRelocation_valid n rel segs syms segs' :
  (forall sym, sym ∈ syms -> 0 <= main.obj (main.sym_ref sym) <= Z.of_nat n) ->
  valid_fixups n segs ->
  main.addRelocation rel segs syms = Ok segs' ->
  valid_fixups n segs'.
Proof.
  intros Hsyms Hv H.
  destruct (addRelocation_Ok _ _ _ _ H)
    as [-> | (i & seg & sym & val & ty & fixOff & _ & _ & Hat & Hobj & _ & Hty & ->)];
    [exact Hv |].
  apply append_fixup_valid; [exact Hv |].
  assert (Hin : sym ∈ syms).
  { unfold at_ in Hat. destruct (bool_decide _); [| discriminate].
    eapply list_elem_of_lookup_2, Hat. }
  specialize (Hsyms sym Hin).
  unfold valid_fixup, mk_fixup. cbn [main.srcType main.target main.obj main.add].
  split; [| split; [lia | reflexivity]].
  destruct Hty as [(_ & -> & _) | (_ & -> & _)]; [left | right]; reflexivity.
Qed.

Lemma read_rels_valid n fuel :
  forall data segs syms segs',
    (forall sym, sym ∈ syms -> 0 <= main.obj (main.sym_ref sym) <= Z.of_nat n) ->
    valid_fixups n segs ->
    main.read_rels fuel data segs syms = Ok segs' ->
    valid_fixups n segs'.
Proof.
  induction fuel as [| fuel IH]; intros data segs syms segs' Hsyms Hv H;
    cbn [main.read_rels] in H.
  - injection H as <-. exact Hv.
  - destruct (0 <? Z.of_nat (length data)).
    + destruct (main.addRelocation (debug_elf.read_Rel32 data) segs syms)
        as [segs1 | e |] eqn:Ha; try discriminate.
      eapply IH; [exact Hsyms | | exact H].
      eapply addRelocation_valid; eassumption.
    + injection H as <-. exact Hv.
Qed.

Lemma readSections_from_valid n sections :
  forall i nsec segs syms segs',
    (forall sym, sym ∈ syms -> 0 <= main.obj (main.sym_ref sym) <= Z.of_nat n) ->
    valid_fixups n segs ->
    main.readSections_from sections i nsec segs syms = Ok segs' ->
    valid_fixups n segs'.
Proof.
  induction sections as [| s sections IH]; intros i nsec segs syms segs' Hsyms Hv H;
    cbn [main.readSections_from] in H.
  - injection H as <-. exact Hv.
  - destruct ((debug_elf.s_Type s =? debug_elf.SHT_REL)
              || (debug_elf.s_Type s =? debug_elf.SHT_RELA)).
    + destruct ((debug_elf.s_Info s <? 0) || (nsec <=? debug_elf.s_Info s));
        [discriminate |].
      destruct (main.readRelocationSection s segs syms) as [segs1 | e |] eqn:Hsec;
        try discriminate.
      eapply IH; [exact Hsyms | | exact H].
      unfold main.readRelocationSection in Hsec.
      destruct (debug_elf.s_Data s) as [data |]; [| discriminate].
      destruct (debug_elf.s_Type s =? debug_elf.SHT_REL); [| discriminate].
      destruct (negb (Z.land (Z.of_nat (length data)) 7 =? 0)); [discriminate |].
      eapply read_rels_valid; eassumption.
    + eapply IH; eassumption.
Qed.

(** [X22] Every fixup of the program that [readExecutable] returns is well
    formed: its source type is 7 or 8, its target is an object of the
    program, with a number from 1 to the number of objects, and it has
    nothing to add. *)
Theorem readExecutable_fixups_valid (f : debug_elf.File) (p : main.program) :
  Z.of_nat (length (debug_elf.Progs f)) < 2 ^ 31 ->
  main.readExecutable f = Ok p ->
  Forall (fun o => Forall (valid_fixup (length (main.objects p))) (main.o_fixups o))
         (main.objects p).
Proof.
  intros Hlen H. unfold main.readExecutable in H.
  destruct (negb (debug_elf.Class f =? debug_elf.ELFCLASS32)); [discriminate |].
  destruct (negb (debug_elf.Data_ f =? debug_elf.ELFDATA2LSB)); [discriminate |].
  destruct (negb (debug_elf.Type_ f =? debug_elf.ET_EXEC)); [discriminate |].
  destruct (negb (debug_elf.Machine f =? debug_elf.EM_386)); [discriminate |].
  destruct (main.assignSegments f) as [segs | e |] eqn:Hseg; try discriminate.
  cbn [bind] in H.
  destruct (main.obj (main.resolveAddr segs (u32 (debug_elf.Entry_ f))) =? 0);
    [discriminate |].
  destruct (main.resolveSymbols f segs) as [syms | e |] eqn:Hsyms; try discriminate.
  cbn [bind] in H.
  destruct (main.obj (main.find_stack syms) =? 0); [discriminate |].
  destruct (main.readSections f segs syms) as [segs' | e |] eqn:Hsec; try discriminate.
  cbn [bind] in H. injection H as <-. cbn [main.objects].
  destruct (assignSegments_from_spec _ _ _ _ Hseg) as (new & Hnew & Hl & _ & _).
  cbn [app] in Hnew. subst new.
  pose proof (proj1 (readSections_from_Ok _ _ _ _ _ _ Hsec)) as Hf.
  assert (Hlen1 : length segs' = length segs) by (symmetry; eapply Forall2_length, Hf).
  assert (Hlen2 : (length segs <= length (debug_elf.Progs f))%nat).
  { rewrite <- (Forall2_length _ _ _ Hl). apply filter_length_le. }
  assert (Hsegs : Z.of_nat (length segs) < 2 ^ 31) by lia.
  rewrite length_map, Hlen1.
  assert (Hv : valid_fixups (length segs) segs').
  { unfold main.readSections in Hsec.
    eapply (readSections_from_valid (length segs)); [| | exact Hsec].
    - intros sym Hin. unfold main.resolveSymbols in Hsyms.
      destruct (debug_elf.Symbols f) as [esyms |]; [| discriminate].
      injection Hsyms as <-. apply list_elem_of_fmap in Hin as (esym & -> & _).
      cbn [main.sym_ref]. apply resolveAddr_obj_range. exact Hsegs.
    - intros j s Hj.
      destruct (Forall2_lookup_r _ _ _ _ _ Hl Hj) as (pr & _ & Hlo).
      destruct Hlo as (_ & _ & _ & ->). constructor. }
  apply Forall_fmap. apply Forall_lookup. intros j s Hj. exact (Hv j s Hj).
Qed.

Lemma readExecutable_fixups_valid_witness :
  Z.of_nat (length (debug_elf.Progs file_S2)) < 2 ^ 31 /\
  main.readExecutable file_S2 = Ok main_program_S2 /\
  Forall (fun o => Forall (valid_fixup (length (main.objects main_program_S2)))
                          (main.o_fixups o))
         (main.objects main_program_S2).
Proof.
  assert (H1 : Z.of_nat (length (debug_elf.Progs file_S2)) < 2 ^ 31)
    by (vm_compute; reflexivity).
  assert (H2 : main.readExecutable file_S2 = Ok main_program_S2)
    by (vm_compute; reflexivity).
  split; [exact H1 |]. split; [exact H2 |].
  apply (readExecutable_fixups_valid file_S2 main_program_S2 H1 H2).
Defined.

(** ** Every fixup is written once *)

Lemma concat_bucket_nil npage n :
  forall a, concat (map (bucket npage []) (seq a n)) = [].
Proof. induction n as [| n IH]; intros a; cbn [seq map concat]; [reflexivity | apply IH]. Qed.

Lemma concat_insert_one (B : nat -> list module.Fixup) (f : module.Fixup) (k : nat) :
  forall n a,
    concat (map (fun p => if (k =? p)%nat then f :: B p else B p) (seq a n))
    ≡ₚ (if bool_decide (a <= k < a + n)%nat then [f] else []) ++ concat (map B (seq a n)).
Proof.
  induction n as [| n IH]; intros a.
  - cbn [seq map concat]. rewrite bool_decide_eq_false_2 by lia. reflexivity.
  - cbn [seq map concat]. rewrite (IH (S a)).
    destruct (Nat.eqb_spec k a) as [-> | Hne].
    + rewrite (bool_decide_eq_true_2 (a <= a < a + S n)%nat) by lia.
      rewrite (bool_decide_eq_false_2 (S a <= a < S a + n)%nat) by lia. reflexivity.
    + destruct (bool_decide (S a <= k < S a + n)%nat) eqn:Hd.
      * apply bool_decide_eq_true_1 in Hd.
        rewrite (bool_decide_eq_true_2 (a <= k < a + S n)%nat) by lia.
        cbn [app]. rewrite Permutation_middle. reflexivity.
      * apply bool_decide_eq_false_1 in Hd.
        rewrite (bool_decide_eq_false_2 (a <= k < a + S n)%nat) by lia. reflexivity.
Qed.

Lemma buckets_permutation npage fs :
  Forall (fun f => hits npage f = true) fs ->
  concat (map (bucket npage fs) (seq 0 (Z.to_nat npage))) ≡ₚ fs.
Proof.
  induction 1 as [| f fs Hf Hfs IH].
  - rewrite concat_bucket_nil. reflexivity.
  - pose proof (hits_range _ _ Hf) as Hr.
    assert (Heq : map (bucket npage (f :: fs)) (seq 0 (Z.to_nat npage))
                  = map (fun p => if (Z.to_nat (page_of f) =? p)%nat
                                  then f :: bucket npage fs p else bucket npage fs p)
                        (seq 0 (Z.to_nat npage))).
    { apply map_ext. intros p. rewrite bucket_cons, Hf. reflexivity. }
    rewrite Heq, concat_insert_one.
    rewrite bool_decide_eq_true_2 by lia. cbn [app]. rewrite IH. reflexivity.
Qed.

(** [X23] Every fixup is written once, in the page of its first byte. For an
    object with a size and fixups at offsets from 0 to 2^31 - 4,
    [fixupdata.write] appends to the record table, page after page, the
    records of the fixups of the page, each with its source offset relative
    to the page; the fixups of the pages are, together, each fixup of the
    object once; and a fixup is among those of the page [Src / 4096], and
    of no other page, also when its last bytes are in the next page. *)
Theorem every_fixup_in_one_page
    (d : module.fixupdata) (size : Z) (fs : list module.Fixup) :
  Z.of_nat (length fs) < 2 ^ 32 ->
  size <> 0 ->
  fs <> [] ->
  Forall (fun f => 0 <= module.Src f /\ module.Src f + 3 < 2 ^ 31) fs ->
  exists idxs d',
    module.fixupdata_write d size fs = Some (idxs, d') /\
    module.records d'
    = module.records d
      ++ concat (map (fun q => records_of q (bucket (npage_of size fs) fs q))
                     (seq 0 (length idxs))) /\
    concat (map (bucket (npage_of size fs) fs) (seq 0 (length idxs))) ≡ₚ fs /\
    forall f q, f ∈ bucket (npage_of size fs) fs q -> Z.of_nat q = module.Src f / 4096.
Proof.
  intros Hfs Hsize Hne Hall.
  assert (Hmax : 0 <= module.maxOff_of fs).
  { destruct fs as [| f fs']; [contradiction |].
    pose proof (maxOff_of_ge (f :: fs') f (list_elem_of_here _ _)) as Hge.
    apply Forall_cons in Hall as [[H0 H3] _]. rewrite i32_small in Hge by lia. lia. }
  pose proof (fixupdata_write_spec d size fs Hfs Hsize Hmax) as Hspec.
  cbv zeta in Hspec.
  eexists _, _. split; [exact Hspec |].
  rewrite length_map, length_seq. cbn [module.records].
  split; [reflexivity |]. split.
  - apply buckets_permutation. apply Forall_forall. intros f Hin.
    rewrite Forall_forall in Hall. destruct (Hall f Hin) as [H0 H3].
    destruct (bucket_of_fixup size fs f Hin Hsize H0 H3) as [Hb _].
    unfold bucket in Hb. apply list_elem_of_In, filter_In in Hb as [_ Hb].
    apply andb_true_iff in Hb as [Hb _]. exact Hb.
  - intros f p Hin. unfold bucket in Hin.
    apply list_elem_of_In, filter_In in Hin as [Hin Hb].
    apply andb_true_iff in Hb as [Hhit Hp]. apply Nat.eqb_eq in Hp.
    apply hits_range in Hhit.
    rewrite Forall_forall in Hall. destruct (Hall f (proj2 (list_elem_of_In _ _) Hin)) as [H0 H3].
    unfold page_of, module.pageBits in *. rewrite Z.add_0_r in *.
    rewrite i32_small in * by lia. rewrite Z.shiftr_div_pow2 in * by lia.
    change (2 ^ 12) with 4096 in *. lia.
Qed.

Lemma every_fixup_in_one_page_witness :
  Z.of_nat (length fixups_three) < 2 ^ 32 /\
  8192 <> 0 /\
  fixups_three <> [] /\
  Forall (fun f => 0 <= module.Src f /\ module.Src f + 3 < 2 ^ 31) fixups_three /\
  exists idxs d',
    module.fixupdata_write fixupdata0 8192 fixups_three = Some (idxs, d') /\
    module.records d'
    = module.records fixupdata0
      ++ concat (map (fun q => records_of q (bucket (npage_of 8192 fixups_three)
                                               fixups_three q))
                     (seq 0 (length idxs))) /\
    concat (map (bucket (npage_of 8192 fixups_three) fixups_three) (seq 0 (length idxs)))
    ≡ₚ fixups_three /\
    forall f q, f ∈ bucket (npage_of 8192 fixups_three) fixups_three q ->
                Z.of_nat q = module.Src f / 4096.
Proof.
  assert (H0 : Z.of_nat (length fixups_three) < 2 ^ 32) by (vm_compute; reflexivity).
  assert (H1 : 8192 <> 0) by discriminate.
  assert (Hn : fixups_three <> []) by discriminate.
  assert (H2 : Forall (fun f => 0 <= module.Src f /\ module.Src f + 3 < 2 ^ 31) fixups_three).
  { unfold fixups_three, mkFixup.
    constructor; [| constructor; [| constructor; [| constructor]]]; cbn; lia. }
  split; [exact H0 |]. split; [exact H1 |]. split; [exact Hn |]. split; [exact H2 |].
  apply (every_fixup_in_one_page fixupdata0 8192 fixups_three H0 H1 Hn H2).
Defined.

(** ** A program header that is left out before a segment *)

Lemma elf_readLoadSegment_index i p seg :
  elf.readLoadSegment i p = Ok seg -> elf.seg_index seg = i.
Proof.
  unfold elf.readLoadSegment.
  destruct (negb (Z.land (debug_elf.p_Flags p) debug_elf.PF_R =? 0)); [| discriminate].
  cbv zeta.
  destruct (negb (Z.ldiff (debug_elf.p_Flags p)
                    (Z.lor (Z.lor debug_elf.PF_X debug_elf.PF_W) debug_elf.PF_R) =? 0));
    [discriminate |].
  destruct (0 <? debug_elf.p_Filesz p).
  - destruct (debug_elf.p_ReadAt p); cbn [bind]; [| discriminate].
    intros H. injection H as <-. reflexivity.
  - cbn [bind]. intros H. injection H as <-. reflexivity.
Qed.

Lemma elf_assignSegments_from_loads progs :
  forall i acc segs,
    Forall (fun p => debug_elf.p_Type p = debug_elf.PT_LOAD) progs ->
    elf.assignSegments_from progs i acc = Ok segs ->
    exists new, segs = acc ++ new /\
      forall j s, new !! j = Some s -> elf.seg_index s = i + Z.of_nat j.
Proof.
  induction progs as [| p progs IH]; intros i acc segs Hall H;
    cbn [elf.assignSegments_from] in H.
  - injection H as <-. exists []. rewrite app_nil_r. split; [reflexivity |].
    intros j s Hj. rewrite lookup_nil in Hj. discriminate.
  - apply Forall_cons in Hall as [Hp Hall]. rewrite Hp in H.
    change ((debug_elf.PT_LOAD =? debug_elf.PT_NULL)
            || (debug_elf.PT_LOAD =? debug_elf.PT_NOTE)
            || (debug_elf.PT_LOAD =? elf.ptGNUEHFrame)) with false in H.
    rewrite Z.eqb_refl in H.
    destruct (elf.readLoadSegment i p) as [seg | e |] eqn:Hseg; try discriminate.
    destruct (IH _ _ _ Hall H) as (new & -> & Hidx).
    exists (seg :: new). rewrite <- app_assoc. split; [reflexivity |].
    intros [| j] s Hj; cbn in Hj.
    + injection Hj as <-. rewrite (elf_readLoadSegment_index _ _ _ Hseg). lia.
    + rewrite (Hidx j s Hj). lia.
Qed.

(** [X24] A program header that is left out before the segments shifts the
    symbols by one object. When the first program header of the file has the
    type [PT_NULL], [PT_NOTE] or 0x6474e551 and all the others are
    [PT_LOAD], a symbol whose section is in the segment at the position [k]
    is resolved to the object [k + 2], at the offset of its value from the
    start of the next segment; for a symbol of the last segment,
    [resolveSymbols] indexes the segments out of range and panics. *)
Theorem skipped_header_shifts_symbols
    (f : debug_elf.File) (p0 : debug_elf.Prog) (rest : list debug_elf.Prog)
    (segs : list elf.segment) (sym : debug_elf.Symbol) (sec : debug_elf.Section)
    (k : nat) (seg : elf.segment) :
  debug_elf.Progs f = p0 :: rest ->
  debug_elf.p_Type p0 = debug_elf.PT_NULL \/ debug_elf.p_Type p0 = debug_elf.PT_NOTE \/
    debug_elf.p_Type p0 = elf.ptGNUEHFrame ->
  Forall (fun p => debug_elf.p_Type p = debug_elf.PT_LOAD) rest ->
  elf.assignSegments f = Ok segs ->
  Z.of_nat (length segs) < 2 ^ 31 - 1 ->
  0 <= debug_elf.Section_ sym ->
  debug_elf.Sections f !! Z.to_nat (debug_elf.Section_ sym) = Some sec ->
  segs !! k = Some seg ->
  elf_section_in seg (u32 (debug_elf.s_Addr sec)) ->
  (forall j s, (j < k)%nat -> segs !! j = Some s ->
               ~ elf_section_in s (u32 (debug_elf.s_Addr sec))) ->
  elf.resolveSymbol (elf.secObjects_of f segs) segs sym =
    match segs !! (k + 1)%nat with
    | Some next =>
        Ok {| elf.sym_addr := u32 (debug_elf.Value sym);
              elf.sym_ref :=
                {| module.Obj := Z.of_nat k + 2;
                   module.Off := i32 (u32 (u32 (debug_elf.Value sym)
                                           - elf.addr (elf.seg_range next))) |};
              elf.sym_name := debug_elf.Name sym |}
    | None => Panic
    end.
Proof.
  intros Hprogs Hp0 Hrest Hassign Hlen Hsec0 Hsec Hk Hin Hfirst.
  assert (Hidx : elf.seg_index seg = Z.of_nat k + 1).
  { unfold elf.assignSegments in Hassign. rewrite Hprogs in Hassign.
    cbn [elf.assignSegments_from] in Hassign.
    replace ((debug_elf.p_Type p0 =? debug_elf.PT_NULL)
             || (debug_elf.p_Type p0 =? debug_elf.PT_NOTE)
             || (debug_elf.p_Type p0 =? elf.ptGNUEHFrame)) with true in Hassign.
    - destruct (elf_assignSegments_from_loads _ _ _ _ Hrest Hassign) as (new & -> & Hi).
      cbn [app] in Hk. rewrite (Hi k seg Hk). lia.
    - symmetry. destruct Hp0 as [-> | [-> | ->]]; reflexivity. }
  unfold elf.resolveSymbol.
  destruct (secObjects_of_at f segs _ sec Hsec0 Hsec) as [-> ->].
  rewrite (section_object_first segs _ k seg Hk Hin Hfirst), Hidx.
  cbn [must bind]. unfold at_. rewrite bool_decide_eq_true_2 by lia.
  replace (Z.to_nat (Z.of_nat k + 1)) with (k + 1)%nat by lia.
  destruct (segs !! (k + 1)%nat) as [next |] eqn:Hnext; cbn [must bind]; [| reflexivity].
  apply lookup_lt_Some in Hnext. rewrite i32_small by lia.
  do 3 f_equal. lia.
Qed.

Lemma skipped_header_shifts_symbols_witness :
  debug_elf.Progs file_note_first = prog_note :: debug_elf.Progs file_rels /\
  (debug_elf.p_Type prog_note = debug_elf.PT_NULL \/
   debug_elf.p_Type prog_note = debug_elf.PT_NOTE \/
   debug_elf.p_Type prog_note = elf.ptGNUEHFrame) /\
  Forall (fun p => debug_elf.p_Type p = debug_elf.PT_LOAD) (debug_elf.Progs file_rels) /\
  elf.assignSegments file_note_first = Ok elf_segs_note_first /\
  Z.of_nat (length elf_segs_note_first) < 2 ^ 31 - 1 /\
  0 <= debug_elf.Section_ sym_func /\
  debug_elf.Sections file_note_first !! Z.to_nat (debug_elf.Section_ sym_func)
    = Some section_text /\
  elf_segs_note_first !! 0%nat = Some elf_seg_note_text /\
  elf_section_in elf_seg_note_text (u32 (debug_elf.s_Addr section_text)) /\
  (forall j s, (j < 0)%nat -> elf_segs_note_first !! j = Some s ->
               ~ elf_section_in s (u32 (debug_elf.s_Addr section_text))) /\
  elf.resolveSymbol (elf.secObjects_of file_note_first elf_segs_note_first)
                    elf_segs_note_first sym_func =
    match elf_segs_note_first !! (0 + 1)%nat with
    | Some next =>
        Ok {| elf.sym_addr := u32 (debug_elf.Value sym_func);
              elf.sym_ref :=
                {| module.Obj := Z.of_nat 0 + 2;
                   module.Off := i32 (u32 (u32 (debug_elf.Value sym_func)
                                           - elf.addr (elf.seg_range next))) |};
              elf.sym_name := debug_elf.Name sym_func |}
    | None => Panic
    end.
Proof.
  assert (H1 : debug_elf.Progs file_note_first = prog_note :: debug_elf.Progs file_rels)
    by reflexivity.
  assert (H2 : debug_elf.p_Type prog_note = debug_elf.PT_NULL \/
               debug_elf.p_Type prog_note = debug_elf.PT_NOTE \/
               debug_elf.p_Type prog_note = elf.ptGNUEHFrame)
    by (right; left; reflexivity).
  assert (H3 : Forall (fun p => debug_elf.p_Type p = debug_elf.PT_LOAD)
                      (debug_elf.Progs file_rels)).
  { constructor; [reflexivity |]. constructor; [reflexivity | constructor]. }
  assert (H4 : elf.assignSegments file_note_first = Ok elf_segs_note_first)
    by (vm_compute; reflexivity).
  assert (H5 : Z.of_nat (length elf_segs_note_first) < 2 ^ 31 - 1)
    by (vm_compute; reflexivity).
  assert (H6 : 0 <= debug_elf.Section_ sym_func) by (vm_compute; discriminate).
  assert (H7 : debug_elf.Sections file_note_first !! Z.to_nat (debug_elf.Section_ sym_func)
               = Some section_text) by reflexivity.
  assert (H8 : elf_segs_note_first !! 0%nat = Some elf_seg_note_text) by reflexivity.
  assert (H9 : elf_section_in elf_seg_note_text (u32 (debug_elf.s_Addr section_text))).
  { unfold elf_section_in. vm_compute. split; [discriminate | reflexivity]. }
  assert (H10 : forall j s, (j < 0)%nat -> elf_segs_note_first !! j = Some s ->
                  ~ elf_section_in s (u32 (debug_elf.s_Addr section_text)))
    by (intros j s Hj; lia).
  split; [exact H1 |]. split; [exact H2 |]. split; [exact H3 |]. split; [exact H4 |].
  split; [exact H5 |]. split; [exact H6 |]. split; [exact H7 |]. split; [exact H8 |].
  split; [exact H9 |]. split; [exact H10 |].
  apply (skipped_header_shifts_symbols file_note_first prog_note
           (debug_elf.Progs file_rels) elf_segs_note_first sym_func section_text 0
           elf_seg_note_text H1 H2 H3 H4 H5 H6 H7 H8 H9 H10).
Defined.

(** ** Where [addRelocation] panics *)

Lemma read_site_Some (data : list Z) k :
  0 <= k -> k + 4 <= Z.of_nat (length data) ->
  exists val, (b ← slice_from data k; Uint32 b) = Some val.
Proof.
  intros Hk Hlen. unfold slice_from. rewrite bool_decide_eq_true_2 by lia.
  cbn [mbind option_bind].
  assert (Hl : (4 <= length (drop (Z.to_nat k) data))%nat) by (rewrite length_drop; lia).
  destruct (drop (Z.to_nat k) data) as [| a [| b [| c [| e l]]]]; cbn [length] in Hl; try lia.
  eexists. reflexivity.
Qed.

Lemma read_site_None (data : list Z) k :
  ~ (0 <= k /\ k + 4 <= Z.of_nat (length data)) ->
  (b ← slice_from data k; Uint32 b) = None.
Proof.
  intros Hn. destruct (b ← slice_from data k; Uint32 b) as [val |] eqn:H; [| reflexivity].
  apply read_site_bounds in H. contradiction.
Qed.

(** [X25] [addRelocation] panics exactly when the site is not within the
    bytes of the object. For a relocation whose site is in a segment and
    whose symbol is resolved, reading [obj.data[srcOff:]] is out of range
    when the four bytes at the offset of the site are not all in the data
    that the file gives for the segment, as for a site in the end of a
    segment that the file does not fill; otherwise there is no panic. *)
Theorem addRelocation_panics_outside_data
    (rel : debug_elf.Rel32) (segs : list main.segment) (syms : list main.symbol)
    (i : nat) (seg : main.segment) (sym : main.symbol) :
  main.find_containing segs 0 (site rel) = Some (i, seg) ->
  Z.of_nat i + 1 < 2 ^ 31 ->
  Z.of_nat (length syms) < 2 ^ 32 ->
  at_ syms (Z.shiftr (debug_elf.r_Info rel) 8 - 1) = Some sym ->
  main.obj (main.sym_ref sym) <> 0 ->
  (main.addRelocation rel segs syms = Panic <->
   ~ (0 <= main_srcOff rel seg /\
      main_srcOff rel seg + 4 <= Z.of_nat (length (main.o_data (main.seg_object seg))))).
Proof.
  intros Hfind Hi Hlen Hsym Hobj.
  unfold main.addRelocation. fold (site rel). rewrite Hfind.
  rewrite (i32_small (Z.of_nat i + 1)) by lia.
  destruct (Z.eqb_spec (Z.of_nat i + 1) 0) as [Hz | _]; [lia |].
  assert (Hb : (Z.shiftr (debug_elf.r_Info rel) 8 =? 0)
               || (u32 (Z.of_nat (length syms)) <? Z.shiftr (debug_elf.r_Info rel) 8)
               = false).
  { unfold at_ in Hsym.
    destruct (bool_decide (0 <= Z.shiftr (debug_elf.r_Info rel) 8 - 1)) eqn:Hd;
      [| discriminate].
    apply bool_decide_eq_true_1 in Hd. apply lookup_lt_Some in Hsym.
    apply orb_false_iff. split; [apply Z.eqb_neq; lia |].
    apply Z.ltb_ge. rewrite u32_small by lia. lia. }
  rewrite Hb, Hsym. cbn [must bind].
  destruct (Z.eqb_spec (main.obj (main.sym_ref sym)) 0) as [? | _]; [contradiction |].
  fold (main_srcOff rel seg).
  destruct (Z_le_dec 0 (main_srcOff rel seg)) as [H0 | H0];
    [destruct (Z_le_dec (main_srcOff rel seg + 4)
                 (Z.of_nat (length (main.o_data (main.seg_object seg))))) as [H4 | H4] |].
  - destruct (read_site_Some _ _ H0 H4) as [val ->]. cbn [must bind].
    split; [| intros Hn; exfalso; apply Hn; split; assumption].
    destruct (Z.land (debug_elf.r_Info rel) 255 =? debug_elf.R_386_32);
      [cbn [bind]; discriminate |].
    destruct (Z.land (debug_elf.r_Info rel) 255 =? debug_elf.R_386_PC32);
      [| cbn [bind]; discriminate].
    destruct (main.obj (main.sym_ref sym) =? Z.of_nat i + 1); cbn [bind]; discriminate.
  - rewrite read_site_None by lia. cbn [must bind]. split; [intros _; lia | reflexivity].
  - rewrite read_site_None by lia. cbn [must bind]. split; [intros _; lia | reflexivity].
Qed.

Lemma addRelocation_panics_outside_data_witness :
  main.find_containing [main_seg_bss] 0 (site rel_in_bss) = Some (0%nat, main_seg_bss) /\
  Z.of_nat 0 + 1 < 2 ^ 31 /\
  Z.of_nat (length [main_sym_func]) < 2 ^ 32 /\
  at_ [main_sym_func] (Z.shiftr (debug_elf.r_Info rel_in_bss) 8 - 1) = Some main_sym_func /\
  main.obj (main.sym_ref main_sym_func) <> 0 /\
  (main.addRelocation rel_in_bss [main_seg_bss] [main_sym_func] = Panic <->
   ~ (0 <= main_srcOff rel_in_bss main_seg_bss /\
      main_srcOff rel_in_bss main_seg_bss + 4
        <= Z.of_nat (length (main.o_data (main.seg_object main_seg_bss))))).
Proof.
  assert (H1 : main.find_containing [main_seg_bss] 0 (site rel_in_bss)
               = Some (0%nat, main_seg_bss)) by (vm_compute; reflexivity).
  assert (H2 : Z.of_nat 0 + 1 < 2 ^ 31) by (vm_compute; reflexivity).
  assert (H3 : Z.of_nat (length [main_sym_func]) < 2 ^ 32) by (vm_compute; reflexivity).
  assert (H4 : at_ [main_sym_func] (Z.shiftr (debug_elf.r_Info rel_in_bss) 8 - 1)
               = Some main_sym_func) by (vm_compute; reflexivity).
  assert (H5 : main.obj (main.sym_ref main_sym_func) <> 0) by (vm_compute; discriminate).
  split; [exact H1 |]. split; [exact H2 |]. split; [exact H3 |]. split; [exact H4 |].
  split; [exact H5 |].
  apply (addRelocation_panics_outside_data rel_in_bss [main_seg_bss] [main_sym_func]
           0 main_seg_bss main_sym_func H1 H2 H3 H4 H5).
Defined.

(** [X26] [addRelocation] does not panic on segments whose data have the
    length of the segment: when every segment has less than 2^31 bytes and a
    range that does not wrap around, the data of every segment are as long
    as the segment, and the relocation has an offset
    below 2^32 - 4 and an [Info] that is not negative, the result is the
    segments or an error. *)
Theorem addRelocation_no_panic
    (rel : debug_elf.Rel32) (segs : list main.segment) (syms : list main.symbol) :
  Forall full_segment segs ->
  0 <= debug_elf.r_Off rel < 2 ^ 32 - 4 ->
  0 <= debug_elf.r_Info rel ->
  main.addRelocation rel segs syms <> Panic.
Proof.
  intros Hfull Hoff Hinfo. unfold main.addRelocation. fold (site rel).
  destruct (main.find_containing segs 0 (site rel)) as [[i seg] |] eqn:Hfind;
    [| discriminate].
  destruct (find_containing_Some _ _ _ _ _ Hfind) as (_ & Hi & Hc & _).
  rewrite Nat.sub_0_r in Hi.
  rewrite Forall_forall in Hfull.
  destruct (Hfull seg (list_elem_of_lookup_2 _ _ _ Hi)) as (Ha & Hs & Hw & Hd).
  destruct (i32 (Z.of_nat i + 1) =? 0); [discriminate |].
  destruct (Z.eqb_spec (Z.shiftr (debug_elf.r_Info rel) 8) 0) as [Hz | Hnz];
    [discriminate |].
  destruct (Z.ltb_spec (u32 (Z.of_nat (length syms))) (Z.shiftr (debug_elf.r_Info rel) 8))
    as [Hlt | Hge]; cbn [orb]; [discriminate |].
  assert (Hr : 0 <= Z.shiftr (debug_elf.r_Info rel) 8) by (apply Z.shiftr_nonneg; lia).
  pose proof (u32_le (Z.of_nat (length syms)) ltac:(lia)) as Hu.
  destruct (lookup_lt_is_Some_2 syms (Z.to_nat (Z.shiftr (debug_elf.r_Info rel) 8 - 1))
              ltac:(lia)) as [sym Hsym].
  unfold at_ at 1. rewrite bool_decide_eq_true_2 by lia. rewrite Hsym. cbn [must bind].
  destruct (main.obj (main.sym_ref sym) =? 0); [discriminate |].
  unfold main.contains, site in Hc. cbn [main.addr main.size] in Hc.
  apply andb_true_iff in Hc as [Hlo Hhi]. apply Z.leb_le in Hlo, Hhi.
  rewrite (u32_small (debug_elf.r_Off rel + 4)) in Hhi by lia.
  rewrite (u32_small (main.addr (main.seg_range seg) + main.size (main.seg_range seg)))
    in Hhi by lia.
  assert (Hsrc : i32 (u32 (debug_elf.r_Off rel - main.addr (main.seg_range seg)))
                 = debug_elf.r_Off rel - main.addr (main.seg_range seg)).
  { rewrite u32_small by lia. apply i32_small. lia. }
  rewrite Hsrc.
  destruct (read_site_Some (main.o_data (main.seg_object seg))
              (debug_elf.r_Off rel - main.addr (main.seg_range seg)) ltac:(lia) ltac:(lia))
    as [val ->].
  cbn [must bind].
  destruct (Z.land (debug_elf.r_Info rel) 255 =? debug_elf.R_386_32);
    [cbn [bind]; discriminate |].
  destruct (Z.land (debug_elf.r_Info rel) 255 =? debug_elf.R_386_PC32);
    [| cbn [bind]; discriminate].
  destruct (main.obj (main.sym_ref sym) =? i32 (Z.of_nat i + 1)); cbn [bind]; discriminate.
Qed.

Lemma addRelocation_no_panic_witness :
  Forall full_segment main_segs_S2 /\
  0 <= debug_elf.r_Off rel_S2 < 2 ^ 32 - 4 /\
  0 <= debug_elf.r_Info rel_S2 /\
  main.addRelocation rel_S2 main_segs_S2 main_syms_S2 <> Panic.
Proof.
  assert (H1 : Forall full_segment main_segs_S2).
  { let v := eval vm_compute in main_segs_S2 in change main_segs_S2 with v.
    constructor; [| constructor; [| constructor]];
      unfold full_segment; vm_compute; repeat split; discriminate. }
  assert (H2 : 0 <= debug_elf.r_Off rel_S2 < 2 ^ 32 - 4)
    by (vm_compute; split; [discriminate | reflexivity]).
  assert (H3 : 0 <= debug_elf.r_Info rel_S2) by (vm_compute; discriminate).
  split; [exact H1 |]. split; [exact H2 |]. split; [exact H3 |].
  apply (addRelocation_no_panic rel_S2 main_segs_S2 main_syms_S2 H1 H2 H3).
Defined.
